(** * EduScribe Apps Script: recordings-to-homework pipeline

    A shallow embedding of the Apps Script sources
    ([src/unnamed/part_000], the complete V8 script, and [src/Code.js],
    the V9 script) together with the properties of the job lifecycle and
    of the homework consolidation that the specification states.

    Conventions of the embedding.
    - A JavaScript string is a list of code units, [list ascii]; the model
      covers the code units 0..255 (Latin-1).  [toLowerCase], [trim] and
      the regular-expression classes [\s], [\d] and [.] are given on that
      range as ECMAScript defines them.
    - A regular-expression literal is transcribed as a term of [Regex.re]
      and run by a backtracking matcher with the priorities of ECMAScript
      (greedy and lazy quantifiers, optional groups, captures).
    - A function that can [throw] returns [Return v] or [Throw msg].
    - Calls that leave the script (Drive, Sheets, UrlFetchApp, MailApp,
      the clock, the UUID source) read their outcome from an explicit
      environment and record their effect in an explicit world state.
    - Of the [Logger.log] lines the world keeps those of the warning and
      error paths of the homework functions. *)

From Stdlib Require Import String Ascii List Bool Arith Lia.
Import ListNotations.

Set Implicit Arguments.

(* ================================================================== *)
(** * JavaScript strings                                                *)
(* ================================================================== *)

Module JS.

Definition str := list ascii.

(** [lit "abc"] is the string literal ["abc"]. *)
Definition lit (s : string) : str := list_ascii_of_string s.

Definition code (c : ascii) : nat := nat_of_ascii c.

Definition in_range (lo hi : nat) (c : ascii) : bool :=
  (lo <=? code c) && (code c <=? hi).

Definition is_code (n : nat) (c : ascii) : bool := code c =? n.

(** White space of [String.prototype.trim] and of the class [\s]:
    TAB, LF, VT, FF, CR, SPACE and NBSP. *)
Definition is_space (c : ascii) : bool :=
  in_range 9 13 c || is_code 32 c || is_code 160 c.

(** Line terminators, which [.] does not match: LF and CR. *)
Definition is_line_terminator (c : ascii) : bool :=
  is_code 10 c || is_code 13 c.

Definition is_digit (c : ascii) : bool := in_range 48 57 c.
Definition is_upper (c : ascii) : bool := in_range 65 90 c.
Definition is_lower (c : ascii) : bool := in_range 97 122 c.

(** Upper-case letters of Latin-1 beyond ASCII: U+00C0..U+00DE but the
    multiplication sign U+00D7. *)
Definition is_upper_latin1 (c : ascii) : bool :=
  in_range 192 222 c && negb (is_code 215 c).

Definition lower_char (c : ascii) : ascii :=
  if is_upper c || is_upper_latin1 c then ascii_of_nat (code c + 32) else c.

Definition upper_ascii (c : ascii) : ascii :=
  if is_lower c then ascii_of_nat (code c - 32) else c.

Definition toLowerCase (s : str) : str := map lower_char s.

Fixpoint trimStart (s : str) : str :=
  match s with
  | c :: s' => if is_space c then trimStart s' else s
  | [] => []
  end.

Definition trimEnd (s : str) : str := rev (trimStart (rev s)).

Definition trim (s : str) : str := trimEnd (trimStart s).

Definition str_eqb (a b : str) : bool :=
  if list_eq_dec ascii_dec a b then true else false.

Fixpoint startsWith (p s : str) : bool :=
  match p, s with
  | [], _ => true
  | a :: p', b :: s' => Ascii.eqb a b && startsWith p' s'
  | _ :: _, [] => false
  end.

Definition endsWith (p s : str) : bool := startsWith (rev p) (rev s).

Fixpoint includes (p s : str) : bool :=
  startsWith p s ||
  match s with
  | [] => false
  | _ :: s' => includes p s'
  end.

(** [substring(0, n)] and [substring(n)]. *)
Definition substring_to (n : nat) (s : str) : str := firstn n s.
Definition substring_from (n : nat) (s : str) : str := skipn n s.

(** [Array.prototype.join]. *)
Fixpoint join (sep : str) (l : list str) : str :=
  match l with
  | [] => []
  | [x] => x
  | x :: l' => x ++ sep ++ join sep l'
  end.

(** Truthiness of a string: the empty string is falsy. *)
Definition truthy (s : str) : bool :=
  match s with [] => false | _ :: _ => true end.

(** Decimal rendering of a number inside a template literal. *)
Definition digit_char (n : nat) : ascii := ascii_of_nat (48 + n).

Fixpoint dec_digits (fuel n : nat) (acc : str) : str :=
  match fuel with
  | 0 => acc
  | S fuel' =>
      let acc' := digit_char (n mod 10) :: acc in
      if n / 10 =? 0 then acc' else dec_digits fuel' (n / 10) acc'
  end.

Definition of_nat (n : nat) : str := dec_digits (S n) n [].

(** A call that may throw. *)
Inductive completion (A : Type) : Type :=
| Return (v : A)
| Throw (msg : str).

Arguments Return {A} v.
Arguments Throw {A} msg.

End JS.

Import JS.

(** Literals stay folded during simplification. *)
Opaque lit.

(* ================================================================== *)
(** * Regular expressions                                               *)
(* ================================================================== *)

Module Regex.

(** The fragment of the ECMAScript pattern language that the scripts use.
    Quantifiers other than [?] are only ever applied to a character
    class. *)
Inductive re : Type :=
| Eps
| Cls (p : ascii -> bool)          (* one code unit of a class *)
| Seq (r1 r2 : re)
| Opt (r : re)                     (* r?  (greedy) *)
| Star (p : ascii -> bool)         (* [p]*  greedy *)
| StarLazy (p : ascii -> bool)     (* [p]*? lazy *)
| Grp (i : nat) (r : re)           (* capturing group number i *)
| Eol.                             (* $ without the m flag *)

(** Captures, most recent first. *)
Definition caps := list (nat * str).

Fixpoint cap (i : nat) (g : caps) : option str :=
  match g with
  | [] => None
  | (j, v) :: g' => if i =? j then Some v else cap i g'
  end.

(** Result of a match attempt: the input left after the match and the
    captures. *)
Definition mres := option (str * caps).

Definition orelse (a b : mres) : mres :=
  match a with Some _ => a | None => b end.

Section Loops.
Variable p : ascii -> bool.
Variable k : str -> mres.

(** Greedy [p*]: take as many as possible, give back one at a time. *)
Fixpoint star_greedy (s : str) : mres :=
  match s with
  | c :: s' => if p c then orelse (star_greedy s') (k s) else k s
  | [] => k s
  end.

(** Lazy [p*?]: try to go on first, take one more on failure. *)
Fixpoint star_lazy (s : str) : mres :=
  match k s with
  | Some x => Some x
  | None =>
      match s with
      | c :: s' => if p c then star_lazy s' else None
      | [] => None
      end
  end.
End Loops.

(** The matcher, in continuation-passing style: [m r k s g] matches [r] at
    the head of [s] and hands the rest to [k]; on failure of [k] it tries
    the next alternative in priority order. *)
Fixpoint m (r : re) (k : str -> caps -> mres) (s : str) (g : caps) : mres :=
  match r with
  | Eps => k s g
  | Cls p =>
      match s with
      | c :: s' => if p c then k s' g else None
      | [] => None
      end
  | Seq r1 r2 => m r1 (fun s' g' => m r2 k s' g') s g
  | Opt r1 => orelse (m r1 k s g) (k s g)
  | Star p => star_greedy p (fun s' => k s' g) s
  | StarLazy p => star_lazy p (fun s' => k s' g) s
  | Grp i r1 =>
      m r1 (fun s' g' => k s' ((i, firstn (length s - length s') s) :: g')) s g
  | Eol => match s with [] => k s g | _ :: _ => None end
  end.

Definition accept : str -> caps -> mres := fun s g => Some (s, g).

(** A match attempt at the head of [s]. *)
Definition match_here (r : re) (s : str) : mres := m r accept s [].

(** A pattern, with or without a leading [^]. *)
Record regex : Type := { anchored : bool; body : re }.

Definition Anchored (r : re) : regex := {| anchored := true; body := r |}.
Definition Floating (r : re) : regex := {| anchored := false; body := r |}.

(** Leftmost match of a floating pattern: what precedes the match, what
    follows it, the captures. *)
Fixpoint search_from (r : re) (s : str) : option (str * str * caps) :=
  match match_here r s with
  | Some (rest, g) => Some ([], rest, g)
  | None =>
      match s with
      | [] => None
      | c :: s' =>
          match search_from r s' with
          | Some (pre, rest, g) => Some (c :: pre, rest, g)
          | None => None
          end
      end
  end.

Definition exec (r : regex) (s : str) : option (str * str * caps) :=
  if anchored r then
    match match_here (body r) s with
    | Some (rest, g) => Some ([], rest, g)
    | None => None
    end
  else search_from (body r) s.

(** [s.match(r)] for a pattern without the g flag: the captures, or
    [None] for [null]. *)
Definition js_match (r : regex) (s : str) : option caps :=
  match exec r s with
  | Some (_, _, g) => Some g
  | None => None
  end.

(** [r.test(s)]. *)
Definition test (r : regex) (s : str) : bool :=
  match exec r s with Some _ => true | None => false end.

(** [s.replace(r, by)] for a pattern without the g flag. *)
Definition replace (r : regex) (by_ : str) (s : str) : str :=
  match exec r s with
  | Some (pre, rest, _) => pre ++ by_ ++ rest
  | None => s
  end.

(** [s.replace(r, by)] for a floating pattern with the g flag whose
    matches are never empty.  [fuel] bounds the number of steps; the
    length of the input is enough. *)
Fixpoint replace_all_fuel (fuel : nat) (r : re) (by_ : str) (s : str) : str :=
  match fuel with
  | 0 => s
  | S fuel' =>
      match s with
      | [] => []
      | c :: s' =>
          match match_here r s with
          | Some (rest, _) =>
              if length rest <? length s
              then by_ ++ replace_all_fuel fuel' r by_ rest
              else c :: replace_all_fuel fuel' r by_ s'
          | None => c :: replace_all_fuel fuel' r by_ s'
          end
      end
  end.

Definition replace_all (r : re) (by_ : str) (s : str) : str :=
  replace_all_fuel (length s) r by_ s.

(** Derived forms. *)
Definition Plus (p : ascii -> bool) : re := Seq (Cls p) (Star p).
Definition PlusLazy (p : ascii -> bool) : re := Seq (Cls p) (StarLazy p).

Fixpoint Rep (n : nat) (p : ascii -> bool) : re :=
  match n with
  | 0 => Eps
  | S n' => Seq (Cls p) (Rep n' p)
  end.

Fixpoint Str (s : str) : re :=
  match s with
  | [] => Eps
  | c :: s' => Seq (Cls (Ascii.eqb c)) (Str s')
  end.

(** A literal under the i flag (ASCII letters fold, nothing else does). *)
Fixpoint StrI (s : str) : re :=
  match s with
  | [] => Eps
  | c :: s' =>
      Seq (Cls (fun x => Ascii.eqb (upper_ascii x) (upper_ascii c))) (StrI s')
  end.

Fixpoint Seqs (l : list re) : re :=
  match l with
  | [] => Eps
  | [r] => r
  | r :: l' => Seq r (Seqs l')
  end.

(** Character classes. *)
Definition dot (c : ascii) : bool := negb (is_line_terminator c).
Definition one_of (s : str) (c : ascii) : bool := existsb (Ascii.eqb c) s.
Definition none_of (s : str) (c : ascii) : bool := negb (one_of s c).

(** [[A-Za-z0-9_-]]; the i flag adds nothing to it. *)
Definition id_char (c : ascii) : bool :=
  is_upper c || is_lower c || is_digit c || one_of (lit "_-") c.

(** [\d{4}-\d{2}-\d{2}] *)
Definition date_re : re :=
  Seqs [Rep 4 is_digit; Str (lit "-"); Rep 2 is_digit; Str (lit "-");
        Rep 2 is_digit].

End Regex.

Import Regex.

(* ================================================================== *)
(** * Filename parser: [extractStudentInfoFromFilename]                 *)
(* ================================================================== *)

Module Parser.

(** [/\.[^/.]+$/] *)
Definition extensionRegex : regex :=
  Floating (Seqs [Str (lit "."); Plus (none_of (lit "/.")); Eol]).

(** [/\//g] *)
Definition slashRegex : re := Cls (one_of (lit "/")).

(** [/^(.+?)[ _-]+(\d{4}-\d{2}-\d{2}).*$/] *)
Definition meetRegex : regex :=
  Anchored (Seqs [Grp 1 (PlusLazy dot); Plus (one_of (lit " _-"));
                  Grp 2 date_re; Star dot; Eol]).

(** [/^(.+?)_(\d{4}-\d{2}-\d{2})(?:_[A-Za-z0-9_-]{10})?$/] *)
Definition processedRegex : regex :=
  Anchored (Seqs [Grp 1 (PlusLazy dot); Str (lit "_"); Grp 2 date_re;
                  Opt (Seq (Str (lit "_")) (Rep 10 id_char)); Eol]).

(** [/[~^*'`+]/g] *)
Definition specialCharsRegex : re := Cls (one_of (lit "~^*'`+")).

(** [/_/g] *)
Definition underscoreRegex : re := Cls (one_of (lit "_")).

(** [/\s+/g] *)
Definition spacesRegex : re := Plus is_space.

(** [/[ -]+$/] *)
Definition trailingSepRegex : regex :=
  Floating (Seq (Plus (one_of (lit " -"))) Eol).

(** [/^\d{4}-\d{2}-\d{2}$/] *)
Definition dateOnlyRegex : regex := Anchored (Seq date_re Eol).

(** The chain of replacements applied to the name capture. *)
Definition cleanName (rawNamePart : str) : str :=
  let namePartWithoutSpecialChars :=
    trim (replace_all specialCharsRegex [] rawNamePart) in
  trim
    (replace trailingSepRegex []
       (replace_all spacesRegex (lit " ")
          (replace_all underscoreRegex (lit " ")
             namePartWithoutSpecialChars))).

(** [a || b] on two match results. *)
Definition or_match (a b : option caps) : option caps :=
  match a with Some _ => a | None => b end.

(** The function returns [{studentName, classDate}], both [null] on
    failure: [None] stands for the pair of nulls. *)
Definition extractStudentInfoFromFilename (fileName : str) : option (str * str) :=
  let cleanedFileName := trim (replace extensionRegex [] fileName) in
  let cleanedFileName := replace_all slashRegex (lit "-") cleanedFileName in
  match or_match (js_match meetRegex cleanedFileName)
                 (js_match processedRegex cleanedFileName) with
  | Some g =>
      match cap 1 g, cap 2 g with
      | Some rawNamePart, Some classDate =>
          if truthy rawNamePart && truthy classDate then
            let studentName := cleanName rawNamePart in
            if truthy studentName && test dateOnlyRegex classDate
            then Some (studentName, classDate)
            else None
          else None
      | _, _ => None
      end
  | None => None
  end.

(** The canonical name given to a recording in [processNewRecordings]:
    [`${standardizedStudentName}_${classDate}_${fileIdPrefix}.mp4`]. *)
Definition standardizedStudentName (studentName : str) : str :=
  replace_all spacesRegex (lit "_") studentName.

Definition newFileName (studentName classDate fileId : str) : str :=
  standardizedStudentName studentName ++ lit "_" ++ classDate ++ lit "_"
    ++ substring_to 10 fileId ++ lit ".mp4".

End Parser.

Import Parser.

(* ================================================================== *)
(** * JSON values as [JSON.parse] returns them                          *)
(* ================================================================== *)

Module Json.

Local Unset Elimination Schemes.

Inductive value : Type :=
| JNull
| JBool (b : bool)
| JNum (n : nat)
| JStr (s : str)
| JArr (items : list value)
| JObj (fields : list (str * value)).

Local Set Elimination Schemes.

(** Truthiness of a parsed value. *)
Definition truthy (v : value) : bool :=
  match v with
  | JNull => false
  | JBool b => b
  | JNum n => negb (n =? 0)
  | JStr s => JS.truthy s
  | JArr _ => true
  | JObj _ => true
  end.

Fixpoint assoc (key : str) (fields : list (str * value)) : option value :=
  match fields with
  | [] => None
  | (k, v) :: rest =>
      match assoc key rest with
      | Some v' => Some v'          (* a later duplicate key wins *)
      | None => if str_eqb k key then Some v else None
      end
  end.

(** [v.key]; [None] is [undefined].  Only objects carry the keys that the
    scripts read. *)
Definition get (key : str) (v : value) : option value :=
  match v with
  | JObj fields => assoc key fields
  | _ => None
  end.

End Json.

(** The two versions of the script: [V8] is [src/unnamed/part_000],
    [V9] is [src/Code.js]. *)
Inductive version : Type := V8 | V9.

(** Outcome of [UrlFetchApp.fetch] with [muteHttpExceptions]: the call
    throws, or yields a response code and a body. *)
Inductive fetch_result : Type :=
| FetchThrows (message : str)
| Response (statusCode : nat) (contentText : str).

(* ================================================================== *)
(** * Job submission adapter: [sendFileInfoToCloudRun]                  *)
(* ================================================================== *)

Module Submission.

Section WithJson.
(** [JSON.parse]; [None] when it throws a [SyntaxError]. *)
Variable JSON_parse : str -> option Json.value.

(** [src/unnamed/part_000]: returns the job identifier or [null]. *)
Definition sendFileInfoToCloudRun (currentCloudRunUrl : str)
    (fetch : fetch_result) : completion (option str) :=
  if negb (truthy currentCloudRunUrl) then
    Throw (lit "CLOUD_RUN_URL property missing")
  else
    match fetch with
    | FetchThrows _ => Return None
    | Response statusCode responseText =>
        if negb (statusCode =? 200) then Return None
        else
          match JSON_parse responseText with
          | Some result =>
              if Json.truthy result then
                match Json.get (lit "job_id") result with
                | Some (Json.JStr job_id) =>
                    if truthy job_id && negb (str_eqb (trim job_id) [])
                    then Return (Some (trim job_id))
                    else Return None
                | _ => Return None
                end
              else Return None
          | None => Return None
          end
    end.

(** [src/Code.js]: returns [true] once Cloud Run has confirmed receipt
    and throws otherwise.  The error thrown inside the [try] for an
    unexpected body is caught by the [catch] below it and replaced. *)
Definition sendFileInfoToCloudRun_v9 (currentCloudRunUrl : str)
    (fetch : fetch_result) : completion bool :=
  if negb (truthy currentCloudRunUrl) then
    Throw (lit "CLOUD_RUN_URL property missing")
  else
    match fetch with
    | FetchThrows message =>
        Throw (lit "Network-level error calling Cloud Run: " ++ message)
    | Response statusCode responseText =>
        if statusCode =? 200 then
          match JSON_parse responseText with
          | Some result =>
              if Json.truthy result &&
                 match Json.get (lit "message") result with
                 | Some (Json.JStr msg) =>
                     str_eqb msg (lit "File saved to /incoming")
                 | _ => false
                 end
              then Return true
              else Throw (lit "Failed to parse Cloud Run success response.")
          | None => Throw (lit "Failed to parse Cloud Run success response.")
          end
        else
          Throw (lit "Cloud Run returned non-200 status: " ++ of_nat statusCode)
    end.
End WithJson.

End Submission.

(* ================================================================== *)
(** * Discovery and dedup: [processNewRecordings]                       *)
(* ================================================================== *)

Module Discovery.

(** A file of the recordings folder. *)
Record RecFile : Type := { id : str; name : str; mimeType : str }.

(** A row of the "Jobs" sheet: File Name, Job ID, Status, Timestamp. *)
Record Row : Type := { fileName : str; jobId : str; status : str; timestamp : str }.

Definition headerRow : Row :=
  {| fileName := lit "File Name"; jobId := lit "Job ID";
     status := lit "Status"; timestamp := lit "Timestamp" |}.

(** What the scan meets outside the script, per file identifier. *)
Record Env : Type := {
  setName_error : str -> option str;      (* file.setName throws *)
  cloudRun : str -> fetch_result;         (* answer of the Cloud Run call *)
  appendedAt : str -> str;                (* new Date() of the placeholder row *)
  updatedAt : str -> str                  (* new Date() of the final update *)
}.

Record Config : Type := {
  FOLDER_ID : str;
  TRACKING_SHEET_ID : str;
  CLOUD_RUN_URL : str
}.

(** Drive folder, sheet (header first) and the two counters. *)
Record State : Type := {
  files : list RecFile;
  sheet : list Row;
  fileCount : nat;
  errorCount : nat
}.

(** [/^(.+?)_(\d{4}-\d{2}-\d{2})_[A-Za-z0-9_-]{10}\.mp4$/i] *)
Definition alreadyRenamedRegex : regex :=
  Anchored (Seqs [Grp 1 (PlusLazy dot); Str (lit "_"); Grp 2 date_re;
                  Str (lit "_"); Rep 10 id_char; StrI (lit ".mp4"); Eol]).

(** The header check that precedes the scan. *)
Definition ensure_header (v : version) (sh : list Row) : list Row :=
  match sh with
  | [] => [headerRow]
  | first :: rest =>
      match v with
      | V8 =>
          if negb (str_eqb (fileName first) (lit "File Name"))
          then headerRow :: rest
          else sh
      | V9 => sh
      end
  end.

(** [new Set(dataValues.slice(1).map(row => String(row[0] || "").trim()).filter(Boolean))] *)
Definition existingDataSet (sh : list Row) : list str :=
  filter truthy (map (fun row => trim (fileName row)) (tl sh)).

Definition set_has (set : list str) (x : str) : bool := existsb (str_eqb x) set.

(** Rows 2 to 4 of the last row are rewritten after the Cloud Run call;
    [V9] leaves the Job ID column alone. *)
Fixpoint update_last (f : Row -> Row) (sh : list Row) : list Row :=
  match sh with
  | [] => []
  | [r] => [f r]
  | r :: rest => r :: update_last f rest
  end.

Section WithJson.
Variable JSON_parse : str -> option Json.value.

(** Job identifier and final status after the Cloud Run call. *)
Definition submit (v : version) (cfg : Config) (env : Env) (file : RecFile)
    (newName : str) : str * str * nat :=
  match v with
  | V8 =>
      match Submission.sendFileInfoToCloudRun JSON_parse (CLOUD_RUN_URL cfg)
              (cloudRun env (id file)) with
      | Throw _ => ([], lit "cloudrun_error", 1)
      | Return (Some job) =>
          if truthy job then (job, lit "submitted", 0)
          else ([], lit "cloudrun_no_jobid", 0)
      | Return None => ([], lit "cloudrun_no_jobid", 0)
      end
  | V9 =>
      match Submission.sendFileInfoToCloudRun_v9 JSON_parse (CLOUD_RUN_URL cfg)
              (cloudRun env (id file)) with
      | Throw _ => ([], lit "cloudrun_error", 1)
      | Return true => ([], lit "processing_transcription", 0)
      | Return false => ([], lit "cloudrun_error", 0)
      end
  end.

(** The body of the [while] loop for one file.  [existing] is
    [existingDataSet], which the loop extends as it appends rows. *)
Definition process_file (v : version) (cfg : Config) (env : Env)
    (file : RecFile) (existing : list str) (sh : list Row) (fc ec : nat)
    : RecFile * list str * list Row * nat * nat :=
  let originalFileName := name file in
  let unchanged := (file, existing, sh, fc, ec) in
  if negb (truthy (mimeType file)) || negb (startsWith (lit "video/") (mimeType file))
  then unchanged
  else
    let isAlreadyTracked :=
      match v with
      | V8 =>
          if set_has existing (trim originalFileName) then true
          else
            match js_match alreadyRenamedRegex originalFileName with
            | Some _ => set_has existing (trim originalFileName)
            | None => false
            end
      | V9 => set_has existing (trim originalFileName)
      end in
    if isAlreadyTracked then unchanged
    else
      match Parser.extractStudentInfoFromFilename originalFileName with
      | None => unchanged
      | Some (studentName, classDate) =>
          let newFileName := Parser.newFileName studentName classDate (id file) in
          if set_has existing newFileName then unchanged
          else
            match setName_error env (id file) with
            | Some _ => (file, existing, sh, fc, S ec)
            | None =>
                let renamed :=
                  {| id := id file; name := newFileName;
                     mimeType := mimeType file |} in
                let placeholder :=
                  {| fileName := newFileName; jobId := [];
                     status := match v with
                               | V8 => lit "processing_cloudrun"
                               | V9 => lit "sending_to_cloudrun"
                               end;
                     timestamp := appendedAt env (id file) |} in
                let '(job, finalStatus, errs) :=
                  submit v cfg env renamed newFileName in
                let final (r : Row) :=
                  {| fileName := fileName r; jobId := job;
                     status := finalStatus;
                     timestamp := updatedAt env (id file) |} in
                (renamed, existing ++ [newFileName],
                 update_last final (sh ++ [placeholder]), S fc, ec + errs)
            end
      end.

(** The [while (files.hasNext())] loop. *)
Fixpoint scan (v : version) (cfg : Config) (env : Env) (todo : list RecFile)
    (existing : list str) (sh : list Row) (fc ec : nat)
    : list RecFile * list str * list Row * nat * nat :=
  match todo with
  | [] => ([], existing, sh, fc, ec)
  | file :: rest =>
      let '(file', existing', sh', fc', ec') :=
        process_file v cfg env file existing sh fc ec in
      let '(rest', existing'', sh'', fc'', ec'') :=
        scan v cfg env rest existing' sh' fc' ec' in
      (file' :: rest', existing'', sh'', fc'', ec'')
  end.

(** [processNewRecordings()]: the folder and the sheet after the run,
    with the counters of the closing log line. *)
Definition processNewRecordings (v : version) (cfg : Config) (env : Env)
    (folder : list RecFile) (sh : list Row) : State :=
  if negb (truthy (FOLDER_ID cfg)) || negb (truthy (TRACKING_SHEET_ID cfg))
     || negb (truthy (CLOUD_RUN_URL cfg))
  then {| files := folder; sheet := sh; fileCount := 0; errorCount := 0 |}
  else
    let sh0 := ensure_header v sh in
    let '(folder', _, sh', fc, ec) :=
      scan v cfg env folder (existingDataSet sh0) sh0 0 0 in
    {| files := folder'; sheet := sh'; fileCount := fc; errorCount := ec |}.
End WithJson.

End Discovery.

(* ================================================================== *)
(** * Job status poller: [monitorTranscriptionJobs]                     *)
(* ================================================================== *)

Module Monitor.

(** A data row of the "Jobs" sheet as the poller reads it (columns
    File Name, Job ID, Status, each through [String(cell || "")]). *)
Record JobRow : Type := { fileName : str; jobId : str; status : str }.

(** The calls that leave the script, in the order they are issued. *)
Inductive call : Type :=
| SetStatus (value : str)                 (* statusCell.setValue(value); flush() *)
| GetJobStatus (job : str)                (* GET /v2/jobs/<job> in getJobStatus *)
| GetJobDetails (job : str)               (* GET /v2/jobs/<job> in handleCompletedJob *)
| GetTranscript (job : str)               (* GET /v2/jobs/<job>/transcript *)
| PutObject (name content : str)          (* upload to the bucket *)
| HeadObject (name : str)                 (* source check of moveFileInGCS *)
| CopyObject (source destination : str)
| DeleteObject (name : str).

(** What the transcription provider answers to the status request. *)
Inductive status_reply : Type :=
| StatusThrows                            (* fetch throws *)
| StatusBadJson                           (* 200, JSON.parse throws *)
| StatusBody (job_status : option str)    (* 200, job.status when truthy *)
| StatusCode (code : nat).                (* a response code other than 200 *)

(** What the job-details request of [handleCompletedJob] yields:
    [job.tracking.title] when the response is 200 and carries one. *)
Definition details_reply : Type := option str.

(** The remote parties during one pass.  A row is visited once per pass,
    so a reply per row index describes any behaviour of the remote side. *)
Record Remote : Type := {
  status_of : nat -> status_reply;
  details_of : nat -> details_reply;
  transcript_of : nat -> fetch_result;
  upload_of : nat -> fetch_result;
  head_of : nat -> fetch_result;
  copy_of : nat -> fetch_result;
  delete_of : nat -> fetch_result
}.

Definition terminalStatuses : list str :=
  map lit
    ["done"; "rejected"; "processing_error"; "gcs_error";
     "transcript_fetch_error"; "submission_error"; "submission_exception";
     "cloudrun_error"; "cloudrun_no_jobid"; "not_found";
     "error_fetching_status"; "exception_fetching_status";
     "error_parsing_response"; "error_unauthorized"; "error_missing_jobid";
     "gcs_move_error"]%string.

Definition submittedStatuses : list str :=
  map lit ["submitted"; "running"; "processing"]%string.

(** [Set.prototype.has] *)
Definition has (set : list str) (x : str) : bool := existsb (str_eqb x) set.

(** [getJobStatus(jobId, speechmaticsApiKey)] *)
Definition getJobStatus (jobId apiKey : str) (reply : status_reply)
    : list call * str :=
  if negb (truthy jobId) || negb (truthy apiKey) then
    ([], lit "error_missing_params")
  else
    ([GetJobStatus jobId],
     match reply with
     | StatusThrows => lit "exception_fetching_status"
     | StatusBadJson => lit "error_parsing_response"
     | StatusBody (Some s) => s
     | StatusBody None => lit "error_parsing_response"
     | StatusCode code =>
         if code =? 401 then lit "error_unauthorized"
         else if code =? 404 then lit "not_found"
         else if code =? 429 then lit "rate_limited"
         else lit "error_fetching_" ++ of_nat code
     end).

(** [/.+_\d{4}-\d{2}-\d{2}_[A-Za-z0-9_-]{10}\.mp4$/i] *)
Definition nameFormatRegex : regex :=
  Floating (Seqs [Plus dot; Str (lit "_"); date_re; Str (lit "_");
                  Rep 10 id_char; StrI (lit ".mp4"); Eol]).

(** [/\.mp4$/i] *)
Definition mp4Regex : regex := Floating (Seq (StrI (lit ".mp4")) Eol).

(** Text of an error raised after a response other than the expected
    one; [JSON.parse(text)?.error || text] is left as the text. *)
Definition failed (what : str) (code : nat) (text : str) : str :=
  what ++ lit " (" ++ of_nat code ++ lit "): " ++ text.

(** [handleCompletedJob(fileName, jobId, bucketName, accessToken, apiKey)] *)
Definition handleCompletedJob (fileName jobId bucketName accessToken apiKey : str)
    (details : details_reply) (transcript upload : fetch_result)
    : list call * completion unit :=
  if negb (truthy fileName && truthy jobId && truthy bucketName
           && truthy accessToken && truthy apiKey) then
    ([], Throw (lit "Missing parameters for handleCompletedJob"))
  else
    let transcriptFileNameBase :=
      match details with
      | Some trackingTitle =>
          if truthy trackingTitle && test nameFormatRegex trackingTitle
          then replace mp4Regex [] trackingTitle
          else replace mp4Regex [] fileName
      | None => replace mp4Regex [] fileName
      end in
    let transcriptFileName := transcriptFileNameBase ++ lit ".txt" in
    let gcsObjectName := lit "transcripts/" ++ transcriptFileName in
    match transcript with
    | FetchThrows message =>
        ([GetJobDetails jobId; GetTranscript jobId],
         Throw (lit "Transcript fetch error: " ++ message))
    | Response code responseText =>
        if negb (code =? 200) then
          ([GetJobDetails jobId; GetTranscript jobId],
           Throw (lit "Transcript fetch error: "
                  ++ failed (lit "Transcript fetch failed") code responseText))
        else
          let calls :=
            [GetJobDetails jobId; GetTranscript jobId;
             PutObject gcsObjectName responseText] in
          match upload with
          | FetchThrows message =>
              (calls, Throw (lit "GCS upload error: " ++ message))
          | Response ucode utext =>
              if negb (ucode =? 200) then
                (calls,
                 Throw (lit "GCS upload error: "
                        ++ failed (lit "GCS upload failed") ucode utext))
              else (calls, Return tt)
          end
    end.

(** [moveFileInGCS(bucketName, sourceObjectName, destinationObjectName, token)] *)
Definition moveFileInGCS (bucketName sourceObjectName destinationObjectName token : str)
    (head copy delete : fetch_result) : list call * completion unit :=
  if negb (truthy bucketName && truthy sourceObjectName
           && truthy destinationObjectName && truthy token) then
    ([], Throw (lit "Missing parameters for moveFileInGCS"))
  else
    let checkErrorMsg := lit "MoveGCS check source error: " ++ sourceObjectName in
    let copyErrorMsg :=
      lit "MoveGCS copy error: " ++ sourceObjectName ++ lit " to "
        ++ destinationObjectName in
    let deleteErrorMsg := lit "MoveGCS delete source error: " ++ sourceObjectName in
    match head with
    | FetchThrows _ => ([HeadObject sourceObjectName], Throw checkErrorMsg)
    | Response hcode _ =>
        if hcode =? 404 then ([HeadObject sourceObjectName], Return tt)
        else if negb (hcode =? 200) then
          ([HeadObject sourceObjectName], Throw checkErrorMsg)
        else
          let c2 := [HeadObject sourceObjectName;
                     CopyObject sourceObjectName destinationObjectName] in
          match copy with
          | FetchThrows _ => (c2, Throw copyErrorMsg)
          | Response ccode _ =>
              if negb (ccode =? 200) then (c2, Throw copyErrorMsg)
              else
                let c3 := c2 ++ [DeleteObject sourceObjectName] in
                match delete with
                | FetchThrows _ => (c3, Throw deleteErrorMsg)
                | Response dcode _ =>
                    if negb (dcode =? 204) then (c3, Throw deleteErrorMsg)
                    else (c3, Return tt)
                end
          end
    end.

(** The status written when post-processing throws, chosen from the text
    of the error. *)
Definition specificErrorStatus (message : str) : str :=
  let low := toLowerCase message in
  if includes (lit "transcript") low then lit "transcript_fetch_error"
  else if includes (lit "gcs upload") low then lit "gcs_error"
  else if includes (lit "movegcs") low then lit "gcs_move_error"
  else lit "processing_error".

(** The settings the poller reads before its loop. *)
Record Config : Type := {
  trackingSheetId : str;
  bucketName : str;
  speechmaticsApiKey : str;
  serviceAccountToken : completion str     (* getServiceAccountToken() *)
}.

(** The [try] block of the "done" branch: [handleCompletedJob], then
    [moveFileInGCS] when the former returns. *)
Definition postProcess (bucket apiKey accessToken : str) (remote : Remote)
    (i : nat) (fileName jobId : str) : list call * completion unit :=
  let '(c2, r2) :=
    handleCompletedJob fileName jobId bucket accessToken apiKey
      (details_of remote i) (transcript_of remote i) (upload_of remote i) in
  match r2 with
  | Return _ =>
      let '(c3, r3) :=
        moveFileInGCS bucket (lit "incoming/" ++ fileName)
          (lit "processed/" ++ fileName) accessToken
          (head_of remote i) (copy_of remote i) (delete_of remote i) in
      (c2 ++ c3, r3)
  | Throw message => (c2, Throw message)
  end.

(** [processingError ? specificErrorStatus : "done"] *)
Definition finalStatus_of (r : completion unit) : str :=
  match r with
  | Return _ => lit "done"
  | Throw message => specificErrorStatus message
  end.

(** The body of the [for] loop for the row at index [i] of the data read
    at the start of the pass: the calls it issues, in order. *)
Definition monitor_row (bucket apiKey accessToken : str) (remote : Remote)
    (i : nat) (row : JobRow) : list call :=
  let fileName := trim (fileName row) in
  let jobId := trim (jobId row) in
  let localStatus := toLowerCase (trim (status row)) in
  let active :=
    has submittedStatuses localStatus
    || str_eqb localStatus (lit "processing_transcript") in
  if negb (truthy fileName) || has terminalStatuses localStatus then []
  else if active && negb (truthy jobId) then
    if negb (str_eqb localStatus (lit "error_missing_jobid"))
    then [SetStatus (lit "error_missing_jobid")]
    else []
  else if negb active then []
  else
    let '(c1, newStatus) := getJobStatus jobId apiKey (status_of remote i) in
    let newStatusLower := toLowerCase newStatus in
    if str_eqb newStatusLower (lit "done") then
      if str_eqb localStatus (lit "done") then c1
      else
        let '(calls, result) :=
          postProcess bucket apiKey accessToken remote i fileName jobId in
        c1 ++ [SetStatus (lit "processing_transcript")] ++ calls
           ++ [SetStatus (finalStatus_of result)]
    else if str_eqb newStatusLower (lit "rate_limited") then c1
    else if has terminalStatuses newStatusLower then
      if negb (str_eqb newStatusLower localStatus)
      then c1 ++ [SetStatus newStatus]
      else c1
    else if negb (str_eqb newStatusLower localStatus) && truthy newStatus then
      c1 ++ [SetStatus newStatus]
    else c1.

(** The sheet and the record of the calls, each with the index of the
    data row whose iteration issued it. *)
Record State : Type := { sheet : list JobRow; trace : list (nat * call) }.

Definition set_status (v : str) (row : JobRow) : JobRow :=
  {| fileName := fileName row; jobId := jobId row; status := v |}.

Fixpoint update_row (i : nat) (f : JobRow -> JobRow) (rows : list JobRow)
    : list JobRow :=
  match rows, i with
  | [], _ => []
  | r :: rest, 0 => f r :: rest
  | r :: rest, S i' => r :: update_row i' f rest
  end.

(** Effect of one call of row [i] on the state: a status write lands in
    column 3 of that row. *)
Definition perform (i : nat) (st : State) (c : call) : State :=
  {| sheet := match c with
              | SetStatus v => update_row i (set_status v) (sheet st)
              | _ => sheet st
              end;
     trace := trace st ++ [(i, c)] |}.

Definition run_row (bucket apiKey accessToken : str) (remote : Remote)
    (st : State) (ir : nat * JobRow) : State :=
  fold_left (perform (fst ir)) (monitor_row bucket apiKey accessToken remote
                                  (fst ir) (snd ir)) st.

Fixpoint enumerate_from {A : Type} (n : nat) (l : list A) : list (nat * A) :=
  match l with
  | [] => []
  | x :: l' => (n, x) :: enumerate_from (S n) l'
  end.

(** One pass of [monitorTranscriptionJobs] over the sheet [rows] (the
    data rows; the header is not part of it).  [data] is read once,
    before the loop. *)
Definition monitorTranscriptionJobs (cfg : Config) (remote : Remote)
    (st : State) : State :=
  if negb (truthy (trackingSheetId cfg)) then st
  else if negb (truthy (bucketName cfg)) then st
  else if negb (truthy (speechmaticsApiKey cfg)) then st
  else
    match serviceAccountToken cfg with
    | Throw _ => st
    | Return accessToken =>
        match sheet st with
        | [] => st                        (* sheet.getLastRow() < 2 *)
        | data =>
            fold_left (run_row (bucketName cfg) (speechmaticsApiKey cfg)
                         accessToken remote)
                      (enumerate_from 0 data) st
        end
    end.

End Monitor.

(* ================================================================== *)
(** * The world outside the script: Drive, the ledger, the outbox       *)
(* ================================================================== *)

Module World.

Record DriveFile : Type := {
  fileId : str;
  folderId : str;
  name : str;
  content : str;
  trashed : bool
}.

(** A row of the homework ledger, in the order of its columns. *)
Record HwRow : Type := {
  Student_ID : str;
  Student_Name : str;
  Student_Email : str;
  HW_ID : str;
  PromptFileID : str;
  Token : str;
  AssignedAt : str;
  CompletedAt : str;
  Token_Status : str;
  Turns_Used : nat
}.

Record Mail : Type := { recipient : str; subject : str; body : str }.

Record t : Type := {
  drive : list DriveFile;
  ledger : list HwRow;
  outbox : list Mail;
  log : list str
}.

Definition add_file (f : DriveFile) (w : t) : t :=
  {| drive := drive w ++ [f]; ledger := ledger w; outbox := outbox w;
     log := log w |}.

Definition add_row (r : HwRow) (w : t) : t :=
  {| drive := drive w; ledger := ledger w ++ [r]; outbox := outbox w;
     log := log w |}.

Definition add_mail (m : Mail) (w : t) : t :=
  {| drive := drive w; ledger := ledger w; outbox := outbox w ++ [m];
     log := log w |}.

Definition add_log (line : str) (w : t) : t :=
  {| drive := drive w; ledger := ledger w; outbox := outbox w;
     log := log w ++ [line] |}.

Definition trash_one (id : str) (f : DriveFile) : DriveFile :=
  if str_eqb (fileId f) id
  then {| fileId := fileId f; folderId := folderId f; name := name f;
          content := content f; trashed := true |}
  else f.

(** [file.setTrashed(true)] on the file with identifier [id]. *)
Definition set_trashed (id : str) (w : t) : t :=
  {| drive := map (trash_one id) (drive w); ledger := ledger w;
     outbox := outbox w; log := log w |}.

(** [folder.getFilesByName(name).hasNext()] *)
Definition folder_has (folder nm : str) (w : t) : bool :=
  existsb (fun f => str_eqb (folderId f) folder && str_eqb (name f) nm)
          (drive w).

End World.

(** A calendar date as the script clock gives it in the script time
    zone, and [Utilities.formatDate(date, tz, 'yyyyMMdd')]. *)
Record Date : Type := { year : nat; month : nat; day : nat }.

Fixpoint pad_left (width : nat) (s : str) : str :=
  match width with
  | 0 => s
  | S w => if length s <=? w then pad_left w (digit_char 0 :: s) else s
  end.

Definition formatDate_yyyyMMdd (d : Date) : str :=
  pad_left 4 (of_nat (year d)) ++ pad_left 2 (of_nat (month d))
    ++ pad_left 2 (of_nat (day d)).

Definition nl : str := [ascii_of_nat 10].

(** The double quote. *)
Definition dq : str := [ascii_of_nat 34].

(* ================================================================== *)
(** * Roster lookup: [rosterFindByEmail]                                *)
(* ================================================================== *)

Module Roster.

(** Values of the tab 'Current_Students', header row first; every cell
    is text. *)
Definition sheet := list (list str).

Definition COL_ROSTER_STUDENT_NAME : nat := 0.
Definition COL_ROSTER_STUDENT_ID : nat := 1.
Definition COL_ROSTER_LIFE_AND_LIFESTYLE : nat := 16.

Record Student : Type := {
  Student_ID : str;
  Name : str;
  Email : str;
  Drive_Folder_ID : str;
  LifeStyle : str;
  RosterRowIndex : nat
}.

(** [row[i]?.toString() || ''] *)
Definition cell (i : nat) (row : list str) : str := nth i row [].

(** [Array.prototype.indexOf]; [None] is [-1]. *)
Fixpoint indexOf (x : str) (l : list str) : option nat :=
  match l with
  | [] => None
  | y :: l' =>
      if str_eqb y x then Some 0
      else match indexOf x l' with Some n => Some (S n) | None => None end
  end.

Definition headerLower (values : sheet) : list str :=
  map (fun h => trim (toLowerCase h)) (hd [] values).

(** The [for] loop over the data rows; [r] is the index of [rows]' head
    in [values]. *)
Fixpoint find_row (emailColIdx driveColIdx : nat) (target : str) (r : nat)
    (rows : list (list str)) : option Student :=
  match rows with
  | [] => None
  | row :: rest =>
      let rowEmail := cell emailColIdx row in
      if truthy rowEmail && str_eqb (toLowerCase (trim rowEmail)) target then
        Some {| Student_ID := cell COL_ROSTER_STUDENT_ID row;
                Name := cell COL_ROSTER_STUDENT_NAME row;
                Email := trim rowEmail;
                Drive_Folder_ID := cell driveColIdx row;
                LifeStyle := cell COL_ROSTER_LIFE_AND_LIFESTYLE row;
                RosterRowIndex := r + 1 |}
      else find_row emailColIdx driveColIdx target (S r) rest
  end.

(** What the lookup reads: the spreadsheet identifier; the tab, absent
    when it cannot be read; and the column of the Drive folder that the
    script takes from the script property ROSTER_DRIVE_FOLDER_ID, absent
    when the script returns [null] for want of one.
    [src/unnamed/part_000] has no column when the property is missing,
    blank or not a number.  [src/Code.js] has none when the property is
    not a number or is -1, and takes a missing or blank property as
    column 0, which is what [Number] makes of it.  A number that is no
    index of a cell stands here as an index past the row: its cell reads
    as the empty string in both scripts.
    In [src/unnamed/part_000] the tab is also absent when the spreadsheet
    cannot be opened.  [src/Code.js] lets the error of [openById] escape
    in that case, which the result type below does not render: of
    [src/Code.js] the function is the lookup on a spreadsheet that
    opens. *)
Record Source : Type := {
  SPREAD_ID : str;
  Current_Students : option sheet;
  driveColIdx : option nat
}.

Definition rosterFindByEmail (src : Source) (email : str) : option Student :=
  if negb (truthy email) then None
  else if negb (truthy (SPREAD_ID src)) then None
  else
    match Current_Students src with
    | None => None
    | Some values =>
        if length values <? 2 then None
        else
          match indexOf (lit "student_email") (headerLower values) with
          | None => None
          | Some emailColIdx =>
              match driveColIdx src with
              | None => None
              | Some driveCol =>
                  find_row emailColIdx driveCol (trim (toLowerCase email)) 1
                           (tl values)
              end
          end
    end.

End Roster.

(* ================================================================== *)
(** * Homework consolidation: [saveHomeworkPrompt], [assignHomework]    *)
(* ================================================================== *)

Module Homework.

Import World.

(** Outcome of the block that appends the ledger row. *)
Inductive append_outcome : Type :=
| AppendOk
| AppendThrows (message : str)      (* nothing was appended *)
| FlushThrows (message : str).      (* appendRow went through, flush threw *)

(** What one call of [assignHomework] meets outside the script.  Each
    operation is reached at most once per call. *)
Record Env : Type := {
  roster : Roster.Source;
  STUDENT_ROSTER_ID : str;            (* script property, [] when unset *)
  HOMEWORK_SHEET_NAME : str;
  HOMEWORK_PORTAL_BASEURL : str;
  ledgerSheetFound : bool;            (* getSheetByName(...) is not null *)
  today_fallback : Date;              (* new Date() for the fallback name *)
  today_hwId : Date;                  (* new Date() for hwId *)
  today_save : Date;                  (* new Date() in saveHomeworkPrompt *)
  assignedAt : str;                   (* new Date().toISOString() *)
  uuid : str;                         (* Utilities.getUuid() *)
  newFileId : str;                    (* getId() of the created file *)
  createFile_error : option str;      (* getFolderById / createFile throws *)
  append : append_outcome;
  setTrashed_error : option str;
  sendEmail_error : option str;
  coachingInstructions : str;         (* fixed remainder of the prompt template *)
  mailClosing : str                   (* fixed remainder of the mail body *)
}.

Definition lifestyleHeader : str :=
  nl ++ nl ++ lit "---" ++ nl ++ lit "Student background / Life & Lifestyle" ++ nl.

Definition fullPrompt (basePromptText lifeStyle : str) : str :=
  trim basePromptText ++ lifestyleHeader
    ++ trim (if truthy lifeStyle then lifeStyle
             else lit "No profile data on record.").

Definition newRowData (student : Roster.Student) (hwId promptFileId token at_ : str)
    : HwRow :=
  {| World.Student_ID := Roster.Student_ID student;
     Student_Name := Roster.Name student;
     Student_Email := Roster.Email student;
     HW_ID := hwId;
     PromptFileID := promptFileId;
     Token := token;
     AssignedAt := at_;
     CompletedAt := [];
     Token_Status := lit "Active";
     Turns_Used := 0 |}.

(** A line that only [V8] logs. *)
Definition log_v8 (v : version) (line : str) (w : World.t) : World.t :=
  match v with V8 => add_log line w | V9 => w end.

(** The [catch] of the ledger block: log the error, try to trash the
    prompt file, raise the ledger error again. *)
Definition compensate (v : version) (env : Env) (hwId studentEmail message : str)
    (w : World.t) : completion str * World.t :=
  let w1 :=
    add_log
      (match v with
       | V8 => lit "[saveHomeworkPrompt] ERROR appending ledger row for HW_ID "
                 ++ hwId ++ lit ", student " ++ studentEmail ++ lit ": " ++ message
       | V9 => lit "[saveHomeworkPrompt] ERROR appending ledger row: " ++ message
       end) w in
  let w2 :=
    match setTrashed_error env with
    | None =>
        log_v8 v (lit "[saveHomeworkPrompt] Cleaned up (trashed) prompt file "
                  ++ newFileId env ++ lit " due to ledger error.")
          (set_trashed (newFileId env) w1)
    | Some trashErr =>
        log_v8 v (lit "[saveHomeworkPrompt] WARNING: Failed to trash prompt file "
                  ++ newFileId env ++ lit " after ledger error: " ++ trashErr) w1
    end in
  (Throw (lit "Failed to append ledger row: " ++ message), w2).

(** Outcome of the [try] block around the ledger: the checks that
    precede [appendRow] throw inside the block as well. *)
Definition ledger_block (v : version) (env : Env) : append_outcome :=
  let rest :=
    if negb (ledgerSheetFound env) then
      AppendThrows (lit "Ledger sheet " ++ dq ++ HOMEWORK_SHEET_NAME env ++ dq
                    ++ lit " not found.")
    else append env in
  match v with
  | V8 =>
      if negb (truthy (STUDENT_ROSTER_ID env)) then
        AppendThrows (lit "STUDENT_ROSTER_ID script property missing.")
      else if negb (truthy (HOMEWORK_SHEET_NAME env)) then
        AppendThrows (lit "HOMEWORK_SHEET_NAME script property missing for Homework_Push.")
      else rest
  | V9 => rest
  end.

(** The message of the error that the ledger block throws, if any. *)
Definition ledger_failure (o : append_outcome) : option str :=
  match o with
  | AppendOk => None
  | AppendThrows message => Some message
  | FlushThrows message => Some message
  end.

(** [saveHomeworkPrompt(studentEmail, hwId, basePromptText, promptFileName)] *)
Definition saveHomeworkPrompt (v : version) (env : Env)
    (studentEmail hwId basePromptText promptFileName : str) (w : World.t)
    : completion str * World.t :=
  match Roster.rosterFindByEmail (roster env) studentEmail with
  | None =>
      (Throw (lit "Student email " ++ studentEmail ++ lit " not found."),
       log_v8 v (lit "[saveHomeworkPrompt] ERROR: Student email " ++ studentEmail
                 ++ lit " not found.") w)
  | Some student =>
      if negb (truthy (Roster.Drive_Folder_ID student)) then
        match v with
        | V8 =>
            (Throw (lit "Drive_Folder_ID missing for student " ++ studentEmail
                    ++ lit "."),
             add_log (lit "[saveHomeworkPrompt] ERROR: Drive_Folder_ID missing for student "
                      ++ studentEmail ++ lit ".") w)
        | V9 =>
            (Throw (lit "Drive_Folder_ID missing for " ++ studentEmail ++ lit "."), w)
        end
      else
        let fallback :=
          match v with
          | V8 => negb (truthy (trim promptFileName))
          | V9 => false
          end in
        let promptFileName :=
          if fallback then
            lit "HW_"
              ++ (if truthy hwId then hwId
                  else lit "Unknown-" ++ formatDate_yyyyMMdd (today_save env))
              ++ lit "_prompt.txt"
          else promptFileName in
        let w0 :=
          if fallback then
            add_log (lit "[saveHomeworkPrompt] WARNING: Invalid promptFileName. Using fallback: "
                     ++ promptFileName) w
          else w in
        let text := fullPrompt basePromptText (Roster.LifeStyle student) in
        match createFile_error env with
        | Some message =>
            (Throw (lit "Failed to create prompt file: " ++ message),
             log_v8 v (lit "[saveHomeworkPrompt] ERROR creating prompt file " ++ dq
                       ++ promptFileName ++ dq ++ lit " for student " ++ studentEmail
                       ++ lit ": " ++ message) w0)
        | None =>
            let promptFile :=
              {| fileId := newFileId env;
                 folderId := Roster.Drive_Folder_ID student;
                 name := promptFileName; content := text; trashed := false |} in
            let w1 := add_file promptFile w0 in
            let token := uuid env in
            let row := newRowData student hwId (newFileId env) token (assignedAt env) in
            match ledger_block v env with
            | AppendOk => (Return token, add_row row w1)
            | AppendThrows message =>
                compensate v env hwId studentEmail message w1
            | FlushThrows message =>
                compensate v env hwId studentEmail message (add_row row w1)
            end
        end
  end.

(** [/_(\d{4}-\d{2}-\d{2})_([A-Za-z0-9_-]{10})\.txt$/i] *)
Definition transcriptNameRegex : regex :=
  Floating (Seqs [Str (lit "_"); Grp 1 date_re; Str (lit "_");
                  Grp 2 (Rep 10 id_char); StrI (lit ".txt"); Eol]).

(** [`L${student.RosterRowIndex || 'X'}-${today}`] *)
Definition hwId_of (rosterRowIndex : nat) (today : Date) : str :=
  lit "L"
    ++ (if rosterRowIndex =? 0 then lit "X" else of_nat rosterRowIndex)
    ++ lit "-" ++ formatDate_yyyyMMdd today.

(** The date and the identifier fragment of a transcript name, when the
    name ends in the canonical way. *)
Definition transcriptMatch (firstTranscriptName : str) : option (str * str) :=
  match js_match transcriptNameRegex firstTranscriptName with
  | Some g =>
      match cap 1 g, cap 2 g with
      | Some d, Some frag =>
          if truthy d && truthy frag then Some (d, frag) else None
      | _, _ => None
      end
  | None => None
  end.

Definition promptFileName_of (v : version) (env : Env)
    (student : Roster.Student) (firstTranscriptName : str) : str :=
  match v, transcriptMatch firstTranscriptName with
  | V8, Some (d, frag) => lit "prompt_" ++ d ++ lit "_" ++ frag ++ lit ".txt"
  | V8, None =>
      lit "HW_"
        ++ hwId_of (Roster.RosterRowIndex student) (today_fallback env)
        ++ lit "_prompt.txt"
  | V9, Some (d, frag) =>
      lit "prompt_"
        ++ replace_all Parser.spacesRegex (lit "_") (Roster.Name student)
        ++ lit "_" ++ d ++ lit "_" ++ frag ++ lit ".txt"
  | V9, None => lit "prompt_" ++ firstTranscriptName
  end.

Definition basePrompt (env : Env) (transcriptFileNames : list str) : str :=
  lit "You are a GPT called Homework Coach." ++ nl
    ++ lit "Transcript files for this session: "
    ++ join (lit ", ") transcriptFileNames ++ lit "." ++ nl
    ++ coachingInstructions env.

(** [student.Name.split(' ')[0]] *)
Fixpoint firstWord (s : str) : str :=
  match s with
  | [] => []
  | c :: s' => if Ascii.eqb c " " then [] else c :: firstWord s'
  end.

Definition homeworkMail (env : Env) (student : Roster.Student)
    (studentEmail hwId token : str) : Mail :=
  let portalLink :=
    HOMEWORK_PORTAL_BASEURL env ++ lit "/homework-coach/?token=" ++ token in
  let studentFirstName :=
    if truthy (Roster.Name student) then firstWord (Roster.Name student)
    else lit "Student" in
  {| recipient := studentEmail;
     subject := lit "Your new homework is ready (ID: " ++ hwId ++ lit ")";
     body := lit "Hi " ++ studentFirstName ++ lit "," ++ nl ++ nl
             ++ lit "Your practice set based on your last class is ready. Click the link below to open it in your portal:"
             ++ nl ++ nl ++ portalLink ++ nl ++ nl ++ mailClosing env |}.

(** [assignHomework(studentEmail, transcriptFileNames)] *)
Definition assignHomework (v : version) (env : Env) (studentEmail : str)
    (transcriptFileNames : list str) (w : World.t)
    : completion unit * World.t :=
  match transcriptFileNames with
  | [] => (Throw (lit "Missing parameters for assignHomework."), w)
  | firstTranscriptName :: _ =>
      if negb (truthy studentEmail) then
        (Throw (lit "Missing parameters for assignHomework."), w)
      else
        match Roster.rosterFindByEmail (roster env) studentEmail with
        | None =>
            (Throw (lit "Student lookup failed for " ++ studentEmail),
             log_v8 v (lit "[assignHomework] Student not found: " ++ studentEmail
                       ++ lit ".") w)
        | Some student =>
            let promptFileName := promptFileName_of v env student firstTranscriptName in
            let w :=
              match v, transcriptMatch firstTranscriptName with
              | V8, None =>
                  add_log (lit "[assignHomework] WARNING: Cannot parse " ++ dq
                           ++ firstTranscriptName ++ dq
                           ++ lit ". Using default naming.") w
              | _, _ => w
              end in
            let hwId := hwId_of (Roster.RosterRowIndex student) (today_hwId env) in
            match saveHomeworkPrompt v env studentEmail hwId
                    (basePrompt env transcriptFileNames) promptFileName w with
            | (Throw message, w1) => (Throw message, w1)
            | (Return token, w1) =>
                if negb (truthy (HOMEWORK_PORTAL_BASEURL env)) then
                  (Return tt,
                   add_log (lit "[assignHomework] WARNING: HOMEWORK_PORTAL_BASEURL property not set. Skipping email.") w1)
                else
                  match sendEmail_error env with
                  | None =>
                      (Return tt,
                       add_mail (homeworkMail env student studentEmail hwId token) w1)
                  | Some message =>
                      (Return tt,
                       add_log (lit "[assignHomework] ERROR sending email to "
                                ++ studentEmail ++ lit " for HW " ++ hwId
                                ++ lit ": " ++ message) w1)
                  end
            end
        end
  end.

End Homework.

(* ================================================================== *)
(** * Transcript distribution: [importTranscriptsToDrive]               *)
(* ================================================================== *)

Module Distribution.

Import World.

Record RosterEntry : Type := { folderId : str; originalName : str; email : str }.

(** A JavaScript [Map] with string keys: the entries in insertion order,
    no key twice. *)
Definition jsmap (V : Type) := list (str * V).

Fixpoint map_get {V : Type} (k : str) (mp : jsmap V) : option V :=
  match mp with
  | [] => None
  | (k', v) :: rest => if str_eqb k' k then Some v else map_get k rest
  end.

Definition map_has {V : Type} (k : str) (mp : jsmap V) : bool :=
  match map_get k mp with Some _ => true | None => false end.

(** [mp.set(k, v)] for a key that is not yet present. *)
Definition map_set_new {V : Type} (k : str) (v : V) (mp : jsmap V) : jsmap V :=
  mp ++ [(k, v)].

(** [mp.get(k).push(x)] *)
Fixpoint map_push (k : str) (x : str) (mp : jsmap (list str)) : jsmap (list str) :=
  match mp with
  | [] => []
  | (k', v) :: rest =>
      if str_eqb k' k then (k', v ++ [x]) :: rest
      else (k', v) :: map_push k x rest
  end.

(** The roster map: lower-cased name with underscores as spaces to folder,
    name and e-mail address; the first row of a name wins. *)
Fixpoint fill_rosterMap (nameCol folderIdCol emailCol : nat)
    (rows : list (list str)) (acc : jsmap RosterEntry) : jsmap RosterEntry :=
  match rows with
  | [] => acc
  | row :: rest =>
      let nameRaw := Roster.cell nameCol row in
      let idRaw := Roster.cell folderIdCol row in
      let emailRaw := Roster.cell emailCol row in
      let acc' :=
        if truthy (trim nameRaw) && truthy (trim idRaw) && truthy (trim emailRaw) then
          let nameProcessed :=
            trim (replace_all Parser.underscoreRegex (lit " ") (toLowerCase nameRaw)) in
          if negb (map_has nameProcessed acc) then
            map_set_new nameProcessed
              {| folderId := trim idRaw; originalName := trim nameRaw;
                 email := trim emailRaw |} acc
          else acc
        else acc in
      fill_rosterMap nameCol folderIdCol emailCol rest acc'
  end.

(** [None] when a column is missing, which ends the run. *)
Definition build_rosterMap (values : Roster.sheet) : option (jsmap RosterEntry) :=
  if length values <? 2 then Some []
  else
    let header := Roster.headerLower values in
    match Roster.indexOf (lit "student_name") header,
          Roster.indexOf (lit "drive_folder_id") header,
          Roster.indexOf (lit "student_email") header with
    | Some nameCol, Some folderIdCol, Some emailCol =>
        Some (fill_rosterMap nameCol folderIdCol emailCol (tl values) [])
    | _, _, _ => None
    end.

(** [/^(.+?)_(\d{4}-\d{2}-\d{2})(?:_[A-Za-z0-9_-]{10})?\.txt$/i] *)
Definition transcriptRegex : regex :=
  Anchored (Seqs [Grp 1 (PlusLazy dot); Str (lit "_"); Grp 2 date_re;
                  Opt (Seq (Str (lit "_")) (Rep 10 id_char));
                  StrI (lit ".txt"); Eol]).

(** [/[+\-~`']/g] *)
Definition warningCharsRegex : re := Cls (one_of (lit "+-~`'")).

(** The name under which the roster is searched. *)
Definition studentNameProcessed (studentNamePartRaw : str) : str :=
  let cleanedNamePart := replace_all warningCharsRegex (lit " ") studentNamePartRaw in
  trim (toLowerCase
          (replace_all Parser.spacesRegex (lit " ")
             (replace_all Parser.underscoreRegex (lit " ") cleanedNamePart))).

Record Counters : Type := {
  importCount : nat;
  errorCount : nat;
  skippedExistsCount : nat;
  skippedNoMatchCount : nat;
  skippedAsteriskCount : nat
}.

Definition zero : Counters :=
  {| importCount := 0; errorCount := 0; skippedExistsCount := 0;
     skippedNoMatchCount := 0; skippedAsteriskCount := 0 |}.

Record RunState : Type := {
  world : World.t;
  counters : Counters;
  importedFilesByStudent : jsmap (list str)
}.

Definition with_counters (f : Counters -> Counters) (st : RunState) : RunState :=
  {| world := world st; counters := f (counters st);
     importedFilesByStudent := importedFilesByStudent st |}.

Definition incr_import (c : Counters) : Counters :=
  {| importCount := S (importCount c); errorCount := errorCount c;
     skippedExistsCount := skippedExistsCount c;
     skippedNoMatchCount := skippedNoMatchCount c;
     skippedAsteriskCount := skippedAsteriskCount c |}.
Definition incr_error (c : Counters) : Counters :=
  {| importCount := importCount c; errorCount := S (errorCount c);
     skippedExistsCount := skippedExistsCount c;
     skippedNoMatchCount := skippedNoMatchCount c;
     skippedAsteriskCount := skippedAsteriskCount c |}.
Definition incr_exists (c : Counters) : Counters :=
  {| importCount := importCount c; errorCount := errorCount c;
     skippedExistsCount := S (skippedExistsCount c);
     skippedNoMatchCount := skippedNoMatchCount c;
     skippedAsteriskCount := skippedAsteriskCount c |}.
Definition incr_noMatch (c : Counters) : Counters :=
  {| importCount := importCount c; errorCount := errorCount c;
     skippedExistsCount := skippedExistsCount c;
     skippedNoMatchCount := S (skippedNoMatchCount c);
     skippedAsteriskCount := skippedAsteriskCount c |}.
Definition incr_asterisk (c : Counters) : Counters :=
  {| importCount := importCount c; errorCount := errorCount c;
     skippedExistsCount := skippedExistsCount c;
     skippedNoMatchCount := skippedNoMatchCount c;
     skippedAsteriskCount := S (skippedAsteriskCount c) |}.

(** What the processing of one listed object meets outside the script. *)
Record ItemEnv : Type := {
  gcsContent : option str;          (* fetchGCSFileContent; None is null *)
  folder_error : option str;        (* getFolderById / getFilesByName throws *)
  createFile_error : option str;    (* createFile throws *)
  newFileId : str
}.

(** The [catch] of the per-item [try]: count the error and log.  The two
    "Suggestion" lines interpolate [folderId], a [const] of the [try]
    block that is not in scope in the [catch]; reaching one of them
    raises a [ReferenceError] that nothing catches. *)
Definition on_item_error (message : str) (st : RunState) : completion RunState :=
  let low := toLowerCase message in
  if (includes (lit "not found") low && includes (lit "folder") low)
     || includes (lit "permission") low || includes (lit "forbidden") low
  then Throw (lit "ReferenceError: folderId is not defined")
  else Return (with_counters incr_error st).

(** What the first half of the callback makes of a listed object. *)
Inductive resolution : Type :=
| NoName                    (* the item has no name: counted as an error *)
| NotATranscript            (* not a file directly under transcripts/, or a
                               name of another format: left alone *)
| Asterisk                  (* the name part holds an asterisk *)
| NoMatch                   (* no roster entry for the name *)
| NoEmail                   (* the roster entry has no address: left alone *)
| Matched (fileNameRelative : str) (studentData : RosterEntry).

Definition resolve (rosterMap : jsmap RosterEntry) (itemName : str) : resolution :=
  if negb (truthy itemName) then NoName
  else
    let fullGcsPath := itemName in
    let prefix := lit "transcripts/" in
    if negb (startsWith prefix fullGcsPath) || endsWith (lit "/") fullGcsPath
       || includes (lit "/") (substring_from (length prefix) fullGcsPath)
    then NotATranscript
    else
      let fileNameRelative := substring_from (length prefix) fullGcsPath in
      if negb (truthy fileNameRelative) then NotATranscript
      else
        match js_match transcriptRegex fileNameRelative with
        | None => NotATranscript
        | Some g =>
            match cap 1 g with
            | None => NotATranscript
            | Some studentNamePartRaw =>
                if negb (truthy studentNamePartRaw) then NotATranscript
                else if includes (lit "*") studentNamePartRaw then Asterisk
                else
                  let key := studentNameProcessed studentNamePartRaw in
                  if negb (truthy key) then NoMatch
                  else
                    match map_get key rosterMap with
                    | None => NoMatch
                    | Some studentData =>
                        if negb (truthy (email studentData)) then NoEmail
                        else Matched fileNameRelative studentData
                    end
            end
        end.

(** The second half of the callback: fetch the content, look into the
    folder of the student, create the file unless one of that name is
    there, and queue the name for the homework of the student. *)
Definition deliver (env : ItemEnv) (fullGcsPath fileNameRelative : str)
    (studentData : RosterEntry) (st : RunState) : completion RunState :=
  let studentEmail := email studentData in
  match gcsContent env with
  | None => on_item_error (lit "GCS fetch failed: " ++ fullGcsPath) st
  | Some transcriptContent =>
      match folder_error env with
      | Some message => on_item_error message st
      | None =>
          if folder_has (folderId studentData) fileNameRelative (world st)
          then Return (with_counters incr_exists st)
          else
            match createFile_error env with
            | Some message => on_item_error message st
            | None =>
                let newFile :=
                  {| World.fileId := newFileId env;
                     World.folderId := folderId studentData;
                     name := fileNameRelative;
                     content := transcriptContent;
                     trashed := false |} in
                let queued := importedFilesByStudent st in
                let queued :=
                  if negb (map_has studentEmail queued)
                  then map_set_new studentEmail [] queued
                  else queued in
                Return
                  {| world := add_file newFile (world st);
                     counters := incr_import (counters st);
                     importedFilesByStudent :=
                       map_push studentEmail fileNameRelative queued |}
            end
      end
  end.

(** The callback of [transcripts.forEach] on the object named [itemName]
    ([[]] when the item has no name). *)
Definition import_item (rosterMap : jsmap RosterEntry) (env : ItemEnv)
    (itemName : str) (st : RunState) : completion RunState :=
  match resolve rosterMap itemName with
  | NoName => Return (with_counters incr_error st)
  | NotATranscript => Return st
  | Asterisk => Return (with_counters incr_asterisk st)
  | NoMatch => Return (with_counters incr_noMatch st)
  | NoEmail => Return st
  | Matched fileNameRelative studentData =>
      deliver env itemName fileNameRelative studentData st
  end.

(** [transcripts.forEach(...)]; [j] is the position of the head of
    [items] in the listing. *)
Fixpoint import_items (rosterMap : jsmap RosterEntry) (envs : nat -> ItemEnv)
    (j : nat) (items : list str) (st : RunState) : completion RunState :=
  match items with
  | [] => Return st
  | itemName :: rest =>
      match import_item rosterMap (envs j) itemName st with
      | Throw message => Throw message
      | Return st' => import_items rosterMap envs (S j) rest st'
      end
  end.

(** The loop over [importedFilesByStudent.entries()]: one call of
    [assignHomework] per student with a non-empty batch.  Returns the
    world and [assignmentErrors]. *)
Fixpoint assign_all (hw : str -> Homework.Env) (batches : jsmap (list str))
    (w : World.t) (assignmentErrors : nat) : World.t * nat :=
  match batches with
  | [] => (w, assignmentErrors)
  | (studentEmail, transcriptFileNames) :: rest =>
      match transcriptFileNames with
      | [] => assign_all hw rest w assignmentErrors
      | _ :: _ =>
          match Homework.assignHomework V8 (hw studentEmail)
                  studentEmail transcriptFileNames w with
          | (Return _, w') => assign_all hw rest w' assignmentErrors
          | (Throw _, w') => assign_all hw rest w' (S assignmentErrors)
          end
      end
  end.

(** What a run reads before its loop. *)
Record Config : Type := {
  STUDENT_ROSTER_ID : str;
  BUCKET_NAME : str;
  serviceAccountToken : completion str;
  rosterValues : option Roster.sheet;     (* None: the tab cannot be read *)
  listing : option (list str);            (* listGCSFiles; None: it throws *)
  itemEnv : nat -> ItemEnv;
  homeworkEnv : str -> Homework.Env
}.

Record Summary : Type := {
  finalCounters : Counters;
  batches : jsmap (list str);
  assignmentErrors : nat
}.

Definition nothing_done : Summary :=
  {| finalCounters := zero; batches := []; assignmentErrors := 0 |}.

(** [importTranscriptsToDrive()] *)
Definition importTranscriptsToDrive (cfg : Config) (w : World.t)
    : completion (World.t * Summary) :=
  if negb (truthy (STUDENT_ROSTER_ID cfg)) then Return (w, nothing_done)
  else if negb (truthy (BUCKET_NAME cfg)) then Return (w, nothing_done)
  else
    match serviceAccountToken cfg with
    | Throw _ => Return (w, nothing_done)
    | Return _ =>
        match rosterValues cfg with
        | None => Return (w, nothing_done)
        | Some values =>
            match build_rosterMap values with
            | None => Return (w, nothing_done)
            | Some [] => Return (w, nothing_done)
            | Some rosterMap =>
                match listing cfg with
                | None => Return (w, nothing_done)
                | Some [] => Return (w, nothing_done)
                | Some transcripts =>
                    match import_items rosterMap (itemEnv cfg) 0 transcripts
                            {| world := w; counters := zero;
                               importedFilesByStudent := [] |} with
                    | Throw message => Throw message
                    | Return st =>
                        let '(w', errs) :=
                          assign_all (homeworkEnv cfg)
                            (importedFilesByStudent st) (world st) 0 in
                        Return (w', {| finalCounters := counters st;
                                       batches := importedFilesByStudent st;
                                       assignmentErrors := errs |})
                    end
                end
            end
        end
    end.

End Distribution.

(* ================================================================== *)
(** * Vocabulary of the statements                                      *)
(* ================================================================== *)

Import World.

(** The job identifier carried by a parsed 200 body, as the script
    accepts it. *)
Definition accepted_job_id (result : Json.value) : option str :=
  if Json.truthy result then
    match Json.get (lit "job_id") result with
    | Some (Json.JStr job_id) =>
        if truthy job_id && negb (str_eqb (trim job_id) [])
        then Some (trim job_id) else None
    | _ => None
    end
  else None.

(** Whether a parsed 200 body is the receipt that [V9] expects. *)
Definition is_receipt (result : Json.value) : bool :=
  Json.truthy result &&
  match Json.get (lit "message") result with
  | Some (Json.JStr msg) => str_eqb msg (lit "File saved to /incoming")
  | _ => false
  end.

(** The conditions under which [saveHomeworkPrompt] goes through for the
    student with address [email]: the roster has the student and a Drive
    folder for it, the prompt file can be created and the ledger block
    does not throw. *)
Definition assignment_succeeds (v : version) (env : Homework.Env) (email : str) : Prop :=
  exists student,
    Roster.rosterFindByEmail (Homework.roster env) email = Some student
    /\ truthy (Roster.Drive_Folder_ID student) = true
    /\ Homework.createFile_error env = None
    /\ Homework.ledger_block v env = Homework.AppendOk.

(** The warning that [V8] logs when the prompt file cannot be trashed. *)
Definition trash_warning (env : Homework.Env) (trashErr : str) : str :=
  lit "[saveHomeworkPrompt] WARNING: Failed to trash prompt file "
    ++ Homework.newFileId env ++ lit " after ledger error: " ++ trashErr.

(* ================================================================== *)
(** * Sample data                                                       *)
(* ================================================================== *)

Module Sample.

Definition rosterValues : Roster.sheet :=
  [ [lit "Student_Name"; lit "Student_ID"; lit "Student_Email"; lit "Drive_Folder_ID"];
    [lit "jane doe"; lit "S-001"; lit "jane@x.com"; lit "folder-jane"];
    [lit "Bob Roe"; lit "S-002"; lit "bob@x.com"; lit "folder-bob"] ].

Definition rosterSource : Roster.Source :=
  {| Roster.SPREAD_ID := lit "roster-spreadsheet";
     Roster.Current_Students := Some rosterValues;
     Roster.driveColIdx := Some 3 |}.

Definition jane : Roster.Student :=
  {| Roster.Student_ID := lit "S-001"; Roster.Name := lit "jane doe";
     Roster.Email := lit "jane@x.com"; Roster.Drive_Folder_ID := lit "folder-jane";
     Roster.LifeStyle := []; Roster.RosterRowIndex := 2 |}.

(** An environment in which everything goes through. *)
Definition env_ok : Homework.Env :=
  {| Homework.roster := rosterSource;
     Homework.STUDENT_ROSTER_ID := lit "roster-spreadsheet";
     Homework.HOMEWORK_SHEET_NAME := lit "Homework_Push";
     Homework.HOMEWORK_PORTAL_BASEURL := lit "https://portal.example";
     Homework.ledgerSheetFound := true;
     Homework.today_fallback := {| year := 2024; month := 3; day := 2 |};
     Homework.today_hwId := {| year := 2024; month := 3; day := 2 |};
     Homework.today_save := {| year := 2024; month := 3; day := 2 |};
     Homework.assignedAt := lit "2024-03-02T09:00:00.000Z";
     Homework.uuid := lit "0f8fad5b-d9cb-469f-a165-70867728950e";
     Homework.newFileId := lit "file-prompt-1";
     Homework.createFile_error := None;
     Homework.append := Homework.AppendOk;
     Homework.setTrashed_error := None;
     Homework.sendEmail_error := None;
     Homework.coachingInstructions := lit "Ask up to 10 personalized questions.";
     Homework.mailClosing := lit "Good luck!" |}.

Definition with_faults (portal : str) (append : Homework.append_outcome)
    (trash mail : option str) : Homework.Env :=
  {| Homework.roster := rosterSource;
     Homework.STUDENT_ROSTER_ID := lit "roster-spreadsheet";
     Homework.HOMEWORK_SHEET_NAME := lit "Homework_Push";
     Homework.HOMEWORK_PORTAL_BASEURL := portal;
     Homework.ledgerSheetFound := true;
     Homework.today_fallback := {| year := 2024; month := 3; day := 2 |};
     Homework.today_hwId := {| year := 2024; month := 3; day := 2 |};
     Homework.today_save := {| year := 2024; month := 3; day := 2 |};
     Homework.assignedAt := lit "2024-03-02T09:00:00.000Z";
     Homework.uuid := lit "0f8fad5b-d9cb-469f-a165-70867728950e";
     Homework.newFileId := lit "file-prompt-1";
     Homework.createFile_error := None;
     Homework.append := append;
     Homework.setTrashed_error := trash;
     Homework.sendEmail_error := mail;
     Homework.coachingInstructions := lit "Ask up to 10 personalized questions.";
     Homework.mailClosing := lit "Good luck!" |}.

Definition empty_world : World.t :=
  {| drive := []; ledger := []; outbox := []; log := [] |}.

Definition janeTranscripts : list str :=
  [lit "Jane_Doe_2024-03-01_AbCdEfGhIj.txt"; lit "Jane_Doe_2024-03-01_KlMnOpQrSt.txt";
   lit "Jane_Doe_2024-03-02_UvWxYz0123.txt"].

(** The poller: one submitted job that the provider reports as done,
    every request being answered as expected. *)
Definition pollerConfig : Monitor.Config :=
  {| Monitor.trackingSheetId := lit "tracking-sheet";
     Monitor.bucketName := lit "bucket";
     Monitor.speechmaticsApiKey := lit "api-key";
     Monitor.serviceAccountToken := Return (lit "access-token") |}.

Definition remote_ok : Monitor.Remote :=
  {| Monitor.status_of := fun _ => Monitor.StatusBody (Some (lit "done"));
     Monitor.details_of := fun _ => None;
     Monitor.transcript_of := fun _ => Response 200 (lit "Hello Jane.");
     Monitor.upload_of := fun _ => Response 200 [];
     Monitor.head_of := fun _ => Response 200 [];
     Monitor.copy_of := fun _ => Response 200 [];
     Monitor.delete_of := fun _ => Response 204 [] |}.

Definition submittedJob : Monitor.JobRow :=
  {| Monitor.fileName := lit "Jane_Doe_2024-03-01_AbCdEfGhIj.mp4";
     Monitor.jobId := lit "job-1"; Monitor.status := lit "submitted" |}.

Definition jobs : Monitor.State :=
  {| Monitor.sheet := [submittedJob]; Monitor.trace := [] |}.

(** The distribution: three transcripts of Jane, none of Bob. *)
Definition importConfig : Distribution.Config :=
  {| Distribution.STUDENT_ROSTER_ID := lit "roster-spreadsheet";
     Distribution.BUCKET_NAME := lit "bucket";
     Distribution.serviceAccountToken := Return (lit "access-token");
     Distribution.rosterValues := Some rosterValues;
     Distribution.listing := Some (map (fun n => lit "transcripts/" ++ n) janeTranscripts);
     Distribution.itemEnv := fun j =>
       {| Distribution.gcsContent := Some (lit "Hello Jane.");
          Distribution.folder_error := None;
          Distribution.createFile_error := None;
          Distribution.newFileId := lit "file-" ++ of_nat j |};
     Distribution.homeworkEnv := fun _ => env_ok |}.


Definition janeEntry : Distribution.RosterEntry :=
  {| Distribution.folderId := lit "folder-jane";
     Distribution.originalName := lit "jane doe";
     Distribution.email := lit "jane@x.com" |}.

Definition bobEntry : Distribution.RosterEntry :=
  {| Distribution.folderId := lit "folder-bob";
     Distribution.originalName := lit "Bob Roe";
     Distribution.email := lit "bob@x.com" |}.

Definition rosterMap : Distribution.jsmap Distribution.RosterEntry :=
  [(lit "jane doe", janeEntry); (lit "bob roe", bobEntry)].

(** The discovery: one recording of Google Meet and a file that is not a
    video. *)
Definition recordings : list Discovery.RecFile :=
  [ {| Discovery.id := lit "AbCdEfGhIjKlMnOpQrStUvWxYz";
       Discovery.name := lit "Jane Doe - 2024-03-01 10:00:00 GMT.mp4";
       Discovery.mimeType := lit "video/mp4" |};
    {| Discovery.id := lit "0123456789abcdefghij";
       Discovery.name := lit "notes.txt";
       Discovery.mimeType := lit "text/plain" |} ].

Definition discoveryConfig : Discovery.Config :=
  {| Discovery.FOLDER_ID := lit "recordings-folder";
     Discovery.TRACKING_SHEET_ID := lit "tracking-sheet";
     Discovery.CLOUD_RUN_URL := lit "https://run.example" |}.

Definition discoveryEnv : Discovery.Env :=
  {| Discovery.setName_error := fun _ => None;
     Discovery.cloudRun := fun _ => Response 200 (lit "{}");
     Discovery.appendedAt := fun _ => lit "2024-03-01T10:05:00Z";
     Discovery.updatedAt := fun _ => lit "2024-03-01T10:05:02Z" |}.

(** A world in which the first transcript of Jane is already in her
    folder, and a run that lists only that transcript. *)
Definition delivered_world : World.t :=
  {| drive := [ {| fileId := lit "file-0"; World.folderId := lit "folder-jane";
                   name := lit "Jane_Doe_2024-03-01_AbCdEfGhIj.txt";
                   content := lit "Hello Jane."; trashed := false |} ];
     ledger := []; outbox := []; log := [] |}.

Definition rerunConfig : Distribution.Config :=
  {| Distribution.STUDENT_ROSTER_ID := lit "roster-spreadsheet";
     Distribution.BUCKET_NAME := lit "bucket";
     Distribution.serviceAccountToken := Return (lit "access-token");
     Distribution.rosterValues := Some rosterValues;
     Distribution.listing :=
       Some [lit "transcripts/Jane_Doe_2024-03-01_AbCdEfGhIj.txt"];
     Distribution.itemEnv := Distribution.itemEnv importConfig;
     Distribution.homeworkEnv := fun _ => env_ok |}.

(** A parser that reads every body as the answer of a job submission. *)
Definition parse_job : str -> option Json.value :=
  fun _ => Some (Json.JObj [(lit "job_id", Json.JStr (lit "job-1"))]).

End Sample.

(* ================================================================== *)
(** * Vocabulary of the poller statements                               *)
(* ================================================================== *)

(** The calls that the trace attributes to the data row [i]. *)
Definition calls_of (i : nat) (tr : list (nat * Monitor.call)) : list Monitor.call :=
  map snd (filter (fun e => fst e =? i) tr).

(** The status cell of a row after the writes among [calls]. *)
Definition apply_writes (calls : list Monitor.call) (row : Monitor.JobRow)
    : Monitor.JobRow :=
  fold_left (fun r c => match c with
                        | Monitor.SetStatus v => Monitor.set_status v r
                        | _ => r
                        end) calls row.

(** The status of a row as the poller reads it. *)
Definition localStatus (row : Monitor.JobRow) : str :=
  toLowerCase (trim (Monitor.status row)).

Definition is_terminal (row : Monitor.JobRow) : bool :=
  Monitor.has Monitor.terminalStatuses (localStatus row).

Definition is_active (row : Monitor.JobRow) : bool :=
  Monitor.has Monitor.submittedStatuses (localStatus row)
  || str_eqb (localStatus row) (lit "processing_transcript").




(** A configuration with which the poller reaches its loop, [token]
    being the access token. *)
Definition poller_ready (cfg : Monitor.Config) (token : str) : Prop :=
  truthy (Monitor.trackingSheetId cfg) = true
  /\ truthy (Monitor.bucketName cfg) = true
  /\ truthy (Monitor.speechmaticsApiKey cfg) = true
  /\ Monitor.serviceAccountToken cfg = Return token
  /\ truthy token = true.


(* ================================================================== *)
(** * Vocabulary of the distribution statements                         *)
(* ================================================================== *)

(** The listed object [itemName] resolves to a student in whose folder a
    file of the transcript's name already is, and the content and the
    folder can be read. *)
Definition already_delivered (rosterMap : Distribution.jsmap Distribution.RosterEntry)
    (env : Distribution.ItemEnv) (w : World.t) (itemName : str) : Prop :=
  exists f sd c,
    Distribution.resolve rosterMap itemName = Distribution.Matched f sd
    /\ folder_has (Distribution.folderId sd) f w = true
    /\ Distribution.gcsContent env = Some c
    /\ Distribution.folder_error env = None.

(** A run of [importTranscriptsToDrive] that reaches the loop over the
    listing [items] with the roster map [rosterMap]. *)
Definition reaches_loop (cfg : Distribution.Config)
    (rosterMap : Distribution.jsmap Distribution.RosterEntry) (items : list str) : Prop :=
  truthy (Distribution.STUDENT_ROSTER_ID cfg) = true
  /\ truthy (Distribution.BUCKET_NAME cfg) = true
  /\ (exists token, Distribution.serviceAccountToken cfg = Return token)
  /\ (exists values,
        Distribution.rosterValues cfg = Some values
        /\ Distribution.build_rosterMap values = Some rosterMap)
  /\ rosterMap <> []
  /\ Distribution.listing cfg = Some items
  /\ items <> [].

(** [n] more transcripts skipped because they were already there. *)
Definition add_exists (n : nat) (c : Distribution.Counters) : Distribution.Counters :=
  {| Distribution.importCount := Distribution.importCount c;
     Distribution.errorCount := Distribution.errorCount c;
     Distribution.skippedExistsCount := n + Distribution.skippedExistsCount c;
     Distribution.skippedNoMatchCount := Distribution.skippedNoMatchCount c;
     Distribution.skippedAsteriskCount := Distribution.skippedAsteriskCount c |}.

(* ================================================================== *)
(** * Vocabulary of the consolidation statements                        *)
(* ================================================================== *)

(** The batch queued for the address [e]; empty when there is none. *)
Definition batch_of (e : str) (queued : Distribution.jsmap (list str)) : list str :=
  match Distribution.map_get e queued with
  | Some names => names
  | None => []
  end.




(** The state [st] of a scan that started in the world [w0], [log]
    pairing every file created so far with the roster entry it was
    created for: the scan has only added these files to the world, and
    the batch queued for an address lists, in the order of creation, the
    files created for the entries with that address; no address is queued
    twice and no queued batch is empty. *)
Definition scan_invariant (rosterMap : Distribution.jsmap Distribution.RosterEntry)
    (w0 : World.t) (log : list (Distribution.RosterEntry * DriveFile))
    (st : Distribution.RunState) : Prop :=
  drive (Distribution.world st) = drive w0 ++ map snd log
  /\ ledger (Distribution.world st) = ledger w0
  /\ outbox (Distribution.world st) = outbox w0
  /\ (forall sd f, In (sd, f) log ->
        World.folderId f = Distribution.folderId sd
        /\ exists key, In (key, sd) rosterMap)
  /\ (forall e,
        batch_of e (Distribution.importedFilesByStudent st)
        = map (fun p => name (snd p))
              (filter (fun p => str_eqb (Distribution.email (fst p)) e) log))
  /\ NoDup (map fst (Distribution.importedFilesByStudent st))
  /\ Forall (fun b => snd b <> []) (Distribution.importedFilesByStudent st)
  /\ Forall (fun b => truthy (fst b) = true) (Distribution.importedFilesByStudent st).

(* ================================================================== *)
(** * Vocabulary of the discovery statements                            *)
(* ================================================================== *)

(** Whether the discovery loop goes past its type check for a file. *)
Definition is_video (file : Discovery.RecFile) : bool :=
  truthy (Discovery.mimeType file)
  && startsWith (lit "video/") (Discovery.mimeType file).

(* ================================================================== *)
(** * Vocabulary of the parser statements                               *)
(* ================================================================== *)

(** [/[ -]\d{4}-\d{2}-\d{2}/]: a date that follows a space or a hyphen. *)
Definition embeddedDateRegex : regex :=
  Floating (Seq (Cls (one_of (lit " -"))) date_re).

(** The input starts with [dddd-dd-dd]. *)
Definition date_at (s : str) : bool :=
  match s with
  | a :: b :: c :: d :: h1 :: e :: f :: h2 :: g :: h :: _ =>
      is_digit a && is_digit b && is_digit c && is_digit d
      && Ascii.eqb "-" h1 && is_digit e && is_digit f
      && Ascii.eqb "-" h2 && is_digit g && is_digit h
  | _ => false
  end.

(** Replacement of every run of [p] by [b]; [in_run] tells that the
    preceding code unit belonged to a run. *)
Fixpoint collapse_aux (p : ascii -> bool) (b : str) (in_run : bool) (s : str) : str :=
  match s with
  | [] => []
  | c :: s' =>
      if p c then
        if in_run then collapse_aux p b true s' else b ++ collapse_aux p b true s'
      else c :: collapse_aux p b false s'
  end.

(** Removal of a trailing run of [p]. *)
Fixpoint strip_trailing (p : ascii -> bool) (s : str) : str :=
  match s with
  | [] => []
  | c :: s' => if forallb p s then [] else c :: strip_trailing p s'
  end.

(** White space occurs only as single spaces; [prev] tells that the
    preceding code unit was a space. *)
Fixpoint spaced_ok (prev : bool) (s : str) : bool :=
  match s with
  | [] => true
  | c :: s' =>
      if is_space c then Ascii.eqb c " " && negb prev && spaced_ok true s'
      else spaced_ok false s'
  end.

(** The code units that the cleaning of a name lets through. *)
Definition name_char (c : ascii) : bool :=
  none_of (lit "~^*'`+_/") c.

(** The last code unit of a non-empty string satisfies [p]. *)
Definition last_is (p : ascii -> bool) (s : str) : bool :=
  match rev s with
  | [] => false
  | c :: _ => p c
  end.

(** The shape of a name that the parser returns: not empty, made of the
    code units that the cleaning lets through, white space only as single
    spaces, no space at the start, neither a space nor a hyphen at the
    end. *)
Definition clean_name (n : str) : Prop :=
  forallb name_char n = true
  /\ spaced_ok true n = true
  /\ last_is (none_of (lit " -")) n = true.

(** What a greedy loop over [p] leaves of the input when the continuation
    accepts. *)
Fixpoint drop_run (p : ascii -> bool) (s : str) : str :=
  match s with
  | c :: s' => if p c then drop_run p s' else s
  | [] => []
  end.

(** What the canonical name makes of a code unit of a name whose white
    space is single spaces. *)
Definition underscored (c : ascii) : ascii := if is_space c then "_"%char else c.

(** Every capture is made of code units of the class [P]. *)
Definition caps_all (P : ascii -> bool) (g : caps) : bool :=
  forallb (fun iv => forallb P (snd iv)) g.

(** The code units of a date. *)
Definition date_char (c : ascii) : bool := is_digit c || Ascii.eqb "-" c.

(** No date follows a code unit of the class [sep]. *)
Fixpoint sep_date_free (sep : ascii -> bool) (s : str) : bool :=
  match s with
  | [] => true
  | c :: s' => negb (sep c && date_at s') && sep_date_free sep s'
  end.

(** The name and the date that the distribution derives from the name of
    a transcript: the name under which it searches the roster, and the
    date group of its pattern. *)
Definition derived_pair (fileNameRelative : str) : option (str * str) :=
  match js_match Distribution.transcriptRegex fileNameRelative with
  | Some g =>
      match cap 1 g, cap 2 g with
      | Some raw, Some d => Some (Distribution.studentNameProcessed raw, d)
      | _, _ => None
      end
  | None => None
  end.

(** The canonical name of the transcript of a recording. *)
Definition transcriptName (studentName classDate fragment : str) : str :=
  Parser.standardizedStudentName studentName ++ lit "_" ++ classDate ++ lit "_"
    ++ fragment ++ lit ".txt".

(* ================================================================== *)
(** * Vocabulary of the further statements                              *)
(* ================================================================== *)

(** The number of code units that a pattern without quantifier reads. *)
Fixpoint fixed_width (r : re) : option nat :=
  match r with
  | Eps => Some 0
  | Cls _ => Some 1
  | Seq r1 r2 =>
      match fixed_width r1, fixed_width r2 with
      | Some a, Some b => Some (a + b)
      | _, _ => None
      end
  | Grp _ r1 => fixed_width r1
  | Eol => Some 0
  | Opt _ | Star _ | StarLazy _ => None
  end.

(** The pattern ends with [$]. *)
Fixpoint anchored_end (r : re) : bool :=
  match r with
  | Eol => true
  | Seq _ r2 => anchored_end r2
  | Grp _ r1 => anchored_end r1
  | _ => false
  end.

(** The calls of the post-processing of a finished job. *)
Definition is_post_processing (c : Monitor.call) : bool :=
  match c with
  | Monitor.SetStatus _ | Monitor.GetJobStatus _ => false
  | _ => true
  end.

(** What the discovery leaves in the cells Job ID and Status of a row
    that it appends. *)
Definition settled (v : version) (row : Discovery.Row) : Prop :=
  match v with
  | V8 =>
      (Discovery.status row = lit "submitted"
       /\ truthy (Discovery.jobId row) = true
       /\ trim (Discovery.jobId row) = Discovery.jobId row)
      \/ (Discovery.status row = lit "cloudrun_no_jobid"
          /\ Discovery.jobId row = [])
  | V9 =>
      Discovery.jobId row = []
      /\ (Discovery.status row = lit "processing_transcription"
          \/ Discovery.status row = lit "cloudrun_error")
  end.

(** The first three cells of a row of the "Jobs" sheet, which are what
    the poller reads of it. *)
Definition as_job_row (r : Discovery.Row) : Monitor.JobRow :=
  {| Monitor.fileName := Discovery.fileName r;
     Monitor.jobId := Discovery.jobId r;
     Monitor.status := Discovery.status r |}.

(** A file of the folder after the scan, against the file before: the
    same identifier and type, and the same name or the canonical name of
    what the parser reads in the name. *)
Definition renamed_or_kept (f f' : Discovery.RecFile) : Prop :=
  Discovery.id f' = Discovery.id f
  /\ Discovery.mimeType f' = Discovery.mimeType f
  /\ (Discovery.name f' = Discovery.name f
      \/ (is_video f = true
          /\ exists n d,
               Parser.extractStudentInfoFromFilename (Discovery.name f) = Some (n, d)
               /\ Discovery.name f' = Parser.newFileName n d (Discovery.id f))).

(* ================================================================== *)
(** * Further sample data                                               *)
(* ================================================================== *)

Module Cases.

(** Remote parties that answer the status request with [reply] and every
    other request as expected. *)
Definition remote_with (reply : Monitor.status_reply) : Monitor.Remote :=
  {| Monitor.status_of := fun _ => reply;
     Monitor.details_of := fun _ => None;
     Monitor.transcript_of := fun _ => Response 200 (lit "Hello Jane.");
     Monitor.upload_of := fun _ => Response 200 [];
     Monitor.head_of := fun _ => Response 200 [];
     Monitor.copy_of := fun _ => Response 200 [];
     Monitor.delete_of := fun _ => Response 204 [] |}.

(** A job whose row was parked after a response 500. *)
Definition parkedJob : Monitor.JobRow :=
  {| Monitor.fileName := lit "Jane_Doe_2024-03-01_AbCdEfGhIj.mp4";
     Monitor.jobId := lit "job-1"; Monitor.status := lit "error_fetching_500" |}.

(** A submitted row that carries no job identifier. *)
Definition jobWithoutId : Monitor.JobRow :=
  {| Monitor.fileName := lit "Jane_Doe_2024-03-01_AbCdEfGhIj.mp4";
     Monitor.jobId := []; Monitor.status := lit "submitted" |}.

Definition one_job (row : Monitor.JobRow) : Monitor.State :=
  {| Monitor.sheet := [row]; Monitor.trace := [] |}.

End Cases.

(** The test that [rosterFindByEmail] applies to the e-mail cell of a
    row. *)
Definition email_matches (emailColIdx : nat) (target : str) (row : list str) : bool :=
  truthy (Roster.cell emailColIdx row)
  && str_eqb (toLowerCase (trim (Roster.cell emailColIdx row))) target.

(** The roster rows that [importTranscriptsToDrive] takes into its map:
    the test on the three cells, the key and the entry of a row. *)
Definition row_complete (nameCol folderIdCol emailCol : nat) (row : list str) : bool :=
  truthy (trim (Roster.cell nameCol row))
  && truthy (trim (Roster.cell folderIdCol row))
  && truthy (trim (Roster.cell emailCol row)).

Definition row_key (nameCol : nat) (row : list str) : str :=
  trim (replace_all Parser.underscoreRegex (lit " ")
          (toLowerCase (Roster.cell nameCol row))).

Definition row_entry (nameCol folderIdCol emailCol : nat) (row : list str)
    : Distribution.RosterEntry :=
  {| Distribution.folderId := trim (Roster.cell folderIdCol row);
     Distribution.originalName := trim (Roster.cell nameCol row);
     Distribution.email := trim (Roster.cell emailCol row) |}.

(** No earlier row of [pre] is taken under the key [k]. *)
Definition key_is_new (nameCol folderIdCol emailCol : nat) (k : str)
    (pre : list (list str)) : bool :=
  forallb (fun r => negb (row_complete nameCol folderIdCol emailCol r
                          && str_eqb (row_key nameCol r) k)) pre.

(** The shape of the names under which the import searches the roster:
    not empty, none of the characters that the import replaces or rejects,
    white space only as single spaces between other characters. *)
Definition searched_key (k : str) : bool :=
  truthy k
  && forallb (none_of (lit "+-~`'_*")) k
  && spaced_ok true k
  && last_is (fun c => negb (is_space c)) k.

(** The objects that a run of the import has counted, and the names it
    has queued for the homework. *)
Definition total_counted (c : Distribution.Counters) : nat :=
  Distribution.importCount c + Distribution.errorCount c
  + Distribution.skippedExistsCount c + Distribution.skippedNoMatchCount c
  + Distribution.skippedAsteriskCount c.

Definition queued_names (queued : Distribution.jsmap (list str)) : list str :=
  concat (map snd queued).

(** What one object adds to the state of the loop of the import. *)
Definition item_step (st st' : Distribution.RunState) : Prop :=
  exists created,
    drive (Distribution.world st') = drive (Distribution.world st) ++ created
    /\ Distribution.importCount (Distribution.counters st')
       = Distribution.importCount (Distribution.counters st) + length created
    /\ length (queued_names (Distribution.importedFilesByStudent st'))
       = length (queued_names (Distribution.importedFilesByStudent st)) + length created
    /\ total_counted (Distribution.counters st)
       <= total_counted (Distribution.counters st')
    /\ total_counted (Distribution.counters st')
       <= total_counted (Distribution.counters st) + 1
    /\ length created <= 1
    /\ ledger (Distribution.world st') = ledger (Distribution.world st)
    /\ outbox (Distribution.world st') = outbox (Distribution.world st).

(** The test of the [catch] of the import under which it logs a
    suggestion about the folder. *)
Definition suggests_folder (message : str) : bool :=
  let low := toLowerCase message in
  (includes (lit "not found") low && includes (lit "folder") low)
  || includes (lit "permission") low || includes (lit "forbidden") low.

Module ImportCases.

(** A roster in which two rows have the key of Jane. *)
Definition rosterWithDuplicates : Roster.sheet :=
  [ [lit "Student_Name"; lit "Student_ID"; lit "Student_Email"; lit "Drive_Folder_ID"];
    [lit "Jane_Doe"; lit "S-001"; lit "jane@x.com"; lit "folder-jane"];
    [lit "Bob Roe"; lit "S-002"; []; lit "folder-bob"];
    [lit " jane doe "; lit "S-003"; lit "jane2@x.com"; lit "folder-jane-2"] ].

(** A run whose second transcript meets a folder that Drive refuses with
    [message]. *)
Definition refusedConfig (message : str) : Distribution.Config :=
  {| Distribution.STUDENT_ROSTER_ID := lit "roster-spreadsheet";
     Distribution.BUCKET_NAME := lit "bucket";
     Distribution.serviceAccountToken := Return (lit "access-token");
     Distribution.rosterValues := Some Sample.rosterValues;
     Distribution.listing :=
       Some (map (fun n => lit "transcripts/" ++ n) Sample.janeTranscripts);
     Distribution.itemEnv := fun j =>
       {| Distribution.gcsContent := Some (lit "Hello Jane.");
          Distribution.folder_error := if j =? 1 then Some message else None;
          Distribution.createFile_error := None;
          Distribution.newFileId := lit "file-" ++ of_nat j |};
     Distribution.homeworkEnv := fun _ => Sample.env_ok |}.

End ImportCases.

(* ================================================================== *)
(** * Listing of the bucket: [listGCSFiles]                             *)
(* ================================================================== *)

Module Listing.

(** An entry of [items] as the script reads it: [name] and
    [contentType], [[]] for a field that is absent or empty. *)
Record Item : Type := { name : str; contentType : str }.

(** What one request of the listing yields. *)
Inductive page_reply : Type :=
| PageThrows (message : str)           (* fetch throws, or JSON.parse or the
                                          reading of the result throws *)
| PageCode (code : nat) (googleError : str)
                                       (* a response code other than 200;
                                          [googleError] is the message of the
                                          body, or the body *)
| Page (items : list Item) (nextPageToken : str).
                                       (* 200; [[]] for absent [items] and
                                          for an absent token *)

(** The storage service: the reply to the request number [k] of a call,
    made for [bucketName] with the prefix and the page token of the URL. *)
Definition Remote : Type := nat -> str -> str -> str -> page_reply.

Definition folderObjectType : str :=
  lit "application/x-www-form-urlencoded;charset=UTF-8".

(** [(prefix && prefix !== "/" && !prefix.endsWith('/')) ? `${prefix}/`
     : (prefix === "/" ? '' : prefix)] *)
Definition effectivePrefix (prefix : str) : str :=
  if truthy prefix && negb (str_eqb prefix (lit "/"))
     && negb (endsWith (lit "/") prefix)
  then prefix ++ lit "/"
  else if str_eqb prefix (lit "/") then [] else prefix.

(** [mimeTypes.some(type => item.contentType &&
     item.contentType.toLowerCase().startsWith(type.toLowerCase()))] *)
Definition matchesMime (mimeTypes : list str) (item : Item) : bool :=
  existsb (fun type =>
             truthy (contentType item)
             && startsWith (toLowerCase type) (toLowerCase (contentType item)))
          mimeTypes.

(** The callback of [result.items.filter]; [mimeTypes] is [[]] for
    [null] and for the empty array. *)
Definition keeps (effPrefix : str) (mimeTypes : list str) (item : Item) : bool :=
  if truthy effPrefix && str_eqb (name item) effPrefix
     && str_eqb (contentType item) folderObjectType
  then false
  else if negb (truthy (name item)) then false
  else if 0 <? length mimeTypes then matchesMime mimeTypes item
  else true.

Definition failed (code : nat) (googleError : str) : str :=
  lit "GCS list files failed (" ++ of_nat code ++ lit "): " ++ googleError.

(** The [do ... while (pageToken)] loop.  [fuel] bounds the number of
    requests, the result is [None] when it does not suffice; the first
    component lists the page tokens of the requests that were made, [[]]
    for the request without a token. *)
Fixpoint pages (fuel : nat) (remote : Remote) (bucketName effPrefix : str)
    (mimeTypes : list str) (k : nat) (pageToken : str) (allFiles : list Item)
    : list str * option (completion (list Item)) :=
  match fuel with
  | 0 => ([], None)
  | S fuel' =>
      match remote k bucketName effPrefix pageToken with
      | PageThrows message =>
          ([pageToken],
           Some (Throw (lit "Exception listing GCS files: " ++ message)))
      | PageCode code googleError =>
          ([pageToken],
           Some (Throw (lit "Exception listing GCS files: "
                        ++ failed code googleError)))
      | Page items nextPageToken =>
          let allFiles := allFiles ++ filter (keeps effPrefix mimeTypes) items in
          if truthy nextPageToken then
            let '(requests, result) :=
              pages fuel' remote bucketName effPrefix mimeTypes (S k)
                    nextPageToken allFiles in
            (pageToken :: requests, result)
          else ([pageToken], Some (Return allFiles))
      end
  end.

(** [listGCSFiles(bucketName, prefix, mimeTypes)]; [auth] is the outcome
    of [getServiceAccountToken()]. *)
Definition listGCSFiles (fuel : nat) (auth : completion str) (remote : Remote)
    (bucketName prefix : str) (mimeTypes : list str)
    : list str * option (completion (list Item)) :=
  match auth with
  | Throw message =>
      ([], Some (Throw (lit "Auth failed in listGCSFiles: " ++ message)))
  | Return accessToken =>
      if negb (truthy bucketName) then ([], Some (Throw (lit "Bucket name required.")))
      else pages fuel remote bucketName (effectivePrefix prefix) mimeTypes 0 [] []
  end.

End Listing.

(** The items of the page that answers the request [k], none for a
    request that fails. *)
Definition items_of (reply : Listing.page_reply) : list Listing.Item :=
  match reply with
  | Listing.Page items _ => items
  | _ => []
  end.

Definition token_of (reply : Listing.page_reply) : str :=
  match reply with
  | Listing.Page _ nextPageToken => nextPageToken
  | _ => []
  end.

Definition is_page (reply : Listing.page_reply) : bool :=
  match reply with
  | Listing.Page _ _ => true
  | _ => false
  end.

(** The replies to the requests [requests], numbered from [k]: each is a
    page, and the token of a page is the token of the next request, the
    last page having none. *)
Fixpoint chained (remote : Listing.Remote) (bucketName effPrefix : str) (k : nat)
    (requests : list str) : Prop :=
  match requests with
  | [] => False
  | pageToken :: rest =>
      is_page (remote k bucketName effPrefix pageToken) = true
      /\ match rest with
         | [] => token_of (remote k bucketName effPrefix pageToken) = []
         | next :: _ =>
             token_of (remote k bucketName effPrefix pageToken) = next
             /\ truthy next = true
             /\ chained remote bucketName effPrefix (S k) rest
         end
  end.

(** The items of the pages that answer [requests], in the order of the
    requests. *)
Fixpoint listed (remote : Listing.Remote) (bucketName effPrefix : str) (k : nat)
    (requests : list str) : list Listing.Item :=
  match requests with
  | [] => []
  | pageToken :: rest =>
      items_of (remote k bucketName effPrefix pageToken)
        ++ listed remote bucketName effPrefix (S k) rest
  end.

Module ListingCases.

Definition folderObject : Listing.Item :=
  {| Listing.name := lit "transcripts/";
     Listing.contentType := Listing.folderObjectType |}.

Definition firstTranscript : Listing.Item :=
  {| Listing.name := lit "transcripts/Jane_Doe_2024-03-01_AbCdEfGhIj.txt";
     Listing.contentType := lit "text/plain" |}.

Definition notes : Listing.Item :=
  {| Listing.name := lit "transcripts/notes.json";
     Listing.contentType := lit "application/json" |}.

Definition secondTranscript : Listing.Item :=
  {| Listing.name := lit "transcripts/Jane_Doe_2024-03-02_UvWxYz0123.txt";
     Listing.contentType := lit "Text/Plain; charset=utf-8" |}.

(** A bucket whose listing of transcripts/ comes in two pages; any other
    request is refused. *)
Definition twoPages : Listing.Remote :=
  fun k bucketName effPrefix pageToken =>
    if str_eqb bucketName (lit "bucket") && str_eqb effPrefix (lit "transcripts/")
    then
      if str_eqb pageToken [] then
        Listing.Page [folderObject; firstTranscript; notes] (lit "page-2")
      else if str_eqb pageToken (lit "page-2") then
        Listing.Page [secondTranscript] []
      else Listing.PageCode 400 (lit "Invalid page token")
    else Listing.PageCode 404 (lit "Not Found").

End ListingCases.

(* ================================================================== *)
(** * Homework for the transcripts in Drive:
      [processCompletedTranscripts] of [src/Code.js]                    *)
(* ================================================================== *)

Module Completed.

Import World.

(** What a run meets outside the script. *)
Record Env : Type := {
  STUDENT_ROSTER_ID : str;                (* script property, [] when unset *)
  openById_error : option str;            (* SpreadsheetApp.openById throws *)
  rosterValues : option Roster.sheet;     (* None: no tab 'Current_Students' *)
  ledgerHeader : option (list str);       (* first row of the homework tab;
                                             None: no tab of that name *)
  folder_error : str -> option str;       (* getFolderById / getFilesByType
                                             throws for the folder *)
  plainText : DriveFile -> bool;          (* getFilesByType(MimeType.PLAIN_TEXT)
                                             yields the file; the world does
                                             not record MIME types *)
  homeworkEnv : str -> Homework.Env       (* per student address *)
}.

(** The cells of a ledger row, in the order in which
    [saveHomeworkPrompt] appends them. *)
Definition cells (r : HwRow) : list str :=
  [World.Student_ID r; Student_Name r; Student_Email r; HW_ID r; PromptFileID r;
   Token r; AssignedAt r; CompletedAt r; Token_Status r; of_nat (Turns_Used r)].

(** [/^prompt_/] *)
Definition promptPrefixRegex : regex := Anchored (Str (lit "prompt_")).

(** [DriveApp.getFileById(id).getName()]; [None] when it throws. *)
Definition getName_byId (id : str) (w : World.t) : option str :=
  match find (fun f => str_eqb (fileId f) id) (drive w) with
  | Some f => Some (name f)
  | None => None
  end.

(** [Set.prototype.add] *)
Definition set_add (x : str) (set : list str) : list str :=
  if Discovery.set_has set x then set else set ++ [x].

(** The loop over the rows of the homework ledger. *)
Fixpoint processedTranscripts (promptFileIdCol : nat) (rows : list HwRow)
    (w : World.t) (processed : list str) : list str :=
  match rows with
  | [] => processed
  | row :: rest =>
      let promptFileId := Roster.cell promptFileIdCol (cells row) in
      let processed :=
        match getName_byId promptFileId w with
        | Some promptFileName =>
            set_add (replace promptPrefixRegex [] promptFileName) processed
        | None => processed
        end in
      processedTranscripts promptFileIdCol rest w processed
  end.

(** The names that [studentFolder.getFilesByType(MimeType.PLAIN_TEXT)]
    yields, in the order of the world. *)
Definition textFiles (env : Env) (folder : str) (w : World.t) : list str :=
  map name
      (filter (fun f => str_eqb (World.folderId f) folder && plainText env f)
              (drive w)).

(** The test under which a transcript is queued. *)
Definition is_new (processed : list str) (transcriptName : str) : bool :=
  negb (Discovery.set_has processed transcriptName)
  && negb (startsWith (lit "prompt_") transcriptName).

(** The [while (transcriptFiles.hasNext())] loop. *)
Fixpoint queue_folder (studentEmail : str) (names : list str) (processed : list str)
    (queued : Distribution.jsmap (list str)) : Distribution.jsmap (list str) :=
  match names with
  | [] => queued
  | transcriptName :: rest =>
      let queued :=
        if is_new processed transcriptName then
          Distribution.map_push studentEmail transcriptName
            (if negb (Distribution.map_has studentEmail queued)
             then Distribution.map_set_new studentEmail [] queued
             else queued)
        else queued in
      queue_folder studentEmail rest processed queued
  end.

(** The loop over the data rows of the roster. *)
Fixpoint scan_roster (env : Env) (emailCol folderIdCol : nat)
    (rows : list (list str)) (processed : list str) (w : World.t)
    (queued : Distribution.jsmap (list str)) : Distribution.jsmap (list str) :=
  match rows with
  | [] => queued
  | row :: rest =>
      let studentEmail := Roster.cell emailCol row in
      let folderId := Roster.cell folderIdCol row in
      let queued :=
        if negb (truthy studentEmail) || negb (truthy folderId) then queued
        else
          match folder_error env folderId with
          | Some _ => queued
          | None =>
              queue_folder studentEmail (textFiles env folderId w) processed queued
          end in
      scan_roster env emailCol folderIdCol rest processed w queued
  end.

(** The loop over [newTranscriptsByStudent.entries()]; an error of
    [assignHomework] is logged and the loop goes on. *)
Fixpoint assign_each (hw : str -> Homework.Env)
    (batches : Distribution.jsmap (list str)) (w : World.t) : World.t :=
  match batches with
  | [] => w
  | (studentEmail, transcriptFileNames) :: rest =>
      assign_each hw rest
        (snd (Homework.assignHomework V9 (hw studentEmail) studentEmail
                transcriptFileNames w))
  end.

(** The set of the names already processed, as a run computes it. *)
Definition processed_of (header : list str) (w : World.t) : list str :=
  match Roster.indexOf (lit "promptfileid")
          (map (fun h => trim (toLowerCase h)) header) with
  | Some promptFileIdCol => processedTranscripts promptFileIdCol (ledger w) w []
  | None => []
  end.

(** The batches that a run queues, [None] when it ends before the scan. *)
Definition queued_of (env : Env) (w : World.t)
    : option (Distribution.jsmap (list str)) :=
  match rosterValues env, ledgerHeader env with
  | Some rosterData, Some header =>
      let studentHeader := Roster.headerLower rosterData in
      match Roster.indexOf (lit "student_name") studentHeader,
            Roster.indexOf (lit "drive_folder_id") studentHeader,
            Roster.indexOf (lit "student_email") studentHeader with
      | Some _, Some folderIdCol, Some emailCol =>
          Some (scan_roster env emailCol folderIdCol (tl rosterData)
                  (processed_of header w) w [])
      | _, _, _ => None
      end
  | _, _ => None
  end.

(** [processCompletedTranscripts()] *)
Definition processCompletedTranscripts (env : Env) (w : World.t)
    : completion World.t :=
  if negb (truthy (STUDENT_ROSTER_ID env)) then Return w
  else
    match openById_error env with
    | Some message => Throw message
    | None =>
        match queued_of env w with
        | Some newTranscriptsByStudent =>
            Return (assign_each (homeworkEnv env) newTranscriptsByStudent w)
        | None => Return w
        end
    end.

End Completed.

(** The names that the roster row [row] contributes to the batch of the
    address [e] in a run of [processCompletedTranscripts]. *)
Definition offered (env : Completed.Env) (emailCol folderIdCol : nat)
    (processed : list str) (w : World.t) (e : str) (row : list str) : list str :=
  let folderId := Roster.cell folderIdCol row in
  if str_eqb (Roster.cell emailCol row) e && truthy e && truthy folderId
     && match Completed.folder_error env folderId with
        | None => true
        | Some _ => false
        end
  then filter (Completed.is_new processed) (Completed.textFiles env folderId w)
  else [].

(** The name that a run takes as processed once the homework of a batch
    that starts with [firstTranscriptName] has been assigned. *)
Definition marked_name (henv : Homework.Env) (student : Roster.Student)
    (firstTranscriptName : str) : str :=
  replace Completed.promptPrefixRegex []
    (Homework.promptFileName_of V9 henv student firstTranscriptName).

(** No file of the world has the identifier [id]. *)
Definition fresh_id (id : str) (w : World.t) : Prop :=
  Forall (fun f => fileId f <> id) (drive w).

(** The batches queued so far: no address twice, no empty batch, no
    empty address. *)
Definition queue_ok (queued : Distribution.jsmap (list str)) : Prop :=
  NoDup (map fst queued)
  /\ Forall (fun b : str * list str => snd b <> []) queued
  /\ Forall (fun b : str * list str => truthy (fst b) = true) queued.

(** The name [n] is the one that the assignment of some queued batch
    marks. *)
Definition marked_by (hw : str -> Homework.Env)
    (queued : Distribution.jsmap (list str)) (n : str) : Prop :=
  exists e names student,
    In (e, names) queued
    /\ Roster.rosterFindByEmail (Homework.roster (hw e)) e = Some student
    /\ n = marked_name (hw e) student (hd [] names).

(** The world [w] has grown out of [w0] by files whose names, less the
    prefix prompt_, satisfy [M], and by ledger rows that point to files
    that [w0] does not have. *)
Definition grown (M : str -> Prop) (w0 w : World.t) : Prop :=
  exists created rows,
    drive w = drive w0 ++ created
    /\ ledger w = ledger w0 ++ rows
    /\ Forall (fun f => M (replace Completed.promptPrefixRegex [] (name f))) created
    /\ Forall (fun r => fresh_id (PromptFileID r) w0) rows.

(** The identifiers that Drive gives to the prompt files of the queued
    batches are those of no file of [w]. *)
Definition fresh_ids (hw : str -> Homework.Env)
    (queued : Distribution.jsmap (list str)) (w : World.t) : Prop :=
  forall e names, In (e, names) queued -> fresh_id (Homework.newFileId (hw e)) w.

(** Two runs read the same roster and the same folders. *)
Definition same_sources (env env' : Completed.Env) : Prop :=
  Completed.rosterValues env' = Completed.rosterValues env
  /\ Completed.ledgerHeader env' = Completed.ledgerHeader env
  /\ (forall folder, Completed.folder_error env' folder
                     = Completed.folder_error env folder)
  /\ (forall f, Completed.plainText env' f = Completed.plainText env f).

Module CompletedCases.

(** The folder of Jane holds two transcripts; no homework has been
    assigned yet. *)
Definition twoTranscripts : World.t :=
  {| drive := [ {| fileId := lit "transcript-1"; World.folderId := lit "folder-jane";
                   name := lit "Jane_Doe_2024-03-01_AbCdEfGhIj.txt";
                   content := lit "Hello Jane."; trashed := false |};
                {| fileId := lit "transcript-2"; World.folderId := lit "folder-jane";
                   name := lit "Jane_Doe_2024-03-02_UvWxYz0123.txt";
                   content := lit "Hello again."; trashed := false |} ];
     ledger := []; outbox := []; log := [] |}.

Definition ledgerHeader : list str :=
  map lit ["Student_ID"; "Student_Name"; "Student_Email"; "HW_ID"; "PromptFileID";
           "Token"; "AssignedAt"; "CompletedAt"; "Token_Status"; "Turns_Used"]%string.

(** A run in which everything goes through. *)
Definition env : Completed.Env :=
  {| Completed.STUDENT_ROSTER_ID := lit "roster-spreadsheet";
     Completed.openById_error := None;
     Completed.rosterValues := Some Sample.rosterValues;
     Completed.ledgerHeader := Some ledgerHeader;
     Completed.folder_error := fun _ => None;
     Completed.plainText := fun _ => true;
     Completed.homeworkEnv := fun _ => Sample.env_ok |}.

Definition queued : Distribution.jsmap (list str) :=
  [(lit "jane@x.com",
    [lit "Jane_Doe_2024-03-01_AbCdEfGhIj.txt"; lit "Jane_Doe_2024-03-02_UvWxYz0123.txt"])].

(** The world that the run leaves. *)
Definition afterRun : World.t :=
  match Completed.processCompletedTranscripts env twoTranscripts with
  | Return w' => w'
  | Throw _ => twoTranscripts
  end.

(** The folder of Jane after homework has been assigned for both
    transcripts: each has a prompt file that bears its name, and the
    ledger points to the two prompt files. *)
Definition settledWorld : World.t :=
  {| drive := drive twoTranscripts
              ++ [ {| fileId := lit "prompt-1"; World.folderId := lit "folder-jane";
                      name := lit "prompt_Jane_Doe_2024-03-01_AbCdEfGhIj.txt";
                      content := lit "Prompt."; trashed := false |};
                   {| fileId := lit "prompt-2"; World.folderId := lit "folder-jane";
                      name := lit "prompt_Jane_Doe_2024-03-02_UvWxYz0123.txt";
                      content := lit "Prompt."; trashed := false |} ];
     ledger := [ Homework.newRowData Sample.jane (lit "L2-20240302") (lit "prompt-1")
                   (lit "token-1") (lit "2024-03-02T09:00:00.000Z");
                 Homework.newRowData Sample.jane (lit "L2-20240303") (lit "prompt-2")
                   (lit "token-2") (lit "2024-03-03T09:00:00.000Z") ];
     outbox := []; log := [] |}.

End CompletedCases.

(** Data for the statements on the homework identifier. *)
Module IdentifierCases.

(** What the lookup of the sample roster returns for the address of Bob,
    who sits in the third row of the sheet. *)
Definition bob : Roster.Student :=
  {| Roster.Student_ID := lit "S-002"; Roster.Name := lit "Bob Roe";
     Roster.Email := lit "bob@x.com"; Roster.Drive_Folder_ID := lit "folder-bob";
     Roster.LifeStyle := []; Roster.RosterRowIndex := 3 |}.

End IdentifierCases.

(** Data for the statements on the discovery. *)
Module DiscoveryCases.



End DiscoveryCases.

(** Data for the statements on the consolidation of the homework. *)
Module ConsolidationCases.






End ConsolidationCases.
(* ================================================================== *)
(** * Basic facts about strings                                         *)
(* ================================================================== *)

Lemma str_eqb_refl (s : str) : str_eqb s s = true.
Proof. unfold str_eqb. destruct (list_eq_dec ascii_dec s s); congruence. Qed.

Lemma str_eqb_eq (a b : str) : str_eqb a b = true <-> a = b.
Proof.
  unfold str_eqb. destruct (list_eq_dec ascii_dec a b); split; congruence.
Qed.

Lemma str_eqb_neq (a b : str) : str_eqb a b = false <-> a <> b.
Proof.
  unfold str_eqb. destruct (list_eq_dec ascii_dec a b); split; congruence.
Qed.

Lemma truthy_nonempty (s : str) : truthy s = true <-> s <> [].
Proof. destruct s; simpl; split; congruence. Qed.

Lemma truthy_app_l (a b : str) : truthy a = true -> truthy (a ++ b) = true.
Proof. destruct a; simpl; congruence. Qed.

(* ================================================================== *)
(** * C5: the job submission adapter                                    *)
(* ================================================================== *)

Section SubmissionFacts.
Variable JSON_parse : str -> option Json.value.

Lemma v8_never_throws url fetch :
  truthy url = true ->
  exists r, Submission.sendFileInfoToCloudRun JSON_parse url fetch = Return r.
Proof.
  intros Hu. unfold Submission.sendFileInfoToCloudRun. rewrite Hu. simpl.
  destruct fetch as [msg | code text]; [eauto |].
  destruct (code =? 200); simpl; [| eauto].
  destruct (JSON_parse text) as [result |]; [| eauto].
  destruct (Json.truthy result); [| eauto].
  destruct (Json.get (lit "job_id") result) as [[ | b | n | j | items | fields ] |]; eauto.
  destruct (truthy j && negb (str_eqb (trim j) [])); eauto.
Qed.

Lemma v8_on_200 url text :
  truthy url = true ->
  Submission.sendFileInfoToCloudRun JSON_parse url (Response 200 text)
  = Return match JSON_parse text with
           | Some result => accepted_job_id result
           | None => None
           end.
Proof.
  intros Hu. unfold Submission.sendFileInfoToCloudRun, accepted_job_id.
  rewrite Hu. simpl.
  destruct (JSON_parse text) as [result |]; [| reflexivity].
  destruct (Json.truthy result); [| reflexivity].
  destruct (Json.get (lit "job_id") result) as [[ | b | n | j | items | fields ] |];
    try reflexivity.
  destruct (truthy j && negb (str_eqb (trim j) [])); reflexivity.
Qed.

Lemma accepted_job_id_nonempty result job :
  accepted_job_id result = Some job -> job <> [].
Proof.
  unfold accepted_job_id.
  destruct (Json.truthy result); [| discriminate].
  destruct (Json.get (lit "job_id") result) as [[ | b | n | j | items | fields ] |];
    try discriminate.
  destruct (truthy j) eqn:Hj; simpl; [| discriminate].
  destruct (str_eqb (trim j) []) eqn:He; simpl; [discriminate |].
  intros H. inversion H; subst. now apply str_eqb_neq.
Qed.
End SubmissionFacts.

(** C5, as stated, fails on [src/Code.js]: a response other than 200 is
    not turned into [null] or [false] there, it is thrown. *)
Lemma C5_v9_throws_on_non_200 :
  Submission.sendFileInfoToCloudRun_v9 (fun _ => None) (lit "https://run.example")
    (Response 500 (lit "Internal Server Error"))
  = Throw (lit "Cloud Run returned non-200 status: 500")
  /\ forall r,
       Submission.sendFileInfoToCloudRun_v9 (fun _ => None)
         (lit "https://run.example") (Response 500 (lit "Internal Server Error"))
       <> Return r.
Proof. split; [reflexivity | intros r H; discriminate H]. Qed.

(** C5, amended.  With the Cloud Run URL set, the version of
    [src/unnamed/part_000] never throws: it returns the trimmed, non-empty
    job identifier of a 200 response whose body parses and carries a
    string [job_id], and [null] on a network error, on a response other
    than 200, on a body that does not parse and on a missing or unusable
    [job_id].  The version of [src/Code.js] returns [true] for a 200
    response whose body is the expected receipt and throws in every other
    case: network error, response other than 200, body that does not
    parse, unrecognized 200 body. *)
Theorem C5_submission_outcomes :
  forall (JSON_parse : str -> option Json.value) (url : str) (fetch : fetch_result),
    truthy url = true ->
    (* part_000 *)
    (exists r, Submission.sendFileInfoToCloudRun JSON_parse url fetch = Return r)
    /\ (forall msg, fetch = FetchThrows msg ->
          Submission.sendFileInfoToCloudRun JSON_parse url fetch = Return None)
    /\ (forall code text, fetch = Response code text -> code <> 200 ->
          Submission.sendFileInfoToCloudRun JSON_parse url fetch = Return None)
    /\ (forall text, fetch = Response 200 text -> JSON_parse text = None ->
          Submission.sendFileInfoToCloudRun JSON_parse url fetch = Return None)
    /\ (forall text result, fetch = Response 200 text ->
          JSON_parse text = Some result ->
          Submission.sendFileInfoToCloudRun JSON_parse url fetch
          = Return (accepted_job_id result)
          /\ (forall job, accepted_job_id result = Some job -> job <> [])
          /\ (Json.get (lit "job_id") result = None ->
              accepted_job_id result = None))
    (* Code.js *)
    /\ (forall msg, fetch = FetchThrows msg ->
          exists e, Submission.sendFileInfoToCloudRun_v9 JSON_parse url fetch = Throw e)
    /\ (forall code text, fetch = Response code text -> code <> 200 ->
          exists e, Submission.sendFileInfoToCloudRun_v9 JSON_parse url fetch = Throw e)
    /\ (forall text, fetch = Response 200 text ->
          Submission.sendFileInfoToCloudRun_v9 JSON_parse url fetch
          = match JSON_parse text with
            | Some result =>
                if is_receipt result then Return true
                else Throw (lit "Failed to parse Cloud Run success response.")
            | None => Throw (lit "Failed to parse Cloud Run success response.")
            end).
Proof.
  intros JSON_parse url fetch Hu.
  split; [now apply v8_never_throws |].
  split.
  { intros msg ->. unfold Submission.sendFileInfoToCloudRun. now rewrite Hu. }
  split.
  { intros code text -> Hc. unfold Submission.sendFileInfoToCloudRun.
    rewrite Hu. simpl. apply Nat.eqb_neq in Hc. now rewrite Hc. }
  split.
  { intros text -> Hp. rewrite v8_on_200 by assumption. now rewrite Hp. }
  split.
  { intros text result -> Hp. rewrite v8_on_200 by assumption. rewrite Hp.
    split; [reflexivity |]. split.
    - intros job. apply accepted_job_id_nonempty.
    - intros Hg. unfold accepted_job_id. rewrite Hg.
      now destruct (Json.truthy result). }
  split.
  { intros msg ->. unfold Submission.sendFileInfoToCloudRun_v9. rewrite Hu.
    simpl. eauto. }
  split.
  { intros code text -> Hc. unfold Submission.sendFileInfoToCloudRun_v9.
    rewrite Hu. simpl. apply Nat.eqb_neq in Hc. rewrite Hc. eauto. }
  intros text ->. unfold Submission.sendFileInfoToCloudRun_v9, is_receipt.
  rewrite Hu. simpl. destruct (JSON_parse text); reflexivity.
Qed.

(** A run of C5 on a concrete response. *)
Lemma C5_submission_outcomes_witness :
  truthy (lit "https://run.example") = true
  /\ exists r,
       Submission.sendFileInfoToCloudRun
         (fun _ => Some (Json.JObj [(lit "job_id", Json.JStr (lit " j42 "))]))
         (lit "https://run.example") (Response 200 (lit "{}")) = Return r.
Proof.
  split; [reflexivity |].
  apply (C5_submission_outcomes
           (fun _ => Some (Json.JObj [(lit "job_id", Json.JStr (lit " j42 "))]))
           (lit "https://run.example") (Response 200 (lit "{}"))).
  reflexivity.
Defined.

(* ================================================================== *)
(** * Facts about the homework functions                                *)
(* ================================================================== *)

Import World.

Lemma find_row_first emailCol driveCol target rows : forall r,
  match Roster.find_row emailCol driveCol target r rows with
  | Some student =>
      exists pre row post,
        rows = pre ++ row :: post
        /\ forallb (fun x => negb (email_matches emailCol target x)) pre = true
        /\ email_matches emailCol target row = true
        /\ student
           = {| Roster.Student_ID := Roster.cell Roster.COL_ROSTER_STUDENT_ID row;
                Roster.Name := Roster.cell Roster.COL_ROSTER_STUDENT_NAME row;
                Roster.Email := trim (Roster.cell emailCol row);
                Roster.Drive_Folder_ID := Roster.cell driveCol row;
                Roster.LifeStyle := Roster.cell Roster.COL_ROSTER_LIFE_AND_LIFESTYLE row;
                Roster.RosterRowIndex := r + length pre + 1 |}
  | None => forallb (fun x => negb (email_matches emailCol target x)) rows = true
  end.
Proof.
  induction rows as [| row rest IH]; intros r; cbn [Roster.find_row]; [reflexivity |].
  fold (email_matches emailCol target row).
  destruct (email_matches emailCol target row) eqn:Hm.
  - exists [], row, rest. cbn [app length forallb]. rewrite Nat.add_0_r. auto.
  - specialize (IH (S r)).
    destruct (Roster.find_row emailCol driveCol target (S r) rest) as [student |].
    + destruct IH as (pre & row' & post & -> & Hp & Hr & ->).
      exists (row :: pre), row', post. cbn [app length forallb]. rewrite Hm, Hp.
      repeat split; try assumption. f_equal. lia.
    + cbn [forallb]. now rewrite Hm, IH.
Qed.

(** The lookup reads of the address only its trimmed lower-case form. *)
Lemma rosterFindByEmail_target src email email2 :
  truthy email = true -> truthy email2 = true ->
  trim (toLowerCase email2) = trim (toLowerCase email) ->
  Roster.rosterFindByEmail src email2 = Roster.rosterFindByEmail src email.
Proof.
  intros T T2 E. unfold Roster.rosterFindByEmail. now rewrite T, T2, E.
Qed.

Lemma rosterFindByEmail_truthy src email student :
  Roster.rosterFindByEmail src email = Some student -> truthy email = true.
Proof.
  unfold Roster.rosterFindByEmail. destruct (truthy email); [reflexivity | discriminate].
Qed.

(** The row of the sheet in which the lookup finds a student. *)
Lemma rosterFindByEmail_first src email student :
  Roster.rosterFindByEmail src email = Some student ->
  exists header pre row post emailCol,
    Roster.Current_Students src = Some (header :: pre ++ row :: post)
    /\ Roster.indexOf (lit "student_email")
         (map (fun h => trim (toLowerCase h)) header) = Some emailCol
    /\ forallb (fun x => negb (email_matches emailCol (trim (toLowerCase email)) x))
         pre = true
    /\ email_matches emailCol (trim (toLowerCase email)) row = true
    /\ Roster.Email student = trim (Roster.cell emailCol row)
    /\ Roster.RosterRowIndex student = length pre + 2.
Proof.
  unfold Roster.rosterFindByEmail.
  destruct (truthy email); cbn [negb]; [| discriminate].
  destruct (truthy (Roster.SPREAD_ID src)); cbn [negb]; [| discriminate].
  destruct (Roster.Current_Students src) as [values |]; [| discriminate].
  destruct (length values <? 2) eqn:Hlen; [discriminate |].
  destruct values as [| header rows]; [discriminate |].
  unfold Roster.headerLower. cbn [hd tl].
  destruct (Roster.indexOf _ _) as [emailCol |] eqn:Hi; [| discriminate].
  destruct (Roster.driveColIdx src) as [driveCol |]; [| discriminate].
  intros H.
  pose proof (find_row_first emailCol driveCol (trim (toLowerCase email)) rows 1) as F.
  rewrite H in F. destruct F as (pre & row & post & -> & Hp & Hr & ->).
  exists header, pre, row, post, emailCol.
  cbn [Roster.Email Roster.RosterRowIndex].
  repeat split; try assumption; try reflexivity. lia.
Qed.

Lemma hwId_of_positive row today :
  row <> 0 ->
  Homework.hwId_of row today
  = lit "L" ++ of_nat row ++ lit "-" ++ formatDate_yyyyMMdd today.
Proof.
  intros H. unfold Homework.hwId_of. apply Nat.eqb_neq in H. now rewrite H.
Qed.

(** What a normal return of [saveHomeworkPrompt] leaves behind. *)
Lemma saveHomeworkPrompt_return v env email hwId base pname w token w' :
  Homework.saveHomeworkPrompt v env email hwId base pname w = (Return token, w') ->
  token = Homework.uuid env
  /\ outbox w' = outbox w
  /\ exists student file,
       Roster.rosterFindByEmail (Homework.roster env) email = Some student
       /\ drive w' = drive w ++ [file]
       /\ fileId file = Homework.newFileId env
       /\ folderId file = Roster.Drive_Folder_ID student
       /\ content file = Homework.fullPrompt base (Roster.LifeStyle student)
       /\ trashed file = false
       /\ ledger w'
          = ledger w ++ [Homework.newRowData student hwId (Homework.newFileId env)
                           (Homework.uuid env) (Homework.assignedAt env)].
Proof.
  unfold Homework.saveHomeworkPrompt.
  destruct (Roster.rosterFindByEmail _ email) as [student |]; [| discriminate].
  destruct (truthy (Roster.Drive_Folder_ID student)); simpl;
    [| destruct v; discriminate].
  destruct (Homework.createFile_error env); [discriminate |].
  destruct (Homework.ledger_block v env); unfold Homework.compensate;
    try discriminate.
  intros H. inversion H; subst; clear H.
  split; [reflexivity |].
  destruct (match v with V8 => _ | V9 => _ end); simpl;
    (split; [reflexivity |]); eexists; eexists;
    (split; [reflexivity |]); simpl; repeat split; reflexivity.
Qed.

(** [saveHomeworkPrompt] never sends mail. *)
Lemma saveHomeworkPrompt_outbox v env email hwId base pname w res w' :
  Homework.saveHomeworkPrompt v env email hwId base pname w = (res, w') ->
  outbox w' = outbox w.
Proof.
  unfold Homework.saveHomeworkPrompt, Homework.compensate, Homework.log_v8.
  intros H.
  repeat match type of H with
         | context [match ?x with _ => _ end] => destruct x; simpl in H
         | context [if ?x then _ else _] => destruct x; simpl in H
         end;
    inversion H; subst; reflexivity.
Qed.

Lemma saveHomeworkPrompt_succeeds v env email hwId base pname w :
  assignment_succeeds v env email ->
  exists w', Homework.saveHomeworkPrompt v env email hwId base pname w
             = (Return (Homework.uuid env), w').
Proof.
  intros [student [Hf [Hd [Hc Hl]]]].
  unfold Homework.saveHomeworkPrompt. rewrite Hf, Hd, Hc, Hl. simpl. eauto.
Qed.

Lemma trash_one_untrashed id f :
  trashed (trash_one id f) = false -> trash_one id f = f /\ fileId f <> id.
Proof.
  unfold trash_one. destruct (str_eqb (fileId f) id) eqn:He; simpl.
  - discriminate.
  - intros _. split; [reflexivity | now apply str_eqb_neq].
Qed.

Lemma trash_one_hit id f : fileId f = id -> trashed (trash_one id f) = true.
Proof. intros <-. unfold trash_one. now rewrite str_eqb_refl. Qed.

Lemma set_trashed_spec id w f :
  In f (drive (set_trashed id w)) ->
  (fileId f = id -> trashed f = true)
  /\ (trashed f = false -> In f (drive w)).
Proof.
  unfold set_trashed. simpl. intros Hin. apply in_map_iff in Hin.
  destruct Hin as [f0 [<- Hin0]]. split.
  - unfold trash_one. destruct (str_eqb (fileId f0) id) eqn:He; simpl.
    + reflexivity.
    + intros Hid. apply str_eqb_neq in He. contradiction.
  - intros Hu. apply trash_one_untrashed in Hu. destruct Hu as [-> _].
    exact Hin0.
Qed.

Lemma drive_log_v8 v line w : drive (Homework.log_v8 v line w) = drive w.
Proof. destruct v; reflexivity. Qed.

Lemma ledger_log_v8 v line w : ledger (Homework.log_v8 v line w) = ledger w.
Proof. destruct v; reflexivity. Qed.

(** After the compensation, with [setTrashed] going through, no file that
    carries the identifier of the prompt file is left untrashed, and every
    untrashed file was already in the world [w0] that preceded the
    creation of the prompt file [file]. *)
Lemma compensate_spec v env hwId email message w0 file w res w' :
  Homework.compensate v env hwId email message w = (res, w') ->
  drive w = drive w0 ++ [file] ->
  fileId file = Homework.newFileId env ->
  res = Throw (lit "Failed to append ledger row: " ++ message)
  /\ ledger w' = ledger w
  /\ (Homework.setTrashed_error env = None ->
      forall f, In f (drive w') ->
        (fileId f = Homework.newFileId env -> trashed f = true)
        /\ (trashed f = false -> In f (drive w0)))
  /\ (forall trashErr, Homework.setTrashed_error env = Some trashErr ->
      drive w' = drive w
      /\ (v = V8 -> exists before, log w' = before ++ [trash_warning env trashErr])).
Proof.
  unfold Homework.compensate. intros H Hd Hid. inversion H; subst; clear H.
  split; [reflexivity |]. split.
  { destruct (Homework.setTrashed_error env); now rewrite ledger_log_v8. }
  split.
  - intros Hn. rewrite Hn. rewrite drive_log_v8. intros f Hin.
    apply set_trashed_spec in Hin. destruct Hin as [H1 H2].
    split; [exact H1 |]. intros Hu. specialize (H2 Hu). simpl in H2.
    rewrite Hd in H2. apply in_app_or in H2. destruct H2 as [H2 | [<- | []]].
    + exact H2.
    + specialize (H1 Hid). congruence.
  - intros trashErr Ht. rewrite Ht. rewrite drive_log_v8. split; [reflexivity |].
    intros ->. simpl. eexists. reflexivity.
Qed.

(** On an error exit of [saveHomeworkPrompt] with a working [setTrashed],
    the untrashed files are among those present before the call. *)
Lemma saveHomeworkPrompt_error_exit v env email hwId base pname w e w' :
  Homework.saveHomeworkPrompt v env email hwId base pname w = (Throw e, w') ->
  Homework.setTrashed_error env = None ->
  forall f, In f (drive w') -> trashed f = false -> In f (drive w).
Proof.
  unfold Homework.saveHomeworkPrompt.
  destruct (Roster.rosterFindByEmail _ email) as [st |].
  2:{ intros H _ f. inversion H; subst. now rewrite drive_log_v8. }
  destruct (truthy (Roster.Drive_Folder_ID st)); simpl.
  2:{ intros H _ f. destruct v; inversion H; subst; simpl; auto. }
  set (fb := match v with V8 => negb (truthy (trim pname)) | V9 => false end).
  destruct (Homework.createFile_error env) as [ce |].
  { intros H _ f. inversion H; subst. rewrite drive_log_v8.
    destruct fb; simpl; auto. }
  match goal with
  | |- context [add_file ?file ?wx] => set (file1 := file); set (w0 := wx)
  end.
  assert (Hw0 : drive w0 = drive w) by (unfold w0; destruct fb; reflexivity).
  destruct (Homework.ledger_block v env) as [| m | m]; [discriminate | |];
    intros H Hn f Hin Hu;
    apply (@compensate_spec _ _ _ _ _ w0 file1) in H; try reflexivity;
    destruct H as [_ [_ [H _]]];
    destruct (H Hn f Hin) as [_ H2]; rewrite <- Hw0; apply H2; exact Hu.
Qed.

Lemma saveHomeworkPrompt_ledger_failure v env email hwId base pname w student msg :
  Roster.rosterFindByEmail (Homework.roster env) email = Some student ->
  truthy (Roster.Drive_Folder_ID student) = true ->
  Homework.createFile_error env = None ->
  Homework.ledger_failure (Homework.ledger_block v env) = Some msg ->
  exists w',
    Homework.saveHomeworkPrompt v env email hwId base pname w
    = (Throw (lit "Failed to append ledger row: " ++ msg), w')
    /\ (Homework.setTrashed_error env = None ->
        forall f, In f (drive w') ->
          (fileId f = Homework.newFileId env -> trashed f = true)
          /\ (trashed f = false -> In f (drive w)))
    /\ (forall trashErr, Homework.setTrashed_error env = Some trashErr ->
        (exists file, drive w' = drive w ++ [file]
                      /\ fileId file = Homework.newFileId env)
        /\ (v = V8 -> exists before, log w' = before ++ [trash_warning env trashErr])).
Proof.
  intros Hf Hd Hc Hl.
  unfold Homework.saveHomeworkPrompt. rewrite Hf, Hd, Hc. simpl.
  set (fb := match v with V8 => negb (truthy (trim pname)) | V9 => false end).
  match goal with
  | |- context [add_file ?file ?wx] => set (file1 := file); set (w0 := wx)
  end.
  assert (Hw0 : drive w0 = drive w) by (unfold w0; destruct fb; reflexivity).
  destruct (Homework.ledger_block v env) as [| m | m]; simpl in Hl;
    [discriminate | |]; inversion Hl; subst m; clear Hl.
  - destruct (Homework.compensate v env hwId email msg (add_file file1 w0))
      as [res w'] eqn:Hcomp.
    pose proof (@compensate_spec _ _ _ _ _ w0 file1 _ _ _ Hcomp eq_refl eq_refl)
      as [-> [_ [Hok Hfail]]].
    exists w'. split; [reflexivity |]. split.
    { intros Hn f Hin. destruct (Hok Hn f Hin) as [H1 H2]. split; [exact H1 |].
      rewrite <- Hw0. exact H2. }
    intros trashErr Ht. destruct (Hfail _ Ht) as [Hdr Hlog]. split; [| exact Hlog].
    exists file1. rewrite Hdr. simpl. rewrite Hw0. auto.
  - destruct (Homework.compensate v env hwId email msg
                (add_row _ (add_file file1 w0))) as [res w'] eqn:Hcomp.
    pose proof (@compensate_spec _ _ _ _ _ w0 file1 _ _ _ Hcomp eq_refl eq_refl)
      as [-> [_ [Hok Hfail]]].
    exists w'. split; [reflexivity |]. split.
    { intros Hn f Hin. destruct (Hok Hn f Hin) as [H1 H2]. split; [exact H1 |].
      rewrite <- Hw0. exact H2. }
    intros trashErr Ht. destruct (Hfail _ Ht) as [Hdr Hlog]. split; [| exact Hlog].
    exists file1. rewrite Hdr. simpl. rewrite Hw0. auto.
Qed.

(** What [src/Code.js] logs when the ledger block fails: the error of the
    ledger, and nothing about the compensation, whether it goes through
    or not. *)
Lemma ledger_failure_log_v9 env email hwId base pname w student msg res w' :
  Roster.rosterFindByEmail (Homework.roster env) email = Some student ->
  truthy (Roster.Drive_Folder_ID student) = true ->
  Homework.createFile_error env = None ->
  Homework.ledger_failure (Homework.ledger_block V9 env) = Some msg ->
  Homework.saveHomeworkPrompt V9 env email hwId base pname w = (res, w') ->
  log w' = log w ++ [lit "[saveHomeworkPrompt] ERROR appending ledger row: " ++ msg].
Proof.
  intros Hf Hd Hc Hl. unfold Homework.saveHomeworkPrompt.
  rewrite Hf, Hd, Hc. cbn [negb].
  destruct (Homework.ledger_block V9 env) as [| m | m]; cbn [Homework.ledger_failure] in Hl;
    [discriminate | |]; injection Hl as ->;
    unfold Homework.compensate; intros [= _ <-];
    destruct (Homework.setTrashed_error env); reflexivity.
Qed.

(** C3.  In [saveHomeworkPrompt], once the prompt file has been created,
    a failure of the ledger block with message [msg] makes the function
    throw "Failed to append ledger row: " followed by [msg], whether the
    compensating [setTrashed] goes through or not.  When it goes through,
    every file with the identifier of the prompt file is trashed and no
    untrashed file is left that was not there before the call.  When it
    throws, the error of the ledger is still the one raised, the prompt
    file stays, and [src/unnamed/part_000] logs a warning for it;
    [src/Code.js] logs the error of the ledger and nothing else, whatever
    becomes of the deletion.  On every error exit with a working
    [setTrashed], the untrashed files are among those present before the
    call. *)
Theorem C3_compensating_delete :
  forall v env email hwId base pname w student msg,
    Roster.rosterFindByEmail (Homework.roster env) email = Some student ->
    truthy (Roster.Drive_Folder_ID student) = true ->
    Homework.createFile_error env = None ->
    Homework.ledger_failure (Homework.ledger_block v env) = Some msg ->
    (exists w',
      Homework.saveHomeworkPrompt v env email hwId base pname w
      = (Throw (lit "Failed to append ledger row: " ++ msg), w')
      /\ (Homework.setTrashed_error env = None ->
          forall f, In f (drive w') ->
            (fileId f = Homework.newFileId env -> trashed f = true)
            /\ (trashed f = false -> In f (drive w)))
      /\ (forall trashErr, Homework.setTrashed_error env = Some trashErr ->
          (exists file, drive w' = drive w ++ [file]
                        /\ fileId file = Homework.newFileId env)
          /\ (v = V8 -> exists before, log w' = before ++ [trash_warning env trashErr]))
      /\ (v = V9 ->
          log w'
          = log w ++ [lit "[saveHomeworkPrompt] ERROR appending ledger row: " ++ msg]))
    /\ (forall email2 hwId2 base2 pname2 w2 e w2',
          Homework.saveHomeworkPrompt v env email2 hwId2 base2 pname2 w2
          = (Throw e, w2') ->
          Homework.setTrashed_error env = None ->
          forall f, In f (drive w2') -> trashed f = false -> In f (drive w2)).
Proof.
  intros v env email hwId base pname w student msg Hf Hd Hc Hl. split.
  - destruct (@saveHomeworkPrompt_ledger_failure v env email hwId base pname w
                student msg Hf Hd Hc Hl) as (w' & Hs & Hok & Hfail).
    exists w'. split; [exact Hs |]. split; [exact Hok |]. split; [exact Hfail |].
    intros ->. exact (@ledger_failure_log_v9 env email hwId base pname w student msg _ w'
                        Hf Hd Hc Hl Hs).
  - intros email2 hwId2 base2 pname2 w2 e w2'.
    apply saveHomeworkPrompt_error_exit.
Qed.

(** C3 at work: the ledger refuses the row and the file cannot be
    trashed either; the ledger error is the one raised. *)
Lemma C3_compensating_delete_witness :
  exists w',
    Homework.saveHomeworkPrompt V8
      (Sample.with_faults [] (Homework.AppendThrows (lit "quota exceeded"))
         (Some (lit "access denied")) None)
      (lit "jane@x.com") (lit "L2-20240302") (lit "prompt") (lit "prompt_x.txt")
      Sample.empty_world
    = (Throw (lit "Failed to append ledger row: quota exceeded"), w').
Proof.
  destruct (@C3_compensating_delete V8
              (Sample.with_faults [] (Homework.AppendThrows (lit "quota exceeded"))
                 (Some (lit "access denied")) None)
              (lit "jane@x.com") (lit "L2-20240302") (lit "prompt")
              (lit "prompt_x.txt") Sample.empty_world Sample.jane
              (lit "quota exceeded")
              eq_refl eq_refl eq_refl eq_refl) as [[w' [H _]] _].
  exists w'. exact H.
Defined.

(** C3, as stated, fails for [src/Code.js]: when the ledger refuses the
    row and the prompt file cannot be trashed either, the error of the
    ledger is raised and the prompt file stays in Drive, untrashed, but
    the only line logged is the error of the ledger; no warning tells of
    the failed deletion. *)
Lemma C3_code_js_logs_no_warning :
  exists w' file,
    Homework.saveHomeworkPrompt V9
      (Sample.with_faults [] (Homework.AppendThrows (lit "quota exceeded"))
         (Some (lit "access denied")) None)
      (lit "jane@x.com") (lit "L2-20240302") (lit "prompt") (lit "prompt_x.txt")
      Sample.empty_world
    = (Throw (lit "Failed to append ledger row: quota exceeded"), w')
    /\ drive w' = [file] /\ trashed file = false
    /\ ledger w' = []
    /\ log w' = [lit "[saveHomeworkPrompt] ERROR appending ledger row: quota exceeded"]
    /\ existsb (includes (lit "access denied")) (log w') = false
    /\ existsb (fun line => includes (lit "warning") (toLowerCase line)) (log w') = false.
Proof.
  eexists. eexists. split; [vm_compute; reflexivity |].
  repeat split; reflexivity.
Qed.


(* ================================================================== *)
(** * C9: the homework identifier                                       *)
(* ================================================================== *)

Lemma assignHomework_return v env email names w w' :
  Homework.assignHomework v env email names w = (Return tt, w') ->
  exists student w1,
    Roster.rosterFindByEmail (Homework.roster env) email = Some student
    /\ ledger w1
       = ledger w ++ [Homework.newRowData student
                        (Homework.hwId_of (Roster.RosterRowIndex student)
                           (Homework.today_hwId env))
                        (Homework.newFileId env) (Homework.uuid env)
                        (Homework.assignedAt env)]
    /\ ledger w' = ledger w1.
Proof.
  unfold Homework.assignHomework.
  destruct names as [| first rest]; [discriminate |].
  destruct (truthy email); simpl; [| discriminate].
  destruct (Roster.rosterFindByEmail (Homework.roster env) email)
    as [student |] eqn:Hf; [| discriminate].
  match goal with
  | |- context [Homework.saveHomeworkPrompt ?a ?b ?c ?d ?e ?f ?g] =>
      destruct (Homework.saveHomeworkPrompt a b c d e f g) as [[token | msg] w1] eqn:Hs;
      [| discriminate]
  end.
  apply saveHomeworkPrompt_return in Hs.
  destruct Hs as [_ [_ [student' [file [Hf' [_ [_ [_ [_ [_ Hl]]]]]]]]]].
  rewrite Hf in Hf'. inversion Hf'; subst student'; clear Hf'.
  assert (Hw : ledger w1 = ledger w ++ [Homework.newRowData student
                        (Homework.hwId_of (Roster.RosterRowIndex student)
                           (Homework.today_hwId env))
                        (Homework.newFileId env) (Homework.uuid env)
                        (Homework.assignedAt env)]).
  { rewrite Hl. f_equal.
    destruct v; destruct (Homework.transcriptMatch first); reflexivity. }
  intros H. exists student, w1. split; [reflexivity |]. split; [exact Hw |].
  destruct (truthy (Homework.HOMEWORK_PORTAL_BASEURL env)); simpl in H.
  - destruct (Homework.sendEmail_error env); inversion H; reflexivity.
  - inversion H; reflexivity.
Qed.

(** C9.  For a student that the roster lookup finds, the homework
    identifier is the letter L, the number of the student's roster row,
    a hyphen and the date of the day as yyyyMMdd.  The roster row is the
    row of the sheet, counted from 1 with the header as row 1, that holds
    the student: the first data row whose address, trimmed and in lower
    case, is the address asked for.  That identifier is the one written
    to the ledger, in the row that carries the address of the student,
    when [assignHomework] returns; and two invocations that return, for
    the same roster and the same address up to letter case and
    surrounding white space, on the same day, write the same identifier. *)
Theorem C9_hwId_format_and_stability :
  forall v env email student,
    Roster.rosterFindByEmail (Homework.roster env) email = Some student ->
    (exists header pre row post emailCol,
        Roster.Current_Students (Homework.roster env)
          = Some (header :: pre ++ row :: post)
        /\ Roster.indexOf (lit "student_email")
             (map (fun h => trim (toLowerCase h)) header) = Some emailCol
        /\ forallb (fun x => negb (email_matches emailCol (trim (toLowerCase email)) x))
             pre = true
        /\ email_matches emailCol (trim (toLowerCase email)) row = true
        /\ Roster.Email student = trim (Roster.cell emailCol row)
        /\ Roster.RosterRowIndex student = length pre + 2
        /\ Homework.hwId_of (Roster.RosterRowIndex student) (Homework.today_hwId env)
           = lit "L" ++ of_nat (length pre + 2) ++ lit "-"
               ++ formatDate_yyyyMMdd (Homework.today_hwId env))
    /\ (forall names w w',
          Homework.assignHomework v env email names w = (Return tt, w') ->
          exists row,
            ledger w' = ledger w ++ [row]
            /\ Student_Email row = Roster.Email student
            /\ HW_ID row
               = lit "L" ++ of_nat (Roster.RosterRowIndex student) ++ lit "-"
                   ++ formatDate_yyyyMMdd (Homework.today_hwId env))
    /\ (forall v2 env2 email2 names names2 w w' w2 w2',
          Homework.roster env2 = Homework.roster env ->
          trim (toLowerCase email2) = trim (toLowerCase email) ->
          Homework.today_hwId env2 = Homework.today_hwId env ->
          Homework.assignHomework v env email names w = (Return tt, w') ->
          Homework.assignHomework v2 env2 email2 names2 w2 = (Return tt, w2') ->
          exists row row2,
            ledger w' = ledger w ++ [row]
            /\ ledger w2' = ledger w2 ++ [row2]
            /\ HW_ID row2 = HW_ID row).
Proof.
  intros v env email student Hf.
  destruct (rosterFindByEmail_first _ _ Hf)
    as (header & pre & row & post & emailCol & Hv & Hi & Hp & Hr & He & Hx).
  assert (Hid : Homework.hwId_of (Roster.RosterRowIndex student) (Homework.today_hwId env)
                = lit "L" ++ of_nat (Roster.RosterRowIndex student) ++ lit "-"
                    ++ formatDate_yyyyMMdd (Homework.today_hwId env)).
  { apply hwId_of_positive. lia. }
  assert (Hrow : forall v0 env0 email0 names w w',
             Roster.rosterFindByEmail (Homework.roster env0) email0 = Some student ->
             Homework.today_hwId env0 = Homework.today_hwId env ->
             Homework.assignHomework v0 env0 email0 names w = (Return tt, w') ->
             exists row0,
               ledger w' = ledger w ++ [row0]
               /\ Student_Email row0 = Roster.Email student
               /\ HW_ID row0
                  = lit "L" ++ of_nat (Roster.RosterRowIndex student) ++ lit "-"
                      ++ formatDate_yyyyMMdd (Homework.today_hwId env)).
  { intros v0 env0 email0 names w w' Hf0 Hd0 H. apply assignHomework_return in H.
    destruct H as [student' [w1 [Hf' [Hl Hl']]]].
    rewrite Hf0 in Hf'. injection Hf' as <-.
    eexists. split; [rewrite Hl', Hl; reflexivity |].
    cbn [Homework.newRowData Student_Email HW_ID]. split; [reflexivity |].
    rewrite Hd0. exact Hid. }
  split; [| split].
  - exists header, pre, row, post, emailCol. rewrite Hid, Hx. auto 10.
  - intros names w w'. now apply Hrow.
  - intros v2 env2 email2 names names2 w w' w2 w2' Hros Ht Hd H1 H2.
    assert (Hf2 : Roster.rosterFindByEmail (Homework.roster env2) email2 = Some student).
    { pose proof H2 as H2'. apply assignHomework_return in H2'.
      destruct H2' as [student2 [_ [Hf2 _]]].
      rewrite Hros in *. rewrite <- Hf.
      apply rosterFindByEmail_target; [| | exact Ht].
      - now apply rosterFindByEmail_truthy in Hf.
      - now apply rosterFindByEmail_truthy in Hf2. }
    destruct (Hrow _ _ _ _ _ _ Hf eq_refl H1) as (r1 & L1 & _ & I1).
    destruct (Hrow _ _ _ _ _ _ Hf2 Hd H2) as (r2 & L2 & _ & I2).
    exists r1, r2. split; [exact L1 |]. split; [exact L2 |]. now rewrite I1, I2.
Qed.

(** C9 on the sample roster: Bob sits in row 3. *)
Lemma C9_hwId_format_and_stability_witness :
  exists header pre row post emailCol,
    Roster.Current_Students (Homework.roster Sample.env_ok)
      = Some (header :: pre ++ row :: post)
    /\ Roster.indexOf (lit "student_email")
         (map (fun h => trim (toLowerCase h)) header) = Some emailCol
    /\ forallb (fun x => negb (email_matches emailCol
                                 (trim (toLowerCase (lit " Bob@X.com"))) x))
         pre = true
    /\ email_matches emailCol (trim (toLowerCase (lit " Bob@X.com"))) row = true
    /\ Roster.Email IdentifierCases.bob = trim (Roster.cell emailCol row)
    /\ Roster.RosterRowIndex IdentifierCases.bob = length pre + 2
    /\ Homework.hwId_of (Roster.RosterRowIndex IdentifierCases.bob)
         (Homework.today_hwId Sample.env_ok)
       = lit "L" ++ of_nat (length pre + 2) ++ lit "-"
           ++ formatDate_yyyyMMdd (Homework.today_hwId Sample.env_ok).
Proof.
  apply (proj1 (@C9_hwId_format_and_stability V8 Sample.env_ok (lit " Bob@X.com")
                  IdentifierCases.bob eq_refl)).
Defined.

(* ================================================================== *)
(** * C10: an assignment without a notification                        *)
(* ================================================================== *)

(** C10.  When the portal URL is not set, or sending the mail throws, and
    the assignment itself goes through, [assignHomework] returns without
    raising; the prompt file is in Drive, untrashed, the ledger has gained
    the row that carries the token drawn for this call and points to that
    file, and no mail has been sent. *)
Theorem C10_assignment_without_notification :
  forall v env email names w,
    names <> [] ->
    truthy email = true ->
    assignment_succeeds v env email ->
    Homework.HOMEWORK_PORTAL_BASEURL env = []
      \/ (exists e, Homework.sendEmail_error env = Some e) ->
    exists w' file row,
      Homework.assignHomework v env email names w = (Return tt, w')
      /\ drive w' = drive w ++ [file]
      /\ trashed file = false
      /\ ledger w' = ledger w ++ [row]
      /\ Token row = Homework.uuid env
      /\ PromptFileID row = fileId file
      /\ Token_Status row = lit "Active"
      /\ outbox w' = outbox w.
Proof.
  intros v env email names w Hn He Hok Hmail.
  destruct names as [| first rest]; [congruence |].
  pose proof Hok as [student [Hf _]].
  unfold Homework.assignHomework. rewrite He, Hf. simpl.
  match goal with
  | |- context [Homework.saveHomeworkPrompt ?a ?b ?c ?d ?e ?f ?g] =>
      destruct (@saveHomeworkPrompt_succeeds a b c d e f g Hok) as [w1 Hs];
      rewrite Hs;
      pose proof (saveHomeworkPrompt_return _ _ _ _ _ _ _ Hs)
        as [_ [Hout [student' [file [_ [Hd [Hid [_ [_ [Htr Hl]]]]]]]]]]
  end.
  assert (Hd' : drive w1 = drive w ++ [file]).
  { rewrite Hd. destruct v; destruct (Homework.transcriptMatch first); reflexivity. }
  assert (Hl' : exists row, ledger w1 = ledger w ++ [row]
                            /\ Token row = Homework.uuid env
                            /\ PromptFileID row = fileId file
                            /\ Token_Status row = lit "Active").
  { eexists. split.
    - rewrite Hl. f_equal.
      destruct v; destruct (Homework.transcriptMatch first); reflexivity.
    - simpl. rewrite Hid. auto. }
  assert (Hout' : outbox w1 = outbox w).
  { rewrite Hout. destruct v; destruct (Homework.transcriptMatch first); reflexivity. }
  destruct Hl' as [row [Hl1 [Hl2 [Hl3 Hl4]]]].
  destruct Hmail as [Hp | [e Hm]].
  - rewrite Hp. simpl. eexists. exists file, row. split; [reflexivity |].
    simpl. auto 10.
  - destruct (truthy (Homework.HOMEWORK_PORTAL_BASEURL env)); simpl.
    + rewrite Hm. eexists. exists file, row. split; [reflexivity |].
      simpl. auto 10.
    + eexists. exists file, row. split; [reflexivity |]. simpl. auto 10.
Qed.

(** C10 on the sample roster, the portal URL being unset. *)
Lemma C10_assignment_without_notification_witness :
  exists w' file row,
    Homework.assignHomework V8
      (Sample.with_faults [] Homework.AppendOk None None)
      (lit "jane@x.com") Sample.janeTranscripts Sample.empty_world
    = (Return tt, w')
    /\ drive w' = drive Sample.empty_world ++ [file]
    /\ trashed file = false
    /\ ledger w' = ledger Sample.empty_world ++ [row]
    /\ Token row = Homework.uuid (Sample.with_faults [] Homework.AppendOk None None)
    /\ PromptFileID row = fileId file
    /\ Token_Status row = lit "Active"
    /\ outbox w' = outbox Sample.empty_world.
Proof.
  apply (@C10_assignment_without_notification V8
           (Sample.with_faults [] Homework.AppendOk None None)
           (lit "jane@x.com") Sample.janeTranscripts Sample.empty_world).
  - discriminate.
  - reflexivity.
  - exists Sample.jane. repeat split; reflexivity.
  - left. reflexivity.
Defined.

(* ================================================================== *)
(** * C1: the poller and terminal rows                                  *)
(* ================================================================== *)

Section PollerFacts.
Import Monitor.

Lemma update_row_nth (f : JobRow -> JobRow) rows :
  forall i j,
    nth_error (update_row j f rows) i
    = if i =? j then option_map f (nth_error rows i) else nth_error rows i.
Proof.
  induction rows as [| r rest IH]; intros i j.
  - destruct j; simpl; destruct i; simpl; try reflexivity;
      now destruct (_ =? _).
  - destruct j as [| j]; destruct i as [| i]; simpl; try reflexivity.
    apply IH.
Qed.

Lemma update_row_compose (f g : JobRow -> JobRow) rows :
  forall j, update_row j g (update_row j f rows)
            = update_row j (fun r => g (f r)) rows.
Proof.
  induction rows as [| r rest IH]; intros [| j]; simpl; try reflexivity.
  now rewrite IH.
Qed.

Lemma update_row_id rows : forall j, update_row j (fun r => r) rows = rows.
Proof.
  induction rows as [| r rest IH]; intros [| j]; simpl; try reflexivity.
  now rewrite IH.
Qed.

Lemma update_row_ext (f g : JobRow -> JobRow) rows :
  (forall r, f r = g r) -> forall j, update_row j f rows = update_row j g rows.
Proof.
  intros H. induction rows as [| r rest IH]; intros [| j]; simpl;
    try reflexivity; [now rewrite H | now rewrite IH].
Qed.

(** The calls of an iteration, performed one after the other, amount to
    one update of the row and one extension of the trace. *)
Lemma perform_all j calls :
  forall st,
    fold_left (perform j) calls st
    = {| sheet := update_row j (apply_writes calls) (sheet st);
         trace := trace st ++ map (pair j) calls |}.
Proof.
  induction calls as [| c rest IH]; intros st; simpl.
  - unfold apply_writes. simpl. rewrite update_row_id, app_nil_r.
    now destruct st.
  - rewrite IH. unfold perform. simpl. f_equal.
    + destruct c; try reflexivity.
      rewrite update_row_compose. apply update_row_ext. reflexivity.
    + now rewrite <- app_assoc.
Qed.

Lemma calls_of_app i a b : calls_of i (a ++ b) = calls_of i a ++ calls_of i b.
Proof. unfold calls_of. now rewrite filter_app, map_app. Qed.

Lemma calls_of_pair i j calls :
  calls_of i (map (pair j) calls) = if j =? i then calls else [].
Proof.
  unfold calls_of. induction calls as [| c rest IH]; simpl.
  - now destruct (j =? i).
  - destruct (j =? i) eqn:E; simpl; [now rewrite IH | exact IH].
Qed.

(** A pass over the snapshot [data], whose head is the row of index [n]:
    what it does for the row of index [i]. *)
Lemma pass_row bucket apiKey token remote data :
  forall n st i,
    let st' := fold_left (run_row bucket apiKey token remote)
                 (enumerate_from n data) st in
    let mine :=
      if n <=? i then
        match nth_error data (i - n) with
        | Some row => monitor_row bucket apiKey token remote i row
        | None => []
        end
      else [] in
    calls_of i (trace st') = calls_of i (trace st) ++ mine
    /\ nth_error (sheet st') i = option_map (apply_writes mine) (nth_error (sheet st) i).
Proof.
  induction data as [| row rest IH]; intros n st i.
  - cbn [enumerate_from fold_left]. cbv zeta.
    destruct (n <=? i); [destruct (i - n) |]; cbn [nth_error];
      rewrite app_nil_r; split; try reflexivity;
      now destruct (nth_error (sheet st) i).
  - specialize (IH (S n) (run_row bucket apiKey token remote st (n, row)) i).
    cbv zeta in IH. cbn [enumerate_from fold_left]. cbv zeta.
    destruct IH as [IHc IHs]. rewrite IHc, IHs. clear IHc IHs.
    unfold run_row. cbn [fst snd]. rewrite perform_all. cbn [sheet trace].
    rewrite calls_of_app, calls_of_pair, update_row_nth.
    destruct (Nat.eq_dec n i) as [-> | Hne].
    + rewrite Nat.eqb_refl, Nat.leb_refl, Nat.sub_diag. cbn [nth_error].
      assert (Hlt : (S i <=? i) = false) by (apply Nat.leb_gt; lia).
      rewrite Hlt, app_nil_r. split; [reflexivity |].
      now destruct (nth_error (sheet st) i).
    + assert (E1 : (n =? i) = false) by now apply Nat.eqb_neq.
      assert (E2 : (i =? n) = false) by (apply Nat.eqb_neq; lia).
      rewrite E1, E2, app_nil_r.
      destruct (S n <=? i) eqn:L1.
      * apply Nat.leb_le in L1.
        assert (L2 : (n <=? i) = true) by (apply Nat.leb_le; lia).
        rewrite L2. replace (i - n) with (S (i - S n)) by lia.
        cbn [nth_error]. split; reflexivity.
      * apply Nat.leb_gt in L1.
        destruct (n <=? i) eqn:L2.
        { apply Nat.leb_le in L2. lia. }
        split; reflexivity.
Qed.

(** The same for a whole call of [monitorTranscriptionJobs] that reaches
    its loop. *)
Lemma monitor_row_effect cfg token remote st i :
  poller_ready cfg token ->
  let st' := monitorTranscriptionJobs cfg remote st in
  let mine :=
    match nth_error (sheet st) i with
    | Some row =>
        monitor_row (bucketName cfg) (speechmaticsApiKey cfg) token remote i row
    | None => []
    end in
  calls_of i (trace st') = calls_of i (trace st) ++ mine
  /\ nth_error (sheet st') i = option_map (apply_writes mine) (nth_error (sheet st) i).
Proof.
  intros [H1 [H2 [H3 [H4 _]]]]. unfold monitorTranscriptionJobs.
  rewrite H1, H2, H3, H4. cbn [negb].
  destruct (sheet st) as [| r rest] eqn:Hs.
  - rewrite Hs, nth_error_nil. cbn [option_map]. now rewrite app_nil_r.
  - pose proof (@pass_row (bucketName cfg) (speechmaticsApiKey cfg) token remote
                  (r :: rest) 0 st i) as H.
    cbv zeta in H. rewrite Nat.sub_0_r in H. rewrite Hs in H.
    replace (0 <=? i) with true in H by (symmetry; apply Nat.leb_le; lia).
    exact H.
Qed.



End PollerFacts.

Section PollerCompletion.
Import Monitor.

Lemma has_In set x : has set x = true -> In x set.
Proof.
  unfold has. intros H. apply existsb_exists in H.
  destruct H as [y [Hy He]]. apply str_eqb_eq in He. now subst.
Qed.

Lemma active_cases row :
  is_active row = true ->
  localStatus row = lit "submitted" \/ localStatus row = lit "running"
  \/ localStatus row = lit "processing"
  \/ localStatus row = lit "processing_transcript".
Proof.
  unfold is_active. intros H. apply orb_prop in H. destruct H as [H | H].
  - apply has_In in H. unfold submittedStatuses in H. simpl in H.
    intuition auto.
  - apply str_eqb_eq in H. auto.
Qed.

Lemma active_not_terminal row :
  is_active row = true ->
  is_terminal row = false /\ str_eqb (localStatus row) (lit "done") = false.
Proof.
  intros H. unfold is_terminal.
  destruct (active_cases _ H) as [E | [E | [E | E]]]; rewrite E;
    split; reflexivity.
Qed.









Lemma apply_writes_names calls row :
  fileName (apply_writes calls row) = fileName row
  /\ jobId (apply_writes calls row) = jobId row.
Proof.
  revert row. induction calls as [| c rest IH]; intros row; [now split |].
  change (apply_writes (c :: rest) row)
    with (apply_writes rest (match c with
                             | SetStatus v => set_status v row
                             | _ => row
                             end)).
  destruct c; try apply IH.
  destruct (IH (set_status value row)) as [H1 H2]. rewrite H1, H2. now split.
Qed.

End PollerCompletion.


(* ================================================================== *)
(** * C7: distribution is idempotent                                    *)
(* ================================================================== *)

Section DistributionFacts.
Import Distribution.

Lemma import_item_exists rosterMap env item st :
  already_delivered rosterMap env (world st) item ->
  import_item rosterMap env item st = Return (with_counters incr_exists st).
Proof.
  intros [f [sd [c [Hr [Hh [Hc He]]]]]].
  unfold import_item, deliver. now rewrite Hr, Hc, He, Hh.
Qed.

Lemma import_items_all_exist rosterMap envs w items :
  forall j st,
    world st = w ->
    (forall k item, nth_error items k = Some item ->
                    already_delivered rosterMap (envs (j + k)) w item) ->
    import_items rosterMap envs j items st
    = Return {| world := world st;
                counters := add_exists (length items) (counters st);
                importedFilesByStudent := importedFilesByStudent st |}.
Proof.
  induction items as [| item rest IH]; intros j st Hw Hall.
  - simpl. destruct st as [w0 [a b c d e] q]. reflexivity.
  - cbn [import_items].
    rewrite import_item_exists.
    2:{ rewrite Hw. specialize (Hall 0 item eq_refl).
        now rewrite Nat.add_0_r in Hall. }
    rewrite IH.
    + destruct st as [w0 [a b c d e] q]. unfold add_exists. simpl.
      do 3 f_equal. lia.
    + exact Hw.
    + intros k it Hk. specialize (Hall (S k) it Hk).
      now replace (S j + k) with (j + S k) by lia.
Qed.

End DistributionFacts.

(** C7.  A listed transcript that resolves to a student whose folder
    already holds a file of exactly that name is skipped: the world is
    left as it is (no file is created, the ledger is not touched), the
    counter of transcripts skipped as existing goes up by one, and the
    name is not queued in the batch of the student.  A run in which every
    listed transcript is in that case creates no file, leaves the homework
    ledger and the outbox as they are, counts every transcript as skipped
    and assigns no homework. *)
Theorem C7_rerun_skips_existing :
  (forall rosterMap env item st,
      already_delivered rosterMap env (Distribution.world st) item ->
      exists st',
        Distribution.import_item rosterMap env item st = Return st'
        /\ Distribution.world st' = Distribution.world st
        /\ Distribution.importedFilesByStudent st'
           = Distribution.importedFilesByStudent st
        /\ Distribution.skippedExistsCount (Distribution.counters st')
           = S (Distribution.skippedExistsCount (Distribution.counters st))
        /\ Distribution.importCount (Distribution.counters st')
           = Distribution.importCount (Distribution.counters st))
  /\
  (forall cfg w rosterMap items,
      reaches_loop cfg rosterMap items ->
      (forall j item, nth_error items j = Some item ->
                      already_delivered rosterMap (Distribution.itemEnv cfg j) w item) ->
      Distribution.importTranscriptsToDrive cfg w
      = Return (w, {| Distribution.finalCounters :=
                        add_exists (length items) Distribution.zero;
                      Distribution.batches := [];
                      Distribution.assignmentErrors := 0 |})).
Proof.
  split.
  - intros rosterMap env item st H. eexists. split.
    + now apply import_item_exists.
    + destruct st as [w0 [a b c d e] q]. simpl. auto.
  - intros cfg w rosterMap items [H1 [H2 [[token H3] [[values [H4 H5]] [H6 [H7 H8]]]]]] Hall.
    unfold Distribution.importTranscriptsToDrive.
    rewrite H1, H2, H3, H4, H5, H7. cbn [negb].
    destruct rosterMap as [| e1 rm]; [congruence |].
    destruct items as [| i1 its]; [congruence |].
    rewrite (@import_items_all_exist (e1 :: rm) (Distribution.itemEnv cfg) w
               (i1 :: its) 0
               {| Distribution.world := w; Distribution.counters := Distribution.zero;
                  Distribution.importedFilesByStudent := [] |} eq_refl Hall).
    reflexivity.
Qed.

(* ================================================================== *)
(** * Facts about [includes], [join] and [trim]                         *)
(* ================================================================== *)

Lemma startsWith_app p b : startsWith p (p ++ b) = true.
Proof.
  induction p as [| c p IH]; simpl; [reflexivity |].
  now rewrite Ascii.eqb_refl, IH.
Qed.

Lemma includes_startsWith p s : startsWith p s = true -> includes p s = true.
Proof. intros H. destruct s; simpl; now rewrite H. Qed.

Lemma includes_intro p a b : includes p (a ++ p ++ b) = true.
Proof.
  induction a as [| c a IH].
  - cbn [app]. apply includes_startsWith. apply startsWith_app.
  - simpl. rewrite IH. apply orb_true_r.
Qed.





Lemma trimStart_keep c s : is_space c = false -> trimStart (c :: s) = c :: s.
Proof. intros H. simpl. now rewrite H. Qed.

Lemma trimStart_before x c y :
  is_space c = false -> trimStart (x ++ c :: y) = trimStart (x ++ [c]) ++ y.
Proof.
  intros Hc. induction x as [| d x IH]; simpl.
  - now rewrite Hc.
  - destruct (is_space d); [exact IH |]. simpl. f_equal.
    now rewrite <- app_assoc.
Qed.

(** What precedes a code unit that is not white space survives [trimEnd]. *)
Lemma trimEnd_keep a c b :
  is_space c = false -> trimEnd (a ++ c :: b) = a ++ trimEnd (c :: b).
Proof.
  intros Hc. unfold trimEnd. rewrite rev_app_distr. simpl.
  rewrite <- app_assoc. simpl. rewrite trimStart_before by assumption.
  now rewrite rev_app_distr, rev_involutive.
Qed.


(* ================================================================== *)
(** * C2: one assignment per student and run                            *)
(* ================================================================== *)





Section QueueFacts.
Import Distribution.


Lemma map_has_keys {V : Type} k (mp : jsmap V) :
  map_has k mp = false -> ~ In k (map fst mp).
Proof.
  unfold map_has. induction mp as [| [k' v'] rest IH]; simpl; [tauto |].
  destruct (str_eqb k' k) eqn:E; [discriminate |].
  intros H [Hk | Hk].
  - apply str_eqb_neq in E. contradiction.
  - now apply IH.
Qed.

Lemma map_push_keys k x mp : map fst (map_push k x mp) = map fst mp.
Proof.
  induction mp as [| [k' v'] rest IH]; simpl; [reflexivity |].
  destruct (str_eqb k' k); simpl; [reflexivity | now rewrite IH].
Qed.

Lemma batch_of_push k x mp e :
  batch_of e (map_push k x mp)
  = if str_eqb k e && map_has k mp then batch_of k mp ++ [x] else batch_of e mp.
Proof.
  unfold batch_of, map_has.
  induction mp as [| [k' v'] rest IH]; simpl.
  - now rewrite andb_false_r.
  - destruct (str_eqb k' k) eqn:E1.
    + apply str_eqb_eq in E1. subst k'. simpl.
      destruct (str_eqb k e) eqn:E2; simpl; reflexivity.
    + simpl. destruct (str_eqb k' e) eqn:E3.
      * destruct (str_eqb k e) eqn:E2; simpl; [| reflexivity].
        apply str_eqb_eq in E2, E3. subst. now rewrite str_eqb_refl in E1.
      * exact IH.
Qed.

Lemma batch_of_new k mp e :
  map_has k mp = false ->
  batch_of e (map_set_new k [] mp) = batch_of e mp
  /\ map_has k (map_set_new k [] mp) = true.
Proof.
  unfold batch_of, map_has, map_set_new.
  induction mp as [| [k' v'] rest IH]; simpl; intros H.
  - rewrite str_eqb_refl. destruct (str_eqb k e); auto.
  - destruct (str_eqb k' k) eqn:E1; [discriminate |].
    destruct (IH H) as [IH1 IH2]. destruct (str_eqb k' e); auto.
Qed.

Lemma push_nonempty k x mp :
  Forall (fun b : str * list str => snd b <> []) mp ->
  Forall (fun b : str * list str => snd b <> []) (map_push k x mp).
Proof.
  induction 1 as [| [k' v'] rest Hne Hrest IH]; simpl; [constructor |].
  destruct (str_eqb k' k); constructor; simpl; auto.
  destruct v'; discriminate.
Qed.

Lemma push_new_nonempty k x mp :
  Forall (fun b : str * list str => snd b <> []) mp ->
  map_has k mp = false ->
  Forall (fun b : str * list str => snd b <> [])
         (map_push k x (map_set_new k [] mp)).
Proof.
  unfold map_has, map_set_new.
  induction 1 as [| [k' v'] rest Hne _ IH]; simpl; intros H.
  - rewrite str_eqb_refl. constructor; [discriminate | constructor].
  - destruct (str_eqb k' k) eqn:E; [discriminate |].
    constructor; [exact Hne | now apply IH].
Qed.

End QueueFacts.

Section ScanFacts.
Import Distribution.


Lemma keys_truthy_push k x (mp : jsmap (list str)) :
  Forall (fun b => truthy (fst b) = true) mp ->
  Forall (fun b => truthy (fst b) = true) (map_push k x mp).
Proof.
  induction 1 as [| [k' v'] rest Hk Hrest IH]; simpl; [constructor |].
  destruct (str_eqb k' k); constructor; auto.
Qed.

Lemma with_counters_inv rosterMap w0 log f st :
  scan_invariant rosterMap w0 log st ->
  scan_invariant rosterMap w0 log (with_counters f st).
Proof. intros H. exact H. Qed.







End ScanFacts.




(* ================================================================== *)
(** * C4: the discovery scan run twice                                  *)
(* ================================================================== *)

Lemma trimStart_head s d t : trimStart s = d :: t -> is_space d = false.
Proof.
  induction s as [| c s IH]; simpl; [discriminate |].
  destruct (is_space c) eqn:E; [exact IH |].
  intros H. inversion H; subst. exact E.
Qed.

Lemma trimStart_last x d :
  is_space d = false -> exists y, trimStart (x ++ [d]) = y ++ [d].
Proof.
  intros Hd. induction x as [| c x IH]; simpl.
  - rewrite Hd. now exists [].
  - destruct (is_space c); [exact IH |]. now exists (c :: x).
Qed.

Lemma trimEnd_head d t :
  is_space d = false -> exists z, trimEnd (d :: t) = d :: z.
Proof.
  intros Hd. unfold trimEnd. simpl.
  destruct (@trimStart_last (rev t) d Hd) as [y Hy]. rewrite Hy.
  rewrite rev_app_distr. simpl. now exists (rev y).
Qed.

(** A trimmed string does not start with white space. *)
Lemma trim_head s c t : trim s = c :: t -> is_space c = false.
Proof.
  unfold trim. destruct (trimStart s) as [| d u] eqn:E.
  - discriminate.
  - pose proof (@trimStart_head _ _ _ E) as Hd.
    destruct (@trimEnd_head d u Hd) as [z Hz]. rewrite Hz.
    intros H. inversion H; subst. exact Hd.
Qed.

(** A string that neither starts nor ends with white space is its own
    trimmed form. *)
Lemma trim_fixed c a d :
  is_space c = false -> is_space d = false ->
  trim (c :: a ++ [d]) = c :: a ++ [d].
Proof.
  intros Hc Hd. unfold trim. rewrite trimStart_keep by assumption.
  change (c :: a ++ [d]) with ((c :: a) ++ d :: []).
  rewrite trimEnd_keep by assumption.
  assert (E : trimEnd [d] = [d]).
  { unfold trimEnd. simpl. now rewrite Hd. }
  now rewrite E.
Qed.

Lemma match_here_spaces_fails c s :
  is_space c = false -> match_here Parser.spacesRegex (c :: s) = None.
Proof.
  intros H. unfold match_here, Parser.spacesRegex, Plus. simpl. now rewrite H.
Qed.

Lemma replace_all_head r by_ c s :
  match_here r (c :: s) = None ->
  exists t, replace_all r by_ (c :: s) = c :: t.
Proof.
  intros H. unfold replace_all. simpl. rewrite H. eauto.
Qed.

(** The canonical name of a recording is its own trimmed form and is not
    empty. *)
Lemma newFileName_trimmed fileName studentName classDate fileId :
  Parser.extractStudentInfoFromFilename fileName = Some (studentName, classDate) ->
  trim (Parser.newFileName studentName classDate fileId)
  = Parser.newFileName studentName classDate fileId
  /\ truthy (Parser.newFileName studentName classDate fileId) = true.
Proof.
  unfold Parser.extractStudentInfoFromFilename. intros H.
  destruct (Parser.or_match _ _) as [g |]; [| discriminate].
  destruct (cap 1 g) as [raw |]; [| discriminate].
  destruct (cap 2 g) as [d |]; [| discriminate].
  destruct (truthy raw && truthy d); [| discriminate].
  destruct (truthy (Parser.cleanName raw)) eqn:Ht; [| discriminate].
  destruct (test Parser.dateOnlyRegex d); simpl in H; [| discriminate].
  inversion H; subst; clear H.
  destruct (Parser.cleanName raw) as [| c t] eqn:Hn; [discriminate |].
  assert (Hc : is_space c = false).
  { unfold Parser.cleanName in Hn. now apply trim_head in Hn. }
  unfold Parser.newFileName, Parser.standardizedStudentName.
  destruct (@replace_all_head Parser.spacesRegex (lit "_") c t
              (@match_here_spaces_fails c t Hc)) as [u Hu].
  rewrite Hu.
  change (lit ".mp4") with (lit ".mp" ++ ["4"%char]).
  split; [| reflexivity].
  replace ((c :: u) ++ lit "_" ++ classDate ++ lit "_"
             ++ substring_to 10 fileId ++ lit ".mp" ++ ["4"%char])
    with (c :: (u ++ lit "_" ++ classDate ++ lit "_"
                  ++ substring_to 10 fileId ++ lit ".mp") ++ ["4"%char])
    by (simpl; now rewrite <- !app_assoc).
  now apply trim_fixed.
Qed.

Section DiscoveryFacts.
Import Discovery.
Variable JSON_parse : str -> option Json.value.




Lemma update_last_app (f : Row -> Row) l x : update_last f (l ++ [x]) = l ++ [f x].
Proof.
  induction l as [| r l IH]; [reflexivity |].
  destruct l as [| a l']; [reflexivity |].
  change (update_last f ((r :: a :: l') ++ [x]))
    with (r :: update_last f ((a :: l') ++ [x])).
  now rewrite IH.
Qed.



End DiscoveryFacts.

Section DiscoveryScan.
Import Discovery.
Variable JSON_parse : str -> option Json.value.







End DiscoveryScan.

Section DiscoveryTracks.
Import Discovery.
Variable JSON_parse : str -> option Json.value.




End DiscoveryTracks.



(* ================================================================== *)
(** * The theorems at work on the sample data                           *)
(* ================================================================== *)







(** C7 on a second run after the first transcript of Jane was delivered. *)
Lemma C7_rerun_skips_existing_witness :
  Distribution.importTranscriptsToDrive Sample.rerunConfig Sample.delivered_world
  = Return (Sample.delivered_world,
            {| Distribution.finalCounters := add_exists 1 Distribution.zero;
               Distribution.batches := [];
               Distribution.assignmentErrors := 0 |}).
Proof.
  destruct C7_rerun_skips_existing as [_ H].
  apply (H Sample.rerunConfig Sample.delivered_world Sample.rosterMap
           [lit "transcripts/Jane_Doe_2024-03-01_AbCdEfGhIj.txt"]).
  - unfold reaches_loop. split; [reflexivity |]. split; [reflexivity |].
    split; [exists (lit "access-token"); reflexivity |].
    split; [exists Sample.rosterValues; split; reflexivity |].
    split; [discriminate |]. split; [reflexivity | discriminate].
  - intros j item Hj. destruct j as [| j]; [| destruct j; discriminate].
    inversion Hj; subst item.
    exists (lit "Jane_Doe_2024-03-01_AbCdEfGhIj.txt"), Sample.janeEntry,
           (lit "Hello Jane.").
    repeat split; reflexivity.
Defined.

(* ================================================================== *)
(** * Facts about the character classes                                 *)
(* ================================================================== *)

Ltac by_cases_on c :=
  destruct c as [[] [] [] [] [] [] [] []]; vm_compute;
  try reflexivity; try discriminate; try tauto; intuition congruence.

Lemma digit_not_sep c : is_digit c = true -> one_of (lit " _-") c = false.
Proof. by_cases_on c. Qed.

Lemma id_char_is_dot c : id_char c = true -> dot c = true.
Proof. by_cases_on c. Qed.

Lemma lower_char_space c : is_space (lower_char c) = is_space c.
Proof. by_cases_on c. Qed.

(* ================================================================== *)
(** * Facts about the matcher                                           *)
(* ================================================================== *)

Ltac unlit :=
  repeat match goal with
         | |- context [lit ?s] =>
             let v := eval vm_compute in (lit s) in change (lit s) with v
         end.

Lemma orelse_none_r (a : mres) : orelse a None = a.
Proof. now destruct a. Qed.

(** A greedy loop followed by the end of the input. *)
Lemma star_greedy_eol p (k : str -> mres) r s :
  k [] = r -> (forall c t, k (c :: t) = None) ->
  star_greedy p k s = if forallb p s then r else None.
Proof.
  intros H0 H1. induction s as [| c s IH]; simpl; [exact H0 |].
  destruct (p c); simpl.
  - rewrite IH, H1. apply orelse_none_r.
  - apply H1.
Qed.

(** A greedy loop whose continuation fails wherever the loop can stop. *)
Lemma star_greedy_none p (k : str -> mres) s :
  (forall a r, s = a ++ r -> forallb p a = true -> k r = None) ->
  star_greedy p k s = None.
Proof.
  induction s as [| c s IH]; intros H; simpl.
  - now apply (H [] []).
  - assert (E : k (c :: s) = None) by now apply (H [] (c :: s)).
    destruct (p c) eqn:Hc; [| exact E].
    rewrite E, orelse_none_r. apply IH. intros a r -> Ha.
    apply (H (c :: a) r); [reflexivity |]. simpl. now rewrite Hc.
Qed.

(** A greedy loop takes a whole run when the continuation accepts. *)
Lemma star_greedy_accept p (g : caps) s :
  star_greedy p (fun s' => accept s' g) s = Some (drop_run p s, g).
Proof.
  induction s as [| c s IH]; simpl; [reflexivity |].
  destruct (p c); [now rewrite IH | reflexivity].
Qed.

(** A lazy loop stops at the first place where the continuation succeeds. *)
Lemma star_lazy_first p (k : str -> mres) suf pre :
  forallb p pre = true ->
  (forall a b, pre = a ++ b -> b <> [] -> k (b ++ suf) = None) ->
  star_lazy p k (pre ++ suf) = star_lazy p k suf.
Proof.
  induction pre as [| c pre IH]; intros Hp Hk; [reflexivity |].
  simpl in Hp. apply andb_true_iff in Hp as [Hc Hp].
  change ((c :: pre) ++ suf) with (c :: (pre ++ suf)).
  cbn [star_lazy].
  assert (E : k (c :: pre ++ suf) = None)
    by (apply (Hk [] (c :: pre) eq_refl); discriminate).
  rewrite E, Hc. apply IH; [exact Hp |].
  intros a b -> Hb. now apply (Hk (c :: a) b).
Qed.

Lemma star_lazy_hit p (k : str -> mres) s x :
  k s = Some x -> star_lazy p k s = Some x.
Proof. intros H. destruct s; simpl; now rewrite H. Qed.

Lemma firstn_app_length (a b : str) :
  firstn (length (a ++ b) - length b) (a ++ b) = a.
Proof.
  rewrite length_app, Nat.add_sub, firstn_app, Nat.sub_diag, firstn_all.
  simpl. apply app_nil_r.
Qed.

(** The date pattern reads ten code units. *)
Lemma m_date_re k s g :
  m date_re k s g = if date_at s then k (skipn 10 s) g else None.
Proof.
  unfold date_re. unlit. cbn [Seqs Rep Str m].
  do 10 (destruct s as [| ? s]; [cbn; repeat match goal with |- context [if ?b then _ else _] => destruct b end; reflexivity |]).
  cbn [date_at skipn].
  repeat match goal with
         | |- context [is_digit ?c] => destruct (is_digit c); cbn [andb]; [| reflexivity]
         | |- context [Ascii.eqb ?a ?c] => destruct (Ascii.eqb a c); cbn [andb]; [| reflexivity]
         end.
  reflexivity.
Qed.


(* ================================================================== *)
(** * The replacements of the parser as list functions                  *)
(* ================================================================== *)

Lemma replace_all_fuel_cls p by_ fuel : forall s,
  length s <= fuel ->
  replace_all_fuel fuel (Cls p) by_ s
  = flat_map (fun c => if p c then by_ else [c]) s.
Proof.
  induction fuel as [| fuel IH]; intros [| c s] Hl; simpl in Hl; try reflexivity; [lia |].
  cbn [replace_all_fuel flat_map]. unfold match_here. cbn [m].
  destruct (p c).
  - unfold accept.
    assert (E : (length s <? length (c :: s)) = true) by (apply Nat.ltb_lt; simpl; lia).
    rewrite E, IH by lia. reflexivity.
  - rewrite IH by lia. reflexivity.
Qed.

Lemma replace_all_cls p by_ s :
  replace_all (Cls p) by_ s = flat_map (fun c => if p c then by_ else [c]) s.
Proof. unfold replace_all. now apply replace_all_fuel_cls. Qed.

Lemma flat_map_untouched (p : ascii -> bool) by_ s :
  forallb (fun c => negb (p c)) s = true ->
  flat_map (fun c => if p c then by_ else [c]) s = s.
Proof.
  induction s as [| c s IH]; simpl; [reflexivity |].
  intros H. apply andb_true_iff in H as [Hc H].
  destruct (p c); [discriminate |]. simpl. now rewrite IH.
Qed.

Lemma forallb_flat_map (q p : ascii -> bool) by_ s :
  forallb q by_ = true ->
  forallb (fun c => p c || q c) s = true ->
  forallb q (flat_map (fun c => if p c then by_ else [c]) s) = true.
Proof.
  intros Hb. induction s as [| c s IH]; simpl; [reflexivity |].
  intros H. apply andb_true_iff in H as [Hc H].
  rewrite forallb_app, IH by exact H.
  destruct (p c); [now rewrite Hb |]. simpl in *. now rewrite Hc.
Qed.

Lemma drop_run_length p s : length (drop_run p s) <= length s.
Proof.
  induction s as [| c s IH]; simpl; [lia |]. destruct (p c); simpl; lia.
Qed.

Lemma match_here_plus p c s :
  match_here (Plus p) (c :: s) = if p c then Some (drop_run p s, []) else None.
Proof.
  unfold match_here, Plus. cbn [m]. destruct (p c); [| reflexivity].
  apply star_greedy_accept.
Qed.

Lemma collapse_aux_run p by_ s :
  collapse_aux p by_ true s = collapse_aux p by_ false (drop_run p s).
Proof.
  induction s as [| c s IH]; simpl; [reflexivity |].
  destruct (p c) eqn:E; [exact IH |]. simpl. now rewrite E.
Qed.

Lemma replace_all_fuel_plus p by_ fuel : forall s,
  length s <= fuel ->
  replace_all_fuel fuel (Plus p) by_ s = collapse_aux p by_ false s.
Proof.
  induction fuel as [| fuel IH]; intros [| c s] Hl; simpl in Hl; try reflexivity; [lia |].
  cbn [replace_all_fuel collapse_aux]. rewrite match_here_plus.
  destruct (p c).
  - pose proof (drop_run_length p s) as Hd.
    assert (E : (length (drop_run p s) <? length (c :: s)) = true)
      by (apply Nat.ltb_lt; simpl; lia).
    rewrite E, IH by lia. now rewrite collapse_aux_run.
  - rewrite IH by lia. reflexivity.
Qed.

Lemma replace_all_plus p by_ s :
  replace_all (Plus p) by_ s = collapse_aux p by_ false s.
Proof. unfold replace_all. now apply replace_all_fuel_plus. Qed.

(** [/[ -]+$/] removes the trailing run. *)
Lemma match_here_plus_eol p s :
  match_here (Seq (Plus p) Eol) s
  = match s with
    | [] => None
    | _ :: _ => if forallb p s then Some ([], []) else None
    end.
Proof.
  unfold match_here, Plus. cbn [m]. destruct s as [| c s]; [reflexivity |].
  cbn [forallb]. destruct (p c); [| reflexivity]. cbn [andb].
  now apply star_greedy_eol.
Qed.

Lemma replace_plus_eol p s :
  replace (Floating (Seq (Plus p) Eol)) [] s = strip_trailing p s.
Proof.
  unfold replace, exec. cbn [anchored Regex.body Floating].
  induction s as [| c s IH].
  - reflexivity.
  - cbn [search_from strip_trailing]. rewrite match_here_plus_eol.
    destruct (forallb p (c :: s)); [reflexivity |].
    destruct (search_from (Seq (Plus p) Eol) s) as [[[pre rest] g] |].
    + cbn [app] in *. now rewrite IH.
    + now rewrite <- IH.
Qed.

(** [/\.[^/.]+$/] removes the extension. *)
Lemma match_here_extension s :
  match_here (Regex.body extensionRegex) s
  = match s with
    | c :: (_ :: _) as t =>
        if Ascii.eqb "." c && forallb (none_of (lit "/.")) t
        then Some ([], []) else None
    | _ => None
    end.
Proof.
  unfold extensionRegex, match_here. cbn [Regex.body Floating]. unlit.
  unfold Plus. cbn [Seqs Str m]. destruct s as [| c t]; [reflexivity |].
  destruct (Ascii.eqb "." c); [| now destruct t].
  cbn [andb]. destruct t as [| c' t]; [reflexivity |].
  cbn [forallb]. destruct (none_of _ c'); [| reflexivity]. cbn [andb].
  now apply star_greedy_eol.
Qed.

Lemma replace_extension s e :
  e <> [] -> forallb (none_of (lit "/.")) e = true ->
  replace extensionRegex [] (s ++ "."%char :: e) = s.
Proof.
  intros He Hf. unfold replace, exec. change (anchored extensionRegex) with false.
  cbv iota.
  assert (G : search_from (Regex.body extensionRegex) (s ++ "."%char :: e)
              = Some (s, [], [])).
  { induction s as [| c s IH].
    - cbn [app search_from]. rewrite match_here_extension.
      destruct e as [| e0 e']; [congruence |]. rewrite Hf. reflexivity.
    - assert (E : forallb (none_of (lit "/.")) (s ++ "."%char :: e) = false).
      { rewrite forallb_app. cbn [forallb].
        replace (none_of (lit "/.") ".") with false by reflexivity.
        now rewrite andb_false_r. }
      assert (M : match_here (Regex.body extensionRegex) (c :: s ++ "."%char :: e) = None).
      { rewrite match_here_extension.
        destruct (s ++ "."%char :: e); [reflexivity |].
        now rewrite E, andb_false_r. }
      cbn [app search_from]. now rewrite M, IH. }
  rewrite G. now rewrite !app_nil_r.
Qed.


(* ================================================================== *)
(** * Facts about [trim], trailing runs and single spacing              *)
(* ================================================================== *)

Lemma forallb_impl (p q : ascii -> bool) s :
  (forall c, p c = true -> q c = true) ->
  forallb p s = true -> forallb q s = true.
Proof.
  intros H. induction s as [| c s IH]; simpl; [reflexivity |].
  intros E. apply andb_true_iff in E as [Hc E]. now rewrite (H c Hc), IH.
Qed.

Lemma forallb_both (p q : ascii -> bool) s :
  forallb p s = true -> forallb q s = true ->
  forallb (fun c => p c && q c) s = true.
Proof.
  induction s as [| c s IH]; simpl; [reflexivity |].
  intros E F. apply andb_true_iff in E as [-> E]. apply andb_true_iff in F as [-> F].
  now rewrite IH.
Qed.

Lemma snoc_cases (s : str) : s = [] \/ exists a c, s = a ++ [c].
Proof.
  destruct (rev s) as [| c t] eqn:E.
  - left. apply (f_equal (@rev ascii)) in E. now rewrite rev_involutive in E.
  - right. exists (rev t), c. apply (f_equal (@rev ascii)) in E.
    now rewrite rev_involutive in E.
Qed.

Lemma last_is_snoc p a c : last_is p (a ++ [c]) = p c.
Proof. unfold last_is. now rewrite rev_app_distr. Qed.

Lemma last_is_app p a b : b <> [] -> last_is p (a ++ b) = last_is p b.
Proof.
  intros Hb. destruct (snoc_cases b) as [-> | (b' & c & ->)]; [congruence |].
  now rewrite app_assoc, !last_is_snoc.
Qed.

Lemma last_is_nonempty p s : last_is p s = true -> s <> [].
Proof. now destruct s. Qed.

Lemma last_is_forallb p q s :
  last_is p s = true -> forallb q s = true ->
  last_is (fun c => p c && q c) s = true.
Proof.
  destruct (snoc_cases s) as [-> | (a & c & ->)]; [discriminate |].
  rewrite !last_is_snoc, forallb_app. simpl. intros ->.
  intros E. apply andb_true_iff in E as [_ E]. now destruct (q c).
Qed.

Lemma last_is_impl (p q : ascii -> bool) s :
  (forall c, p c = true -> q c = true) ->
  last_is p s = true -> last_is q s = true.
Proof.
  intros H. destruct (snoc_cases s) as [-> | (a & c & ->)]; [discriminate |].
  rewrite !last_is_snoc. apply H.
Qed.

Lemma last_is_not_all p s :
  last_is (fun c => negb (p c)) s = true -> forallb p s = false.
Proof.
  destruct (snoc_cases s) as [-> | (a & c & ->)]; [discriminate |].
  rewrite last_is_snoc, forallb_app. simpl. destruct (p c); [discriminate |].
  intros _. now rewrite andb_false_r.
Qed.

Lemma trimStart_suffix s : exists a, s = a ++ trimStart s.
Proof.
  induction s as [| c s [a IH]]; simpl; [now exists [] |].
  destruct (is_space c); [| now exists []].
  exists (c :: a). simpl. now rewrite <- IH.
Qed.

Lemma trimEnd_prefix s : exists b, s = trimEnd s ++ b.
Proof.
  unfold trimEnd. destruct (trimStart_suffix (rev s)) as [a E].
  exists (rev a). rewrite <- rev_app_distr, <- E. now rewrite rev_involutive.
Qed.

Lemma trimEnd_fixed s :
  last_is (fun c => negb (is_space c)) s = true -> trimEnd s = s.
Proof.
  destruct (snoc_cases s) as [-> | (a & c & ->)]; [discriminate |].
  rewrite last_is_snoc. intros H. unfold trimEnd.
  rewrite rev_app_distr. simpl. destruct (is_space c); [discriminate |].
  simpl. now rewrite rev_involutive.
Qed.

Lemma trim_fixed_last c s :
  is_space c = false ->
  last_is (fun c => negb (is_space c)) (c :: s) = true ->
  trim (c :: s) = c :: s.
Proof.
  intros Hc Hl. unfold trim. rewrite trimStart_keep by exact Hc.
  now apply trimEnd_fixed.
Qed.

Lemma trim_sub s : exists a b, s = a ++ trim s ++ b.
Proof.
  unfold trim. destruct (trimStart_suffix s) as [a Ea].
  destruct (trimEnd_prefix (trimStart s)) as [b Eb].
  exists a, b. now rewrite <- Eb.
Qed.

Lemma forallb_trim p s : forallb p s = true -> forallb p (trim s) = true.
Proof.
  destruct (trim_sub s) as (a & b & E). intros H. rewrite E in H.
  rewrite !forallb_app in H.
  apply andb_true_iff in H as [_ H]. now apply andb_true_iff in H as [H _].
Qed.

Lemma strip_trailing_prefix p s : exists b, s = strip_trailing p s ++ b.
Proof.
  induction s as [| c s [b IH]]; [now exists [] |].
  cbn [strip_trailing]. destruct (forallb p (c :: s)).
  - now exists (c :: s).
  - exists b. simpl. now rewrite <- IH.
Qed.

Lemma strip_trailing_last p s :
  strip_trailing p s = []
  \/ last_is (fun c => negb (p c)) (strip_trailing p s) = true.
Proof.
  induction s as [| c s IH]; [now left |].
  cbn [strip_trailing]. destruct (forallb p (c :: s)) eqn:E; [now left |].
  right. destruct (strip_trailing p s) as [| d t] eqn:Es.
  - unfold last_is. simpl. cbn [forallb] in E.
    destruct (p c); [| reflexivity]. simpl in E.
    destruct s as [| e s]; [discriminate |]. cbn [strip_trailing] in Es.
    rewrite E in Es. discriminate.
  - destruct IH as [IH | IH]; [discriminate |].
    change (c :: d :: t) with ([c] ++ d :: t).
    rewrite last_is_app by discriminate. exact IH.
Qed.

Lemma strip_trailing_fixed p s :
  last_is (fun c => negb (p c)) s = true -> strip_trailing p s = s.
Proof.
  induction s as [| c s IH]; [reflexivity |].
  intros H. cbn [strip_trailing]. rewrite (last_is_not_all _ _ H).
  destruct s as [| d s]; [reflexivity |].
  rewrite IH; [reflexivity |].
  change (c :: d :: s) with ([c] ++ d :: s) in H.
  now rewrite last_is_app in H by discriminate.
Qed.

Lemma spaced_ok_any b s : spaced_ok b s = true -> spaced_ok false s = true.
Proof.
  destruct s as [| c s]; [reflexivity |]. cbn [spaced_ok].
  destruct (is_space c); [| trivial].
  destruct b; cbn [negb]; [now rewrite andb_false_r | trivial].
Qed.

Lemma spaced_ok_app_l a : forall b c,
  spaced_ok b (a ++ c) = true -> spaced_ok b a = true.
Proof.
  induction a as [| x a IH]; intros b c; [reflexivity |].
  cbn [app spaced_ok]. destruct (is_space x).
  - intros H. apply andb_true_iff in H as [-> H]. now rewrite (IH _ _ H).
  - apply IH.
Qed.

Lemma spaced_ok_app_r a : forall b c,
  spaced_ok b (a ++ c) = true -> spaced_ok false c = true.
Proof.
  induction a as [| x a IH]; intros b c; [apply spaced_ok_any |].
  cbn [app spaced_ok]. destruct (is_space x).
  - intros H. apply andb_true_iff in H as [_ H]. now apply IH in H.
  - apply IH.
Qed.

Lemma spaced_ok_head c s :
  is_space c = false -> spaced_ok false (c :: s) = true ->
  spaced_ok true (c :: s) = true.
Proof. cbn [spaced_ok]. now intros ->. Qed.

Lemma spaced_ok_spaces s : forall b,
  spaced_ok b s = true ->
  forallb (fun c => negb (is_space c) || Ascii.eqb c " ") s = true.
Proof.
  induction s as [| c s IH]; intros b; [reflexivity |].
  cbn [spaced_ok forallb]. destruct (is_space c); cbn [negb orb].
  - intros H. apply andb_true_iff in H as [H1 H]. apply andb_true_iff in H1 as [-> _].
    now rewrite (IH _ H).
  - intros H. now rewrite (IH _ H).
Qed.

Lemma collapse_spaced s : forall b,
  spaced_ok b (collapse_aux is_space [" "%char] b s) = true.
Proof.
  induction s as [| c s IH]; intros b; [reflexivity |].
  cbn [collapse_aux]. destruct (is_space c) eqn:E.
  - destruct b; [apply IH |]. cbn [app spaced_ok].
    replace (is_space " ") with true by reflexivity. simpl. apply IH.
  - cbn [spaced_ok]. rewrite E. apply IH.
Qed.

Lemma collapse_fixed s : forall b,
  spaced_ok b s = true -> collapse_aux is_space [" "%char] b s = s.
Proof.
  induction s as [| c s IH]; intros b; [reflexivity |].
  cbn [collapse_aux spaced_ok]. destruct (is_space c).
  - intros H. apply andb_true_iff in H as [H1 H]. apply andb_true_iff in H1 as [Hc Hb].
    destruct b; [discriminate |]. apply Ascii.eqb_eq in Hc. subst c.
    cbn [app]. now rewrite (IH _ H).
  - intros H. now rewrite (IH _ H).
Qed.

Lemma collapse_underscored s : forall b,
  spaced_ok b s = true -> collapse_aux is_space ["_"%char] b s = map underscored s.
Proof.
  induction s as [| c s IH]; intros b; [reflexivity |].
  cbn [collapse_aux spaced_ok map]. unfold underscored at 1. destruct (is_space c).
  - intros H. apply andb_true_iff in H as [H1 H]. apply andb_true_iff in H1 as [Hc Hb].
    destruct b; [discriminate |]. cbn [app]. now rewrite (IH _ H).
  - intros H. now rewrite (IH _ H).
Qed.

Lemma forallb_collapse (q p : ascii -> bool) by_ s : forall b,
  forallb q by_ = true -> forallb q s = true ->
  forallb q (collapse_aux p by_ b s) = true.
Proof.
  induction s as [| c s IH]; intros b Hb; [reflexivity |].
  cbn [collapse_aux forallb]. intros H. apply andb_true_iff in H as [Hc H].
  destruct (p c).
  - destruct b; [now apply IH |]. rewrite forallb_app, Hb. now apply IH.
  - cbn [forallb]. rewrite Hc. now apply IH.
Qed.

(* ================================================================== *)
(** * The shape of the names that the parser returns                    *)
(* ================================================================== *)

Lemma special_or_kept c :
  none_of (lit "/") c = true ->
  one_of (lit "~^*'`+") c || none_of (lit "~^*'`+/") c = true.
Proof. by_cases_on c. Qed.

Lemma underscore_or_kept c :
  none_of (lit "~^*'`+/") c = true ->
  one_of (lit "_") c || name_char c = true.
Proof. by_cases_on c. Qed.

Lemma not_sep_not_space c :
  none_of (lit " -") c && (negb (is_space c) || Ascii.eqb c " ") = true ->
  negb (is_space c) = true.
Proof. by_cases_on c. Qed.

Lemma cleanName_clean raw :
  forallb (none_of (lit "/")) raw = true ->
  cleanName raw <> [] ->
  clean_name (cleanName raw).
Proof.
  intros Hraw. unfold cleanName, specialCharsRegex, underscoreRegex, spacesRegex,
    trailingSepRegex.
  rewrite !replace_all_cls, replace_all_plus, replace_plus_eol.
  set (x2 := trim (flat_map _ raw)).
  assert (H2 : forallb (none_of (lit "~^*'`+/")) x2 = true).
  { apply forallb_trim. apply forallb_flat_map; [reflexivity |].
    revert Hraw. apply forallb_impl. exact special_or_kept. }
  set (x3 := flat_map _ x2).
  assert (H3 : forallb name_char x3 = true).
  { apply forallb_flat_map; [reflexivity |].
    revert H2. apply forallb_impl. exact underscore_or_kept. }
  change (lit " ") with [" "%char].
  set (x4 := collapse_aux is_space [" "%char] false x3).
  assert (H4 : forallb name_char x4 = true) by now apply forallb_collapse.
  assert (S4 : spaced_ok false x4 = true) by apply collapse_spaced.
  set (x5 := strip_trailing _ x4).
  destruct (strip_trailing_prefix (one_of (lit " -")) x4) as [q5 E5]. fold x5 in E5.
  assert (H5 : forallb name_char x5 = true).
  { rewrite E5, forallb_app in H4. now apply andb_true_iff in H4 as [H4 _]. }
  assert (S5 : spaced_ok false x5 = true).
  { rewrite E5 in S4. now apply spaced_ok_app_l in S4. }
  pose proof (strip_trailing_last (one_of (lit " -")) x4) as L5. fold x5 in L5.
  unfold trim. destruct (trimStart_suffix x5) as [a Ea].
  destruct (trimStart x5) as [| d y] eqn:Ey; [intros H; now contradiction H |].
  intros _.
  assert (Hd : is_space d = false) by now apply trimStart_head in Ey.
  assert (Hy : forallb name_char (d :: y) = true).
  { rewrite Ea, forallb_app in H5. now apply andb_true_iff in H5 as [_ H5]. }
  assert (Sy : spaced_ok false (d :: y) = true).
  { rewrite Ea in S5. now apply spaced_ok_app_r in S5. }
  assert (Ly : last_is (none_of (lit " -")) (d :: y) = true).
  { destruct L5 as [L5 | L5].
    - rewrite L5 in Ea. now destruct a.
    - rewrite Ea, last_is_app in L5 by discriminate. exact L5. }
  assert (Ty : trimEnd (d :: y) = d :: y).
  { apply trimEnd_fixed.
    pose proof (last_is_forallb _ _ _ Ly (spaced_ok_spaces _ _ Sy)) as L.
    revert L. apply last_is_impl. exact not_sep_not_space. }
  rewrite Ty. repeat split; [exact Hy | now apply spaced_ok_head | exact Ly].
Qed.


(* ================================================================== *)
(** * What a successful parse tells about its result                    *)
(* ================================================================== *)

Lemma forallb_firstn (P : ascii -> bool) n s :
  forallb P s = true -> forallb P (firstn n s) = true.
Proof.
  intros H. rewrite <- (firstn_skipn n s), forallb_app in H.
  now apply andb_true_iff in H as [H _].
Qed.

Lemma star_greedy_pres P p (k : str -> mres) s x :
  forallb P s = true -> star_greedy p k s = Some x ->
  exists s', forallb P s' = true /\ k s' = Some x.
Proof.
  induction s as [| c s IH]; simpl; intros HP H; [now exists [] |].
  apply andb_true_iff in HP as [Hc HP].
  assert (Hs : forallb P (c :: s) = true) by (simpl; now rewrite Hc, HP).
  destruct (p c); [| now exists (c :: s)].
  destruct (star_greedy p k s) eqn:E; simpl in H.
  - inversion H; subst. now apply IH.
  - now exists (c :: s).
Qed.

Lemma star_lazy_pres P p (k : str -> mres) s x :
  forallb P s = true -> star_lazy p k s = Some x ->
  exists s', forallb P s' = true /\ k s' = Some x.
Proof.
  induction s as [| c s IH]; cbn [star_lazy]; intros HP H.
  - destruct (k []) eqn:E; [| discriminate]. inversion H; subst. now exists [].
  - destruct (k (c :: s)) eqn:E; [inversion H; subst; now exists (c :: s) |].
    destruct (p c); [| discriminate]. simpl in HP.
    apply andb_true_iff in HP as [_ HP]. now apply IH.
Qed.

(** The continuation of a match is entered on a rest of the input and
    with captures cut from the input. *)
Lemma m_pres P r : forall k s g x,
  forallb P s = true -> caps_all P g = true -> m r k s g = Some x ->
  exists s' g', forallb P s' = true /\ caps_all P g' = true /\ k s' g' = Some x.
Proof.
  induction r as [| p | r1 IH1 r2 IH2 | r1 IH1 | p | p | i r1 IH1 |];
    intros k s g x HP Hg H; cbn [m] in H.
  - now exists s, g.
  - destruct s as [| c s]; [discriminate |]. destruct (p c); [| discriminate].
    simpl in HP. apply andb_true_iff in HP as [_ HP]. now exists s, g.
  - apply IH1 in H as (s1 & g1 & HP1 & Hg1 & H); [| assumption ..].
    now apply IH2 in H.
  - destruct (m r1 k s g) eqn:E; simpl in H.
    + inversion H; subst. now apply IH1 in E.
    + now exists s, g.
  - apply (star_greedy_pres P) in H as (s' & HP' & H); [| assumption].
    now exists s', g.
  - apply (star_lazy_pres P) in H as (s' & HP' & H); [| assumption].
    now exists s', g.
  - apply IH1 in H as (s1 & g1 & HP1 & Hg1 & H); [| assumption ..].
    exists s1, ((i, firstn (length s - length s1) s) :: g1).
    repeat split; [assumption | | assumption].
    unfold caps_all in *. cbn [forallb snd]. rewrite Hg1.
    now rewrite forallb_firstn.
  - destruct s; [| discriminate]. now exists [], g.
Qed.

Lemma cap_all P g i v :
  caps_all P g = true -> cap i g = Some v -> forallb P v = true.
Proof.
  induction g as [| [j w] g IH]; simpl; [discriminate |].
  intros H. apply andb_true_iff in H as [Hw H].
  destruct (i =? j); [| now apply IH]. intros E. now inversion E; subst.
Qed.

Lemma js_match_anchored_caps P r s g i v :
  forallb P s = true ->
  js_match (Anchored r) s = Some g -> cap i g = Some v ->
  forallb P v = true.
Proof.
  intros HP H Hc. unfold js_match, exec in H. cbn [anchored Regex.body Anchored] in H.
  unfold match_here in H.
  destruct (m r accept s []) as [[rest g'] |] eqn:E; [| discriminate].
  inversion H; subst.
  apply (m_pres P) in E as (s' & g'' & _ & Hg & E); [| assumption | reflexivity].
  unfold accept in E. inversion E; subst. now apply (cap_all P g i).
Qed.

Lemma slash_or_not c : one_of (lit "/") c || none_of (lit "/") c = true.
Proof. unfold none_of. now destruct (one_of _ c). Qed.

Lemma forallb_true (p : ascii -> bool) s :
  (forall c, p c = true) -> forallb p s = true.
Proof. intros H. induction s as [| c s IH]; simpl; [reflexivity |]. now rewrite H. Qed.

(** The name that the parser returns has the shape of a clean name, and
    the date that it returns passes the date test. *)
Lemma extract_shape fileName studentName classDate :
  extractStudentInfoFromFilename fileName = Some (studentName, classDate) ->
  clean_name studentName /\ test dateOnlyRegex classDate = true.
Proof.
  unfold extractStudentInfoFromFilename. intros H.
  set (x := replace_all slashRegex (lit "-") _) in H.
  assert (Hx : forallb (none_of (lit "/")) x = true).
  { unfold x, slashRegex. rewrite replace_all_cls.
    apply forallb_flat_map; [reflexivity |].
    apply forallb_true. exact slash_or_not. }
  assert (G : forall g raw, or_match (js_match meetRegex x) (js_match processedRegex x) = Some g ->
              cap 1 g = Some raw -> forallb (none_of (lit "/")) raw = true).
  { intros g raw Hg Hc. unfold or_match in Hg.
    destruct (js_match meetRegex x) as [g1 |] eqn:E1.
    - inversion Hg; subst. unfold meetRegex in E1.
      exact (js_match_anchored_caps _ _ _ _ Hx E1 Hc).
    - unfold processedRegex in Hg.
      exact (js_match_anchored_caps _ _ _ _ Hx Hg Hc). }
  destruct (or_match _ _) as [g |]; [| discriminate].
  specialize (G g).
  destruct (cap 1 g) as [raw |]; [| discriminate].
  destruct (cap 2 g) as [d |]; [| discriminate].
  destruct (truthy raw && truthy d); [| discriminate].
  destruct (truthy (cleanName raw)) eqn:Ht; [| discriminate].
  destruct (test dateOnlyRegex d) eqn:Hd; simpl in H; [| discriminate].
  inversion H; subst; clear H. split; [| exact Hd].
  apply cleanName_clean; [now apply G |].
  now apply truthy_nonempty.
Qed.


(* ================================================================== *)
(** * Dates, and names that hold no date                                *)
(* ================================================================== *)

Lemma date_at_chars s :
  date_at s = true -> forallb date_char (firstn 10 s) = true /\ 10 <= length s.
Proof.
  do 10 (destruct s as [| ? s]; [discriminate |]).
  cbn [date_at firstn forallb length]. intros H.
  do 9 (apply andb_true_iff in H as [H ?]).
  unfold date_char. split; [| lia].
  repeat match goal with E : _ = true |- _ => rewrite E; clear E end.
  cbn [orb andb]. rewrite ?orb_true_r. reflexivity.
Qed.

Lemma date_at_prefix b t : 10 <= length b -> date_at (b ++ t) = date_at b.
Proof.
  do 10 (destruct b as [| ? b]; [simpl; lia |]). reflexivity.
Qed.

Lemma date_at_app d t : date_at d = true -> date_at (d ++ t) = true.
Proof.
  intros H. rewrite date_at_prefix; [exact H |]. now apply date_at_chars in H.
Qed.

Lemma date_at_underscore b t :
  date_at (b ++ "_"%char :: t) = true -> 10 <= length b.
Proof.
  intros H. apply date_at_chars in H as [H _].
  destruct (le_lt_dec 10 (length b)) as [L | L]; [exact L |].
  rewrite firstn_app, forallb_app in H. apply andb_true_iff in H as [_ H].
  destruct (10 - length b) as [| k] eqn:E; [lia |]. discriminate.
Qed.

Lemma date_test d :
  test dateOnlyRegex d = true -> date_at d = true /\ length d = 10.
Proof.
  unfold test, exec, dateOnlyRegex. cbn [anchored Regex.body Anchored].
  change (match_here (Seq date_re Eol) d)
    with (m date_re (fun s' g' => m Eol accept s' g') d []).
  rewrite m_date_re. destruct (date_at d) eqn:E; [| discriminate].
  intros H. split; [reflexivity |]. apply date_at_chars in E as [_ E].
  destruct (skipn 10 d) eqn:Es; [| discriminate].
  apply skipn_all_iff in Es. lia.
Qed.

Lemma date_skip (d t : str) : length d = 10 -> skipn 10 (d ++ t) = t.
Proof.
  intros <-. rewrite skipn_app, skipn_all, Nat.sub_diag. reflexivity.
Qed.

Lemma date_head d :
  date_at d = true -> exists c t, d = c :: t /\ is_digit c = true.
Proof.
  do 10 (destruct d as [| ? d]; [discriminate |]). cbn [date_at]. intros H.
  do 9 (apply andb_true_iff in H as [H ?]). eauto.
Qed.

Lemma date_forallb d :
  date_at d = true -> length d = 10 -> forallb date_char d = true.
Proof.
  intros H L. apply date_at_chars in H as [H _]. rewrite <- L in H.
  now rewrite firstn_all in H.
Qed.

Lemma sep_date_free_at sep x c b :
  sep_date_free sep (x ++ c :: b) = true -> sep c = true -> date_at b = false.
Proof.
  induction x as [| y x IH]; cbn [app sep_date_free]; intros H Hc.
  - apply andb_true_iff in H as [H _]. rewrite Hc in H. now destruct (date_at b).
  - apply andb_true_iff in H as [_ H]. now apply IH.
Qed.

Lemma ends_in_run (p : ascii -> bool) x a :
  a <> [] -> forallb p a = true ->
  last_is (fun c => negb (p c)) (x ++ a) = true -> False.
Proof.
  intros Ha Hp H. rewrite last_is_app in H by exact Ha.
  apply last_is_not_all in H. congruence.
Qed.

(** Inside a name that holds no date after a separator and does not end
    with a separator, no date starts after a run of separators, also not
    one that would run into what follows the name. *)
Lemma date_free_inside (sep : ascii -> bool) x a b t :
  a <> [] -> forallb sep a = true ->
  sep_date_free sep (x ++ a ++ b) = true ->
  last_is (fun c => negb (sep c)) (x ++ a ++ b) = true ->
  date_at (b ++ "_"%char :: t) = false.
Proof.
  intros Ha Hp Hf Hl.
  destruct (date_at (b ++ "_"%char :: t)) eqn:E; [| reflexivity].
  exfalso. pose proof (date_at_underscore _ _ E) as L.
  rewrite date_at_prefix in E by exact L.
  destruct (snoc_cases a) as [-> | (a0 & c & ->)]; [congruence |].
  rewrite forallb_app in Hp. apply andb_true_iff in Hp as [_ Hc].
  simpl in Hc. rewrite andb_true_r in Hc.
  replace (x ++ (a0 ++ [c]) ++ b) with ((x ++ a0) ++ c :: b) in Hf
    by (now rewrite <- !app_assoc).
  rewrite (sep_date_free_at _ _ _ _ Hf Hc) in E. discriminate.
Qed.

(* ================================================================== *)
(** * The recording pattern on a canonical name                         *)
(* ================================================================== *)

Lemma star_greedy_stop p (k : str -> mres) c s :
  p c = false -> star_greedy p k (c :: s) = k (c :: s).
Proof. simpl. now intros ->. Qed.

Section CanonicalName.

Variable n d : str.
Hypothesis n_dots : forallb dot n = true.
Hypothesis n_last : last_is (none_of (lit " _-")) n = true.
Hypothesis n_free : sep_date_free (one_of (lit " _-")) n = true.
Hypothesis d_date : date_at d = true.
Hypothesis d_length : length d = 10.

Lemma separators_fail (k : str -> caps -> mres) x b t g :
  n = x ++ b -> b <> [] ->
  (forall s g', date_at s = false -> k s g' = None) ->
  m (Plus (one_of (lit " _-"))) k (b ++ "_"%char :: t) g = None.
Proof.
  intros En Hb Hk. destruct b as [| c b]; [congruence |].
  unfold Plus. cbn [app m]. destruct (one_of (lit " _-") c) eqn:Hc; [| reflexivity].
  apply star_greedy_none. intros a r E Ha. apply Hk.
  apply app_eq_app in E as [l [[E1 E2] | [E1 E2]]].
  - (* the run ends inside the name *)
    subst r b.
    apply (@date_free_inside (one_of (lit " _-")) x (c :: a) l t).
    + discriminate.
    + cbn [forallb]. now rewrite Hc, Ha.
    + cbn [app]. rewrite <- En. exact n_free.
    + cbn [app]. rewrite <- En. exact n_last.
  - (* the run would cover the end of the name *)
    exfalso. subst a. rewrite forallb_app in Ha. apply andb_true_iff in Ha as [Ha _].
    apply (@ends_in_run (one_of (lit " _-")) x (c :: b)).
    + discriminate.
    + cbn [forallb]. now rewrite Hc, Ha.
    + rewrite <- En. exact n_last.
Qed.

Lemma meet_canonical t :
  forallb dot t = true ->
  js_match meetRegex (n ++ "_"%char :: d ++ t) = Some [(2, d); (1, n)].
Proof.
  intros Ht. unfold js_match, exec, meetRegex. cbn [anchored Regex.body Anchored Seqs].
  unfold match_here.
  assert (exists c0 n0, n = c0 :: n0) as (c0 & n0 & En).
  { pose proof n_last as L. destruct n as [| c0 n0]; [discriminate | eauto]. }
  pose proof n_dots as Hd. rewrite En in Hd |- *.
  change (m (Seq (Grp 1 (PlusLazy dot)) ?r) accept ?s [])
    with (m (PlusLazy dot)
            (fun s' g' => m r accept s' ((1, firstn (length s - length s') s) :: g'))
            s []).
  unfold PlusLazy. cbn [app m].
  simpl in Hd. apply andb_true_iff in Hd as [Hc0 Hn0]. rewrite Hc0.
  rewrite star_lazy_first; [| exact Hn0 |].
  - erewrite star_lazy_hit; cycle 1.
    + unfold Plus. cbn [m]. replace (one_of (lit " _-") "_") with true by reflexivity.
      destruct (date_head _ d_date) as (c & d' & Ed & Hc).
      rewrite Ed. cbn [app]. rewrite star_greedy_stop by now apply digit_not_sep.
      change (c :: d' ++ t) with ((c :: d') ++ t). rewrite <- Ed.
      rewrite m_date_re, date_at_app by exact d_date.
      rewrite date_skip by exact d_length.
      erewrite (@star_greedy_eol dot _ _ t); [| reflexivity | reflexivity].
      rewrite Ht. rewrite firstn_app_length.
      change (c0 :: n0 ++ "_"%char :: d ++ t) with ((c0 :: n0) ++ "_"%char :: d ++ t).
      rewrite firstn_app_length. reflexivity.
    + reflexivity.
  - intros a b -> Hb.
    change (m (Seq (Plus ?p) ?r) accept ?s ?g)
      with (m (Plus p) (fun s' g' => m r accept s' g') s g).
    apply (@separators_fail _ (c0 :: a) b); [exact En | exact Hb |].
    intros s g' Hs. now rewrite m_date_re, Hs.
Qed.

End CanonicalName.


(* ================================================================== *)
(** * The canonical name of a clean name                                *)
(* ================================================================== *)

Lemma forallb_map_ascii (p : ascii -> bool) (f : ascii -> ascii) s :
  forallb p (map f s) = forallb (fun c => p (f c)) s.
Proof. induction s as [| c s IH]; simpl; [reflexivity |]. now rewrite IH. Qed.

Lemma last_is_map p (f : ascii -> ascii) s :
  last_is p (map f s) = last_is (fun c => p (f c)) s.
Proof.
  destruct (snoc_cases s) as [-> | (a & c & ->)]; [reflexivity |].
  rewrite map_app. cbn [map]. now rewrite !last_is_snoc.
Qed.

Lemma last_is_all p s : s <> [] -> forallb p s = true -> last_is p s = true.
Proof.
  destruct (snoc_cases s) as [-> | (a & c & ->)]; [congruence |].
  intros _. rewrite last_is_snoc, forallb_app. simpl.
  intros H. apply andb_true_iff in H as [_ H]. now destruct (p c).
Qed.

Lemma underscored_dot c :
  negb (is_space c) || Ascii.eqb c " " = true -> dot (underscored c) = true.
Proof. by_cases_on c. Qed.

Lemma underscored_last c :
  none_of (lit " -") c && (name_char c && (negb (is_space c) || Ascii.eqb c " ")) = true ->
  none_of (lit " _-") (underscored c) = true.
Proof. by_cases_on c. Qed.

Lemma underscored_sep c :
  name_char c = true -> negb (is_space c) || Ascii.eqb c " " = true ->
  one_of (lit " _-") (underscored c) = one_of (lit " -") c.
Proof. by_cases_on c. Qed.

Lemma underscored_digit c : is_digit (underscored c) = is_digit c.
Proof. by_cases_on c. Qed.

Lemma underscored_hyphen c : Ascii.eqb "-" (underscored c) = Ascii.eqb "-" c.
Proof. by_cases_on c. Qed.

Lemma underscored_special c :
  name_char c = true -> negb (one_of (lit "~^*'`+") (underscored c)) = true.
Proof. by_cases_on c. Qed.

Lemma underscored_slash c :
  name_char c = true -> negb (one_of (lit "/") (underscored c)) = true.
Proof. by_cases_on c. Qed.

Lemma underscored_not_space c :
  negb (is_space c) || Ascii.eqb c " " = true ->
  negb (is_space (underscored c)) = true.
Proof. by_cases_on c. Qed.

Lemma underscored_back c :
  name_char c = true -> negb (is_space c) || Ascii.eqb c " " = true ->
  (if one_of (lit "_") (underscored c) then [" "%char] else [underscored c]) = [c].
Proof. by_cases_on c. Qed.

Lemma date_char_not_slash c : date_char c = true -> negb (one_of (lit "/") c) = true.
Proof. by_cases_on c. Qed.

Lemma date_char_not_space c : date_char c = true -> negb (is_space c) = true.
Proof. by_cases_on c. Qed.

Lemma id_char_no_slash c : id_char c = true -> negb (one_of (lit "/") c) = true.
Proof. by_cases_on c. Qed.

Lemma id_char_no_space c : id_char c = true -> negb (is_space c) = true.
Proof. by_cases_on c. Qed.

Lemma date_at_underscored s : date_at (map underscored s) = date_at s.
Proof.
  do 10 (destruct s as [| ? s]; [reflexivity |]).
  cbn [map date_at]. now rewrite !underscored_digit, !underscored_hyphen.
Qed.

Lemma sep_date_free_underscored s :
  forallb name_char s = true ->
  forallb (fun c => negb (is_space c) || Ascii.eqb c " ") s = true ->
  sep_date_free (one_of (lit " -")) s = true ->
  sep_date_free (one_of (lit " _-")) (map underscored s) = true.
Proof.
  induction s as [| c s IH]; [reflexivity |].
  cbn [forallb map sep_date_free]. intros H1 H2 H3.
  apply andb_true_iff in H1 as [C1 H1]. apply andb_true_iff in H2 as [C2 H2].
  apply andb_true_iff in H3 as [C3 H3].
  now rewrite underscored_sep, date_at_underscored, C3, IH.
Qed.

Lemma match_here_sep_date p s :
  match_here (Seq (Cls p) date_re) s
  = match s with
    | c :: s' => if p c && date_at s' then Some (skipn 10 s', []) else None
    | [] => None
    end.
Proof.
  unfold match_here. cbn [m]. destruct s as [| c s]; [reflexivity |].
  destruct (p c); [| reflexivity]. now rewrite m_date_re.
Qed.

Lemma search_none_free p s :
  search_from (Seq (Cls p) date_re) s = None -> sep_date_free p s = true.
Proof.
  induction s as [| c s IH]; [reflexivity |].
  cbn [search_from sep_date_free]. rewrite match_here_sep_date.
  destruct (p c && date_at s); [discriminate |].
  destruct (search_from _ s) as [[[pre rest] g] |]; [discriminate |].
  intros _. now rewrite IH.
Qed.

Lemma embedded_date_free s :
  test embeddedDateRegex s = false -> sep_date_free (one_of (lit " -")) s = true.
Proof.
  unfold test, exec, embeddedDateRegex. cbn [anchored Regex.body Floating].
  intros H. apply search_none_free.
  now destruct (search_from _ s).
Qed.

Lemma standardized_underscored n :
  clean_name n -> standardizedStudentName n = map underscored n.
Proof.
  intros (_ & Hs & _). unfold standardizedStudentName, spacesRegex.
  rewrite replace_all_plus. change (lit "_") with ["_"%char].
  apply collapse_underscored. now apply spaced_ok_any in Hs.
Qed.

Lemma trim_no_space s :
  forallb (fun c => negb (is_space c)) s = true -> trim s = s.
Proof.
  destruct s as [| c s]; [reflexivity |]. intros H.
  apply trim_fixed_last.
  - simpl in H. apply andb_true_iff in H as [H _]. now destruct (is_space c).
  - apply last_is_all; [discriminate | exact H].
Qed.

Lemma clean_name_head n :
  clean_name n -> exists c t, n = c :: t /\ is_space c = false.
Proof.
  intros (_ & Hs & Hl). destruct n as [| c t]; [discriminate |].
  exists c, t. split; [reflexivity |]. cbn [spaced_ok] in Hs.
  destruct (is_space c); [| reflexivity]. cbn [negb] in Hs.
  now rewrite andb_false_r in Hs.
Qed.

Lemma clean_name_last n :
  clean_name n -> last_is (fun c => negb (is_space c)) n = true.
Proof.
  intros (_ & Hs & Hl).
  pose proof (last_is_forallb _ _ _ Hl (spaced_ok_spaces _ _ Hs)) as L.
  revert L. apply last_is_impl. exact not_sep_not_space.
Qed.

Lemma flat_map_underscored n :
  forallb name_char n = true ->
  forallb (fun c => negb (is_space c) || Ascii.eqb c " ") n = true ->
  flat_map (fun c => if one_of (lit "_") c then [" "%char] else [c]) (map underscored n) = n.
Proof.
  induction n as [| c n IH]; [reflexivity |].
  cbn [forallb map flat_map]. intros H1 H2.
  apply andb_true_iff in H1 as [C1 H1]. apply andb_true_iff in H2 as [C2 H2].
  now rewrite underscored_back, IH.
Qed.

(** The cleaning of the canonical form of a clean name gives the name
    back. *)
Lemma cleanName_standardized n :
  clean_name n -> cleanName (map underscored n) = n.
Proof.
  intros Hn. pose proof Hn as (Hc & Hs & Hl).
  pose proof (spaced_ok_spaces _ _ Hs) as Hsp.
  unfold cleanName, specialCharsRegex, underscoreRegex, spacesRegex, trailingSepRegex.
  rewrite !replace_all_cls, replace_all_plus, replace_plus_eol.
  rewrite (@flat_map_untouched (one_of (lit "~^*'`+")) [] (map underscored n)).
  2:{ rewrite forallb_map_ascii. revert Hc. apply forallb_impl. exact underscored_special. }
  rewrite (@trim_no_space (map underscored n)).
  2:{ rewrite forallb_map_ascii. revert Hsp. apply forallb_impl. exact underscored_not_space. }
  change (lit " ") with [" "%char].
  rewrite flat_map_underscored by assumption.
  rewrite collapse_fixed by (now apply spaced_ok_any in Hs).
  rewrite strip_trailing_fixed by exact Hl.
  destruct (clean_name_head Hn) as (c & t & -> & Hh).
  apply trim_fixed_last; [exact Hh |]. now apply clean_name_last.
Qed.


(* ================================================================== *)
(** * The parse of a canonical name                                     *)
(* ================================================================== *)

Section CanonicalParse.

Variables n d f e : str.
Hypothesis n_clean : clean_name n.
Hypothesis n_free : sep_date_free (one_of (lit " -")) n = true.
Hypothesis d_date : test dateOnlyRegex d = true.
Hypothesis f_id : forallb id_char f = true.
Hypothesis e_nonempty : e <> [].
Hypothesis e_ext : forallb (none_of (lit "/.")) e = true.

Lemma canonical_stem_trimmed :
  trim (map underscored n ++ "_"%char :: d ++ "_"%char :: f)
  = map underscored n ++ "_"%char :: d ++ "_"%char :: f.
Proof.
  destruct (date_test _ d_date) as [Hd Ld].
  destruct (clean_name_head n_clean) as (c & t & En & Hc).
  rewrite En. cbn [map app].
  assert (U : underscored c = c) by (unfold underscored; now rewrite Hc).
  rewrite U. apply trim_fixed_last; [exact Hc |].
  change (c :: map underscored t ++ "_"%char :: d ++ "_"%char :: f)
    with ((c :: map underscored t) ++ "_"%char :: d ++ "_"%char :: f).
  rewrite last_is_app by discriminate.
  apply last_is_all; [discriminate |].
  cbn [forallb]. rewrite forallb_app. cbn [forallb].
  rewrite (forallb_impl _ _ _ date_char_not_space (date_forallb _ Hd Ld)).
  now rewrite (forallb_impl _ _ _ id_char_no_space f_id).
Qed.

Lemma canonical_stem_no_slash :
  replace_all slashRegex (lit "-")
    (map underscored n ++ "_"%char :: d ++ "_"%char :: f)
  = map underscored n ++ "_"%char :: d ++ "_"%char :: f.
Proof.
  destruct (date_test _ d_date) as [Hd Ld].
  destruct n_clean as (Hc & _ & _).
  unfold slashRegex. rewrite replace_all_cls. apply flat_map_untouched.
  rewrite forallb_app. cbn [forallb]. rewrite forallb_app. cbn [forallb].
  rewrite forallb_map_ascii.
  rewrite (forallb_impl _ _ _ underscored_slash Hc).
  rewrite (forallb_impl _ _ _ date_char_not_slash (date_forallb _ Hd Ld)).
  now rewrite (forallb_impl _ _ _ id_char_no_slash f_id).
Qed.

Lemma canonical_name_dots : forallb dot (map underscored n) = true.
Proof.
  destruct n_clean as (_ & Hs & _). rewrite forallb_map_ascii.
  apply (forallb_impl _ _ _ underscored_dot (spaced_ok_spaces _ _ Hs)).
Qed.

Lemma canonical_name_last :
  last_is (none_of (lit " _-")) (map underscored n) = true.
Proof.
  destruct n_clean as (Hc & Hs & Hl). rewrite last_is_map.
  pose proof (last_is_forallb _ _ _ Hl
                (forallb_both _ _ _ Hc (spaced_ok_spaces _ _ Hs))) as L.
  revert L. apply last_is_impl. exact underscored_last.
Qed.

Lemma canonical_name_free :
  sep_date_free (one_of (lit " _-")) (map underscored n) = true.
Proof.
  destruct n_clean as (Hc & Hs & _).
  apply sep_date_free_underscored; [exact Hc | | exact n_free].
  exact (spaced_ok_spaces _ _ Hs).
Qed.

(** The parser reads the canonical name of [(n, d)] as [(n, d)]. *)
Lemma extract_canonical :
  extractStudentInfoFromFilename
    (map underscored n ++ "_"%char :: d ++ "_"%char :: f ++ "."%char :: e)
  = Some (n, d).
Proof.
  destruct (date_test _ d_date) as [Hd Ld].
  unfold extractStudentInfoFromFilename.
  replace (map underscored n ++ "_"%char :: d ++ "_"%char :: f ++ "."%char :: e)
    with ((map underscored n ++ "_"%char :: d ++ "_"%char :: f) ++ "."%char :: e)
    by (rewrite <- app_assoc; cbn [app]; rewrite <- app_assoc; reflexivity).
  rewrite replace_extension by assumption.
  rewrite canonical_stem_trimmed, canonical_stem_no_slash.
  rewrite (@meet_canonical (map underscored n) d canonical_name_dots
             canonical_name_last canonical_name_free Hd Ld ("_"%char :: f)).
  2:{ cbn [forallb]. now rewrite (forallb_impl _ _ _ id_char_is_dot f_id). }
  cbn [or_match cap Nat.eqb].
  destruct (clean_name_head n_clean) as (c & t & En & Hc).
  destruct (date_head _ Hd) as (c' & t' & Ed & _).
  assert (T1 : truthy (map underscored n) = true) by now rewrite En.
  assert (T2 : truthy d = true) by now rewrite Ed.
  assert (T3 : truthy n = true) by now rewrite En.
  rewrite T1, T2. cbn [andb]. rewrite cleanName_standardized by exact n_clean.
  now rewrite T3, d_date.
Qed.

End CanonicalParse.

(** C6, as stated, fails for a name that holds a date: the recording
    [A 2020-01-0*1 2024-03-01.mp4] is read as the name [A 2020-01-01] and
    the date [2024-03-01], and its canonical name is read as the name [A]
    and the date [2020-01-01]. *)
Lemma C6_name_with_a_date_is_not_read_back :
  extractStudentInfoFromFilename (lit "A 2020-01-0*1 2024-03-01.mp4")
  = Some (lit "A 2020-01-01", lit "2024-03-01")
  /\ newFileName (lit "A 2020-01-01") (lit "2024-03-01") (lit "AbCdEfGhIjKLMNOP")
     = lit "A_2020-01-01_2024-03-01_AbCdEfGhIj.mp4"
  /\ extractStudentInfoFromFilename
       (newFileName (lit "A 2020-01-01") (lit "2024-03-01") (lit "AbCdEfGhIjKLMNOP"))
     = Some (lit "A", lit "2020-01-01")
  /\ extractStudentInfoFromFilename
       (newFileName (lit "A 2020-01-01") (lit "2024-03-01") (lit "AbCdEfGhIjKLMNOP"))
     <> Some (lit "A 2020-01-01", lit "2024-03-01").
Proof.
  repeat split; try (vm_compute; reflexivity).
  vm_compute. discriminate.
Qed.

(** C6, amended.  For every file name that the parser reads as
    [(studentName, classDate)], where [studentName] holds no date after a
    space or a hyphen and the first ten code units of the file identifier
    are among [A-Za-z0-9_-], the parser reads the canonical name
    [<studentName with white space replaced by underscores>_<classDate>_<first
    ten code units of the identifier>.mp4] as [(studentName, classDate)]
    again.  In particular [Jane Doe - 2024-03-01 10:00:00 GMT.mp4] is read
    as [Jane Doe] and [2024-03-01], and with an identifier that starts
    with [AbCdEfGhIj] its canonical name is
    [Jane_Doe_2024-03-01_AbCdEfGhIj.mp4]. *)
Theorem C6_canonical_name_is_read_back :
  (forall fileName studentName classDate fileId,
     extractStudentInfoFromFilename fileName = Some (studentName, classDate) ->
     test embeddedDateRegex studentName = false ->
     forallb id_char (substring_to 10 fileId) = true ->
     extractStudentInfoFromFilename (newFileName studentName classDate fileId)
     = Some (studentName, classDate))
  /\ extractStudentInfoFromFilename (lit "Jane Doe - 2024-03-01 10:00:00 GMT.mp4")
     = Some (lit "Jane Doe", lit "2024-03-01")
  /\ (forall rest,
        newFileName (lit "Jane Doe") (lit "2024-03-01") (lit "AbCdEfGhIj" ++ rest)
        = lit "Jane_Doe_2024-03-01_AbCdEfGhIj.mp4").
Proof.
  split; [| split; [vm_compute; reflexivity | intros rest; reflexivity]].
  intros fileName studentName classDate fileId Hp Hnd Hid.
  apply extract_shape in Hp as [Hn Hd].
  unfold newFileName. rewrite standardized_underscored by exact Hn.
  change (lit "_") with ["_"%char]. change (lit ".mp4") with ("."%char :: lit "mp4").
  cbn [app].
  apply extract_canonical; try assumption.
  - now apply embedded_date_free.
  - discriminate.
  - reflexivity.
Qed.

(** C6 on the recording of the example. *)
Lemma C6_canonical_name_is_read_back_witness :
  extractStudentInfoFromFilename (lit "Jane Doe - 2024-03-01 10:00:00 GMT.mp4")
  = Some (lit "Jane Doe", lit "2024-03-01")
  /\ test embeddedDateRegex (lit "Jane Doe") = false
  /\ forallb id_char (substring_to 10 (lit "AbCdEfGhIjKLMNOP")) = true
  /\ extractStudentInfoFromFilename
       (newFileName (lit "Jane Doe") (lit "2024-03-01") (lit "AbCdEfGhIjKLMNOP"))
     = Some (lit "Jane Doe", lit "2024-03-01").
Proof.
  split; [vm_compute; reflexivity |].
  split; [vm_compute; reflexivity |].
  split; [vm_compute; reflexivity |].
  apply (proj1 C6_canonical_name_is_read_back
           (lit "Jane Doe - 2024-03-01 10:00:00 GMT.mp4")); vm_compute; reflexivity.
Defined.


(* ================================================================== *)
(** * The transcript pattern on a canonical name                        *)
(* ================================================================== *)

(** A lazy name followed by [r]: the name ends at the first place from
    which [r] matches. *)
Lemma lazy_name_match (r : re) n t res :
  n <> [] -> forallb dot n = true ->
  (forall x b g, n = x ++ b -> b <> [] -> m r accept (b ++ t) g = None) ->
  m r accept t [(1, n)] = Some res ->
  match_here (Seq (Grp 1 (PlusLazy dot)) r) (n ++ t) = Some res.
Proof.
  intros Hne Hd Hfail Hhit. destruct n as [| c0 n0]; [congruence |].
  simpl in Hd. apply andb_true_iff in Hd as [Hc0 Hn0].
  unfold match_here, PlusLazy. cbn [app m]. rewrite Hc0.
  rewrite star_lazy_first; [| exact Hn0 |].
  - apply star_lazy_hit.
    change (c0 :: n0 ++ t) with ((c0 :: n0) ++ t).
    rewrite firstn_app_length. exact Hhit.
  - intros a b -> Hb. now apply (Hfail (c0 :: a) b).
Qed.

Lemma fragment_and_extension f g :
  length f = 10 -> forallb id_char f = true ->
  m (Seq (Opt (Seq (Str (lit "_")) (Rep 10 id_char)))
         (Seq (StrI (lit ".txt")) Eol))
    accept ("_"%char :: f ++ lit ".txt") g
  = Some ([], g).
Proof.
  intros L H.
  do 10 (destruct f as [| ? f]; [discriminate |]).
  destruct f; [| discriminate]. cbn [forallb] in H.
  repeat (apply andb_true_iff in H as [? H]).
  unlit. cbn [m Str Rep StrI app].
  replace (Ascii.eqb "_" "_") with true by reflexivity.
  repeat match goal with E : id_char _ = true |- _ => rewrite E; clear E end.
  reflexivity.
Qed.

Section CanonicalTranscript.

Variables n d f : str.
Hypothesis n_dots : forallb dot n = true.
Hypothesis n_last : last_is (none_of (lit " _-")) n = true.
Hypothesis n_free : sep_date_free (one_of (lit " _-")) n = true.
Hypothesis d_date : date_at d = true.
Hypothesis d_length : length d = 10.
Hypothesis f_length : length f = 10.
Hypothesis f_id : forallb id_char f = true.

Lemma transcript_canonical :
  js_match Distribution.transcriptRegex
    (n ++ "_"%char :: d ++ "_"%char :: f ++ lit ".txt")
  = Some [(2, d); (1, n)].
Proof.
  unfold js_match, exec, Distribution.transcriptRegex.
  cbn [anchored Regex.body Anchored Seqs].
  rewrite (@lazy_name_match _ n _ ([], [(2, d); (1, n)])).
  - reflexivity.
  - now apply last_is_nonempty in n_last.
  - exact n_dots.
  - intros x b g En Hb. destruct b as [| c b]; [congruence |].
    change (lit "_") with ["_"%char]. cbn [app m Str].
    destruct (Ascii.eqb "_" c) eqn:Ec; [| reflexivity].
    apply Ascii.eqb_eq in Ec. subst c.
    rewrite m_date_re.
    rewrite (@date_free_inside (one_of (lit " _-")) x ["_"%char] b); try reflexivity.
    + discriminate.
    + cbn [app]. rewrite <- En. exact n_free.
    + cbn [app]. rewrite <- En. exact n_last.
  - remember (Seq (Opt (Seq (Str (lit "_")) (Rep 10 id_char)))
                   (Seq (StrI (lit ".txt")) Eol)) as tail eqn:Et.
    change (lit "_") with ["_"%char]. cbn [m Str].
    replace (Ascii.eqb "_" "_") with true by reflexivity.
    rewrite m_date_re, date_at_app by exact d_date.
    rewrite date_skip by exact d_length. rewrite firstn_app_length.
    subst tail. now apply fragment_and_extension.
Qed.

End CanonicalTranscript.

(* ================================================================== *)
(** * The name under which the distribution searches the roster         *)
(* ================================================================== *)

Lemma hyphen_free_char c :
  none_of (lit "-") c = true -> Ascii.eqb "-" c = false.
Proof. by_cases_on c. Qed.

Lemma no_hyphen_no_date s :
  forallb (none_of (lit "-")) s = true -> date_at s = false.
Proof.
  do 10 (destruct s as [| ? s]; [reflexivity |]).
  cbn [forallb date_at]. intros H.
  do 5 (apply andb_true_iff in H as [? H]).
  rewrite (@hyphen_free_char a3) by assumption.
  now rewrite !andb_false_r.
Qed.

Lemma no_hyphen_free p s :
  forallb (none_of (lit "-")) s = true -> sep_date_free p s = true.
Proof.
  induction s as [| c s IH]; [reflexivity |].
  cbn [forallb sep_date_free]. intros H. apply andb_true_iff in H as [_ H].
  now rewrite no_hyphen_no_date, andb_false_r, IH.
Qed.

Lemma underscored_warning c :
  name_char c && none_of (lit "-") c = true ->
  negb (one_of (lit "+-~`'") (underscored c)) = true.
Proof. by_cases_on c. Qed.

Lemma underscored_asterisk c :
  name_char c = true -> negb (Ascii.eqb "*" (underscored c)) = true.
Proof. by_cases_on c. Qed.

Lemma lower_last c :
  negb (is_space c) = true -> negb (is_space (lower_char c)) = true.
Proof. now rewrite lower_char_space. Qed.

(** On the canonical form of a clean name without a hyphen the
    distribution computes the name in lower case. *)
Lemma studentNameProcessed_canonical n :
  clean_name n -> forallb (none_of (lit "-")) n = true ->
  Distribution.studentNameProcessed (map underscored n) = toLowerCase n.
Proof.
  intros Hn Hh. pose proof Hn as (Hc & Hs & Hl).
  pose proof (spaced_ok_spaces _ _ Hs) as Hsp.
  unfold Distribution.studentNameProcessed, Distribution.warningCharsRegex,
    underscoreRegex, spacesRegex.
  rewrite !replace_all_cls, replace_all_plus.
  rewrite (@flat_map_untouched (one_of (lit "+-~`'")) (lit " ") (map underscored n)).
  2:{ rewrite forallb_map_ascii.
      apply (forallb_impl _ _ _ underscored_warning (forallb_both _ _ _ Hc Hh)). }
  change (lit " ") with [" "%char].
  rewrite flat_map_underscored by assumption.
  rewrite collapse_fixed by (now apply spaced_ok_any in Hs).
  destruct (clean_name_head Hn) as (c & t & En & Hh0).
  pose proof (clean_name_last Hn) as Ll. rewrite En in Ll |- *.
  unfold toLowerCase. cbn [map]. apply trim_fixed_last.
  - now rewrite lower_char_space.
  - change (lower_char c :: map lower_char t) with (map lower_char (c :: t)).
    rewrite last_is_map. revert Ll. apply last_is_impl. exact lower_last.
Qed.


Lemma includes_char c s :
  forallb (fun x => negb (Ascii.eqb c x)) s = true -> includes [c] s = false.
Proof.
  induction s as [| x s IH]; [reflexivity |].
  cbn [forallb includes startsWith]. intros H. apply andb_true_iff in H as [Hx H].
  rewrite (IH H). now destruct (Ascii.eqb c x).
Qed.

Lemma skipn_prefix (p s : str) : skipn (length p) (p ++ s) = s.
Proof. now rewrite skipn_app, skipn_all, Nat.sub_diag. Qed.

Lemma not_slash_char c :
  negb (one_of (lit "/") c) = true -> negb (Ascii.eqb "/" c) = true.
Proof. by_cases_on c. Qed.

Lemma underscored_not_slash c :
  name_char c = true -> negb (Ascii.eqb "/" (underscored c)) = true.
Proof. by_cases_on c. Qed.

Section TranscriptOfARecording.

Variables n d f : str.
Hypothesis n_clean : clean_name n.
Hypothesis n_hyphen : forallb (none_of (lit "-")) n = true.
Hypothesis d_date : test dateOnlyRegex d = true.
Hypothesis f_length : length f = 10.
Hypothesis f_id : forallb id_char f = true.

Lemma transcriptName_unfold :
  transcriptName n d f
  = map underscored n ++ "_"%char :: d ++ "_"%char :: f ++ lit ".txt".
Proof.
  unfold transcriptName. now rewrite standardized_underscored by exact n_clean.
Qed.

Lemma transcript_match :
  js_match Distribution.transcriptRegex (transcriptName n d f)
  = Some [(2, d); (1, map underscored n)].
Proof.
  destruct (date_test _ d_date) as [Hd Ld].
  rewrite transcriptName_unfold. apply transcript_canonical; try assumption.
  - now apply canonical_name_dots.
  - now apply canonical_name_last.
  - apply canonical_name_free; [exact n_clean |]. now apply no_hyphen_free.
Qed.

Lemma derived_pair_canonical :
  derived_pair (transcriptName n d f) = Some (toLowerCase n, d).
Proof.
  unfold derived_pair. rewrite transcript_match. cbn [cap Nat.eqb].
  now rewrite studentNameProcessed_canonical.
Qed.

Lemma transcriptName_no_slash :
  includes (lit "/") (transcriptName n d f) = false.
Proof.
  destruct (date_test _ d_date) as [Hd Ld].
  destruct n_clean as (Hc & _ & _).
  rewrite transcriptName_unfold. change (lit "/") with ["/"%char].
  apply includes_char.
  rewrite forallb_app. cbn [forallb]. rewrite forallb_app. cbn [forallb].
  rewrite forallb_app, forallb_map_ascii.
  rewrite (forallb_impl _ _ _ underscored_not_slash Hc).
  rewrite (forallb_impl _ _ _ not_slash_char
             (forallb_impl _ _ _ date_char_not_slash (date_forallb _ Hd Ld))).
  rewrite (forallb_impl _ _ _ not_slash_char
             (forallb_impl _ _ _ id_char_no_slash f_id)).
  reflexivity.
Qed.

(** The distribution looks the transcript up under the lower-case name. *)
Lemma resolve_canonical rosterMap :
  Distribution.resolve rosterMap (lit "transcripts/" ++ transcriptName n d f)
  = match Distribution.map_get (toLowerCase n) rosterMap with
    | None => Distribution.NoMatch
    | Some studentData =>
        if negb (truthy (Distribution.email studentData)) then Distribution.NoEmail
        else Distribution.Matched (transcriptName n d f) studentData
    end.
Proof.
  destruct (clean_name_head n_clean) as (c & t & En & Hc).
  pose proof n_clean as (Hnc & _ & _).
  unfold Distribution.resolve.
  assert (T0 : truthy (lit "transcripts/" ++ transcriptName n d f) = true)
    by reflexivity.
  rewrite T0. cbn [negb].
  rewrite startsWith_app. cbn [negb orb].
  assert (E : endsWith (lit "/") (lit "transcripts/" ++ transcriptName n d f) = false).
  { unfold endsWith, transcriptName.
    rewrite !rev_app_distr. reflexivity. }
  rewrite E. cbn [orb]. unfold substring_from. rewrite skipn_prefix.
  rewrite transcriptName_no_slash.
  assert (T1 : truthy (transcriptName n d f) = true).
  { rewrite transcriptName_unfold, En. reflexivity. }
  rewrite T1. cbn [negb]. rewrite transcript_match. cbn [cap Nat.eqb].
  assert (T2 : truthy (map underscored n) = true) by now rewrite En.
  rewrite T2. cbn [negb].
  assert (A : includes (lit "*") (map underscored n) = false).
  { change (lit "*") with ["*"%char]. apply includes_char.
    rewrite forallb_map_ascii. apply (forallb_impl _ _ _ underscored_asterisk Hnc). }
  rewrite A, studentNameProcessed_canonical by assumption.
  assert (T3 : truthy (toLowerCase n) = true) by now rewrite En.
  rewrite T3. reflexivity.
Qed.

End TranscriptOfARecording.

(** C8, as stated, fails: from the name of the transcript
    [Jane_Doe_2024-03-01_AbCdEfGhIj.txt] the distribution derives the name
    [jane doe], the parser of the recordings the name [Jane Doe]. *)
Lemma C8_distribution_lower_cases_the_name :
  derived_pair (lit "Jane_Doe_2024-03-01_AbCdEfGhIj.txt")
  = Some (lit "jane doe", lit "2024-03-01")
  /\ extractStudentInfoFromFilename (lit "Jane_Doe_2024-03-01_AbCdEfGhIj.txt")
     = Some (lit "Jane Doe", lit "2024-03-01")
  /\ derived_pair (lit "Jane_Doe_2024-03-01_AbCdEfGhIj.txt")
     <> extractStudentInfoFromFilename (lit "Jane_Doe_2024-03-01_AbCdEfGhIj.txt").
Proof.
  repeat split; try (vm_compute; reflexivity).
  vm_compute. discriminate.
Qed.

(** C8, amended.  The distribution does not call the parser of the
    recordings: it matches the name of the transcript against a pattern
    of its own and normalizes the name part itself, in lower case.  For
    the transcript of a recording that the parser read as
    [(studentName, classDate)], named canonically
    [<studentName with white space replaced by underscores>_<classDate>_<ten
    code units among A-Za-z0-9_->.txt], where [studentName] holds no
    hyphen: the distribution derives the lower-case form of [studentName]
    and the date [classDate], the parser reads the name of the transcript
    as [(studentName, classDate)], and the distribution looks the listed
    object up in the roster map under the lower-case form of
    [studentName]. *)
Theorem C8_distribution_name_is_parser_name_in_lower_case :
  forall fileName studentName classDate fragment rosterMap,
    extractStudentInfoFromFilename fileName = Some (studentName, classDate) ->
    forallb (none_of (lit "-")) studentName = true ->
    length fragment = 10 ->
    forallb id_char fragment = true ->
    derived_pair (transcriptName studentName classDate fragment)
    = Some (toLowerCase studentName, classDate)
    /\ extractStudentInfoFromFilename (transcriptName studentName classDate fragment)
       = Some (studentName, classDate)
    /\ Distribution.resolve rosterMap
         (lit "transcripts/" ++ transcriptName studentName classDate fragment)
       = match Distribution.map_get (toLowerCase studentName) rosterMap with
         | None => Distribution.NoMatch
         | Some studentData =>
             if negb (truthy (Distribution.email studentData))
             then Distribution.NoEmail
             else Distribution.Matched
                    (transcriptName studentName classDate fragment) studentData
         end.
Proof.
  intros fileName studentName classDate fragment rosterMap Hp Hh Hl Hid.
  apply extract_shape in Hp as [Hn Hd].
  split; [now apply derived_pair_canonical |].
  split; [| now apply resolve_canonical].
  rewrite transcriptName_unfold by exact Hn.
  change (lit ".txt") with ("."%char :: lit "txt").
  apply extract_canonical; try assumption.
  - now apply no_hyphen_free.
  - discriminate.
  - reflexivity.
Qed.

(** C8 on the transcript of the example recording and the sample roster
    map. *)
Lemma C8_distribution_name_is_parser_name_in_lower_case_witness :
  extractStudentInfoFromFilename (lit "Jane Doe - 2024-03-01 10:00:00 GMT.mp4")
  = Some (lit "Jane Doe", lit "2024-03-01")
  /\ derived_pair (transcriptName (lit "Jane Doe") (lit "2024-03-01") (lit "AbCdEfGhIj"))
     = Some (lit "jane doe", lit "2024-03-01").
Proof.
  split; [vm_compute; reflexivity |].
  refine (proj1 (@C8_distribution_name_is_parser_name_in_lower_case
                   (lit "Jane Doe - 2024-03-01 10:00:00 GMT.mp4")
                   (lit "Jane Doe") (lit "2024-03-01") (lit "AbCdEfGhIj") []
                   _ _ _ _));
    vm_compute; reflexivity.
Defined.

(* ================================================================== *)
(** * Patterns of fixed width                                           *)
(* ================================================================== *)

Lemma m_fixed_width r : forall n k s g x,
  fixed_width r = Some n -> m r k s g = Some x ->
  exists s' g',
    k s' g' = Some x /\ length s = n + length s'
    /\ (anchored_end r = true -> s' = []).
Proof.
  induction r as [| p | r1 IH1 r2 IH2 | r1 IH1 | p | p | i r1 IH1 |];
    intros n k s g x Hw H; cbn [fixed_width] in Hw; cbn [m] in H;
    try discriminate.
  - inversion Hw; subst. exists s, g.
    split; [exact H | split; [reflexivity | discriminate]].
  - inversion Hw; subst. destruct s as [| c s]; [discriminate |].
    destruct (p c); [| discriminate]. exists s, g.
    split; [exact H | split; [reflexivity | discriminate]].
  - destruct (fixed_width r1) as [a |]; [| discriminate].
    destruct (fixed_width r2) as [b |]; [| discriminate].
    inversion Hw; subst.
    eapply IH1 in H as (s1 & g1 & H & L1 & _); [| reflexivity].
    eapply IH2 in H as (s2 & g2 & H & L2 & E); [| reflexivity].
    exists s2, g2. split; [exact H | split; [lia | exact E]].
  - eapply IH1 in H as (s1 & g1 & H & L1 & E); [| exact Hw].
    eexists s1, _. split; [exact H | split; [exact L1 | exact E]].
  - inversion Hw; subst. destruct s; [| discriminate].
    exists [], g. split; [exact H | split; reflexivity].
Qed.

(** A pattern of fixed width that ends with [$] matches inputs of that
    width only. *)
Lemma match_here_width r n s x :
  fixed_width r = Some n -> anchored_end r = true ->
  match_here r s = Some x -> length s = n.
Proof.
  intros Hw Ha H. unfold match_here in H.
  eapply m_fixed_width in H as (s' & g' & _ & L & E); [| exact Hw].
  rewrite (E Ha) in L. simpl in L. lia.
Qed.

(** The leftmost match of such a pattern is at the end of the input. *)
Lemma search_from_end r n x t rest g :
  fixed_width r = Some n -> anchored_end r = true ->
  match_here r t = Some (rest, g) ->
  search_from r (x ++ t) = Some (x, rest, g).
Proof.
  intros Hw Ha Ht. pose proof (@match_here_width r n t _ Hw Ha Ht) as Lt.
  induction x as [| c x IH]; cbn [app search_from].
  - destruct t; cbn [search_from]; now rewrite Ht.
  - destruct (match_here r (c :: x ++ t)) as [y |] eqn:E.
    + apply (@match_here_width r n _ _ Hw Ha) in E. simpl in E.
      rewrite length_app in E. lia.
    + now rewrite IH.
Qed.

Lemma search_from_none r n s :
  fixed_width r = Some n -> anchored_end r = true ->
  (forall x t, s = x ++ t -> length t = n -> match_here r t = None) ->
  search_from r s = None.
Proof.
  intros Hw Ha H. induction s as [| c s IH]; cbn [search_from].
  - destruct (match_here r []) as [[rest g] |] eqn:E; [| reflexivity].
    pose proof (@match_here_width r n _ _ Hw Ha E) as L.
    rewrite (H [] [] eq_refl) in E; [discriminate | now rewrite <- L].
  - destruct (match_here r (c :: s)) as [[rest g] |] eqn:E.
    + pose proof (@match_here_width r n _ _ Hw Ha E) as L.
      rewrite (H [] (c :: s) eq_refl L) in E. discriminate.
    + rewrite IH; [reflexivity |].
      intros x t -> Lt. apply (H (c :: x) t); [reflexivity | exact Lt].
Qed.

(** [/\.mp4$/i] removes a final [.mp4]. *)
Lemma replace_mp4 x :
  replace Monitor.mp4Regex [] (x ++ lit ".mp4") = x.
Proof.
  unfold replace, exec, Monitor.mp4Regex. cbn [anchored Regex.body Floating].
  rewrite (@search_from_end _ 4 x (lit ".mp4") [] []); try reflexivity.
  now rewrite !app_nil_r.
Qed.

Lemma star_lazy_exists p (k : str -> mres) suf x pre :
  forallb p pre = true -> k suf = Some x ->
  exists y, star_lazy p k (pre ++ suf) = Some y.
Proof.
  intros Hp Hk. induction pre as [| c pre IH].
  - exists x. now apply star_lazy_hit.
  - simpl in Hp. apply andb_true_iff in Hp as [Hc Hp].
    cbn [app star_lazy]. destruct (k (c :: pre ++ suf)) as [y |]; [now exists y |].
    rewrite Hc. now apply IH.
Qed.

Lemma star_greedy_exists p (k : str -> mres) suf x pre :
  forallb p pre = true -> k suf = Some x ->
  exists y, star_greedy p k (pre ++ suf) = Some y.
Proof.
  intros Hp Hk. induction pre as [| c pre IH].
  - destruct suf as [| c s]; cbn [app star_greedy]; [now exists x |].
    destruct (p c); [| now exists x].
    destruct (star_greedy p k s) as [y |]; [now exists y | now exists x].
  - simpl in Hp. apply andb_true_iff in Hp as [Hc Hp].
    cbn [app star_greedy]. rewrite Hc.
    destruct (IH Hp) as [y Hy]. rewrite Hy. now exists y.
Qed.

Lemma m_date_group (k : str -> caps -> mres) i d t g :
  date_at d = true -> length d = 10 ->
  m (Grp i date_re) k (d ++ t) g = k t ((i, d) :: g).
Proof.
  intros H L. cbn [m]. rewrite m_date_re, date_at_app by exact H.
  rewrite date_skip by exact L. now rewrite firstn_app_length.
Qed.

Lemma m_date_plain (k : str -> caps -> mres) d t g :
  date_at d = true -> length d = 10 -> m date_re k (d ++ t) g = k t g.
Proof.
  intros H L. rewrite m_date_re, date_at_app by exact H.
  now rewrite date_skip by exact L.
Qed.

(** Ten code units of an identifier followed by the extension. *)
Lemma fragment_mp4 (k : str -> caps -> mres) f g :
  length f = 10 -> forallb id_char f = true ->
  m (Seq (Str (lit "_")) (Seq (Rep 10 id_char) (Seq (StrI (lit ".mp4")) Eol)))
    k ("_"%char :: f ++ lit ".mp4") g
  = k [] g.
Proof.
  intros L H.
  do 10 (destruct f as [| ? f]; [discriminate |]).
  destruct f; [| discriminate]. cbn [forallb] in H.
  repeat (apply andb_true_iff in H as [? H]).
  unlit. cbn [m Str Rep StrI app].
  replace (Ascii.eqb "_" "_") with true by reflexivity.
  repeat match goal with E : id_char _ = true |- _ => rewrite E; clear E end.
  reflexivity.
Qed.

Lemma fragment_group_txt (k : str -> caps -> mres) f g :
  length f = 10 -> forallb id_char f = true ->
  m (Seq (Str (lit "_")) (Seq (Grp 2 (Rep 10 id_char)) (Seq (StrI (lit ".txt")) Eol)))
    k ("_"%char :: f ++ lit ".txt") g
  = k [] ((2, f) :: g).
Proof.
  intros L H.
  do 10 (destruct f as [| ? f]; [discriminate |]).
  destruct f; [| discriminate]. cbn [forallb] in H.
  repeat (apply andb_true_iff in H as [? H]).
  unlit. cbn [m Str Rep StrI app].
  replace (Ascii.eqb "_" "_") with true by reflexivity.
  repeat match goal with E : id_char _ = true |- _ => rewrite E; clear E end.
  reflexivity.
Qed.

(* ================================================================== *)
(** * Further properties of the parser and of the canonical names       *)
(* ================================================================== *)

Lemma name_char_not_special c :
  name_char c = true -> negb (one_of (lit "~^*'`+") c) = true.
Proof. by_cases_on c. Qed.

Lemma name_char_not_underscore c :
  name_char c = true -> negb (one_of (lit "_") c) = true.
Proof. by_cases_on c. Qed.

Lemma not_sep_not_hyphen c :
  none_of (lit " -") c = true -> Ascii.eqb "-" c = false.
Proof. by_cases_on c. Qed.

Lemma clean_name_trimmed n : clean_name n -> trim n = n.
Proof.
  intros Hn. destruct (clean_name_head Hn) as (c & t & En & Hc).
  pose proof (clean_name_last Hn) as L. rewrite En in L |- *.
  now apply trim_fixed_last.
Qed.

Lemma cleanName_fixed n : clean_name n -> cleanName n = n.
Proof.
  intros Hn. pose proof Hn as (Hc & Hs & Hl).
  unfold cleanName, specialCharsRegex, underscoreRegex, spacesRegex, trailingSepRegex.
  rewrite !replace_all_cls, replace_all_plus, replace_plus_eol.
  rewrite (@flat_map_untouched (one_of (lit "~^*'`+")) [] n)
    by (apply (forallb_impl _ _ _ name_char_not_special Hc)).
  rewrite (clean_name_trimmed Hn).
  rewrite flat_map_untouched
    by (apply (forallb_impl _ _ _ name_char_not_underscore Hc)).
  change (lit " ") with [" "%char].
  rewrite collapse_fixed by (now apply spaced_ok_any in Hs).
  rewrite strip_trailing_fixed by exact Hl.
  now apply clean_name_trimmed.
Qed.

(** X1.  Whatever the file name, a pair that the parser returns is
    normalized: the name is not empty, holds none of the characters
    [~^*'`+_/], is its own trimmed form, has white space only as single
    spaces, does not end with a hyphen and is left as it is by the
    cleaning of the parser; the date is made of ten code units of the
    form dddd-dd-dd. *)
Theorem X1_parsed_pair_is_normalized :
  forall fileName studentName classDate,
    extractStudentInfoFromFilename fileName = Some (studentName, classDate) ->
    truthy studentName = true
    /\ forallb (none_of (lit "~^*'`+_/")) studentName = true
    /\ trim studentName = studentName
    /\ replace_all spacesRegex (lit " ") studentName = studentName
    /\ endsWith (lit "-") studentName = false
    /\ cleanName studentName = studentName
    /\ date_at classDate = true
    /\ length classDate = 10.
Proof.
  intros fileName studentName classDate Hp.
  apply extract_shape in Hp as [Hn Hd].
  destruct (date_test _ Hd) as [Hda Hdl].
  pose proof Hn as (Hc & Hs & Hl).
  destruct (clean_name_head Hn) as (c & t & En & Hh).
  split; [now rewrite En |].
  split; [exact Hc |].
  split; [now apply clean_name_trimmed |].
  split.
  { unfold spacesRegex. rewrite replace_all_plus. change (lit " ") with [" "%char].
    apply collapse_fixed with (b := false). now apply spaced_ok_any in Hs. }
  split.
  { destruct (snoc_cases studentName) as [E | (a & z & E)]; [now rewrite E in En |].
    rewrite E in Hl |- *. rewrite last_is_snoc in Hl.
    unfold endsWith. rewrite rev_app_distr. change (lit "-") with ["-"%char].
    cbn [rev app startsWith]. now rewrite (not_sep_not_hyphen _ Hl). }
  split; [now apply cleanName_fixed |].
  split; assumption.
Qed.

(** X1 on the recording of the example. *)
Lemma X1_parsed_pair_is_normalized_witness :
  extractStudentInfoFromFilename (lit "Jane Doe - 2024-03-01 10:00:00 GMT.mp4")
  = Some (lit "Jane Doe", lit "2024-03-01")
  /\ cleanName (lit "Jane Doe") = lit "Jane Doe".
Proof.
  split; [vm_compute; reflexivity |].
  refine (proj1 (proj2 (proj2 (proj2 (proj2 (proj2
            (@X1_parsed_pair_is_normalized
               (lit "Jane Doe - 2024-03-01 10:00:00 GMT.mp4")
               (lit "Jane Doe") (lit "2024-03-01") _))))))).
  vm_compute; reflexivity.
Defined.

Lemma canonical_name_split n d id :
  clean_name n ->
  newFileName n d id
  = map underscored n ++ "_"%char :: d ++ "_"%char :: substring_to 10 id ++ lit ".mp4".
Proof.
  intros Hn. unfold newFileName. now rewrite standardized_underscored by exact Hn.
Qed.

(** X2.  The canonical name given to a recording is recognized as such:
    the pattern with which the discovery tells renamed files and the
    pattern with which the poller accepts the title of a job both match
    it, when the identifier of the file has ten code units of
    [A-Za-z0-9_-] at its head. *)
Theorem X2_canonical_name_is_recognized :
  forall fileName studentName classDate fileId,
    extractStudentInfoFromFilename fileName = Some (studentName, classDate) ->
    length (substring_to 10 fileId) = 10 ->
    forallb id_char (substring_to 10 fileId) = true ->
    js_match Discovery.alreadyRenamedRegex (newFileName studentName classDate fileId)
    <> None
    /\ test Monitor.nameFormatRegex (newFileName studentName classDate fileId) = true.
Proof.
  intros fileName n d id Hp Hl Hid.
  apply extract_shape in Hp as [Hn Hd].
  destruct (date_test _ Hd) as [Hda Hdl].
  destruct (clean_name_head Hn) as (c & t & En & Hc).
  pose proof (canonical_name_dots Hn) as Hdots.
  rewrite (canonical_name_split d id Hn).
  set (f := substring_to 10 id) in *.
  rewrite En in Hdots |- *. cbn [map] in Hdots |- *.
  cbn [forallb] in Hdots. apply andb_true_iff in Hdots as [Hc0 Hdots].
  split.
  - unfold js_match, exec, Discovery.alreadyRenamedRegex.
    cbn [anchored Regex.body Anchored Seqs]. unfold match_here, PlusLazy.
    remember (Seq (Str (lit "_")) (Seq (Rep 10 id_char) (Seq (StrI (lit ".mp4")) Eol)))
      as tail eqn:Et.
    change (lit "_") with ["_"%char]. cbn [app m Str]. rewrite Hc0.
    match goal with
    | |- context [star_lazy dot ?k _] =>
        destruct (@star_lazy_exists dot k
                    ("_"%char :: d ++ "_"%char :: f ++ lit ".mp4")
                    ([], [(2, d); (1, underscored c :: map underscored t)])
                    (map underscored t) Hdots) as [[rest g] Hy]
    end.
    + cbv beta. replace (Ascii.eqb "_" "_") with true by reflexivity.
      rewrite m_date_re, date_at_app by exact Hda.
      rewrite date_skip by exact Hdl. rewrite firstn_app_length.
      subst tail. rewrite fragment_mp4 by assumption.
      change (underscored c :: map underscored t ++ "_"%char :: d ++ "_"%char :: f ++ lit ".mp4")
        with ((underscored c :: map underscored t) ++ "_"%char :: d ++ "_"%char :: f ++ lit ".mp4").
      now rewrite firstn_app_length.
    + rewrite Hy. discriminate.
  - unfold test, exec, Monitor.nameFormatRegex.
    cbn [anchored Regex.body Floating Seqs].
    assert (M : exists y, match_here
                  (Seq (Plus dot) (Seq (Str (lit "_")) (Seq date_re
                     (Seq (Str (lit "_")) (Seq (Rep 10 id_char)
                        (Seq (StrI (lit ".mp4")) Eol))))))
                  (underscored c :: map underscored t ++ "_"%char :: d ++ "_"%char
                     :: f ++ lit ".mp4") = Some y).
    { unfold match_here, Plus.
      remember (Seq (Str (lit "_")) (Seq (Rep 10 id_char) (Seq (StrI (lit ".mp4")) Eol)))
        as tail eqn:Et.
      change (lit "_") with ["_"%char]. cbn [app m Str]. rewrite Hc0.
      match goal with
      | |- context [star_greedy dot ?k _] =>
          apply (@star_greedy_exists dot k
                   ("_"%char :: d ++ "_"%char :: f ++ lit ".mp4")
                   ([], []) (map underscored t) Hdots)
      end.
      cbv beta. replace (Ascii.eqb "_" "_") with true by reflexivity.
      rewrite m_date_re, date_at_app by exact Hda.
      rewrite date_skip by exact Hdl.
      subst tail. now rewrite fragment_mp4 by assumption. }
    destruct M as [[rest g] M].
    cbn [app search_from]. now rewrite M.
Qed.

(** X2 on the recording of the example. *)
Lemma X2_canonical_name_is_recognized_witness :
  test Monitor.nameFormatRegex
    (newFileName (lit "Jane Doe") (lit "2024-03-01") (lit "AbCdEfGhIjKLMNOP"))
  = true.
Proof.
  refine (proj2 (@X2_canonical_name_is_recognized
                   (lit "Jane Doe - 2024-03-01 10:00:00 GMT.mp4")
                   (lit "Jane Doe") (lit "2024-03-01") (lit "AbCdEfGhIjKLMNOP")
                   _ _ _));
    vm_compute; reflexivity.
Defined.

Lemma canonical_stem n d id :
  newFileName n d id
  = (standardizedStudentName n ++ lit "_" ++ d ++ lit "_" ++ substring_to 10 id)
      ++ lit ".mp4".
Proof. unfold newFileName. now rewrite <- !app_assoc. Qed.

Lemma transcript_of_canonical n d id :
  replace Monitor.mp4Regex [] (newFileName n d id) ++ lit ".txt"
  = transcriptName n d (substring_to 10 id).
Proof.
  rewrite canonical_stem, replace_mp4. unfold transcriptName.
  now rewrite <- !app_assoc.
Qed.

(** X3.  From the renamed recording to the folder of the student.  For a
    recording that the parser read as [(studentName, classDate)], with a
    name without hyphen, and renamed canonically: when the job is done
    and the provider gives no title or the canonical name as title,
    [handleCompletedJob] asks for the details and the transcript and
    stores the transcript as
    [transcripts/<canonical name with .txt for .mp4>]; and the
    distribution resolves that object to the entry that the roster map
    holds under the lower-case name of the student. *)
Theorem X3_transcript_of_a_renamed_recording_reaches_the_student :
  forall fileName studentName classDate fileId jobId bucketName accessToken apiKey
         details text upload rosterMap studentData,
    extractStudentInfoFromFilename fileName = Some (studentName, classDate) ->
    forallb (none_of (lit "-")) studentName = true ->
    length (substring_to 10 fileId) = 10 ->
    forallb id_char (substring_to 10 fileId) = true ->
    truthy jobId = true -> truthy bucketName = true ->
    truthy accessToken = true -> truthy apiKey = true ->
    details = None \/ details = Some (newFileName studentName classDate fileId) ->
    Distribution.map_get (toLowerCase studentName) rosterMap = Some studentData ->
    truthy (Distribution.email studentData) = true ->
    let object :=
      lit "transcripts/" ++ transcriptName studentName classDate (substring_to 10 fileId) in
    fst (Monitor.handleCompletedJob (newFileName studentName classDate fileId)
           jobId bucketName accessToken apiKey details (Response 200 text) upload)
    = [Monitor.GetJobDetails jobId; Monitor.GetTranscript jobId;
       Monitor.PutObject object text]
    /\ Distribution.resolve rosterMap object
       = Distribution.Matched
           (transcriptName studentName classDate (substring_to 10 fileId)) studentData.
Proof.
  intros fileName n d id job bucket token key details text upload rosterMap sd
    Hp Hh Hl Hid Hj Hb Ht Hk Hdet Hget Hmail object.
  destruct (newFileName_trimmed fileName id Hp) as [_ Hname].
  apply extract_shape in Hp as [Hn Hd].
  split.
  - unfold Monitor.handleCompletedJob.
    rewrite Hname, Hj, Hb, Ht, Hk. cbn [andb negb].
    assert (B : match details with
                | Some trackingTitle =>
                    if truthy trackingTitle && test Monitor.nameFormatRegex trackingTitle
                    then replace Monitor.mp4Regex [] trackingTitle
                    else replace Monitor.mp4Regex [] (newFileName n d id)
                | None => replace Monitor.mp4Regex [] (newFileName n d id)
                end = replace Monitor.mp4Regex [] (newFileName n d id)).
    { destruct Hdet as [-> | ->]; [reflexivity |].
      now destruct (truthy _ && test _ _). }
    rewrite B. cbn [Nat.eqb negb].
    rewrite transcript_of_canonical.
    now destruct upload as [? | ucode utext]; [| destruct (negb (ucode =? 200))].
  - unfold object. rewrite resolve_canonical by assumption.
    now rewrite Hget, Hmail.
Qed.

(** X3 on the recording of the example and the sample roster map. *)
Lemma X3_transcript_of_a_renamed_recording_reaches_the_student_witness :
  Distribution.resolve Sample.rosterMap
    (lit "transcripts/Jane_Doe_2024-03-01_AbCdEfGhIj.txt")
  = Distribution.Matched (lit "Jane_Doe_2024-03-01_AbCdEfGhIj.txt") Sample.janeEntry.
Proof.
  refine (proj2 (@X3_transcript_of_a_renamed_recording_reaches_the_student
                   (lit "Jane Doe - 2024-03-01 10:00:00 GMT.mp4")
                   (lit "Jane Doe") (lit "2024-03-01") (lit "AbCdEfGhIjKLMNOP")
                   (lit "job-1") (lit "bucket") (lit "token") (lit "key")
                   None (lit "text") (Response 200 [])
                   Sample.rosterMap Sample.janeEntry
                   _ _ _ _ _ _ _ _ _ _ _));
    try (vm_compute; reflexivity).
  now left.
Defined.

(* ================================================================== *)
(** * The name of the prompt file                                       *)
(* ================================================================== *)

Lemma transcriptNameRegex_tail d f :
  date_at d = true -> length d = 10 ->
  length f = 10 -> forallb id_char f = true ->
  match_here (Regex.body Homework.transcriptNameRegex)
    (lit "_" ++ d ++ lit "_" ++ f ++ lit ".txt")
  = Some ([], [(2, f); (1, d)]).
Proof.
  intros Hd Ld Lf Hf. unfold Homework.transcriptNameRegex, match_here.
  cbn [Regex.body Floating Seqs].
  remember (Seq (Str (lit "_")) (Seq (Grp 2 (Rep 10 id_char))
              (Seq (StrI (lit ".txt")) Eol))) as tail eqn:Et.
  change (lit "_") with ["_"%char]. cbn [app m Str].
  replace (Ascii.eqb "_" "_") with true by reflexivity.
  rewrite m_date_re, date_at_app by exact Hd.
  rewrite date_skip by exact Ld. rewrite firstn_app_length.
  subst tail. now rewrite fragment_group_txt by assumption.
Qed.

(** X4.  The date and the identifier fragment of the prompt file are
    those at the end of the name of the first transcript: whatever
    precedes them, a name that ends with [_dddd-dd-dd_], ten code units
    of [A-Za-z0-9_-] and [.txt] gives [prompt_<date>_<fragment>.txt] in
    [src/unnamed/part_000], and the same with the name of the student in
    front in [src/Code.js]; a name of fewer than 26 code units never
    does, and [src/unnamed/part_000] then falls back to the homework
    identifier. *)
Theorem X4_prompt_file_is_named_after_the_first_transcript :
  forall env student,
    (forall x d f,
        date_at d = true -> length d = 10 ->
        length f = 10 -> forallb id_char f = true ->
        let name := x ++ lit "_" ++ d ++ lit "_" ++ f ++ lit ".txt" in
        Homework.transcriptMatch name = Some (d, f)
        /\ Homework.promptFileName_of V8 env student name
           = lit "prompt_" ++ d ++ lit "_" ++ f ++ lit ".txt"
        /\ Homework.promptFileName_of V9 env student name
           = lit "prompt_"
               ++ replace_all spacesRegex (lit "_") (Roster.Name student)
               ++ lit "_" ++ d ++ lit "_" ++ f ++ lit ".txt")
    /\ (forall name,
          length name < 26 ->
          Homework.transcriptMatch name = None
          /\ Homework.promptFileName_of V8 env student name
             = lit "HW_"
                 ++ Homework.hwId_of (Roster.RosterRowIndex student)
                      (Homework.today_fallback env)
                 ++ lit "_prompt.txt").
Proof.
  intros env student. split.
  - intros x d f Hd Ld Lf Hf name.
    assert (M : Homework.transcriptMatch name = Some (d, f)).
    { unfold Homework.transcriptMatch, js_match, exec.
      change (anchored Homework.transcriptNameRegex) with false. cbv iota.
      unfold name.
      rewrite (@search_from_end _ 26 x _ [] [(2, f); (1, d)]);
        [| reflexivity | reflexivity | now apply transcriptNameRegex_tail].
      cbn [cap Nat.eqb].
      destruct (date_head _ Hd) as (c & t & -> & _).
      destruct f as [| c' f']; [discriminate |]. reflexivity. }
    split; [exact M |].
    unfold Homework.promptFileName_of. now rewrite M.
  - intros name L.
    assert (M : Homework.transcriptMatch name = None).
    { unfold Homework.transcriptMatch, js_match, exec.
      change (anchored Homework.transcriptNameRegex) with false. cbv iota.
      rewrite (@search_from_none (Regex.body Homework.transcriptNameRegex) 26 name);
        [reflexivity | reflexivity | reflexivity |].
      intros x t -> Lt. rewrite length_app in L. lia. }
    split; [exact M |].
    unfold Homework.promptFileName_of. now rewrite M.
Qed.

(** X4 on a transcript of the sample data. *)
Lemma X4_prompt_file_is_named_after_the_first_transcript_witness :
  Homework.promptFileName_of V8 Sample.env_ok Sample.jane
    (lit "Jane_Doe" ++ lit "_" ++ lit "2024-03-01" ++ lit "_" ++ lit "AbCdEfGhIj"
       ++ lit ".txt")
  = lit "prompt_" ++ lit "2024-03-01" ++ lit "_" ++ lit "AbCdEfGhIj" ++ lit ".txt".
Proof.
  refine (proj1 (proj2 (proj1 (@X4_prompt_file_is_named_after_the_first_transcript
                                 Sample.env_ok Sample.jane)
                          (lit "Jane_Doe") (lit "2024-03-01") (lit "AbCdEfGhIj")
                          _ _ _ _)));
    vm_compute; reflexivity.
Defined.

(* ================================================================== *)
(** * Further properties of the poller                                  *)
(* ================================================================== *)

Section PollerMore.
Import Monitor.

(** X5.  [moveFileInGCS] deletes the source only after a copy that
    answered 200, itself made only after the source check answered 200;
    and it returns normally in two cases only: the source is not there
    (404), with no copy and no deletion, or the copy answered 200 and
    the deletion 204. *)
Theorem X5_move_deletes_only_after_the_copy :
  forall bucketName sourceObjectName destinationObjectName token head copy delete,
    let run := moveFileInGCS bucketName sourceObjectName destinationObjectName
                 token head copy delete in
    (forall x, In (DeleteObject x) (fst run) ->
       x = sourceObjectName
       /\ (exists htext, head = Response 200 htext)
       /\ (exists ctext, copy = Response 200 ctext)
       /\ exists before,
            fst run = before ++ [DeleteObject x]
            /\ In (CopyObject sourceObjectName destinationObjectName) before)
    /\ (forall x y, In (CopyObject x y) (fst run) ->
          exists htext, head = Response 200 htext)
    /\ (snd run = Return tt ->
          ((exists htext, head = Response 404 htext)
           /\ fst run = [HeadObject sourceObjectName])
          \/ ((exists ctext, copy = Response 200 ctext)
              /\ (exists dtext, delete = Response 204 dtext)
              /\ fst run
                 = [HeadObject sourceObjectName;
                    CopyObject sourceObjectName destinationObjectName;
                    DeleteObject sourceObjectName])).
Proof.
  intros b src dst token head copy delete. cbv zeta. unfold moveFileInGCS.
  assert (No : forall (c : call) (l : list call),
            Forall (fun y => y <> c) l -> In c l -> False).
  { intros c l F H. rewrite Forall_forall in F. exact (F c H eq_refl). }
  destruct (negb (truthy b && truthy src && truthy dst && truthy token)).
  { cbn [fst snd]. split; [| split]; [intros x [] | intros x y [] | discriminate]. }
  destruct head as [hm | hcode htext].
  { cbn [fst snd]. split; [| split]; [| | discriminate].
    - intros x H. exfalso. revert H. apply No. repeat constructor; discriminate.
    - intros x y H. exfalso. revert H. apply No. repeat constructor; discriminate. }
  destruct (hcode =? 404) eqn:H404.
  { apply Nat.eqb_eq in H404. subst hcode. cbn [fst snd]. split; [| split].
    - intros x H. exfalso. revert H. apply No. repeat constructor; discriminate.
    - intros x y H. exfalso. revert H. apply No. repeat constructor; discriminate.
    - intros _. left. split; [now exists htext | reflexivity]. }
  destruct (hcode =? 200) eqn:H200; cbn [negb].
  2:{ cbn [fst snd]. split; [| split]; [| | discriminate].
      - intros x H. exfalso. revert H. apply No. repeat constructor; discriminate.
      - intros x y H. exfalso. revert H. apply No. repeat constructor; discriminate. }
  apply Nat.eqb_eq in H200. subst hcode.
  destruct copy as [cm | ccode ctext].
  { cbn [fst snd]. split; [| split]; [| | discriminate].
    - intros x H. exfalso. revert H. apply No. repeat constructor; discriminate.
    - intros _ _ _. now exists htext. }
  destruct (ccode =? 200) eqn:C200; cbn [negb].
  2:{ cbn [fst snd]. split; [| split]; [| | discriminate].
      - intros x H. exfalso. revert H. apply No. repeat constructor; discriminate.
      - intros _ _ _. now exists htext. }
  apply Nat.eqb_eq in C200. subst ccode.
  assert (D : forall x,
            In (DeleteObject x)
               ([HeadObject src; CopyObject src dst] ++ [DeleteObject src]) ->
            x = src /\ (exists t, Response 200 htext = Response 200 t)
            /\ (exists t, Response 200 ctext = Response 200 t)
            /\ exists before,
                 [HeadObject src; CopyObject src dst] ++ [DeleteObject src]
                 = before ++ [DeleteObject x]
                 /\ In (CopyObject src dst) before).
  { intros x [H | [H | [H | []]]]; try discriminate.
    inversion H; subst. split; [reflexivity |].
    split; [now exists htext |]. split; [now exists ctext |].
    exists [HeadObject x; CopyObject x dst]. split; [reflexivity |].
    right. now left. }
  destruct delete as [dm | dcode dtext].
  { cbn [fst snd]. split; [exact D |]. split; [| discriminate].
    intros _ _ _. now exists htext. }
  destruct (dcode =? 204) eqn:D204; cbn [negb fst snd].
  - apply Nat.eqb_eq in D204. subst dcode.
    split; [exact D |]. split; [intros _ _ _; now exists htext |].
    intros _. right. split; [now exists ctext |]. split; [now exists dtext |].
    reflexivity.
  - split; [exact D |]. split; [| discriminate].
    intros _ _ _. now exists htext.
Qed.

Lemma pass_effect cfg remote st :
  monitorTranscriptionJobs cfg remote st = st
  \/ exists token,
       serviceAccountToken cfg = Return token
       /\ truthy (speechmaticsApiKey cfg) = true
       /\ forall i,
            let mine :=
              match nth_error (sheet st) i with
              | Some row =>
                  monitor_row (bucketName cfg) (speechmaticsApiKey cfg) token
                    remote i row
              | None => []
              end in
            calls_of i (trace (monitorTranscriptionJobs cfg remote st))
            = calls_of i (trace st) ++ mine
            /\ nth_error (sheet (monitorTranscriptionJobs cfg remote st)) i
               = option_map (apply_writes mine) (nth_error (sheet st) i).
Proof.
  destruct (truthy (trackingSheetId cfg)) eqn:H1;
    [| left; unfold monitorTranscriptionJobs; now rewrite H1].
  destruct (truthy (bucketName cfg)) eqn:H2;
    [| left; unfold monitorTranscriptionJobs; now rewrite H1, H2].
  destruct (truthy (speechmaticsApiKey cfg)) eqn:H3;
    [| left; unfold monitorTranscriptionJobs; now rewrite H1, H2, H3].
  destruct (serviceAccountToken cfg) as [token | e] eqn:H4;
    [| left; unfold monitorTranscriptionJobs; now rewrite H1, H2, H3, H4].
  right. exists token. split; [reflexivity |]. split; [reflexivity |].
  intros i. cbv zeta. unfold monitorTranscriptionJobs.
  rewrite H1, H2, H3, H4. cbn [negb].
  destruct (sheet st) as [| r rest] eqn:Hs.
  - rewrite Hs, nth_error_nil. cbn [option_map]. now rewrite app_nil_r.
  - pose proof (@pass_row (bucketName cfg) (speechmaticsApiKey cfg) token remote
                  (r :: rest) 0 st i) as H.
    cbv zeta in H. rewrite Nat.sub_0_r in H. rewrite Hs in H.
    replace (0 <=? i) with true in H by (symmetry; apply Nat.leb_le; lia).
    exact H.
Qed.

Lemma monitor_row_inactive bucket apiKey token remote i row :
  is_active row = false -> monitor_row bucket apiKey token remote i row = [].
Proof.
  unfold is_active, localStatus, monitor_row. intros ->.
  cbn [andb negb]. now destruct (negb _ || has _ _).
Qed.

(** X6.  The poller touches only the rows whose status is one of
    [submitted], [running], [processing] and [processing_transcript]
    (white space and case apart): a row with any other status, terminal
    or not, keeps its cells and no call is issued for it, whatever the
    configuration and the remote parties. *)
Theorem X6_only_active_rows_are_polled :
  forall cfg remote st i row,
    nth_error (sheet st) i = Some row ->
    is_active row = false ->
    nth_error (sheet (monitorTranscriptionJobs cfg remote st)) i = Some row
    /\ calls_of i (trace (monitorTranscriptionJobs cfg remote st))
       = calls_of i (trace st).
Proof.
  intros cfg remote st i row Hn Ha.
  destruct (pass_effect cfg remote st) as [E | (token & _ & _ & H)].
  - rewrite E. now split.
  - specialize (H i). cbv zeta in H. rewrite Hn in H.
    rewrite monitor_row_inactive in H by exact Ha.
    destruct H as [Hc Hs]. rewrite app_nil_r in Hc. split; [| exact Hc].
    rewrite Hs. reflexivity.
Qed.

Lemma error_fetching_head code :
  exists t, toLowerCase (lit "error_fetching_" ++ of_nat code) = "e"%char :: t.
Proof. eexists. unfold toLowerCase. unlit. cbn [app map]. reflexivity. Qed.

Lemma getJobStatus_calls job key reply :
  fst (getJobStatus job key reply) = []
  \/ fst (getJobStatus job key reply) = [GetJobStatus job].
Proof.
  unfold getJobStatus. destruct (negb (truthy job) || negb (truthy key)); auto.
Qed.

Lemma getJobStatus_done job key reply :
  str_eqb (toLowerCase (snd (getJobStatus job key reply))) (lit "done") = true ->
  exists s, reply = StatusBody (Some s) /\ toLowerCase s = lit "done".
Proof.
  unfold getJobStatus. intros H.
  destruct (negb (truthy job) || negb (truthy key)); cbn [snd] in H;
    [vm_compute in H; discriminate |].
  destruct reply as [| | [s |] | code]; try (vm_compute in H; discriminate).
  - exists s. split; [reflexivity |]. now apply str_eqb_eq.
  - destruct (code =? 401); [vm_compute in H; discriminate |].
    destruct (code =? 404); [vm_compute in H; discriminate |].
    destruct (code =? 429); [vm_compute in H; discriminate |].
    apply str_eqb_eq in H. destruct (error_fetching_head code) as [t E].
    rewrite E in H. discriminate.
Qed.

Lemma no_post_processing_app (a b : list call) :
  existsb is_post_processing (a ++ b)
  = existsb is_post_processing a || existsb is_post_processing b.
Proof. apply existsb_app. Qed.

Lemma getJobStatus_no_post job key reply :
  existsb is_post_processing (fst (getJobStatus job key reply)) = false.
Proof.
  destruct (getJobStatus_calls job key reply) as [-> | ->]; reflexivity.
Qed.

Lemma monitor_row_post bucket apiKey token remote i row :
  existsb is_post_processing (monitor_row bucket apiKey token remote i row) = true ->
  is_active row = true
  /\ truthy (trim (jobId row)) = true
  /\ exists s, status_of remote i = StatusBody (Some s)
               /\ toLowerCase s = lit "done".
Proof.
  unfold monitor_row. fold (localStatus row).
  change (has submittedStatuses (localStatus row)
          || str_eqb (localStatus row) (lit "processing_transcript"))
    with (is_active row).
  destruct (negb (truthy (trim (fileName row))) || has terminalStatuses (localStatus row));
    [discriminate |].
  destruct (is_active row) eqn:Ha; cbn [andb negb].
  2:{ discriminate. }
  destruct (truthy (trim (jobId row))) eqn:Hj; cbn [negb].
  2:{ destruct (negb (str_eqb _ _)); discriminate. }
  pose proof (getJobStatus_no_post (trim (jobId row)) apiKey (status_of remote i)) as Hc.
  pose proof (@getJobStatus_done (trim (jobId row)) apiKey (status_of remote i)) as Hd.
  destruct (getJobStatus (trim (jobId row)) apiKey (status_of remote i))
    as [c1 newStatus]. cbn [fst snd] in Hc, Hd.
  destruct (str_eqb (toLowerCase newStatus) (lit "done")) eqn:Hdone.
  - intros _. split; [reflexivity |]. split; [reflexivity |]. now apply Hd.
  - intros H. exfalso.
    repeat match type of H with
           | existsb _ (if ?c then _ else _) = true => destruct c
           end;
      rewrite ?no_post_processing_app, ?Hc in H; discriminate.
Qed.

(** X7.  Nothing is fetched from the provider beyond the status, stored
    in the bucket or moved for a job that the provider has not reported
    done: a pass issues a call of the post-processing for a row only if
    the row is active, carries a job identifier, and the provider
    answered the status request of that row with 200 and a status that
    reads [done]. *)
Theorem X7_post_processing_only_for_done_jobs :
  forall cfg remote st i,
    exists new,
      calls_of i (trace (monitorTranscriptionJobs cfg remote st))
      = calls_of i (trace st) ++ new
      /\ (existsb is_post_processing new = true ->
          exists row s,
            nth_error (sheet st) i = Some row
            /\ is_active row = true
            /\ truthy (trim (jobId row)) = true
            /\ status_of remote i = StatusBody (Some s)
            /\ toLowerCase s = lit "done").
Proof.
  intros cfg remote st i.
  destruct (pass_effect cfg remote st) as [E | (token & _ & _ & H)].
  - exists []. rewrite E, app_nil_r. split; [reflexivity | discriminate].
  - specialize (H i). cbv zeta in H. destruct H as [Hc _].
    eexists. split; [exact Hc |].
    destruct (nth_error (sheet st) i) as [row |]; [| discriminate].
    intros Hp. apply monitor_row_post in Hp as (Ha & Hj & s & Hs & Hd).
    exists row, s. repeat split; assumption.
Qed.

Lemma apply_writes_cells calls : forall row,
  fileName (apply_writes calls row) = fileName row
  /\ jobId (apply_writes calls row) = jobId row.
Proof.
  unfold apply_writes.
  induction calls as [| c calls IH]; intros row; cbn [fold_left]; [now split |].
  destruct (IH (match c with SetStatus v => set_status v row | _ => row end))
    as [-> ->].
  now destruct c.
Qed.

Lemma update_row_cells (f : JobRow -> JobRow) :
  (forall r, fileName (f r) = fileName r /\ jobId (f r) = jobId r) ->
  forall rows i,
    map fileName (update_row i f rows) = map fileName rows
    /\ map jobId (update_row i f rows) = map jobId rows.
Proof.
  intros Hf. induction rows as [| r rows IH]; intros i;
    [now destruct i |].
  destruct i as [| i]; cbn [update_row map].
  - destruct (Hf r) as [-> ->]. now split.
  - destruct (IH i) as [-> ->]. now split.
Qed.

Lemma pass_cells bucket apiKey token remote data : forall n st,
  let st' := fold_left (run_row bucket apiKey token remote) (enumerate_from n data) st in
  map fileName (sheet st') = map fileName (sheet st)
  /\ map jobId (sheet st') = map jobId (sheet st)
  /\ exists more, trace st' = trace st ++ more.
Proof.
  induction data as [| row data IH]; intros n st; cbv zeta.
  - cbn [enumerate_from fold_left]. repeat split. exists []. now rewrite app_nil_r.
  - cbn [enumerate_from fold_left]. specialize (IH (S n)
      (run_row bucket apiKey token remote st (n, row))). cbv zeta in IH.
    destruct IH as (I1 & I2 & more & I3). rewrite I1, I2, I3.
    unfold run_row. cbn [fst snd]. rewrite perform_all. cbn [sheet trace].
    destruct (@update_row_cells
                (apply_writes (monitor_row bucket apiKey token remote n row))
                (apply_writes_cells _) (sheet st) n) as [-> ->].
    repeat split. eexists. now rewrite <- app_assoc.
Qed.

(** X8.  A pass of the poller writes to the status column only: the
    sheet keeps its rows, their file names and their job identifiers, in
    order, and the record of the calls only grows. *)
Theorem X8_pass_keeps_names_and_job_ids :
  forall cfg remote st,
    let st' := monitorTranscriptionJobs cfg remote st in
    map fileName (sheet st') = map fileName (sheet st)
    /\ map jobId (sheet st') = map jobId (sheet st)
    /\ length (sheet st') = length (sheet st)
    /\ exists more, trace st' = trace st ++ more.
Proof.
  intros cfg remote st. cbv zeta.
  assert (G : map fileName (sheet (monitorTranscriptionJobs cfg remote st))
              = map fileName (sheet st)
              /\ map jobId (sheet (monitorTranscriptionJobs cfg remote st))
                 = map jobId (sheet st)
              /\ exists more,
                   trace (monitorTranscriptionJobs cfg remote st) = trace st ++ more).
  { assert (Same : map fileName (sheet st) = map fileName (sheet st)
                   /\ map jobId (sheet st) = map jobId (sheet st)
                   /\ exists more, trace st = trace st ++ more).
    { repeat split. exists []. now rewrite app_nil_r. }
    unfold monitorTranscriptionJobs.
    destruct (negb (truthy (trackingSheetId cfg))); [exact Same |].
    destruct (negb (truthy (bucketName cfg))); [exact Same |].
    destruct (negb (truthy (speechmaticsApiKey cfg))); [exact Same |].
    destruct (serviceAccountToken cfg) as [token | e]; [| exact Same].
    destruct (sheet st) as [| r rest] eqn:Hs; [now rewrite Hs |].
    rewrite <- Hs. apply pass_cells. }
  destruct G as (G1 & G2 & G3). repeat split; try assumption.
  rewrite <- (length_map fileName), G1. apply length_map.
Qed.


(** The row of an active job that carries a job identifier: the calls of
    its iteration, given the status that [getJobStatus] returns. *)
Lemma monitor_row_polled bucket apiKey token remote i row :
  truthy (trim (fileName row)) = true ->
  truthy (trim (jobId row)) = true ->
  truthy apiKey = true ->
  is_active row = true ->
  monitor_row bucket apiKey token remote i row
  = let newStatus := snd (getJobStatus (trim (jobId row)) apiKey (status_of remote i)) in
    let newStatusLower := toLowerCase newStatus in
    let c1 := [GetJobStatus (trim (jobId row))] in
    if str_eqb newStatusLower (lit "done") then
      let '(calls, result) :=
        postProcess bucket apiKey token remote i (trim (fileName row)) (trim (jobId row)) in
      c1 ++ [SetStatus (lit "processing_transcript")] ++ calls
         ++ [SetStatus (finalStatus_of result)]
    else if str_eqb newStatusLower (lit "rate_limited") then c1
    else if has terminalStatuses newStatusLower then
      if negb (str_eqb newStatusLower (localStatus row))
      then c1 ++ [SetStatus newStatus] else c1
    else if negb (str_eqb newStatusLower (localStatus row)) && truthy newStatus
    then c1 ++ [SetStatus newStatus] else c1.
Proof.
  intros Hf Hj Hk Hact.
  destruct (active_not_terminal _ Hact) as [Hnt Hnd].
  unfold is_terminal in Hnt. unfold is_active in Hact.
  unfold monitor_row, getJobStatus. fold (localStatus row).
  rewrite Hf, Hj, Hk, Hnt, Hact. cbn [negb orb andb fst snd]. cbv zeta.
  now rewrite Hnd.
Qed.

(** X9.  What the poller makes of the answer about an active job that
    has an identifier: a rate limit (429) leaves the row as it is; a
    status of the provider other than [done] is written as the provider
    spells it when it differs from the status of the row, lower case
    apart, and is not written when it does not. *)
Theorem X9_provider_status_is_written_verbatim :
  forall cfg token remote st i row,
    poller_ready cfg token ->
    nth_error (sheet st) i = Some row ->
    truthy (trim (fileName row)) = true ->
    truthy (trim (jobId row)) = true ->
    is_active row = true ->
    let st' := monitorTranscriptionJobs cfg remote st in
    let asked := calls_of i (trace st) ++ [GetJobStatus (trim (jobId row))] in
    (status_of remote i = StatusCode 429 ->
       calls_of i (trace st') = asked /\ nth_error (sheet st') i = Some row)
    /\ (forall s,
          status_of remote i = StatusBody (Some s) ->
          truthy s = true ->
          toLowerCase s <> lit "done" ->
          toLowerCase s <> lit "rate_limited" ->
          (toLowerCase s <> localStatus row ->
             calls_of i (trace st') = asked ++ [SetStatus s]
             /\ nth_error (sheet st') i = Some (set_status s row))
          /\ (toLowerCase s = localStatus row ->
                calls_of i (trace st') = asked
                /\ nth_error (sheet st') i = Some row)).
Proof.
  intros cfg token remote st i row Hr Hn Hf Hj Ha. cbv zeta.
  pose proof Hr as (_ & _ & Hk & _ & _).
  destruct (monitor_row_effect remote st i Hr) as [Hc Hs].
  rewrite Hn in Hc, Hs. cbn [option_map] in Hs.
  rewrite (@monitor_row_polled (bucketName cfg) (speechmaticsApiKey cfg) token remote
             i row Hf Hj Hk Ha) in Hc, Hs.
  unfold getJobStatus in Hc, Hs. rewrite Hj, Hk in Hc, Hs.
  cbn [negb orb snd] in Hc, Hs. cbv zeta in Hc, Hs.
  split.
  - intros E. rewrite E in Hc, Hs. cbn [Nat.eqb] in Hc, Hs.
    replace (str_eqb (toLowerCase (lit "rate_limited")) (lit "done"))
      with false in Hc, Hs by reflexivity.
    replace (str_eqb (toLowerCase (lit "rate_limited")) (lit "rate_limited"))
      with true in Hc, Hs by reflexivity.
    rewrite Hc, Hs. now split.
  - intros s E Hts Hnd Hnr. rewrite E in Hc, Hs.
    apply str_eqb_neq in Hnd, Hnr. rewrite Hnd, Hnr, Hts in Hc, Hs.
    split.
    + intros Hne. apply str_eqb_neq in Hne. rewrite Hne in Hc, Hs.
      cbn [negb andb] in Hc, Hs.
      assert (Hc' : calls_of i (trace (monitorTranscriptionJobs cfg remote st))
                    = calls_of i (trace st)
                        ++ [GetJobStatus (trim (jobId row))] ++ [SetStatus s])
        by (now destruct (has terminalStatuses (toLowerCase s))).
      assert (Hs' : nth_error (sheet (monitorTranscriptionJobs cfg remote st)) i
                    = Some (apply_writes
                              ([GetJobStatus (trim (jobId row))] ++ [SetStatus s]) row))
        by (now destruct (has terminalStatuses (toLowerCase s))).
      rewrite Hc', Hs', app_assoc. now split.
    + intros He. apply str_eqb_eq in He. rewrite He in Hc, Hs.
      cbn [negb andb] in Hc, Hs.
      assert (Hc' : calls_of i (trace (monitorTranscriptionJobs cfg remote st))
                    = calls_of i (trace st) ++ [GetJobStatus (trim (jobId row))])
        by (now destruct (has terminalStatuses (toLowerCase s))).
      assert (Hs' : nth_error (sheet (monitorTranscriptionJobs cfg remote st)) i
                    = Some (apply_writes [GetJobStatus (trim (jobId row))] row))
        by (now destruct (has terminalStatuses (toLowerCase s))).
      rewrite Hc', Hs'. now split.
Qed.


Lemma digit_char_digit m : m < 10 -> is_digit (digit_char m) = true.
Proof.
  intros H. do 10 (destruct m as [| m]; [reflexivity |]). lia.
Qed.

Lemma dec_digits_digits fuel : forall n acc,
  forallb is_digit acc = true -> forallb is_digit (dec_digits fuel n acc) = true.
Proof.
  induction fuel as [| fuel IH]; intros n acc H; cbn [dec_digits]; [exact H |].
  assert (H' : forallb is_digit (digit_char (n mod 10) :: acc) = true).
  { cbn [forallb]. rewrite H, digit_char_digit; [reflexivity |].
    apply Nat.mod_upper_bound. discriminate. }
  destruct (n / 10 =? 0); [exact H' | now apply IH].
Qed.

Lemma dec_digits_nonempty fuel : forall n acc,
  dec_digits (S fuel) n acc <> [].
Proof.
  induction fuel as [| fuel IH]; intros n acc.
  - cbn [dec_digits]. destruct (n / 10 =? 0); discriminate.
  - change (dec_digits (S (S fuel)) n acc)
      with (if n / 10 =? 0 then digit_char (n mod 10) :: acc
            else dec_digits (S fuel) (n / 10) (digit_char (n mod 10) :: acc)).
    destruct (n / 10 =? 0); [discriminate | apply IH].
Qed.

(** A number in a template literal is rendered as a non-empty string of
    digits. *)
Lemma of_nat_digits n : forallb is_digit (of_nat n) = true /\ of_nat n <> [].
Proof.
  unfold of_nat. split; [now apply dec_digits_digits | apply dec_digits_nonempty].
Qed.

Lemma digit_lower c : is_digit c = true -> lower_char c = c.
Proof. by_cases_on c. Qed.

Lemma digit_not_space c : is_digit c = true -> negb (is_space c) = true.
Proof. by_cases_on c. Qed.

Lemma digit_not_s c : is_digit c = true -> c <> "s"%char.
Proof. by_cases_on c. Qed.

Lemma digits_lower s : forallb is_digit s = true -> toLowerCase s = s.
Proof.
  induction s as [| c s IH]; [reflexivity |]. cbn [forallb toLowerCase map].
  intros H. apply andb_true_iff in H as [Hc H].
  rewrite (digit_lower _ Hc). f_equal. now apply IH.
Qed.

(** The status that [getJobStatus] makes of a response code that it does
    not know. *)
Lemma error_fetching_status code :
  let e := lit "error_fetching_" ++ of_nat code in
  toLowerCase (trim e) = e
  /\ toLowerCase e = e
  /\ truthy e = true
  /\ has terminalStatuses e = false
  /\ has submittedStatuses e = false
  /\ str_eqb e (lit "processing_transcript") = false
  /\ str_eqb e (lit "done") = false
  /\ str_eqb e (lit "rate_limited") = false.
Proof.
  cbv zeta. destruct (of_nat_digits code) as [Hd Hne].
  assert (L : toLowerCase (lit "error_fetching_" ++ of_nat code)
              = lit "error_fetching_" ++ of_nat code).
  { unfold toLowerCase. rewrite map_app. fold (toLowerCase (of_nat code)).
    now rewrite (digits_lower _ Hd). }
  assert (T : trim (lit "error_fetching_" ++ of_nat code)
              = lit "error_fetching_" ++ of_nat code).
  { change (lit "error_fetching_") with ("e"%char :: lit "rror_fetching_").
    cbn [app]. apply trim_fixed_last; [reflexivity |].
    change ("e"%char :: lit "rror_fetching_" ++ of_nat code)
      with (("e"%char :: lit "rror_fetching_") ++ of_nat code).
    rewrite last_is_app by exact Hne.
    apply last_is_all; [exact Hne |].
    revert Hd. apply forallb_impl. exact digit_not_space. }
  assert (P : forall x, firstn 15 x <> lit "error_fetching_" ->
              str_eqb (lit "error_fetching_" ++ of_nat code) x = false).
  { intros x Hx. apply str_eqb_neq. intros E. apply Hx. rewrite <- E.
    reflexivity. }
  assert (S : str_eqb (lit "error_fetching_" ++ of_nat code)
                (lit "error_fetching_status") = false).
  { apply str_eqb_neq. intros E.
    apply (f_equal (skipn 15)) in E. change (of_nat code = lit "status") in E.
    rewrite E in Hd. discriminate. }
  rewrite T, L. repeat split.
  unfold has, terminalStatuses. cbn [map existsb].
  rewrite S. rewrite !P by (vm_compute; discriminate). reflexivity.
Qed.

(** X10.  A response code of the provider other than 200, 401, 404 and
    429 parks the job: the poller writes [error_fetching_<code>] into the
    status of the row, a status that is neither terminal nor active, and
    from then on no pass issues a call for the row or changes it. *)
Theorem X10_unknown_response_code_parks_the_row :
  forall cfg token remote st i row code,
    poller_ready cfg token ->
    nth_error (sheet st) i = Some row ->
    truthy (trim (fileName row)) = true ->
    truthy (trim (jobId row)) = true ->
    is_active row = true ->
    status_of remote i = StatusCode code ->
    code <> 401 -> code <> 404 -> code <> 429 ->
    let st1 := monitorTranscriptionJobs cfg remote st in
    let parked := set_status (lit "error_fetching_" ++ of_nat code) row in
    calls_of i (trace st1)
    = calls_of i (trace st)
        ++ [GetJobStatus (trim (jobId row));
            SetStatus (lit "error_fetching_" ++ of_nat code)]
    /\ nth_error (sheet st1) i = Some parked
    /\ is_terminal parked = false
    /\ is_active parked = false
    /\ forall cfg2 remote2,
         let st2 := monitorTranscriptionJobs cfg2 remote2 st1 in
         nth_error (sheet st2) i = Some parked
         /\ calls_of i (trace st2) = calls_of i (trace st1).
Proof.
  intros cfg token remote st i row code Hr Hn Hf Hj Ha E H401 H404 H429. cbv zeta.
  pose proof Hr as (_ & _ & Hk & _ & _).
  destruct (error_fetching_status code) as (L1 & L2 & Ht & Hterm & Hsub & Hpt & Hd & Hrl).
  destruct (monitor_row_effect remote st i Hr) as [Hc Hs].
  rewrite Hn in Hc, Hs. cbn [option_map] in Hs.
  rewrite (@monitor_row_polled (bucketName cfg) (speechmaticsApiKey cfg) token remote
             i row Hf Hj Hk Ha) in Hc, Hs.
  unfold getJobStatus in Hc, Hs. rewrite Hj, Hk, E in Hc, Hs.
  cbn [negb orb snd] in Hc, Hs. cbv zeta in Hc, Hs.
  apply Nat.eqb_neq in H401, H404, H429. rewrite H401, H404, H429 in Hc, Hs.
  rewrite L2, Hd, Hrl, Hterm, Ht in Hc, Hs.
  assert (Hne : str_eqb (lit "error_fetching_" ++ of_nat code) (localStatus row) = false).
  { destruct (active_cases _ Ha) as [A | [A | [A | A]]]; rewrite A.
    - unfold has, submittedStatuses in Hsub. cbn [map existsb] in Hsub.
      now apply orb_false_iff in Hsub as [Hsub _].
    - unfold has, submittedStatuses in Hsub. cbn [map existsb] in Hsub.
      apply orb_false_iff in Hsub as [_ Hsub].
      now apply orb_false_iff in Hsub as [Hsub _].
    - unfold has, submittedStatuses in Hsub. cbn [map existsb] in Hsub.
      apply orb_false_iff in Hsub as [_ Hsub].
      apply orb_false_iff in Hsub as [_ Hsub].
      now apply orb_false_iff in Hsub as [Hsub _].
    - exact Hpt. }
  rewrite Hne in Hc, Hs. cbn [negb andb app] in Hc, Hs.
  assert (P1 : is_terminal (set_status (lit "error_fetching_" ++ of_nat code) row) = false).
  { unfold is_terminal, localStatus. cbn [set_status status]. now rewrite L1. }
  assert (P2 : is_active (set_status (lit "error_fetching_" ++ of_nat code) row) = false).
  { unfold is_active, localStatus. cbn [set_status status]. now rewrite L1, Hsub, Hpt. }
  split; [exact Hc |]. split; [exact Hs |]. split; [exact P1 |]. split; [exact P2 |].
  intros cfg2 remote2. cbv zeta.
  destruct (pass_effect cfg2 remote2 (monitorTranscriptionJobs cfg remote st))
    as [E2 | (token2 & _ & _ & H2)].
  - rewrite E2. split; [exact Hs | reflexivity].
  - specialize (H2 i). cbv zeta in H2. rewrite Hs in H2.
    rewrite monitor_row_inactive in H2 by exact P2.
    destruct H2 as [Hc2 Hs2]. rewrite app_nil_r in Hc2. now split.
Qed.

(** X11.  An active row without a job identifier is given the status
    [error_missing_jobid], which is terminal, and the provider is not
    asked about it. *)
Theorem X11_active_row_without_job_id :
  forall cfg token remote st i row,
    poller_ready cfg token ->
    nth_error (sheet st) i = Some row ->
    truthy (trim (fileName row)) = true ->
    truthy (trim (jobId row)) = false ->
    is_active row = true ->
    let st' := monitorTranscriptionJobs cfg remote st in
    calls_of i (trace st')
    = calls_of i (trace st) ++ [SetStatus (lit "error_missing_jobid")]
    /\ nth_error (sheet st') i = Some (set_status (lit "error_missing_jobid") row)
    /\ is_terminal (set_status (lit "error_missing_jobid") row) = true.
Proof.
  intros cfg token remote st i row Hr Hn Hf Hj Ha. cbv zeta.
  destruct (monitor_row_effect remote st i Hr) as [Hc Hs].
  rewrite Hn in Hc, Hs. cbn [option_map] in Hs.
  assert (M : monitor_row (bucketName cfg) (speechmaticsApiKey cfg) token remote i row
              = [SetStatus (lit "error_missing_jobid")]).
  { destruct (active_not_terminal _ Ha) as [Hnt _].
    assert (N : str_eqb (localStatus row) (lit "error_missing_jobid") = false).
    { destruct (active_cases _ Ha) as [A | [A | [A | A]]]; now rewrite A. }
    unfold is_terminal in Hnt. unfold monitor_row. fold (localStatus row).
    unfold is_active in Ha. rewrite Hf, Hj, Hnt, Ha. cbn [negb orb andb].
    now rewrite N. }
  rewrite M in Hc, Hs. split; [exact Hc |]. split; [exact Hs |]. reflexivity.
Qed.

End PollerMore.

(* ================================================================== *)
(** * Further properties of the discovery                               *)
(* ================================================================== *)

Lemma trim_last s c t :
  trim s = c :: t -> last_is (fun x => negb (is_space x)) (trim s) = true.
Proof.
  unfold trim, trimEnd. intros H.
  destruct (trimStart (rev (trimStart s))) as [| d u] eqn:E;
    [discriminate |].
  apply trimStart_head in E. unfold last_is. rewrite rev_involutive.
  now rewrite E.
Qed.

Lemma trim_idempotent s : trim (trim s) = trim s.
Proof.
  destruct (trim s) as [| c t] eqn:E; [reflexivity |].
  pose proof (trim_head _ E) as Hc. pose proof (trim_last _ E) as Hl.
  rewrite E in Hl. now apply trim_fixed_last.
Qed.

Section DiscoveryMore.
Import Discovery.
Variable JSON_parse : str -> option Json.value.

Lemma submit_settled v cfg env file newName job fs errs :
  truthy (CLOUD_RUN_URL cfg) = true ->
  submit JSON_parse v cfg env file newName = (job, fs, errs) ->
  settled v {| fileName := newName; jobId := job; status := fs;
               timestamp := updatedAt env (id file) |}.
Proof.
  intros Hu. unfold submit, settled. cbn [status jobId]. destruct v.
  - pose proof (@v8_never_throws JSON_parse (CLOUD_RUN_URL cfg)
                  (cloudRun env (id file)) Hu) as [r Hr].
    rewrite Hr. unfold Submission.sendFileInfoToCloudRun in Hr.
    rewrite Hu in Hr. cbn [negb] in Hr.
    destruct r as [j |].
    + destruct (truthy j) eqn:Hj; intros H; inversion H; subst; clear H.
      * left. split; [reflexivity |]. split; [exact Hj |].
        destruct (cloudRun env (id file)) as [m | code text]; [discriminate |].
        destruct (negb (code =? 200)); [discriminate |].
        destruct (JSON_parse text) as [res |]; [| discriminate].
        destruct (Json.truthy res); [| discriminate].
        destruct (Json.get (lit "job_id") res) as [[ | b | n | s | items | fields] |];
          try discriminate.
        destruct (truthy s && negb (str_eqb (trim s) [])); [| discriminate].
        inversion Hr; subst. apply trim_idempotent.
      * right. now split.
    + intros H; inversion H; subst. right. now split.
  - destruct (Submission.sendFileInfoToCloudRun_v9 _ _ _) as [[|] | e];
      intros H; inversion H; subst; split; auto.
Qed.

Lemma process_file_detail v cfg env file E sh fc ec file1 E1 sh1 fc1 ec1 :
  truthy (CLOUD_RUN_URL cfg) = true ->
  process_file JSON_parse v cfg env file E sh fc ec = (file1, E1, sh1, fc1, ec1) ->
  renamed_or_kept file file1
  /\ ((sh1 = sh /\ fc1 = fc)
      \/ exists row, sh1 = sh ++ [row] /\ fc1 = S fc /\ settled v row).
Proof.
  intros Hu. unfold process_file.
  assert (Hv : negb (truthy (mimeType file))
               || negb (startsWith (lit "video/") (mimeType file))
               = negb (is_video file)).
  { unfold is_video. now rewrite negb_andb. }
  rewrite Hv.
  assert (Kept : renamed_or_kept file file) by (repeat split; now left).
  destruct (is_video file) eqn:Evid; cbn [negb].
  2:{ intros H. inversion H; subst. split; [exact Kept | now left]. }
  match goal with
  | |- (if ?c then _ else _) = _ -> _ => destruct c
  end.
  { intros H. inversion H; subst. split; [exact Kept | now left]. }
  destruct (Parser.extractStudentInfoFromFilename (name file))
    as [[n d] |] eqn:Hp.
  2:{ intros H. inversion H; subst. split; [exact Kept | now left]. }
  destruct (set_has E (Parser.newFileName n d (id file))).
  { intros H. inversion H; subst. split; [exact Kept | now left]. }
  destruct (setName_error env (id file)) as [e |].
  { intros H. inversion H; subst. split; [exact Kept | now left]. }
  destruct (submit JSON_parse v cfg env _ _) as [[job fs] errs] eqn:Hsub.
  intros H. inversion H; subst; clear H. split.
  - split; [reflexivity |]. split; [reflexivity |]. right.
    split; [exact Evid |]. exists n, d. now split.
  - right. rewrite update_last_app. eexists. split; [reflexivity |].
    split; [reflexivity |].
    apply (submit_settled v cfg env _ _ Hu) in Hsub. exact Hsub.
Qed.

Lemma scan_detail v cfg env todo :
  truthy (CLOUD_RUN_URL cfg) = true ->
  forall E sh fc ec todo1 E1 sh1 fc1 ec1,
    scan JSON_parse v cfg env todo E sh fc ec = (todo1, E1, sh1, fc1, ec1) ->
    Forall2 renamed_or_kept todo todo1
    /\ exists appended,
         sh1 = sh ++ appended /\ fc1 = fc + length appended
         /\ Forall (settled v) appended.
Proof.
  intros Hu. induction todo as [| file rest IH];
    intros E sh fc ec todo1 E1 sh1 fc1 ec1 H; cbn [scan] in H.
  - inversion H; subst. split; [constructor |]. exists [].
    rewrite app_nil_r, Nat.add_0_r. auto.
  - destruct (process_file JSON_parse v cfg env file E sh fc ec)
      as [[[[file' E'] sh'] fc'] ec'] eqn:Hpf.
    destruct (scan JSON_parse v cfg env rest E' sh' fc' ec')
      as [[[[rest' E''] sh''] fc''] ec''] eqn:Hsc.
    inversion H; subst; clear H.
    apply (process_file_detail _ _ _ _ _ _ _ _ Hu) in Hpf as [Hk Hrow].
    apply IH in Hsc as [Hf (appended & Hs & Hc & Hall)].
    split; [now constructor |].
    destruct Hrow as [[-> ->] | (row & -> & -> & Hrow)].
    + exists appended. auto.
    + exists (row :: appended). rewrite <- app_assoc in Hs. cbn [app length] in *.
      split; [exact Hs |]. split; [lia |]. now constructor.
Qed.


Lemma settled_for_the_poller row :
  settled V8 row ->
  (is_active (as_job_row row) = true
   /\ truthy (trim (Monitor.jobId (as_job_row row))) = true)
  \/ is_terminal (as_job_row row) = true.
Proof.
  intros [(Hs & Hj & Ht) | (Hs & Hj)].
  - left. unfold is_active, localStatus, as_job_row. cbn [Monitor.status Monitor.jobId].
    rewrite Hs, Ht, Hj. split; reflexivity.
  - right. unfold is_terminal, localStatus, as_job_row. cbn [Monitor.status].
    now rewrite Hs.
Qed.

(** X12.  When the three script properties are set, every row that a
    run of the discovery appends is settled by the end of the run: in
    [src/unnamed/part_000] it reads [submitted] with a trimmed, non-empty
    job identifier, or [cloudrun_no_jobid] with none, and never
    [cloudrun_error]; in [src/Code.js] it reads
    [processing_transcription] or [cloudrun_error], with no job
    identifier.  The rows that were there are kept, and the rows of
    [src/unnamed/part_000] are for its poller either active with a job
    identifier or terminal. *)
Theorem X12_appended_rows_are_settled :
  forall v cfg env folder sh,
    truthy (FOLDER_ID cfg) = true ->
    truthy (TRACKING_SHEET_ID cfg) = true ->
    truthy (CLOUD_RUN_URL cfg) = true ->
    let s := processNewRecordings JSON_parse v cfg env folder sh in
    exists appended,
      sheet s = ensure_header v sh ++ appended
      /\ length appended = fileCount s
      /\ Forall (settled v) appended
      /\ (v = V8 ->
          Forall (fun row =>
                    (is_active (as_job_row row) = true
                     /\ truthy (trim (Monitor.jobId (as_job_row row))) = true)
                    \/ is_terminal (as_job_row row) = true) appended).
Proof.
  intros v cfg env folder sh H1 H2 H3. cbv zeta. unfold processNewRecordings.
  rewrite H1, H2, H3. cbn [negb orb].
  destruct (scan JSON_parse v cfg env folder (existingDataSet (ensure_header v sh))
              (ensure_header v sh) 0 0) as [[[[folder' E'] sh'] fc] ec] eqn:Hs.
  cbn [sheet fileCount].
  apply (scan_detail v cfg env folder H3) in Hs as [_ (appended & -> & -> & Hall)].
  exists appended. split; [reflexivity |]. split; [reflexivity |].
  split; [exact Hall |]. intros ->.
  revert Hall. apply Forall_impl. exact settled_for_the_poller.
Qed.

(** X13.  Whatever the configuration and the answers from outside, a run
    of the discovery keeps the files of the folder, their order, their
    identifiers and their types; the name of a file is either kept or,
    for a video, replaced by the canonical name of the pair that the
    parser reads in the old name. *)
Theorem X13_files_are_kept_or_renamed_canonically :
  forall v cfg env folder sh,
    Forall2 renamed_or_kept folder
      (files (processNewRecordings JSON_parse v cfg env folder sh)).
Proof.
  intros v cfg env folder sh. unfold processNewRecordings.
  assert (Same : Forall2 renamed_or_kept folder folder).
  { induction folder as [| f rest IH]; constructor; [| exact IH].
    repeat split. now left. }
  destruct (truthy (FOLDER_ID cfg)); [| exact Same].
  destruct (truthy (TRACKING_SHEET_ID cfg)); [| exact Same].
  destruct (truthy (CLOUD_RUN_URL cfg)) eqn:H3; [| exact Same].
  cbn [negb orb].
  destruct (scan JSON_parse v cfg env folder (existingDataSet (ensure_header v sh))
              (ensure_header v sh) 0 0) as [[[[folder' E'] sh'] fc] ec] eqn:Hs.
  cbn [files].
  now apply (scan_detail v cfg env folder H3) in Hs as [Hf _].
Qed.

End DiscoveryMore.

(* ================================================================== *)
(** * The further theorems at work on the sample data                   *)
(* ================================================================== *)

(** X5 on a move in which every request is answered as expected. *)
Lemma X5_move_deletes_only_after_the_copy_witness :
  ((exists htext : str, Response 200 [] = Response 404 htext)
   /\ fst (Monitor.moveFileInGCS (lit "bucket") (lit "incoming/a.mp4")
             (lit "processed/a.mp4") (lit "access-token")
             (Response 200 []) (Response 200 []) (Response 204 []))
      = [Monitor.HeadObject (lit "incoming/a.mp4")])
  \/ ((exists ctext : str, Response 200 [] = Response 200 ctext)
      /\ (exists dtext : str, Response 204 [] = Response 204 dtext)
      /\ fst (Monitor.moveFileInGCS (lit "bucket") (lit "incoming/a.mp4")
                (lit "processed/a.mp4") (lit "access-token")
                (Response 200 []) (Response 200 []) (Response 204 []))
         = [Monitor.HeadObject (lit "incoming/a.mp4");
            Monitor.CopyObject (lit "incoming/a.mp4") (lit "processed/a.mp4");
            Monitor.DeleteObject (lit "incoming/a.mp4")]).
Proof.
  exact (proj2 (proj2 (@X5_move_deletes_only_after_the_copy
                         (lit "bucket") (lit "incoming/a.mp4") (lit "processed/a.mp4")
                         (lit "access-token") (Response 200 []) (Response 200 [])
                         (Response 204 []))) eq_refl).
Defined.

(** X6 on a parked row. *)
Lemma X6_only_active_rows_are_polled_witness :
  nth_error
    (Monitor.sheet (Monitor.monitorTranscriptionJobs Sample.pollerConfig
                      Sample.remote_ok (Cases.one_job Cases.parkedJob))) 0
  = Some Cases.parkedJob.
Proof.
  exact (proj1 (@X6_only_active_rows_are_polled Sample.pollerConfig Sample.remote_ok
                  (Cases.one_job Cases.parkedJob) 0 Cases.parkedJob eq_refl eq_refl)).
Defined.

(** X7 on the sample job, which the provider reports done. *)
Lemma X7_post_processing_only_for_done_jobs_witness :
  exists row s,
    nth_error (Monitor.sheet Sample.jobs) 0 = Some row
    /\ is_active row = true
    /\ truthy (trim (Monitor.jobId row)) = true
    /\ Monitor.status_of Sample.remote_ok 0 = Monitor.StatusBody (Some s)
    /\ toLowerCase s = lit "done".
Proof.
  destruct (X7_post_processing_only_for_done_jobs Sample.pollerConfig
              Sample.remote_ok Sample.jobs 0) as (new & Hc & H).
  apply H. vm_compute in Hc. rewrite <- Hc. reflexivity.
Defined.

(** X9 on a submitted job that the provider reports as running. *)
Lemma X9_provider_status_is_written_verbatim_witness :
  nth_error
    (Monitor.sheet
       (Monitor.monitorTranscriptionJobs Sample.pollerConfig
          (Cases.remote_with (Monitor.StatusBody (Some (lit "Running"))))
          Sample.jobs)) 0
  = Some (Monitor.set_status (lit "Running") Sample.submittedJob).
Proof.
  assert (Hready : poller_ready Sample.pollerConfig (lit "access-token"))
    by (repeat split; reflexivity).
  destruct (@X9_provider_status_is_written_verbatim Sample.pollerConfig
              (lit "access-token")
              (Cases.remote_with (Monitor.StatusBody (Some (lit "Running"))))
              Sample.jobs 0 Sample.submittedJob Hready eq_refl eq_refl eq_refl eq_refl)
    as [_ H].
  destruct (H (lit "Running") eq_refl eq_refl) as [H1 _];
    try (vm_compute; discriminate).
  apply H1. vm_compute. discriminate.
Defined.

(** X10 on a submitted job for which the provider answers 500. *)
Lemma X10_unknown_response_code_parks_the_row_witness :
  nth_error
    (Monitor.sheet
       (Monitor.monitorTranscriptionJobs Sample.pollerConfig
          (Cases.remote_with (Monitor.StatusCode 500)) Sample.jobs)) 0
  = Some (Monitor.set_status (lit "error_fetching_" ++ of_nat 500) Sample.submittedJob).
Proof.
  assert (Hready : poller_ready Sample.pollerConfig (lit "access-token"))
    by (repeat split; reflexivity).
  refine (proj1 (proj2
            (@X10_unknown_response_code_parks_the_row Sample.pollerConfig
               (lit "access-token") (Cases.remote_with (Monitor.StatusCode 500))
               Sample.jobs 0 Sample.submittedJob 500 Hready eq_refl eq_refl eq_refl
               eq_refl eq_refl _ _ _)));
    discriminate.
Defined.

(** X11 on a submitted row without job identifier. *)
Lemma X11_active_row_without_job_id_witness :
  nth_error
    (Monitor.sheet
       (Monitor.monitorTranscriptionJobs Sample.pollerConfig Sample.remote_ok
          (Cases.one_job Cases.jobWithoutId))) 0
  = Some (Monitor.set_status (lit "error_missing_jobid") Cases.jobWithoutId).
Proof.
  assert (Hready : poller_ready Sample.pollerConfig (lit "access-token"))
    by (repeat split; reflexivity).
  exact (proj1 (proj2
           (@X11_active_row_without_job_id Sample.pollerConfig (lit "access-token")
              Sample.remote_ok (Cases.one_job Cases.jobWithoutId) 0
              Cases.jobWithoutId Hready eq_refl eq_refl eq_refl eq_refl))).
Defined.

(** X12 on the sample folder: one row, submitted. *)
Lemma X12_appended_rows_are_settled_witness :
  exists appended,
    Discovery.sheet
      (Discovery.processNewRecordings Sample.parse_job V8 Sample.discoveryConfig
         Sample.discoveryEnv Sample.recordings [])
    = Discovery.ensure_header V8 [] ++ appended
    /\ Forall (settled V8) appended.
Proof.
  destruct (@X12_appended_rows_are_settled Sample.parse_job V8
              Sample.discoveryConfig Sample.discoveryEnv Sample.recordings []
              eq_refl eq_refl eq_refl) as (appended & H1 & _ & H2 & _).
  exists appended. split; [exact H1 | exact H2].
Defined.

(* ================================================================== *)
(** * Further properties of the roster lookup                           *)
(* ================================================================== *)

(** X14.  The roster lookup of [src/unnamed/part_000] returns the first
    data row whose e-mail cell,
    trimmed and in lower case, is the address asked for, trimmed and in
    lower case: the student carries the cells of that row, the trimmed
    address of the row and the number of the row in the sheet, and no
    earlier data row passes the test.  With a readable sheet of at least
    two rows, a column [student_email] and the column of the Drive folder
    configured, it returns [null] exactly when no data row passes the
    test. *)
Theorem X14_roster_lookup_returns_the_first_matching_row :
  forall src email,
    (forall student,
        Roster.rosterFindByEmail src email = Some student ->
        exists header pre row post emailCol driveCol,
          Roster.Current_Students src = Some (header :: pre ++ row :: post)
          /\ Roster.indexOf (lit "student_email")
               (map (fun h => trim (toLowerCase h)) header) = Some emailCol
          /\ Roster.driveColIdx src = Some driveCol
          /\ forallb (fun x => negb (email_matches emailCol (trim (toLowerCase email)) x))
               pre = true
          /\ truthy (Roster.cell emailCol row) = true
          /\ toLowerCase (Roster.Email student) = trim (toLowerCase email)
          /\ Roster.Email student = trim (Roster.cell emailCol row)
          /\ Roster.Name student = Roster.cell 0 row
          /\ Roster.Student_ID student = Roster.cell 1 row
          /\ Roster.Drive_Folder_ID student = Roster.cell driveCol row
          /\ Roster.LifeStyle student = Roster.cell 16 row
          /\ Roster.RosterRowIndex student = length pre + 2)
    /\ (forall header rows emailCol driveCol,
          truthy email = true ->
          truthy (Roster.SPREAD_ID src) = true ->
          Roster.Current_Students src = Some (header :: rows) ->
          rows <> [] ->
          Roster.indexOf (lit "student_email")
            (map (fun h => trim (toLowerCase h)) header) = Some emailCol ->
          Roster.driveColIdx src = Some driveCol ->
          (Roster.rosterFindByEmail src email = None
           <-> forallb (fun x => negb (email_matches emailCol (trim (toLowerCase email)) x))
                 rows = true)).
Proof.
  intros src email. split.
  - intros student. unfold Roster.rosterFindByEmail.
    destruct (truthy email); cbn [negb]; [| discriminate].
    destruct (truthy (Roster.SPREAD_ID src)); cbn [negb]; [| discriminate].
    destruct (Roster.Current_Students src) as [values |]; [| discriminate].
    destruct (length values <? 2) eqn:Hlen; [discriminate |].
    destruct values as [| header rows]; [discriminate |].
    unfold Roster.headerLower. cbn [hd tl].
    destruct (Roster.indexOf _ _) as [emailCol |] eqn:Hi; [| discriminate].
    destruct (Roster.driveColIdx src) as [driveCol |]; [| discriminate].
    intros H.
    pose proof (find_row_first emailCol driveCol (trim (toLowerCase email)) rows 1) as F.
    rewrite H in F. destruct F as (pre & row & post & -> & Hp & Hr & ->).
    exists header, pre, row, post, emailCol, driveCol.
    unfold email_matches in Hr. apply andb_true_iff in Hr as [Ht He].
    apply str_eqb_eq in He. cbn [Roster.Email Roster.Name Roster.Student_ID
      Roster.Drive_Folder_ID Roster.LifeStyle Roster.RosterRowIndex].
    repeat split; try assumption; try reflexivity. lia.
  - intros header rows emailCol driveCol He Hs Hv Hne Hi Hd.
    unfold Roster.rosterFindByEmail. rewrite He, Hs, Hv. cbn [negb].
    destruct rows as [| r0 rows']; [congruence |].
    cbn [length Nat.ltb Nat.leb]. unfold Roster.headerLower. cbn [hd tl].
    rewrite Hi, Hd.
    pose proof (find_row_first emailCol driveCol (trim (toLowerCase email))
                  (r0 :: rows') 1) as F.
    destruct (Roster.find_row emailCol driveCol (trim (toLowerCase email)) 1 (r0 :: rows'))
      as [student |].
    + destruct F as (pre & row & post & E & Hp & Hr & _). split; [discriminate |].
      intros Hall. rewrite E, forallb_app in Hall.
      apply andb_true_iff in Hall as [_ Hall]. cbn [forallb] in Hall.
      rewrite Hr in Hall. discriminate.
    + split; [intros _; exact F | reflexivity].
Qed.

(** X14 on the sample roster. *)
Lemma X14_roster_lookup_returns_the_first_matching_row_witness :
  exists header pre row post emailCol driveCol,
    Roster.Current_Students Sample.rosterSource = Some (header :: pre ++ row :: post)
    /\ Roster.indexOf (lit "student_email")
         (map (fun h => trim (toLowerCase h)) header) = Some emailCol
    /\ Roster.driveColIdx Sample.rosterSource = Some driveCol
    /\ forallb (fun x => negb (email_matches emailCol
                                 (trim (toLowerCase (lit " Jane@X.com "))) x))
         pre = true
    /\ truthy (Roster.cell emailCol row) = true
    /\ toLowerCase (Roster.Email Sample.jane) = trim (toLowerCase (lit " Jane@X.com "))
    /\ Roster.Email Sample.jane = trim (Roster.cell emailCol row)
    /\ Roster.Name Sample.jane = Roster.cell 0 row
    /\ Roster.Student_ID Sample.jane = Roster.cell 1 row
    /\ Roster.Drive_Folder_ID Sample.jane = Roster.cell driveCol row
    /\ Roster.LifeStyle Sample.jane = Roster.cell 16 row
    /\ Roster.RosterRowIndex Sample.jane = length pre + 2.
Proof.
  apply (proj1 (X14_roster_lookup_returns_the_first_matching_row
                  Sample.rosterSource (lit " Jane@X.com ")) Sample.jane).
  vm_compute. reflexivity.
Defined.

(* ================================================================== *)
(** * Further properties of the transcript import                       *)
(* ================================================================== *)

Section RosterMap.

Import Distribution.

Variables nameCol folderIdCol emailCol : nat.

Let complete := row_complete nameCol folderIdCol emailCol.
Let key := row_key nameCol.
Let entry := row_entry nameCol folderIdCol emailCol.
Let fresh := key_is_new nameCol folderIdCol emailCol.

Lemma map_get_snoc (V : Type) k k' (v : V) mp :
  map_get k (mp ++ [(k', v)])
  = match map_get k mp with
    | Some e => Some e
    | None => if str_eqb k' k then Some v else None
    end.
Proof.
  induction mp as [| [k0 v0] mp IH]; cbn [app map_get]; [reflexivity |].
  destruct (str_eqb k0 k); [reflexivity | exact IH].
Qed.

Lemma map_get_none_keys (V : Type) k (mp : jsmap V) :
  map_get k mp = None -> ~ In k (map fst mp).
Proof.
  induction mp as [| [k0 v0] mp IH]; cbn [map_get map fst In]; [tauto |].
  destruct (str_eqb k0 k) eqn:E; [discriminate |].
  intros H [-> | Hin]; [rewrite str_eqb_refl in E; discriminate | exact (IH H Hin)].
Qed.

Lemma NoDup_snoc (A : Type) (x : A) l : NoDup l -> ~ In x l -> NoDup (l ++ [x]).
Proof.
  intros Hl Hx. induction Hl as [| y l Hy Hl IH]; cbn [app].
  - constructor; [intros [] | constructor].
  - constructor.
    + rewrite in_app_iff. intros [Hin | [-> | []]]; [exact (Hy Hin) |].
      apply Hx. now left.
    + apply IH. intros Hin. apply Hx. now right.
Qed.

Lemma fill_rosterMap_spec rows : forall acc,
  NoDup (map fst acc) ->
  NoDup (map fst (fill_rosterMap nameCol folderIdCol emailCol rows acc))
  /\ forall k e,
       map_get k (fill_rosterMap nameCol folderIdCol emailCol rows acc) = Some e
       <-> (map_get k acc = Some e
            \/ (map_get k acc = None
                /\ exists pre row post,
                     rows = pre ++ row :: post
                     /\ fresh k pre = true
                     /\ complete row = true /\ key row = k /\ entry row = e)).
Proof.
  induction rows as [| row rest IH]; intros acc Hnd.
  - cbn [fill_rosterMap]. split; [exact Hnd |]. intros k e. split; [now left |].
    intros [H | (_ & pre & r & post & E & _)]; [exact H |].
    destruct pre; discriminate.
  - set (acc' := if complete row
                 then (if negb (map_has (key row) acc)
                       then map_set_new (key row) (entry row) acc else acc)
                 else acc).
    change (fill_rosterMap nameCol folderIdCol emailCol (row :: rest) acc)
      with (fill_rosterMap nameCol folderIdCol emailCol rest acc').
    assert (Hnd' : NoDup (map fst acc')).
    { subst acc'. destruct (complete row); [| exact Hnd].
      unfold map_has. destruct (map_get (key row) acc) eqn:G; cbn [negb]; [exact Hnd |].
      unfold map_set_new. rewrite map_app. cbn [map fst].
      apply NoDup_snoc; [exact Hnd | now apply map_get_none_keys]. }
    assert (Hget : forall k,
               map_get k acc'
               = match map_get k acc with
                 | Some e => Some e
                 | None => if complete row && str_eqb (key row) k
                           then Some (entry row) else None
                 end).
    { intros k. subst acc'. destruct (complete row); cbn [andb].
      - unfold map_has. destruct (map_get (key row) acc) eqn:G; cbn [negb].
        + destruct (map_get k acc) eqn:G'; [reflexivity |].
          destruct (str_eqb (key row) k) eqn:E; [| reflexivity].
          apply str_eqb_eq in E. congruence.
        + unfold map_set_new. apply map_get_snoc.
      - now destruct (map_get k acc). }
    destruct (IH acc' Hnd') as [N S]. split; [exact N |].
    intros k e. rewrite S, Hget. clear S N IH.
    destruct (map_get k acc) as [e0 |] eqn:G.
    + split; intros [H | [H _]]; try discriminate; now left.
    + destruct (complete row && str_eqb (key row) k) eqn:T.
      * apply andb_true_iff in T as [Tc Tk]. apply str_eqb_eq in Tk.
        split.
        -- intros [H | [H _]]; [| discriminate]. right. split; [reflexivity |].
           exists [], row, rest. cbn [app]. repeat split; try assumption; congruence.
        -- intros [H | (_ & pre & r & post & E & F & C & K & En)]; [discriminate |].
           left. destruct pre as [| r0 pre]; cbn [app] in E.
           ++ injection E as -> ->. congruence.
           ++ injection E as <- ->. unfold fresh, key_is_new in F. cbn [forallb] in F.
              fold complete key in F. rewrite Tc, Tk, str_eqb_refl in F. discriminate.
      * split.
        -- intros [H | (_ & pre & r & post & E & F & C & K & En)]; [discriminate |].
           right. split; [reflexivity |].
           exists (row :: pre), r, post. rewrite E. cbn [app].
           repeat split; try assumption.
           unfold fresh, key_is_new. cbn [forallb]. fold complete key.
           rewrite T. exact F.
        -- intros [H | (_ & pre & r & post & E & F & C & K & En)]; [discriminate |].
           right. split; [reflexivity |].
           destruct pre as [| r0 pre]; cbn [app] in E.
           ++ injection E as -> ->. rewrite C, K, str_eqb_refl in T. discriminate.
           ++ injection E as <- ->. exists pre, r, post.
              unfold fresh, key_is_new in F. cbn [forallb] in F.
              apply andb_true_iff in F as [_ F].
              repeat split; try assumption.
Qed.

End RosterMap.

(** X15.  The roster map of the import holds, for every key, the first
    complete row of that key: a key is bound to an entry exactly when some
    data row with a non-blank name, folder and address has that key (its
    name in lower case, underscores as spaces, trimmed), carries the
    trimmed cells of the entry, and no earlier complete row has the same
    key.  No key is in the map twice. *)
Theorem X15_roster_map_holds_the_first_complete_row :
  forall values nameCol folderIdCol emailCol rosterMap,
    Roster.indexOf (lit "student_name") (Roster.headerLower values) = Some nameCol ->
    Roster.indexOf (lit "drive_folder_id") (Roster.headerLower values) = Some folderIdCol ->
    Roster.indexOf (lit "student_email") (Roster.headerLower values) = Some emailCol ->
    Distribution.build_rosterMap values = Some rosterMap ->
    NoDup (map fst rosterMap)
    /\ forall k e,
         Distribution.map_get k rosterMap = Some e
         <-> exists pre row post,
               tl values = pre ++ row :: post
               /\ key_is_new nameCol folderIdCol emailCol k pre = true
               /\ row_complete nameCol folderIdCol emailCol row = true
               /\ row_key nameCol row = k
               /\ row_entry nameCol folderIdCol emailCol row = e.
Proof.
  intros values nameCol folderIdCol emailCol rosterMap Hn Hf He.
  unfold Distribution.build_rosterMap. rewrite Hn, Hf, He.
  destruct (length values <? 2) eqn:L.
  - intros [= <-]. split; [constructor |].
    intros k e. cbn [Distribution.map_get]. split; [discriminate |].
    intros (pre & row & post & E & _). exfalso.
    apply Nat.ltb_lt in L. apply (f_equal (@length _)) in E.
    rewrite length_app in E. cbn [length] in E.
    destruct values as [| h t]; cbn [tl length] in *; lia.
  - intros [= <-].
    destruct (fill_rosterMap_spec nameCol folderIdCol emailCol (tl values) []
                (NoDup_nil _)) as [N S].
    split; [exact N |]. intros k e. rewrite S. cbn [Distribution.map_get].
    split.
    + intros [H | [_ H]]; [discriminate | exact H].
    + intros H. right. split; [reflexivity | exact H].
Qed.

Lemma no_char_includes c s :
  includes [c] s = false -> forallb (fun x => negb (Ascii.eqb c x)) s = true.
Proof.
  induction s as [| x s IH]; [reflexivity |].
  cbn [forallb includes startsWith]. intros H. apply orb_false_iff in H as [Hx H].
  rewrite (IH H). destruct (Ascii.eqb c x); [discriminate | reflexivity].
Qed.

Lemma warning_or_kept c :
  negb (Ascii.eqb "*" c) = true ->
  one_of (lit "+-~`'") c || none_of (lit "+-~`'*") c = true.
Proof. by_cases_on c. Qed.

Lemma underscore_or_searched c :
  none_of (lit "+-~`'*") c = true ->
  one_of (lit "_") c || none_of (lit "+-~`'_*") c = true.
Proof. by_cases_on c. Qed.

Lemma lower_searched c :
  none_of (lit "+-~`'_*") c = true -> none_of (lit "+-~`'_*") (lower_char c) = true.
Proof. by_cases_on c. Qed.

Lemma lower_char_blank c : Ascii.eqb (lower_char c) " " = Ascii.eqb c " ".
Proof. by_cases_on c. Qed.

Lemma spaced_ok_lower s : forall b,
  spaced_ok b (toLowerCase s) = spaced_ok b s.
Proof.
  unfold toLowerCase.
  induction s as [| c s IH]; intros b; [reflexivity |].
  cbn [map spaced_ok]. now rewrite lower_char_space, lower_char_blank, !IH.
Qed.

(** The name under which the roster is searched has the searched shape,
    whatever the name part of the transcript. *)
Lemma studentNameProcessed_shape raw :
  includes (lit "*") raw = false ->
  truthy (Distribution.studentNameProcessed raw) = true ->
  searched_key (Distribution.studentNameProcessed raw) = true.
Proof.
  intros Hstar Ht. unfold searched_key. rewrite Ht. cbn [andb].
  unfold Distribution.studentNameProcessed, Distribution.warningCharsRegex,
    underscoreRegex, spacesRegex in *.
  rewrite !replace_all_cls, replace_all_plus in *.
  set (s1 := flat_map (fun c => if one_of (lit "+-~`'") c then lit " " else [c]) raw) in *.
  set (s2 := flat_map (fun c => if one_of (lit "_") c then lit " " else [c]) s1) in *.
  set (s3 := collapse_aux is_space (lit " ") false s2) in *.
  assert (H1 : forallb (none_of (lit "+-~`'*")) s1 = true).
  { apply forallb_flat_map; [reflexivity |].
    change (lit "*") with ["*"%char] in Hstar. apply no_char_includes in Hstar.
    revert Hstar. apply forallb_impl. exact warning_or_kept. }
  assert (H2 : forallb (none_of (lit "+-~`'_*")) s2 = true).
  { apply forallb_flat_map; [reflexivity |].
    revert H1. apply forallb_impl. exact underscore_or_searched. }
  assert (H3 : forallb (none_of (lit "+-~`'_*")) s3 = true).
  { apply forallb_collapse; [reflexivity | exact H2]. }
  assert (H4 : forallb (none_of (lit "+-~`'_*")) (toLowerCase s3) = true).
  { unfold toLowerCase. rewrite forallb_map_ascii.
    revert H3. apply forallb_impl. exact lower_searched. }
  rewrite (forallb_trim _ _ H4). cbn [andb].
  assert (S4 : spaced_ok false (toLowerCase s3) = true).
  { rewrite spaced_ok_lower. apply (collapse_spaced s2 false). }
  destruct (trim (toLowerCase s3)) as [| c t] eqn:E; [discriminate |].
  rewrite <- E at 2. rewrite (trim_last _ E). rewrite andb_true_r.
  apply spaced_ok_head; [exact (trim_head _ E) |].
  destruct (trim_sub (toLowerCase s3)) as (a & b & Eab). rewrite E in Eab.
  rewrite Eab in S4. apply spaced_ok_app_r in S4. now apply spaced_ok_app_l in S4.
Qed.

(** X16.  A transcript reaches only a roster entry that is bound under a
    key of the searched shape: not empty, free of the characters
    [+ - ~ ` ' _ *], with white space only as single spaces between other
    characters.  An entry whose key holds a hyphen, an apostrophe or two
    adjacent spaces is matched by no object name. *)
Theorem X16_only_keys_of_the_searched_shape_are_matched :
  forall rosterMap itemName fileNameRelative studentData,
    Distribution.resolve rosterMap itemName
      = Distribution.Matched fileNameRelative studentData ->
    exists key,
      Distribution.map_get key rosterMap = Some studentData
      /\ searched_key key = true.
Proof.
  intros rosterMap itemName f sd. unfold Distribution.resolve. intros H.
  repeat match type of H with
         | (if ?c then _ else _) = _ => destruct c eqn:?; try discriminate
         | match ?x with _ => _ end = _ => destruct x eqn:?; try discriminate
         end.
  inversion H; subst; clear H.
  match goal with
  | E : Distribution.map_get ?k rosterMap = Some _ |- _ =>
      exists k; split; [exact E |]
  end.
  apply studentNameProcessed_shape; [assumption |].
  match goal with
  | E : negb (truthy (Distribution.studentNameProcessed _)) = false |- _ =>
      now apply negb_false_iff in E
  end.
Qed.

Section ImportAccounting.

Import Distribution.

Lemma queued_names_push k x mp :
  map_has k mp = true ->
  length (queued_names (map_push k x mp)) = S (length (queued_names mp)).
Proof.
  unfold map_has, queued_names.
  induction mp as [| [k' v'] rest IH]; cbn [map_get map_push]; [discriminate |].
  destruct (str_eqb k' k); cbn [map snd concat]; intros H.
  - rewrite !length_app. cbn [length]. lia.
  - rewrite !length_app, (IH H). lia.
Qed.

Lemma queued_names_new k mp :
  length (queued_names (map_set_new k [] mp)) = length (queued_names mp).
Proof.
  unfold queued_names, map_set_new. rewrite map_app, concat_app.
  cbn [map snd concat app]. rewrite length_app. cbn [length]. lia.
Qed.

Lemma map_has_new k (mp : jsmap (list str)) :
  map_has k (map_set_new k [] mp) = true.
Proof.
  unfold map_has, map_set_new. rewrite map_get_snoc.
  destruct (map_get k mp); [reflexivity |]. now rewrite str_eqb_refl.
Qed.

Lemma item_step_counted f st :
  total_counted (f (counters st)) = S (total_counted (counters st)) ->
  importCount (f (counters st)) = importCount (counters st) ->
  item_step st (with_counters f st).
Proof.
  intros Ht Hi. exists []. unfold with_counters. cbn [world counters importedFilesByStudent].
  rewrite app_nil_r, Ht, Hi. cbn [length]. repeat split; lia.
Qed.

Lemma item_step_refl st : item_step st st.
Proof.
  exists []. rewrite app_nil_r. cbn [length]. repeat split; lia.
Qed.

Lemma on_item_error_step message st st' :
  on_item_error message st = Return st' -> item_step st st'.
Proof.
  unfold on_item_error. destruct (_ || _); [discriminate |].
  intros [= <-]. apply item_step_counted; unfold total_counted; cbn; lia.
Qed.

Lemma import_item_step rosterMap env itemName st st' :
  import_item rosterMap env itemName st = Return st' -> item_step st st'.
Proof.
  unfold import_item.
  destruct (resolve rosterMap itemName) as [| | | | | f sd].
  - intros [= <-]. apply item_step_counted; unfold total_counted; cbn; lia.
  - intros [= <-]. apply item_step_refl.
  - intros [= <-]. apply item_step_counted; unfold total_counted; cbn; lia.
  - intros [= <-]. apply item_step_counted; unfold total_counted; cbn; lia.
  - intros [= <-]. apply item_step_refl.
  - unfold deliver.
    destruct (gcsContent env) as [c |]; [| apply on_item_error_step].
    destruct (folder_error env); [apply on_item_error_step |].
    destruct (folder_has (folderId sd) f (world st)).
    { intros [= <-]. apply item_step_counted; unfold total_counted; cbn; lia. }
    destruct (createFile_error env); [apply on_item_error_step |].
    intros [= <-].
    eexists [_]. cbn [world counters importedFilesByStudent add_file drive ledger outbox
                      length].
    split; [reflexivity |].
    split; [cbn; lia |].
    split.
    { destruct (map_has (email sd) (importedFilesByStudent st)) eqn:Hh; cbn [negb].
      - rewrite queued_names_push by exact Hh. lia.
      - rewrite queued_names_push by apply map_has_new.
        rewrite queued_names_new. lia. }
    unfold total_counted. cbn. repeat split; lia.
Qed.

Lemma import_items_steps rosterMap envs items : forall j st st',
  import_items rosterMap envs j items st = Return st' ->
  exists created,
    drive (world st') = drive (world st) ++ created
    /\ importCount (counters st') = importCount (counters st) + length created
    /\ length (queued_names (importedFilesByStudent st'))
       = length (queued_names (importedFilesByStudent st)) + length created
    /\ total_counted (counters st') <= total_counted (counters st) + length items
    /\ ledger (world st') = ledger (world st)
    /\ outbox (world st') = outbox (world st).
Proof.
  induction items as [| itemName rest IH]; intros j st st'; cbn [import_items].
  - intros [= <-]. exists []. rewrite app_nil_r. cbn [length]. repeat split; lia.
  - destruct (import_item rosterMap (envs j) itemName st) as [st1 | msg] eqn:Hi;
      [| discriminate].
    intros H. apply import_item_step in Hi.
    destruct Hi as (c1 & D1 & I1 & Q1 & _ & T1 & _ & L1 & O1).
    destruct (IH _ _ _ H) as (c2 & D2 & I2 & Q2 & T2 & L2 & O2).
    exists (c1 ++ c2). rewrite D2, D1, I2, I1, Q2, Q1, L2, L1, O2, O1, <- app_assoc.
    rewrite length_app. cbn [length]. repeat split; lia.
Qed.

End ImportAccounting.

(** X17.  When the loop over the listed objects ends, the count of
    imported transcripts is the number of files that the loop has created
    in Drive, after those that were there, and also the number of names
    queued for the homework; the five counters together do not exceed the
    number of listed objects; the homework ledger and the outbox are as
    before the loop. *)
Theorem X17_import_count_is_files_created_and_names_queued :
  forall rosterMap envs items w st',
    Distribution.import_items rosterMap envs 0 items
      {| Distribution.world := w; Distribution.counters := Distribution.zero;
         Distribution.importedFilesByStudent := [] |} = Return st' ->
    exists created,
      drive (Distribution.world st') = drive w ++ created
      /\ length created = Distribution.importCount (Distribution.counters st')
      /\ length (queued_names (Distribution.importedFilesByStudent st'))
         = Distribution.importCount (Distribution.counters st')
      /\ total_counted (Distribution.counters st') <= length items
      /\ ledger (Distribution.world st') = ledger w
      /\ outbox (Distribution.world st') = outbox w.
Proof.
  intros rosterMap envs items w st' H.
  destruct (import_items_steps _ _ _ _ _ H) as (created & D & I & Q & T & L & O).
  exists created. cbn in D, I, Q, T, L, O. repeat split; try assumption; lia.
Qed.

Lemma import_items_app rosterMap envs a : forall j b st,
  Distribution.import_items rosterMap envs j (a ++ b) st
  = match Distribution.import_items rosterMap envs j a st with
    | Return st1 => Distribution.import_items rosterMap envs (j + length a) b st1
    | Throw message => Throw message
    end.
Proof.
  induction a as [| x a IH]; intros j b st; cbn [app Distribution.import_items length].
  - now rewrite Nat.add_0_r.
  - destruct (Distribution.import_item rosterMap (envs j) x st); [| reflexivity].
    rewrite IH. now replace (S j + length a) with (j + S (length a)) by lia.
Qed.

Lemma on_item_error_cases message st :
  Distribution.on_item_error message st
  = if suggests_folder message
    then Throw (lit "ReferenceError: folderId is not defined")
    else Return (Distribution.with_counters Distribution.incr_error st).
Proof. reflexivity. Qed.

(** X18.  When Drive refuses the folder of a matched transcript, the
    message decides what the run does.  A message that holds "permission"
    or "forbidden", or both "not found" and "folder", in any case of the
    letters, makes the error handler of the object read a name that is not
    in its scope: the loop ends with a ReferenceError, and so does the run,
    before any homework is assigned.  Any other message is counted as one
    processing error and the loop goes on with the next object. *)
Theorem X18_refused_folder_aborts_or_is_counted :
  forall cfg w values rosterMap token pre itemName rest st fileNameRelative
         studentData transcriptContent message,
    truthy (Distribution.STUDENT_ROSTER_ID cfg) = true ->
    truthy (Distribution.BUCKET_NAME cfg) = true ->
    Distribution.serviceAccountToken cfg = Return token ->
    Distribution.rosterValues cfg = Some values ->
    Distribution.build_rosterMap values = Some rosterMap ->
    Distribution.listing cfg = Some (pre ++ itemName :: rest) ->
    Distribution.import_items rosterMap (Distribution.itemEnv cfg) 0 pre
      {| Distribution.world := w; Distribution.counters := Distribution.zero;
         Distribution.importedFilesByStudent := [] |} = Return st ->
    Distribution.resolve rosterMap itemName
      = Distribution.Matched fileNameRelative studentData ->
    Distribution.gcsContent (Distribution.itemEnv cfg (length pre))
      = Some transcriptContent ->
    Distribution.folder_error (Distribution.itemEnv cfg (length pre)) = Some message ->
    (suggests_folder message = true ->
     Distribution.import_items rosterMap (Distribution.itemEnv cfg) 0
       (pre ++ itemName :: rest)
       {| Distribution.world := w; Distribution.counters := Distribution.zero;
          Distribution.importedFilesByStudent := [] |}
     = Throw (lit "ReferenceError: folderId is not defined")
     /\ Distribution.importTranscriptsToDrive cfg w
        = Throw (lit "ReferenceError: folderId is not defined"))
    /\ (suggests_folder message = false ->
        Distribution.import_items rosterMap (Distribution.itemEnv cfg) 0
          (pre ++ itemName :: rest)
          {| Distribution.world := w; Distribution.counters := Distribution.zero;
             Distribution.importedFilesByStudent := [] |}
        = Distribution.import_items rosterMap (Distribution.itemEnv cfg)
            (S (length pre)) rest
            (Distribution.with_counters Distribution.incr_error st)).
Proof.
  intros cfg w values rosterMap token pre itemName rest st f sd c message
    Hid Hb Htok Hv Hmap Hl Hpre Hr Hc Hf.
  assert (Hitem : Distribution.import_item rosterMap
                    (Distribution.itemEnv cfg (length pre)) itemName st
                  = Distribution.on_item_error message st).
  { unfold Distribution.import_item. rewrite Hr. unfold Distribution.deliver.
    now rewrite Hc, Hf. }
  assert (Hloop : Distribution.import_items rosterMap (Distribution.itemEnv cfg) 0
                    (pre ++ itemName :: rest)
                    {| Distribution.world := w; Distribution.counters := Distribution.zero;
                       Distribution.importedFilesByStudent := [] |}
                  = match Distribution.on_item_error message st with
                    | Return st' =>
                        Distribution.import_items rosterMap (Distribution.itemEnv cfg)
                          (S (length pre)) rest st'
                    | Throw m => Throw m
                    end).
  { rewrite import_items_app, Hpre. cbn [Distribution.import_items Nat.add].
    now rewrite Hitem. }
  rewrite on_item_error_cases in Hloop.
  split; intros Hs; rewrite Hs in Hloop; [| exact Hloop].
  split; [exact Hloop |].
  unfold Distribution.importTranscriptsToDrive.
  rewrite Hid, Hb, Htok, Hv, Hmap, Hl. cbn [negb].
  destruct rosterMap as [| b0 mp].
  { unfold Distribution.resolve in Hr.
    repeat match type of Hr with
           | (if ?c then _ else _) = _ => destruct c eqn:?; try discriminate
           | match ?x with _ => _ end = _ => destruct x eqn:?; try discriminate
           end. }
  destruct (pre ++ itemName :: rest) as [| i0 l0] eqn:El.
  { destruct pre; discriminate. }
  now rewrite Hloop.
Qed.

(** X15 on a roster with two rows of the same key. *)
Lemma X15_roster_map_holds_the_first_complete_row_witness :
  NoDup (map fst [(lit "jane doe",
                   {| Distribution.folderId := lit "folder-jane";
                      Distribution.originalName := lit "Jane_Doe";
                      Distribution.email := lit "jane@x.com" |})])
  /\ forall k e,
       Distribution.map_get k
         [(lit "jane doe",
           {| Distribution.folderId := lit "folder-jane";
              Distribution.originalName := lit "Jane_Doe";
              Distribution.email := lit "jane@x.com" |})] = Some e
       <-> exists pre row post,
             tl ImportCases.rosterWithDuplicates = pre ++ row :: post
             /\ key_is_new 0 3 2 k pre = true
             /\ row_complete 0 3 2 row = true
             /\ row_key 0 row = k
             /\ row_entry 0 3 2 row = e.
Proof.
  apply (@X15_roster_map_holds_the_first_complete_row
           ImportCases.rosterWithDuplicates 0 3 2); vm_compute; reflexivity.
Defined.

(** X16 on the first transcript of the sample. *)
Lemma X16_only_keys_of_the_searched_shape_are_matched_witness :
  exists key,
    Distribution.map_get key Sample.rosterMap = Some Sample.janeEntry
    /\ searched_key key = true.
Proof.
  apply (@X16_only_keys_of_the_searched_shape_are_matched Sample.rosterMap
           (lit "transcripts/Jane_Doe_2024-03-01_AbCdEfGhIj.txt")
           (lit "Jane_Doe_2024-03-01_AbCdEfGhIj.txt") Sample.janeEntry).
  vm_compute. reflexivity.
Defined.

(** X17 on the run of the sample. *)
Lemma X17_import_count_is_files_created_and_names_queued_witness :
  exists st',
    Distribution.import_items Sample.rosterMap
      (Distribution.itemEnv Sample.importConfig) 0
      (map (fun n => lit "transcripts/" ++ n) Sample.janeTranscripts)
      {| Distribution.world := Sample.empty_world;
         Distribution.counters := Distribution.zero;
         Distribution.importedFilesByStudent := [] |} = Return st'
    /\ Distribution.importCount (Distribution.counters st') = 3
    /\ exists created,
         drive (Distribution.world st') = drive Sample.empty_world ++ created
         /\ length created = Distribution.importCount (Distribution.counters st')
         /\ length (queued_names (Distribution.importedFilesByStudent st'))
            = Distribution.importCount (Distribution.counters st')
         /\ total_counted (Distribution.counters st') <= 3
         /\ ledger (Distribution.world st') = ledger Sample.empty_world
         /\ outbox (Distribution.world st') = outbox Sample.empty_world.
Proof.
  eexists. split; [vm_compute; reflexivity |]. split; [reflexivity |].
  eapply (@X17_import_count_is_files_created_and_names_queued Sample.rosterMap
            (Distribution.itemEnv Sample.importConfig)
            (map (fun n => lit "transcripts/" ++ n) Sample.janeTranscripts)
            Sample.empty_world).
  vm_compute. reflexivity.
Defined.

(** X18 on a run whose second transcript meets a refused folder. *)
Lemma X18_refused_folder_aborts_or_is_counted_witness :
  Distribution.importTranscriptsToDrive
    (ImportCases.refusedConfig (lit "You do not have permission to access the folder."))
    Sample.empty_world
  = Throw (lit "ReferenceError: folderId is not defined").
Proof.
  refine (proj2 (proj1 (@X18_refused_folder_aborts_or_is_counted
            (ImportCases.refusedConfig
               (lit "You do not have permission to access the folder."))
            Sample.empty_world Sample.rosterValues Sample.rosterMap
            (lit "access-token")
            [lit "transcripts/Jane_Doe_2024-03-01_AbCdEfGhIj.txt"]
            (lit "transcripts/Jane_Doe_2024-03-01_KlMnOpQrSt.txt")
            [lit "transcripts/Jane_Doe_2024-03-02_UvWxYz0123.txt"]
            _ (lit "Jane_Doe_2024-03-01_KlMnOpQrSt.txt") Sample.janeEntry
            (lit "Hello Jane.")
            (lit "You do not have permission to access the folder.")
            _ _ _ _ _ _ _ _ _ _) _)); vm_compute; reflexivity.
Defined.

(* ================================================================== *)
(** * Further properties of the homework assignment                     *)
(* ================================================================== *)

(** X19.  A call of [assignHomework], in either version of the script,
    sends at most one mail, and none without an assignment: when a mail is
    added to the outbox, the call returns, it has created the prompt file
    in the folder of the student and appended one ledger row with status
    Active and no turn used, which points to that file; the mail goes to
    the address that was passed, its subject names the homework identifier
    of the row, and its body holds the portal link that ends in the token
    of the row. *)
Theorem X19_no_notification_without_an_assignment :
  forall v env studentEmail transcriptFileNames w res w',
    Homework.assignHomework v env studentEmail transcriptFileNames w = (res, w') ->
    outbox w' = outbox w
    \/ exists student file row m,
         outbox w' = outbox w ++ [m]
         /\ res = Return tt
         /\ Roster.rosterFindByEmail (Homework.roster env) studentEmail = Some student
         /\ drive w' = drive w ++ [file]
         /\ folderId file = Roster.Drive_Folder_ID student
         /\ trashed file = false
         /\ ledger w' = ledger w ++ [row]
         /\ PromptFileID row = fileId file
         /\ Student_Email row = Roster.Email student
         /\ Token_Status row = lit "Active"
         /\ Turns_Used row = 0
         /\ recipient m = studentEmail
         /\ subject m = lit "Your new homework is ready (ID: " ++ HW_ID row ++ lit ")"
         /\ includes (Homework.HOMEWORK_PORTAL_BASEURL env
                      ++ lit "/homework-coach/?token=" ++ Token row) (body m) = true.
Proof.
  intros v env email names w res w'. unfold Homework.assignHomework.
  destruct names as [| first rest]; [intros [= <- <-]; now left |].
  destruct (truthy email); cbn [negb]; [| intros [= <- <-]; now left].
  destruct (Roster.rosterFindByEmail (Homework.roster env) email)
    as [student |] eqn:Hf.
  2:{ intros [= <- <-]. left. destruct v; reflexivity. }
  match goal with
  | |- context [Homework.saveHomeworkPrompt ?a ?b ?c ?d ?e ?f ?g] =>
      destruct (Homework.saveHomeworkPrompt a b c d e f g) as [[token | msg] w1] eqn:Hs
  end.
  2:{ intros [= <- <-]. left. apply saveHomeworkPrompt_outbox in Hs. rewrite Hs.
      destruct v; destruct (Homework.transcriptMatch first); reflexivity. }
  pose proof (saveHomeworkPrompt_return _ _ _ _ _ _ _ Hs)
    as (Htok & Hout & student' & file & Hf' & Hd & Hid & Hfold & _ & Htr & Hl).
  rewrite Hf in Hf'. injection Hf' as <-.
  assert (Ho1 : outbox w1 = outbox w).
  { rewrite Hout. destruct v; destruct (Homework.transcriptMatch first); reflexivity. }
  assert (Hd1 : drive w1 = drive w ++ [file]).
  { rewrite Hd. destruct v; destruct (Homework.transcriptMatch first); reflexivity. }
  assert (Hl1 : exists row, ledger w1 = ledger w ++ [row]
                            /\ row = Homework.newRowData student
                                 (Homework.hwId_of (Roster.RosterRowIndex student)
                                    (Homework.today_hwId env))
                                 (Homework.newFileId env) (Homework.uuid env)
                                 (Homework.assignedAt env)).
  { eexists. split; [| reflexivity]. rewrite Hl.
    destruct v; destruct (Homework.transcriptMatch first); reflexivity. }
  clear Hout Hd Hl Hs.
  destruct (truthy (Homework.HOMEWORK_PORTAL_BASEURL env)); cbn [negb];
    [| intros [= <- <-]; left; exact Ho1].
  destruct (Homework.sendEmail_error env);
    [intros [= <- <-]; left; exact Ho1 |].
  intros [= <- <-]. right. destruct Hl1 as (row & Hl1 & Erow).
  exists student, file, row,
    (Homework.homeworkMail env student email
       (Homework.hwId_of (Roster.RosterRowIndex student) (Homework.today_hwId env))
       token).
  cbn [add_mail outbox drive ledger]. rewrite Ho1, Hd1, Hl1, Hid, Erow, Htok.
  cbn [Homework.newRowData PromptFileID Student_Email Token_Status Turns_Used HW_ID Token
       Homework.homeworkMail recipient subject World.body].
  repeat split; try assumption.
  match goal with
  | |- includes ?p (?a ++ ?b ++ ?c ++ ?d ++ ?e ++ ?f ++ ?g ++ ?h ++ ?i ++ ?j) = true =>
      replace (a ++ b ++ c ++ d ++ e ++ f ++ g ++ h ++ i ++ j)
        with ((a ++ b ++ c ++ d ++ e ++ f ++ g ++ h) ++ p ++ j)
        by (now rewrite <- !app_assoc)
  end.
  apply includes_intro.
Qed.

(** X19 on the assignment of the sample. *)
Lemma X19_no_notification_without_an_assignment_witness :
  let res := fst (Homework.assignHomework V8 Sample.env_ok (lit "jane@x.com")
                    Sample.janeTranscripts Sample.empty_world) in
  let w' := snd (Homework.assignHomework V8 Sample.env_ok (lit "jane@x.com")
                   Sample.janeTranscripts Sample.empty_world) in
  outbox w' = outbox Sample.empty_world
  \/ exists student file row m,
       outbox w' = outbox Sample.empty_world ++ [m]
       /\ res = Return tt
       /\ Roster.rosterFindByEmail (Homework.roster Sample.env_ok) (lit "jane@x.com")
          = Some student
       /\ drive w' = drive Sample.empty_world ++ [file]
       /\ folderId file = Roster.Drive_Folder_ID student
       /\ trashed file = false
       /\ ledger w' = ledger Sample.empty_world ++ [row]
       /\ PromptFileID row = fileId file
       /\ Student_Email row = Roster.Email student
       /\ Token_Status row = lit "Active"
       /\ Turns_Used row = 0
       /\ recipient m = lit "jane@x.com"
       /\ subject m = lit "Your new homework is ready (ID: " ++ HW_ID row ++ lit ")"
       /\ includes (Homework.HOMEWORK_PORTAL_BASEURL Sample.env_ok
                    ++ lit "/homework-coach/?token=" ++ Token row) (body m) = true.
Proof.
  intros res w'.
  apply (@X19_no_notification_without_an_assignment V8 Sample.env_ok (lit "jane@x.com")
           Sample.janeTranscripts Sample.empty_world res w').
  vm_compute. reflexivity.
Defined.

(* ================================================================== *)
(** * Properties of the listing of the bucket                           *)
(* ================================================================== *)

Section ListingFacts.

Import Listing.

Variable remote : Remote.
Variables bucketName effPrefix : str.
Variable mimeTypes : list str.

Lemma pages_requests fuel : forall k pageToken allFiles requests result,
  pages fuel remote bucketName effPrefix mimeTypes k pageToken allFiles
    = (requests, Some result) ->
  exists rest, requests = pageToken :: rest /\ length requests <= fuel.
Proof.
  induction fuel as [| fuel IH]; intros k tok all reqs res; cbn [pages];
    [discriminate |].
  destruct (remote k bucketName effPrefix tok) as [msg | code ge | items next].
  - intros [= <- _]. exists []. cbn [length]. split; [reflexivity | lia].
  - intros [= <- _]. exists []. cbn [length]. split; [reflexivity | lia].
  - destruct (truthy next).
    + destruct (pages fuel remote bucketName effPrefix mimeTypes (S k) next _)
        as [reqs' res'] eqn:E.
      intros [= <- ->]. destruct (IH _ _ _ _ _ E) as (rest & -> & L).
      exists (next :: rest). cbn [length] in *. split; [reflexivity | lia].
    + intros [= <- _]. exists []. cbn [length]. split; [reflexivity | lia].
Qed.

Lemma pages_return fuel : forall k pageToken allFiles requests files,
  pages fuel remote bucketName effPrefix mimeTypes k pageToken allFiles
    = (requests, Some (Return files)) ->
  chained remote bucketName effPrefix k requests
  /\ files = allFiles
             ++ filter (keeps effPrefix mimeTypes)
                  (listed remote bucketName effPrefix k requests).
Proof.
  induction fuel as [| fuel IH]; intros k tok all reqs files; cbn [pages];
    [discriminate |].
  destruct (remote k bucketName effPrefix tok) as [msg | code ge | items next] eqn:R;
    try discriminate.
  destruct (truthy next) eqn:T.
  - destruct (pages fuel remote bucketName effPrefix mimeTypes (S k) next _)
      as [reqs' res'] eqn:E.
    intros [= <- ->]. destruct (pages_requests _ _ _ _ E) as (rest & -> & _).
    destruct (IH _ _ _ _ _ E) as [C F]. split.
    + cbn [chained]. rewrite R. cbn [is_page token_of]. auto.
    + cbn [listed]. rewrite R. cbn [items_of]. rewrite F, filter_app.
      now rewrite app_assoc.
  - intros [= <- <-]. split.
    + cbn [chained]. rewrite R. cbn [is_page token_of]. split; [reflexivity |].
      now destruct next.
    + cbn [listed]. rewrite R. cbn [items_of]. now rewrite app_nil_r.
Qed.

Lemma pages_chained requests : forall fuel k allFiles,
  chained remote bucketName effPrefix k requests ->
  length requests <= fuel ->
  pages fuel remote bucketName effPrefix mimeTypes k (hd [] requests) allFiles
  = (requests,
     Some (Return (allFiles
                   ++ filter (keeps effPrefix mimeTypes)
                        (listed remote bucketName effPrefix k requests)))).
Proof.
  induction requests as [| tok rest IH]; intros fuel k all; cbn [chained];
    [tauto |].
  intros [P C] L. destruct fuel as [| fuel]; cbn [length] in L; [lia |].
  cbn [pages hd listed].
  destruct (remote k bucketName effPrefix tok) as [msg | code ge | items next];
    try discriminate.
  cbn [items_of token_of] in *.
  destruct rest as [| next' rest'].
  - subst next. cbn [truthy listed]. now rewrite app_nil_r.
  - destruct C as (-> & T & C). rewrite T.
    specialize (IH fuel (S k) (all ++ filter (keeps effPrefix mimeTypes) items) C).
    cbn [hd] in IH. rewrite IH by (cbn [length] in *; lia).
    now rewrite filter_app, app_assoc.
Qed.

Lemma keeps_sound item :
  keeps effPrefix mimeTypes item = true ->
  truthy (name item) = true
  /\ (mimeTypes <> [] -> matchesMime mimeTypes item = true)
  /\ (truthy effPrefix = true -> name item = effPrefix ->
      contentType item <> folderObjectType).
Proof.
  unfold keeps.
  destruct (truthy effPrefix && str_eqb (name item) effPrefix
            && str_eqb (contentType item) folderObjectType) eqn:F; [discriminate |].
  destruct (truthy (name item)); cbn [negb]; [| discriminate].
  intros H. split; [reflexivity |]. split.
  - intros Hm. destruct mimeTypes; [congruence |]. exact H.
  - intros Hp Hn Hc. rewrite Hp, Hn, Hc, !str_eqb_refl in F. discriminate.
Qed.

End ListingFacts.

Lemma listGCSFiles_return fuel auth remote bucketName prefix mimeTypes requests files :
  Listing.listGCSFiles fuel auth remote bucketName prefix mimeTypes
    = (requests, Some (Return files)) ->
  (exists accessToken, auth = Return accessToken)
  /\ truthy bucketName = true
  /\ length requests <= fuel
  /\ hd_error requests = Some []
  /\ chained remote bucketName (Listing.effectivePrefix prefix) 0 requests
  /\ files
     = filter (Listing.keeps (Listing.effectivePrefix prefix) mimeTypes)
         (listed remote bucketName (Listing.effectivePrefix prefix) 0 requests).
Proof.
  unfold Listing.listGCSFiles.
  destruct auth as [tok | msg]; [| discriminate].
  destruct (truthy bucketName); cbn [negb]; [| discriminate].
  intros H. destruct (pages_requests _ _ _ _ _ _ _ _ H) as (rest & -> & L).
  destruct (pages_return _ _ _ _ _ _ _ _ H) as [C F].
  split; [now exists tok |]. split; [reflexivity |]. split; [exact L |].
  split; [reflexivity |]. split; [exact C | exact F].
Qed.

(** X20.  [listGCSFiles] returns a list exactly when the token of the
    service account was obtained, the bucket is named, and the requests it
    made form a chain of pages: the first without a page token, each next
    one with the token of the page before, the last page carrying none.
    The list is then the items of these pages, in the order of the pages,
    that pass the filter; it does not depend on the bound on the number of
    requests once the bound covers the chain. *)
Theorem X20_listing_is_the_filtered_pages_in_order :
  forall fuel auth remote bucketName prefix mimeTypes requests files,
    Listing.listGCSFiles fuel auth remote bucketName prefix mimeTypes
      = (requests, Some (Return files))
    <-> (exists accessToken, auth = Return accessToken)
        /\ truthy bucketName = true
        /\ length requests <= fuel
        /\ hd_error requests = Some []
        /\ chained remote bucketName (Listing.effectivePrefix prefix) 0 requests
        /\ files
           = filter (Listing.keeps (Listing.effectivePrefix prefix) mimeTypes)
               (listed remote bucketName (Listing.effectivePrefix prefix) 0 requests).
Proof.
  intros fuel auth remote b prefix m reqs files. split.
  - apply listGCSFiles_return.
  - unfold Listing.listGCSFiles.
    intros ([tok ->] & -> & L & Hh & C & ->). cbn [negb].
    destruct reqs as [| t rest]; [discriminate |]. injection Hh as ->.
    exact (pages_chained remote b (Listing.effectivePrefix prefix) m ([] :: rest)
             0 [] C L).
Qed.

(** X21.  Every item that [listGCSFiles] returns has a name; when types
    are asked for, the type of the item starts, letter case apart, with
    one of them; and the object that stands for the listed folder itself
    is left out.  The import, which lists transcripts/ for text/plain,
    therefore never meets an object without a name. *)
Theorem X21_listed_items_have_a_name_and_a_type_asked_for :
  forall fuel auth remote bucketName prefix mimeTypes requests files item rosterMap,
    Listing.listGCSFiles fuel auth remote bucketName prefix mimeTypes
      = (requests, Some (Return files)) ->
    In item files ->
    truthy (Listing.name item) = true
    /\ (mimeTypes <> [] ->
        exists type,
          In type mimeTypes
          /\ startsWith (toLowerCase type) (toLowerCase (Listing.contentType item))
             = true)
    /\ ~ (Listing.name item = Listing.effectivePrefix prefix
          /\ Listing.contentType item = Listing.folderObjectType)
    /\ Distribution.resolve rosterMap (Listing.name item) <> Distribution.NoName.
Proof.
  intros fuel auth remote b prefix m reqs files item rosterMap H Hin.
  apply listGCSFiles_return in H.
  destruct H as (_ & _ & _ & _ & _ & ->).
  apply filter_In in Hin as [_ K].
  destruct (keeps_sound _ _ _ K) as (Hn & Hm & Hf).
  split; [exact Hn |]. split; [| split].
  - intros Hne. specialize (Hm Hne). unfold Listing.matchesMime in Hm.
    apply existsb_exists in Hm as (type & Ht & Hs).
    apply andb_true_iff in Hs as [_ Hs]. now exists type.
  - intros (En & Ec). apply Hf; try assumption.
    rewrite <- En. exact Hn.
  - intros E. unfold Distribution.resolve in E. rewrite Hn in E. cbn [negb] in E.
    repeat match type of E with
           | (if ?c then _ else _) = _ => destruct c; try discriminate
           | match ?x with _ => _ end = _ => destruct x; try discriminate
           end.
Qed.

Lemma endsWith_snoc c s : endsWith [c] (s ++ [c]) = true.
Proof.
  unfold endsWith. rewrite rev_app_distr. cbn [rev app startsWith].
  now rewrite Ascii.eqb_refl.
Qed.

Lemma str_eqb_snoc_single a s c : str_eqb (a :: s ++ [c]) [c] = false.
Proof.
  apply str_eqb_neq. intros E. apply (f_equal (@length _)) in E.
  cbn [length] in E. rewrite length_app in E. cbn [length] in E. lia.
Qed.

Lemma effectivePrefix_slash prefix :
  truthy prefix = true -> endsWith (lit "/") prefix = false ->
  Listing.effectivePrefix prefix = prefix ++ lit "/".
Proof.
  intros T E. unfold Listing.effectivePrefix. rewrite T, E.
  destruct (str_eqb prefix (lit "/")) eqn:S; [| reflexivity].
  apply str_eqb_eq in S. subst prefix. discriminate.
Qed.

Lemma effectivePrefix_kept prefix :
  truthy prefix = true -> endsWith (lit "/") (prefix ++ lit "/") = true ->
  Listing.effectivePrefix (prefix ++ lit "/") = prefix ++ lit "/".
Proof.
  intros T E. unfold Listing.effectivePrefix. rewrite E. cbn [negb].
  rewrite andb_false_r. destruct prefix as [| a s]; [discriminate |].
  change (lit "/") with ["/"%char]. cbn [app]. now rewrite str_eqb_snoc_single.
Qed.

Lemma effectivePrefix_idempotent prefix :
  Listing.effectivePrefix (Listing.effectivePrefix prefix)
  = Listing.effectivePrefix prefix.
Proof.
  destruct (truthy prefix) eqn:T.
  - destruct (endsWith (lit "/") prefix) eqn:E.
    + assert (V : Listing.effectivePrefix prefix
                  = if str_eqb prefix (lit "/") then [] else prefix).
      { unfold Listing.effectivePrefix. rewrite T, E. cbn [negb].
        now rewrite andb_false_r. }
      destruct (str_eqb prefix (lit "/")) eqn:S; rewrite V; [reflexivity | exact V].
    + rewrite (effectivePrefix_slash _ T E).
      apply effectivePrefix_kept; [exact T |].
      change (lit "/") with ["/"%char]. apply endsWith_snoc.
  - destruct prefix; [reflexivity | discriminate].
Qed.

(** X22.  The prefix of a listing is normalised before it is sent: a
    prefix given without its final slash lists what the prefix with the
    slash lists, the prefix "/" lists what the empty prefix lists, and
    normalising twice changes nothing.  The prefix that is sent is empty
    or ends with a slash. *)
Theorem X22_prefix_is_normalised :
  forall fuel auth remote bucketName prefix mimeTypes,
    Listing.listGCSFiles fuel auth remote bucketName
      (Listing.effectivePrefix prefix) mimeTypes
    = Listing.listGCSFiles fuel auth remote bucketName prefix mimeTypes
    /\ (truthy prefix = true -> endsWith (lit "/") prefix = false ->
        Listing.listGCSFiles fuel auth remote bucketName prefix mimeTypes
        = Listing.listGCSFiles fuel auth remote bucketName (prefix ++ lit "/")
            mimeTypes)
    /\ Listing.listGCSFiles fuel auth remote bucketName (lit "/") mimeTypes
       = Listing.listGCSFiles fuel auth remote bucketName [] mimeTypes
    /\ (Listing.effectivePrefix prefix = []
        \/ endsWith (lit "/") (Listing.effectivePrefix prefix) = true).
Proof.
  intros fuel auth remote b prefix m. split; [| split; [| split]].
  - unfold Listing.listGCSFiles. now rewrite effectivePrefix_idempotent.
  - intros T E. unfold Listing.listGCSFiles.
    rewrite (effectivePrefix_slash _ T E), effectivePrefix_kept; [reflexivity | exact T |].
    change (lit "/") with ["/"%char]. apply endsWith_snoc.
  - reflexivity.
  - destruct (truthy prefix) eqn:T.
    + destruct (endsWith (lit "/") prefix) eqn:E.
      * unfold Listing.effectivePrefix. rewrite T, E. cbn [negb].
        rewrite andb_false_r.
        destruct (str_eqb prefix (lit "/")); [now left | now right].
      * right. rewrite (effectivePrefix_slash _ T E).
        change (lit "/") with ["/"%char]. apply endsWith_snoc.
    + left. destruct prefix; [reflexivity | discriminate].
Qed.

Lemma pages_throw remote bucketName effPrefix mimeTypes fuel :
  forall k pageToken allFiles requests message,
    Listing.pages fuel remote bucketName effPrefix mimeTypes k pageToken allFiles
      = (requests, Some (Throw message)) ->
    exists detail,
      message = lit "Exception listing GCS files: " ++ detail
      /\ requests <> []
      /\ is_page (remote (k + length requests - 1) bucketName effPrefix
                    (last requests [])) = false.
Proof.
  induction fuel as [| fuel IH]; intros k tok all reqs msg; cbn [Listing.pages];
    [discriminate |].
  destruct (remote k bucketName effPrefix tok) as [m | code ge | items next] eqn:R.
  - intros [= <- <-]. eexists. split; [reflexivity |]. split; [discriminate |].
    cbn [length last]. replace (k + 1 - 1) with k by lia. now rewrite R.
  - intros [= <- <-]. eexists. split; [reflexivity |]. split; [discriminate |].
    cbn [length last]. replace (k + 1 - 1) with k by lia. now rewrite R.
  - destruct (truthy next); [| discriminate].
    destruct (Listing.pages fuel remote bucketName effPrefix mimeTypes (S k) next _)
      as [reqs' res'] eqn:E.
    intros [= <- ->]. destruct (IH _ _ _ _ _ E) as (detail & -> & Hne & Hl).
    exists detail. split; [reflexivity |]. split; [discriminate |].
    destruct reqs' as [| r rs]; [congruence |].
    cbn [length] in *. change (last (tok :: r :: rs) []) with (last (r :: rs) []).
    replace (k + S (S (length rs)) - 1) with (S k + S (length rs) - 1) by lia.
    exact Hl.
Qed.

(** X23.  [listGCSFiles] fails in three ways only.  Without the token of
    the service account it makes no request and its error starts with
    "Auth failed in listGCSFiles: ", also when the bucket is not named;
    without a bucket name it makes no request either; otherwise the error
    starts with "Exception listing GCS files: " and the last request
    made was not answered by a page: the items of the pages read before
    are not returned. *)
Theorem X23_listing_fails_in_three_ways :
  forall fuel auth remote bucketName prefix mimeTypes requests message,
    Listing.listGCSFiles fuel auth remote bucketName prefix mimeTypes
      = (requests, Some (Throw message)) ->
    (exists authError,
        auth = Throw authError
        /\ message = lit "Auth failed in listGCSFiles: " ++ authError
        /\ requests = [])
    \/ (exists accessToken,
          auth = Return accessToken /\ bucketName = []
          /\ message = lit "Bucket name required." /\ requests = [])
    \/ (exists accessToken detail,
          auth = Return accessToken /\ truthy bucketName = true
          /\ message = lit "Exception listing GCS files: " ++ detail
          /\ requests <> []
          /\ is_page (remote (length requests - 1) bucketName
                        (Listing.effectivePrefix prefix) (last requests [])) = false).
Proof.
  intros fuel auth remote b prefix m reqs msg. unfold Listing.listGCSFiles.
  destruct auth as [tok | err].
  - destruct b as [| c b']; cbn [truthy negb].
    + intros [= <- <-]. right. left. now exists tok.
    + intros H. right. right. apply pages_throw in H.
      destruct H as (detail & -> & Hne & Hl). exists tok, detail.
      repeat split; assumption.
  - intros [= <- <-]. left. now exists err.
Qed.

(** X20 on a listing of two pages. *)
Lemma X20_listing_is_the_filtered_pages_in_order_witness :
  (exists accessToken, Return (lit "access-token") = Return accessToken)
  /\ truthy (lit "bucket") = true
  /\ length [[]; lit "page-2"] <= 5
  /\ hd_error [[]; lit "page-2"] = Some []
  /\ chained ListingCases.twoPages (lit "bucket")
       (Listing.effectivePrefix (lit "transcripts")) 0 [[]; lit "page-2"]
  /\ [ListingCases.firstTranscript; ListingCases.secondTranscript]
     = filter (Listing.keeps (Listing.effectivePrefix (lit "transcripts"))
                 [lit "text/plain"])
         (listed ListingCases.twoPages (lit "bucket")
            (Listing.effectivePrefix (lit "transcripts")) 0 [[]; lit "page-2"]).
Proof.
  apply (proj1 (X20_listing_is_the_filtered_pages_in_order 5
                  (Return (lit "access-token")) ListingCases.twoPages (lit "bucket")
                  (lit "transcripts") [lit "text/plain"] [[]; lit "page-2"]
                  [ListingCases.firstTranscript; ListingCases.secondTranscript])).
  vm_compute. reflexivity.
Defined.

(** X21 on the second page of that listing. *)
Lemma X21_listed_items_have_a_name_and_a_type_asked_for_witness :
  truthy (Listing.name ListingCases.secondTranscript) = true
  /\ ([lit "text/plain"] <> [] ->
      exists type,
        In type [lit "text/plain"]
        /\ startsWith (toLowerCase type)
             (toLowerCase (Listing.contentType ListingCases.secondTranscript)) = true)
  /\ ~ (Listing.name ListingCases.secondTranscript
        = Listing.effectivePrefix (lit "transcripts/")
        /\ Listing.contentType ListingCases.secondTranscript
           = Listing.folderObjectType)
  /\ Distribution.resolve Sample.rosterMap (Listing.name ListingCases.secondTranscript)
     <> Distribution.NoName.
Proof.
  apply (@X21_listed_items_have_a_name_and_a_type_asked_for 5
           (Return (lit "access-token")) ListingCases.twoPages (lit "bucket")
           (lit "transcripts/") [lit "text/plain"] [[]; lit "page-2"]
           [ListingCases.firstTranscript; ListingCases.secondTranscript]
           ListingCases.secondTranscript Sample.rosterMap).
  - vm_compute. reflexivity.
  - right. left. reflexivity.
Defined.

(** X22 on the prefix of the transcripts. *)
Lemma X22_prefix_is_normalised_witness :
  Listing.listGCSFiles 5 (Return (lit "access-token")) ListingCases.twoPages
    (lit "bucket") (lit "transcripts") [lit "text/plain"]
  = Listing.listGCSFiles 5 (Return (lit "access-token")) ListingCases.twoPages
      (lit "bucket") (lit "transcripts" ++ lit "/") [lit "text/plain"].
Proof.
  apply (proj1 (proj2 (X22_prefix_is_normalised 5 (Return (lit "access-token"))
                         ListingCases.twoPages (lit "bucket") (lit "transcripts")
                         [lit "text/plain"]))).
  - reflexivity.
  - vm_compute. reflexivity.
Defined.

(** X23 on a bucket that the service does not know. *)
Lemma X23_listing_fails_in_three_ways_witness :
  (exists authError,
      Return (lit "access-token") = Throw authError
      /\ lit "Exception listing GCS files: GCS list files failed (404): Not Found"
         = lit "Auth failed in listGCSFiles: " ++ authError
      /\ [@nil ascii] = [])
  \/ (exists accessToken,
        Return (lit "access-token") = Return accessToken /\ lit "other" = []
        /\ lit "Exception listing GCS files: GCS list files failed (404): Not Found"
           = lit "Bucket name required."
        /\ [@nil ascii] = [])
  \/ (exists accessToken detail,
        Return (lit "access-token") = Return accessToken
        /\ truthy (lit "other") = true
        /\ lit "Exception listing GCS files: GCS list files failed (404): Not Found"
           = lit "Exception listing GCS files: " ++ detail
        /\ [@nil ascii] <> []
        /\ is_page (ListingCases.twoPages (length [@nil ascii] - 1) (lit "other")
                      (Listing.effectivePrefix (lit "transcripts/")) (last [@nil ascii] []))
           = false).
Proof.
  apply (@X23_listing_fails_in_three_ways 5 (Return (lit "access-token"))
           ListingCases.twoPages (lit "other") (lit "transcripts/")
           [lit "text/plain"] [[]]
           (lit "Exception listing GCS files: GCS list files failed (404): Not Found")).
  vm_compute. reflexivity.
Defined.

(* ================================================================== *)
(** * Properties of the homework for the transcripts in Drive           *)
(* ================================================================== *)

Section CompletedScan.

Import Distribution Completed.

Variable env : Env.
Variables emailCol folderIdCol : nat.
Variable processed : list str.
Variable w : World.t.

Lemma NoDup_keys_new k (queued : jsmap (list str)) :
  NoDup (map fst queued) -> map_has k queued = false ->
  NoDup (map fst (map_set_new k [] queued)).
Proof.
  intros N H. unfold map_set_new. rewrite map_app. cbn [map fst].
  apply NoDup_snoc; [exact N | now apply map_has_keys].
Qed.

Lemma queue_folder_spec studentEmail names : forall queued,
  truthy studentEmail = true -> queue_ok queued ->
  queue_ok (queue_folder studentEmail names processed queued)
  /\ forall e,
       batch_of e (queue_folder studentEmail names processed queued)
       = batch_of e queued
         ++ (if str_eqb studentEmail e then filter (is_new processed) names else []).
Proof.
  intros queued T. revert queued.
  induction names as [| n rest IH]; intros queued Q; cbn [queue_folder filter].
  - split; [exact Q |]. intros e. destruct (str_eqb studentEmail e); now rewrite app_nil_r.
  - destruct (is_new processed n) eqn:Hn.
    + destruct Q as (N & Ne & Kt).
      destruct (map_has studentEmail queued) eqn:Hh; cbn [negb].
      * destruct (IH (map_push studentEmail n queued)) as [Q' B'].
        { split; [now rewrite map_push_keys |].
          split; [now apply push_nonempty | now apply keys_truthy_push]. }
        split; [exact Q' |]. intros e. rewrite B', batch_of_push, Hh, andb_true_r.
        destruct (str_eqb studentEmail e) eqn:E.
        -- apply str_eqb_eq in E. subst e. now rewrite <- app_assoc.
        -- reflexivity.
      * destruct (batch_of_new studentEmail queued studentEmail Hh) as [Bs Hh'].
        destruct (IH (map_push studentEmail n (map_set_new studentEmail [] queued)))
          as [Q' B'].
        { split; [rewrite map_push_keys; now apply NoDup_keys_new |].
          split; [now apply push_new_nonempty |].
          apply keys_truthy_push. unfold map_set_new. apply Forall_app.
          split; [exact Kt |]. constructor; [exact T | constructor]. }
        split; [exact Q' |]. intros e. rewrite B', batch_of_push, Hh', andb_true_r.
        destruct (batch_of_new studentEmail queued e Hh) as [Be _].
        destruct (str_eqb studentEmail e) eqn:E.
        -- apply str_eqb_eq in E. subst e. rewrite Bs. now rewrite <- app_assoc.
        -- exact (f_equal (fun l => l ++ []) Be).
    + apply IH. exact Q.
Qed.

Lemma scan_roster_spec rows : forall queued,
  queue_ok queued ->
  queue_ok (scan_roster env emailCol folderIdCol rows processed w queued)
  /\ forall e,
       batch_of e (scan_roster env emailCol folderIdCol rows processed w queued)
       = batch_of e queued
         ++ flat_map (offered env emailCol folderIdCol processed w e) rows.
Proof.
  induction rows as [| row rest IH]; intros queued Q; cbn [scan_roster flat_map].
  - split; [exact Q |]. intros e. now rewrite app_nil_r.
  - set (s := Roster.cell emailCol row). set (f := Roster.cell folderIdCol row).
    assert (Hstep : exists queued',
               (if negb (truthy s) || negb (truthy f) then queued
                else match folder_error env f with
                     | Some _ => queued
                     | None => queue_folder s (textFiles env f w) processed queued
                     end) = queued'
               /\ queue_ok queued'
               /\ forall e, batch_of e queued'
                            = batch_of e queued
                              ++ offered env emailCol folderIdCol processed w e row).
    { eexists. split; [reflexivity |]. unfold offered. fold s f.
      destruct (truthy s) eqn:Ts; cbn [negb orb].
      2:{ split; [exact Q |]. intros e.
          destruct (str_eqb s e) eqn:E; cbn [andb]; [| now rewrite app_nil_r].
          apply str_eqb_eq in E. subst e. rewrite Ts. cbn [andb].
          now rewrite app_nil_r. }
      destruct (truthy f) eqn:Tf; cbn [negb].
      2:{ split; [exact Q |]. intros e. rewrite andb_false_r. cbn [andb].
          now rewrite app_nil_r. }
      destruct (folder_error env f).
      { split; [exact Q |]. intros e. rewrite andb_false_r. now rewrite app_nil_r. }
      destruct (@queue_folder_spec s (textFiles env f w) queued Ts Q) as [Q' B'].
      split; [exact Q' |]. intros e. rewrite B'.
      destruct (str_eqb s e) eqn:E; cbn [andb]; [| reflexivity].
      apply str_eqb_eq in E. subst e. now rewrite Ts. }
    destruct Hstep as (queued' & -> & Q' & B').
    destruct (IH queued' Q') as [Q'' B'']. split; [exact Q'' |].
    intros e. now rewrite B'', B', <- app_assoc.
Qed.

End CompletedScan.

Lemma offered_new env emailCol folderIdCol processed w e row n :
  In n (offered env emailCol folderIdCol processed w e row) ->
  Completed.is_new processed n = true.
Proof.
  unfold offered. destruct (_ && _); [| intros []].
  intros H. now apply filter_In in H as [_ H].
Qed.

(** X24.  The scan of [processCompletedTranscripts] queues, for an
    address, the text files of the folders of the roster rows with that
    address, row after row, leaving out a row without address or folder or
    whose folder cannot be read, the files whose name starts with prompt_
    and the names already processed.  No address is queued twice and no
    queued batch is empty. *)
Theorem X24_scan_queues_the_new_text_files :
  forall env w queued,
    Completed.queued_of env w = Some queued ->
    exists rosterData header emailCol folderIdCol,
      Completed.rosterValues env = Some rosterData
      /\ Completed.ledgerHeader env = Some header
      /\ Roster.indexOf (lit "student_email") (Roster.headerLower rosterData)
         = Some emailCol
      /\ Roster.indexOf (lit "drive_folder_id") (Roster.headerLower rosterData)
         = Some folderIdCol
      /\ queue_ok queued
      /\ (forall e,
            batch_of e queued
            = flat_map (offered env emailCol folderIdCol
                          (Completed.processed_of header w) w e) (tl rosterData))
      /\ (forall e n,
            In n (batch_of e queued) ->
            startsWith (lit "prompt_") n = false
            /\ Discovery.set_has (Completed.processed_of header w) n = false).
Proof.
  intros env w queued. unfold Completed.queued_of.
  destruct (Completed.rosterValues env) as [rosterData |]; [| discriminate].
  destruct (Completed.ledgerHeader env) as [header |]; [| discriminate].
  destruct (Roster.indexOf (lit "student_name") _) as [nameCol |]; [| discriminate].
  destruct (Roster.indexOf (lit "drive_folder_id") _) as [folderIdCol |] eqn:Hf;
    [| discriminate].
  destruct (Roster.indexOf (lit "student_email") _) as [emailCol |] eqn:He;
    [| discriminate].
  intros [= <-].
  destruct (scan_roster_spec env emailCol folderIdCol
              (Completed.processed_of header w) w (tl rosterData) (queued := []))
    as [Q B].
  { split; [constructor | split; constructor]. }
  exists rosterData, header, emailCol, folderIdCol.
  do 2 (split; [reflexivity |]). split; [exact He |]. split; [exact Hf |].
  split; [exact Q |]. split; [exact B |].
  intros e n Hin. rewrite B in Hin. apply in_flat_map in Hin as (row & _ & Hin).
  apply offered_new in Hin. unfold Completed.is_new in Hin.
  apply andb_true_iff in Hin as [H1 H2].
  split; [now apply negb_true_iff in H2 | now apply negb_true_iff in H1].
Qed.

Lemma strip_prompt s :
  replace Completed.promptPrefixRegex [] (lit "prompt_" ++ s) = s.
Proof. reflexivity. Qed.

(** The name that an assignment marks: the name of the student with
    underscores, the date and the fragment of the first transcript when
    that one ends in the canonical way, and the first transcript itself
    otherwise. *)
Lemma marked_name_cases henv student firstTranscriptName :
  marked_name henv student firstTranscriptName
  = match Homework.transcriptMatch firstTranscriptName with
    | Some (d, frag) =>
        replace_all Parser.spacesRegex (lit "_") (Roster.Name student)
          ++ lit "_" ++ d ++ lit "_" ++ frag ++ lit ".txt"
    | None => firstTranscriptName
    end.
Proof.
  unfold marked_name, Homework.promptFileName_of.
  destruct (Homework.transcriptMatch firstTranscriptName) as [[d frag] |];
    apply strip_prompt.
Qed.

Lemma set_has_add x set n :
  Discovery.set_has (Completed.set_add x set) n
  = Discovery.set_has set n || str_eqb n x.
Proof.
  unfold Completed.set_add, Discovery.set_has.
  destruct (existsb (str_eqb x) set) eqn:H.
  - destruct (str_eqb n x) eqn:E; [| now rewrite orb_false_r].
    apply str_eqb_eq in E. subst n. now rewrite H.
  - rewrite existsb_app. cbn [existsb]. now rewrite orb_false_r.
Qed.

Lemma processed_has col w n rows : forall processed,
  Discovery.set_has (Completed.processedTranscripts col rows w processed) n
  = Discovery.set_has processed n
    || existsb (fun row =>
                  match Completed.getName_byId
                          (Roster.cell col (Completed.cells row)) w with
                  | Some promptFileName =>
                      str_eqb n (replace Completed.promptPrefixRegex [] promptFileName)
                  | None => false
                  end) rows.
Proof.
  induction rows as [| row rest IH]; intros processed;
    cbn [Completed.processedTranscripts existsb]; [now rewrite orb_false_r |].
  rewrite IH.
  destruct (Completed.getName_byId _ w) as [pn |]; [| reflexivity].
  now rewrite set_has_add, orb_assoc.
Qed.

Lemma find_none_fresh id (files : list DriveFile) :
  Forall (fun f => fileId f <> id) files ->
  find (fun f => str_eqb (fileId f) id) files = None.
Proof.
  induction 1 as [| f files Hf _ IH]; cbn [find]; [reflexivity |].
  apply str_eqb_neq in Hf. now rewrite Hf.
Qed.

Lemma find_app_file (p : DriveFile -> bool) a b :
  find p (a ++ b) = match find p a with Some f => Some f | None => find p b end.
Proof.
  induction a as [| x a IH]; cbn [app find]; [reflexivity |].
  now destruct (p x).
Qed.

Lemma trash_fresh id files :
  Forall (fun f => fileId f <> id) files -> map (trash_one id) files = files.
Proof.
  induction 1 as [| f files Hf _ IH]; cbn [map]; [reflexivity |].
  rewrite IH. unfold trash_one. apply str_eqb_neq in Hf. now rewrite Hf.
Qed.

Lemma trash_one_name id f : name (trash_one id f) = name f.
Proof. unfold trash_one. now destruct (str_eqb (fileId f) id). Qed.

Lemma trash_one_id id f : fileId (trash_one id f) = fileId f.
Proof. unfold trash_one. now destruct (str_eqb (fileId f) id). Qed.

(** What a call of [assignHomework] of [src/Code.js] makes of the Drive
    and of the ledger: it may trash files that carry the identifier of
    its prompt file, adds at most that file, and appends at most one row,
    which points to it. *)
Lemma assign_v9_step henv e names w res w' :
  Homework.assignHomework V9 henv e names w = (res, w') ->
  exists (trash : bool) created rows,
    drive w'
    = (if trash then map (trash_one (Homework.newFileId henv)) (drive w)
       else drive w) ++ created
    /\ ledger w' = ledger w ++ rows
    /\ Forall (fun r => PromptFileID r = Homework.newFileId henv) rows
    /\ (created = []
        \/ exists student file,
             created = [file]
             /\ Roster.rosterFindByEmail (Homework.roster henv) e = Some student
             /\ fileId file = Homework.newFileId henv
             /\ name file
                = Homework.promptFileName_of V9 henv student (hd [] names)).
Proof.
  unfold Homework.assignHomework.
  assert (Nothing : forall r, (r, w) = (res, w') ->
            exists (trash : bool) created rows,
              drive w'
              = (if trash then map (trash_one (Homework.newFileId henv)) (drive w)
                 else drive w) ++ created
              /\ ledger w' = ledger w ++ rows
              /\ Forall (fun r => PromptFileID r = Homework.newFileId henv) rows
              /\ (created = []
                  \/ exists student file,
                       created = [file]
                       /\ Roster.rosterFindByEmail (Homework.roster henv) e
                          = Some student
                       /\ fileId file = Homework.newFileId henv
                       /\ name file
                          = Homework.promptFileName_of V9 henv student (hd [] names))).
  { intros r [= _ <-]. exists false, [], []. rewrite !app_nil_r.
    repeat split; [constructor | now left]. }
  destruct names as [| first rest]; [apply Nothing |].
  destruct (truthy e); cbn [negb]; [| apply Nothing].
  destruct (Roster.rosterFindByEmail (Homework.roster henv) e) as [student |] eqn:Hf;
    [| cbn [Homework.log_v8]; apply Nothing].
  unfold Homework.saveHomeworkPrompt. rewrite Hf.
  destruct (truthy (Roster.Drive_Folder_ID student)); cbn [negb];
    [| apply Nothing].
  destruct (Homework.createFile_error henv);
    [cbn [Homework.log_v8]; apply Nothing |].
  set (file := {| fileId := Homework.newFileId henv;
                  folderId := Roster.Drive_Folder_ID student;
                  name := Homework.promptFileName_of V9 henv student first;
                  content := _; trashed := false |}).
  set (row := Homework.newRowData student _ _ _ _).
  assert (Hrow : PromptFileID row = Homework.newFileId henv) by reflexivity.
  assert (Hfile : forall f, (f = file \/ f = trash_one (Homework.newFileId henv) file) ->
            exists student0 file0,
              [f] = [file0]
              /\ Some student = Some student0
              /\ fileId file0 = Homework.newFileId henv
              /\ name file0
                 = Homework.promptFileName_of V9 henv student0 (hd [] (first :: rest))).
  { intros f [-> | ->]; exists student; eexists; (split; [reflexivity |]);
      (split; [reflexivity |]);
      rewrite ?trash_one_id, ?trash_one_name; split; reflexivity. }
  destruct (Homework.ledger_block V9 henv) as [| msg | msg].
  - assert (Ok : forall r w1, drive w1 = drive w ++ [file] ->
                   ledger w1 = ledger w ++ [row] ->
                   (r, w1) = (res, w') ->
                   exists (trash : bool) created rows,
                     drive w'
                     = (if trash
                        then map (trash_one (Homework.newFileId henv)) (drive w)
                        else drive w) ++ created
                     /\ ledger w' = ledger w ++ rows
                     /\ Forall (fun r => PromptFileID r = Homework.newFileId henv) rows
                     /\ (created = []
                         \/ exists student0 file0,
                              created = [file0]
                              /\ Some student = Some student0
                              /\ fileId file0 = Homework.newFileId henv
                              /\ name file0
                                 = Homework.promptFileName_of V9 henv student0
                                     (hd [] (first :: rest)))).
    { intros r w1 D L [= _ <-]. exists false, [file], [row].
      split; [exact D |]. split; [exact L |].
      split; [constructor; [exact Hrow | constructor] |].
      right. apply Hfile. now left. }
    destruct (truthy (Homework.HOMEWORK_PORTAL_BASEURL henv)); cbn [negb];
      [| apply Ok; reflexivity].
    destruct (Homework.sendEmail_error henv); apply Ok; reflexivity.
  - unfold Homework.compensate. intros [= _ <-].
    destruct (Homework.setTrashed_error henv); cbn [Homework.log_v8].
    + exists false, [file], []. rewrite app_nil_r.
      split; [reflexivity |]. split; [reflexivity |]. split; [constructor |].
      right. apply Hfile. now left.
    + exists true, [trash_one (Homework.newFileId henv) file], [].
      rewrite app_nil_r. cbn [set_trashed add_log add_file drive ledger].
      rewrite map_app. split; [reflexivity |]. split; [reflexivity |].
      split; [constructor |]. right. apply Hfile. now right.
  - unfold Homework.compensate. intros [= _ <-].
    destruct (Homework.setTrashed_error henv); cbn [Homework.log_v8].
    + exists false, [file], [row].
      split; [reflexivity |]. split; [reflexivity |].
      split; [constructor; [exact Hrow | constructor] |].
      right. apply Hfile. now left.
    + exists true, [trash_one (Homework.newFileId henv) file], [row].
      cbn [set_trashed add_log add_file add_row drive ledger].
      rewrite map_app. split; [reflexivity |]. split; [reflexivity |].
      split; [constructor; [exact Hrow | constructor] |].
      right. apply Hfile. now right.
Qed.

Section Marking.

Variable hw : str -> Homework.Env.
Variable w0 : World.t.

Lemma grown_refl (M : str -> Prop) : grown M w0 w0.
Proof.
  exists [], []. rewrite !app_nil_r. repeat split; constructor.
Qed.

Lemma grown_step (M : str -> Prop) e names w :
  fresh_id (Homework.newFileId (hw e)) w0 ->
  (forall student,
      Roster.rosterFindByEmail (Homework.roster (hw e)) e = Some student ->
      M (marked_name (hw e) student (hd [] names))) ->
  grown M w0 w ->
  grown M w0 (snd (Homework.assignHomework V9 (hw e) e names w)).
Proof.
  intros Hfresh Hm (created & rows & D & L & Fc & Fr).
  destruct (Homework.assignHomework V9 (hw e) e names w) as [res w'] eqn:Hcall.
  cbn [snd].
  destruct (assign_v9_step _ _ _ _ Hcall) as (trash & created' & rows' & D' & L' & Fr' & C).
  exists ((if trash then map (trash_one (Homework.newFileId (hw e))) created
           else created) ++ created'), (rows ++ rows').
  split; [| split; [| split]].
  - rewrite D', D. destruct trash; [| now rewrite app_assoc].
    rewrite map_app, (trash_fresh Hfresh). now rewrite app_assoc.
  - rewrite L', L. now rewrite app_assoc.
  - apply Forall_app. split.
    + destruct trash; [| exact Fc]. apply Forall_map.
      revert Fc. apply Forall_impl. intros f. now rewrite trash_one_name.
    + destruct C as [-> | (student & file & -> & Hl & _ & Hn)]; [constructor |].
      constructor; [| constructor]. rewrite Hn. apply Hm. exact Hl.
  - apply Forall_app. split; [exact Fr |].
    revert Fr'. apply Forall_impl. intros r ->. exact Hfresh.
Qed.

Lemma assign_each_grown queued : forall w,
  fresh_ids hw queued w0 ->
  grown (marked_by hw queued) w0 w ->
  grown (marked_by hw queued) w0 (Completed.assign_each hw queued w).
Proof.
  assert (G : forall batches w,
             (forall b, In b batches -> In b queued) ->
             fresh_ids hw queued w0 ->
             grown (marked_by hw queued) w0 w ->
             grown (marked_by hw queued) w0 (Completed.assign_each hw batches w)).
  { induction batches as [| [e names] rest IH]; intros w Sub Hf Hg;
      cbn [Completed.assign_each]; [exact Hg |].
    apply IH; [intros b Hb; apply Sub; now right | exact Hf |].
    apply grown_step; [| | exact Hg].
    - apply (Hf e names). apply Sub. now left.
    - intros student Hl. exists e, names, student.
      split; [apply Sub; now left | split; [exact Hl | reflexivity]]. }
  intros w. apply G. auto.
Qed.

End Marking.

(** The names that a run takes as processed in a world that has grown. *)
Lemma processed_grown (M : str -> Prop) header w0 w n :
  Roster.indexOf (lit "promptfileid") (map (fun h => trim (toLowerCase h)) header)
    = Some 4 ->
  grown M w0 w ->
  Discovery.set_has (Completed.processed_of header w) n = true ->
  Discovery.set_has (Completed.processed_of header w0) n = true \/ M n.
Proof.
  intros Hcol (created & rows & D & L & Fc & Fr).
  unfold Completed.processed_of. rewrite Hcol, !processed_has.
  cbn [Discovery.set_has existsb orb]. intros H.
  apply existsb_exists in H as (row & Hin & H).
  change (Roster.cell 4 (Completed.cells row)) with (PromptFileID row) in H.
  unfold Completed.getName_byId in H. rewrite D, find_app_file in H.
  assert (New : find (fun f => str_eqb (fileId f) (PromptFileID row)) (drive w0) = None ->
                M n).
  { intros E. rewrite E in H.
    destruct (find _ created) as [f |] eqn:F; [| discriminate].
    apply find_some in F as [Fin _]. apply str_eqb_eq in H. subst n.
    rewrite Forall_forall in Fc. now apply Fc. }
  rewrite L in Hin. apply in_app_or in Hin as [Hin | Hin].
  - destruct (find _ (drive w0)) as [f |] eqn:E; [| right; now apply New].
    left. apply existsb_exists. exists row. split; [exact Hin |].
    change (Roster.cell 4 (Completed.cells row)) with (PromptFileID row).
    unfold Completed.getName_byId. now rewrite E.
  - right. apply New. rewrite Forall_forall in Fr. apply find_none_fresh.
    exact (Fr row Hin).
Qed.

Lemma run_grown env w w' queued :
  Completed.processCompletedTranscripts env w = Return w' ->
  Completed.queued_of env w = Some queued ->
  fresh_ids (Completed.homeworkEnv env) queued w ->
  grown (marked_by (Completed.homeworkEnv env) queued) w w'.
Proof.
  unfold Completed.processCompletedTranscripts. intros H Hq Hf. rewrite Hq in H.
  destruct (truthy (Completed.STUDENT_ROSTER_ID env)); cbn [negb] in H.
  - destruct (Completed.openById_error env); [discriminate |].
    injection H as <-. apply assign_each_grown; [exact Hf | apply grown_refl].
  - injection H as <-. apply grown_refl.
Qed.

(** X25.  A run of [processCompletedTranscripts] marks at most one name
    per queued batch.  With a ledger whose fifth column is headed
    PromptFileID, and prompt files that get identifiers of their own, a
    name that the next run takes as processed was processed before the
    run, or it is the name marked by the assignment of a queued batch:
    the name of the student with underscores followed by the date and the
    fragment of the first transcript of the batch when that one ends in
    the canonical way, and the first transcript itself otherwise. *)
Theorem X25_a_run_marks_one_name_per_batch :
  forall env w w' header queued,
    Completed.processCompletedTranscripts env w = Return w' ->
    Completed.queued_of env w = Some queued ->
    Completed.ledgerHeader env = Some header ->
    Roster.indexOf (lit "promptfileid") (map (fun h => trim (toLowerCase h)) header)
      = Some 4 ->
    fresh_ids (Completed.homeworkEnv env) queued w ->
    forall n,
      Discovery.set_has (Completed.processed_of header w') n = true ->
      Discovery.set_has (Completed.processed_of header w) n = true
      \/ exists e names student,
           In (e, names) queued
           /\ Roster.rosterFindByEmail
                (Homework.roster (Completed.homeworkEnv env e)) e = Some student
           /\ n = match Homework.transcriptMatch (hd [] names) with
                  | Some (d, frag) =>
                      replace_all Parser.spacesRegex (lit "_") (Roster.Name student)
                        ++ lit "_" ++ d ++ lit "_" ++ frag ++ lit ".txt"
                  | None => hd [] names
                  end.
Proof.
  intros env w w' header queued Hrun Hq _ Hcol Hf n Hn.
  pose proof (@run_grown env w w' queued Hrun Hq Hf) as G.
  destruct (@processed_grown _ header w w' n Hcol G Hn) as [H | (e & names & student & Hin & Hl & ->)];
    [now left |].
  right. exists e, names, student. rewrite marked_name_cases. auto.
Qed.

Lemma textFiles_grown (M : str -> Prop) env env' folder w0 w n :
  (forall f, Completed.plainText env' f = Completed.plainText env f) ->
  grown M w0 w ->
  In n (Completed.textFiles env folder w0) ->
  In n (Completed.textFiles env' folder w).
Proof.
  intros Hp (created & rows & D & _). unfold Completed.textFiles.
  rewrite D, filter_app, map_app, in_app_iff. intros H. left.
  erewrite filter_ext; [exact H |]. intros f. cbn. now rewrite Hp.
Qed.

Lemma offered_grown (M : str -> Prop) env env' emailCol folderIdCol header w0 w e row n :
  Roster.indexOf (lit "promptfileid") (map (fun h => trim (toLowerCase h)) header)
    = Some 4 ->
  same_sources env env' ->
  grown M w0 w ->
  ~ M n ->
  In n (offered env emailCol folderIdCol (Completed.processed_of header w0) w0 e row) ->
  In n (offered env' emailCol folderIdCol (Completed.processed_of header w) w e row).
Proof.
  intros Hcol (_ & _ & Hfe & Hp) G Hn. unfold offered. rewrite Hfe.
  destruct (_ && _); [| intros []].
  rewrite !filter_In. intros [Hin Hnew]. split.
  - exact (@textFiles_grown M env env' _ w0 w n Hp G Hin).
  - unfold Completed.is_new in *. apply andb_true_iff in Hnew as [H1 H2].
    rewrite H2, andb_true_r. apply negb_true_iff.
    destruct (Discovery.set_has (Completed.processed_of header w) n) eqn:E;
      [| reflexivity].
    destruct (@processed_grown M header w0 w n Hcol G E) as [H | H].
    + rewrite H in H1. discriminate.
    + contradiction.
Qed.

(** X26.  What a run does not mark it queues again.  Take a run of
    [processCompletedTranscripts], with a ledger whose fifth column is
    headed PromptFileID and prompt files that get identifiers of their
    own, and a name of one of its batches that is not the name marked by
    the assignment of any batch.  A later run that reads the same roster
    and the same folders in the world that the first run has left queues
    that name again for the same address. *)
Theorem X26_unmarked_names_are_queued_again :
  forall env env' w w' header queued e n,
    Completed.processCompletedTranscripts env w = Return w' ->
    Completed.queued_of env w = Some queued ->
    Completed.ledgerHeader env = Some header ->
    Roster.indexOf (lit "promptfileid") (map (fun h => trim (toLowerCase h)) header)
      = Some 4 ->
    fresh_ids (Completed.homeworkEnv env) queued w ->
    same_sources env env' ->
    In n (batch_of e queued) ->
    ~ marked_by (Completed.homeworkEnv env) queued n ->
    exists queued',
      Completed.queued_of env' w' = Some queued'
      /\ In n (batch_of e queued').
Proof.
  intros env env' w w' header queued e n Hrun Hq Hh Hcol Hf Hs Hin Hn.
  pose proof (@run_grown env w w' queued Hrun Hq Hf) as G.
  pose proof Hs as (Hr & Hl & _).
  unfold Completed.queued_of in *. rewrite Hr, Hl. rewrite Hh in *.
  destruct (Completed.rosterValues env) as [rosterData |]; [| discriminate].
  destruct (Roster.indexOf (lit "student_name") _) as [nameCol |]; [| discriminate].
  destruct (Roster.indexOf (lit "drive_folder_id") _) as [folderIdCol |];
    [| discriminate].
  destruct (Roster.indexOf (lit "student_email") _) as [emailCol |];
    [| discriminate].
  injection Hq as <-. eexists. split; [reflexivity |].
  destruct (scan_roster_spec env emailCol folderIdCol
              (Completed.processed_of header w) w (tl rosterData) (queued := []))
    as [_ B]; [split; [constructor | split; constructor] |].
  destruct (scan_roster_spec env' emailCol folderIdCol
              (Completed.processed_of header w') w' (tl rosterData) (queued := []))
    as [_ B']; [split; [constructor | split; constructor] |].
  rewrite B in Hin. rewrite B'. cbn [batch_of Distribution.map_get app] in *.
  apply in_flat_map in Hin as (row & Hrow & Hin). apply in_flat_map.
  exists row. split; [exact Hrow |].
  exact (@offered_grown _ env env' emailCol folderIdCol header w w' e row n
           Hcol Hs G Hn Hin).
Qed.

(** X24 on a folder with two transcripts. *)
Lemma X24_scan_queues_the_new_text_files_witness :
  exists rosterData header emailCol folderIdCol,
    Completed.rosterValues CompletedCases.env = Some rosterData
    /\ Completed.ledgerHeader CompletedCases.env = Some header
    /\ Roster.indexOf (lit "student_email") (Roster.headerLower rosterData)
       = Some emailCol
    /\ Roster.indexOf (lit "drive_folder_id") (Roster.headerLower rosterData)
       = Some folderIdCol
    /\ queue_ok CompletedCases.queued
    /\ (forall e,
          batch_of e CompletedCases.queued
          = flat_map (offered CompletedCases.env emailCol folderIdCol
                        (Completed.processed_of header CompletedCases.twoTranscripts)
                        CompletedCases.twoTranscripts e) (tl rosterData))
    /\ (forall e n,
          In n (batch_of e CompletedCases.queued) ->
          startsWith (lit "prompt_") n = false
          /\ Discovery.set_has
               (Completed.processed_of header CompletedCases.twoTranscripts) n = false).
Proof.
  apply (@X24_scan_queues_the_new_text_files CompletedCases.env
           CompletedCases.twoTranscripts CompletedCases.queued).
  vm_compute. reflexivity.
Defined.

(** X25 on the run over that folder: the name that it marks. *)
Lemma X25_a_run_marks_one_name_per_batch_witness :
  Discovery.set_has
    (Completed.processed_of CompletedCases.ledgerHeader CompletedCases.twoTranscripts)
    (lit "jane_doe_2024-03-01_AbCdEfGhIj.txt") = true
  \/ exists e names student,
       In (e, names) CompletedCases.queued
       /\ Roster.rosterFindByEmail
            (Homework.roster (Completed.homeworkEnv CompletedCases.env e)) e
          = Some student
       /\ lit "jane_doe_2024-03-01_AbCdEfGhIj.txt"
          = match Homework.transcriptMatch (hd [] names) with
            | Some (d, frag) =>
                replace_all Parser.spacesRegex (lit "_") (Roster.Name student)
                  ++ lit "_" ++ d ++ lit "_" ++ frag ++ lit ".txt"
            | None => hd [] names
            end.
Proof.
  apply (@X25_a_run_marks_one_name_per_batch CompletedCases.env
           CompletedCases.twoTranscripts CompletedCases.afterRun
           CompletedCases.ledgerHeader CompletedCases.queued).
  - vm_compute. reflexivity.
  - vm_compute. reflexivity.
  - reflexivity.
  - vm_compute. reflexivity.
  - intros e names _. unfold fresh_id. repeat constructor; vm_compute; discriminate.
  - vm_compute. reflexivity.
Defined.

(** X26 on the same run: the second transcript is queued again. *)
Lemma X26_unmarked_names_are_queued_again_witness :
  exists queued',
    Completed.queued_of CompletedCases.env CompletedCases.afterRun = Some queued'
    /\ In (lit "Jane_Doe_2024-03-02_UvWxYz0123.txt")
          (batch_of (lit "jane@x.com") queued').
Proof.
  apply (@X26_unmarked_names_are_queued_again CompletedCases.env CompletedCases.env
           CompletedCases.twoTranscripts CompletedCases.afterRun
           CompletedCases.ledgerHeader CompletedCases.queued).
  - vm_compute. reflexivity.
  - vm_compute. reflexivity.
  - reflexivity.
  - vm_compute. reflexivity.
  - intros e names _. unfold fresh_id. repeat constructor; vm_compute; discriminate.
  - repeat split; reflexivity.
  - vm_compute. right. left. reflexivity.
  - intros (e & names & student & [H | []] & Hl & Hn).
    injection H as <- <-. vm_compute in Hl. injection Hl as <-.
    vm_compute in Hn. discriminate.
Defined.

Lemma transcriptMatch_tail x d f :
  date_at d = true -> length d = 10 ->
  length f = 10 -> forallb id_char f = true ->
  Homework.transcriptMatch (x ++ lit "_" ++ d ++ lit "_" ++ f ++ lit ".txt")
  = Some (d, f).
Proof.
  intros Hd Ld Lf Hf. unfold Homework.transcriptMatch, js_match, exec.
  change (anchored Homework.transcriptNameRegex) with false. cbv iota.
  rewrite (@search_from_end _ 26 x _ [] [(2, f); (1, d)]);
    [| reflexivity | reflexivity | now apply transcriptNameRegex_tail].
  cbn [cap Nat.eqb].
  destruct (date_head _ Hd) as (c & t & -> & _).
  destruct f as [| c' f']; [discriminate |]. reflexivity.
Qed.

Lemma transcriptMatch_short name :
  length name < 26 -> Homework.transcriptMatch name = None.
Proof.
  intros L. unfold Homework.transcriptMatch, js_match, exec.
  change (anchored Homework.transcriptNameRegex) with false. cbv iota.
  rewrite (@search_from_none (Regex.body Homework.transcriptNameRegex) 26 name);
    [reflexivity | reflexivity | reflexivity |].
  intros x t -> Lt. rewrite length_app in L. lia.
Qed.

(** X27.  Which batches mark their own first transcript.  When the first
    transcript of a batch ends in the canonical way, the name that its
    assignment marks is that transcript exactly when the name of the
    student in the roster, white space replaced by underscores, is what
    precedes the date in the name of the transcript, letter for letter; a
    first transcript of fewer than 26 characters is always marked. *)
Theorem X27_first_transcript_is_marked_when_the_roster_name_is_its_stem :
  forall henv student,
    (forall x d f,
        date_at d = true -> length d = 10 ->
        length f = 10 -> forallb id_char f = true ->
        marked_name henv student (x ++ lit "_" ++ d ++ lit "_" ++ f ++ lit ".txt")
        = x ++ lit "_" ++ d ++ lit "_" ++ f ++ lit ".txt"
        <-> replace_all Parser.spacesRegex (lit "_") (Roster.Name student) = x)
    /\ (forall name, length name < 26 -> marked_name henv student name = name).
Proof.
  intros henv student. split.
  - intros x d f Hd Ld Lf Hf.
    rewrite marked_name_cases, transcriptMatch_tail by assumption.
    split; [apply app_inv_tail | now intros ->].
  - intros name L. now rewrite marked_name_cases, transcriptMatch_short.
Qed.

(** X27 on the sample roster, whose name of Jane is in lower case. *)
Lemma X27_first_transcript_is_marked_when_the_roster_name_is_its_stem_witness :
  marked_name Sample.env_ok Sample.jane
    (lit "Jane_Doe" ++ lit "_" ++ lit "2024-03-01" ++ lit "_" ++ lit "AbCdEfGhIj"
       ++ lit ".txt")
  = lit "Jane_Doe" ++ lit "_" ++ lit "2024-03-01" ++ lit "_" ++ lit "AbCdEfGhIj"
      ++ lit ".txt"
  <-> replace_all Parser.spacesRegex (lit "_") (Roster.Name Sample.jane)
      = lit "Jane_Doe".
Proof.
  apply (proj1 (X27_first_transcript_is_marked_when_the_roster_name_is_its_stem
                  Sample.env_ok Sample.jane)); vm_compute; reflexivity.
Defined.

Lemma flat_map_none (A B : Type) (f : A -> list B) l :
  (forall x, In x l -> f x = []) -> flat_map f l = [].
Proof.
  induction l as [| x l IH]; cbn [flat_map]; [reflexivity |].
  intros H. rewrite (H x (or_introl eq_refl)), IH; [reflexivity |].
  intros y Hy. apply H. now right.
Qed.

Lemma nothing_queued queued :
  queue_ok queued -> (forall e, batch_of e queued = []) -> queued = [].
Proof.
  intros (_ & Ne & _) B. destruct queued as [| [e names] rest]; [reflexivity |].
  exfalso. specialize (B e). unfold batch_of in B. cbn [Distribution.map_get] in B.
  rewrite str_eqb_refl in B. apply Forall_inv in Ne. now apply Ne.
Qed.

(** X28.  A run that finds nothing new changes nothing.  When the
    spreadsheet opens and every text file of every folder that the roster
    names is a prompt file or bears a name already processed, the run of
    [processCompletedTranscripts] returns and leaves Drive, the ledger and
    the outbox as they are. *)
Theorem X28_nothing_new_nothing_done :
  forall env w rosterData header emailCol folderIdCol,
    Completed.openById_error env = None ->
    Completed.rosterValues env = Some rosterData ->
    Completed.ledgerHeader env = Some header ->
    Roster.indexOf (lit "student_email") (Roster.headerLower rosterData)
      = Some emailCol ->
    Roster.indexOf (lit "drive_folder_id") (Roster.headerLower rosterData)
      = Some folderIdCol ->
    (forall row n,
        In row (tl rosterData) ->
        In n (Completed.textFiles env (Roster.cell folderIdCol row) w) ->
        Completed.is_new (Completed.processed_of header w) n = false) ->
    Completed.processCompletedTranscripts env w = Return w.
Proof.
  intros env w rosterData header emailCol folderIdCol Ho Hr Hl He Hf Hall.
  unfold Completed.processCompletedTranscripts. rewrite Ho.
  destruct (truthy (Completed.STUDENT_ROSTER_ID env)); cbn [negb]; [| reflexivity].
  unfold Completed.queued_of. rewrite Hr, Hl, He, Hf.
  destruct (Roster.indexOf (lit "student_name") _) as [nameCol |]; [| reflexivity].
  destruct (scan_roster_spec env emailCol folderIdCol
              (Completed.processed_of header w) w (tl rosterData) (queued := []))
    as [Q B]; [split; [constructor | split; constructor] |].
  rewrite (nothing_queued Q); [reflexivity |].
  intros e. rewrite B. cbn [batch_of Distribution.map_get app].
  apply flat_map_none. intros row Hrow. unfold offered.
  destruct (_ && _); [| reflexivity].
  destruct (filter _ _) as [| n rest] eqn:F; [reflexivity |].
  assert (Hin : In n (filter (Completed.is_new (Completed.processed_of header w))
                        (Completed.textFiles env (Roster.cell folderIdCol row) w)))
    by (rewrite F; now left).
  apply filter_In in Hin as [Hin Hnew]. now rewrite (Hall row n Hrow Hin) in Hnew.
Qed.

(** X28 on the world of the sample after the second transcript has been
    marked as well. *)
Lemma X28_nothing_new_nothing_done_witness :
  Completed.processCompletedTranscripts CompletedCases.env CompletedCases.settledWorld
  = Return CompletedCases.settledWorld.
Proof.
  apply (@X28_nothing_new_nothing_done CompletedCases.env CompletedCases.settledWorld
           Sample.rosterValues CompletedCases.ledgerHeader 2 3);
    try reflexivity.
  intros row n Hrow Hin. vm_compute in Hrow.
  destruct Hrow as [<- | [<- | []]]; vm_compute in Hin;
    repeat (destruct Hin as [<- | Hin]; [vm_compute; reflexivity |]);
    destruct Hin.
Defined.

(** X29.  From the roster sheet to the folder of the student.  Take a
    recording that the parser reads as [(studentName, classDate)], the
    name without hyphen, and a data row of the roster with a name, a
    folder and an address whose key, the name in lower case with
    underscores as spaces and trimmed, is the name of the student in
    lower case, no earlier complete row having that key.  The import
    resolves the transcript of the renamed recording to the folder and
    the address of that row. *)
Theorem X29_roster_row_receives_the_transcripts_of_its_student :
  forall values nameCol folderIdCol emailCol rosterMap pre row post
         fileName studentName classDate fileId,
    Roster.indexOf (lit "student_name") (Roster.headerLower values) = Some nameCol ->
    Roster.indexOf (lit "drive_folder_id") (Roster.headerLower values) = Some folderIdCol ->
    Roster.indexOf (lit "student_email") (Roster.headerLower values) = Some emailCol ->
    Distribution.build_rosterMap values = Some rosterMap ->
    tl values = pre ++ row :: post ->
    row_complete nameCol folderIdCol emailCol row = true ->
    row_key nameCol row = toLowerCase studentName ->
    key_is_new nameCol folderIdCol emailCol (toLowerCase studentName) pre = true ->
    extractStudentInfoFromFilename fileName = Some (studentName, classDate) ->
    forallb (none_of (lit "-")) studentName = true ->
    length (substring_to 10 fileId) = 10 ->
    forallb id_char (substring_to 10 fileId) = true ->
    Distribution.resolve rosterMap
      (lit "transcripts/"
         ++ transcriptName studentName classDate (substring_to 10 fileId))
    = Distribution.Matched
        (transcriptName studentName classDate (substring_to 10 fileId))
        {| Distribution.folderId := trim (Roster.cell folderIdCol row);
           Distribution.originalName := trim (Roster.cell nameCol row);
           Distribution.email := trim (Roster.cell emailCol row) |}.
Proof.
  intros values nameCol folderIdCol emailCol rosterMap pre row post
    fileName n d id Hn Hf He Hmap Hrows Hc Hk Hnew Hp Hh Hl Hid.
  apply extract_shape in Hp as [Hclean Hd].
  rewrite resolve_canonical by assumption.
  assert (G : Distribution.map_get (toLowerCase n) rosterMap
              = Some (row_entry nameCol folderIdCol emailCol row)).
  { unfold Distribution.build_rosterMap in Hmap. rewrite Hn, Hf, He in Hmap.
    destruct (length values <? 2) eqn:L.
    - apply Nat.ltb_lt in L. apply (f_equal (@length _)) in Hrows.
      rewrite length_app in Hrows. cbn [length] in Hrows.
      destruct values as [| h t]; cbn [tl length] in *; lia.
    - injection Hmap as <-.
      destruct (fill_rosterMap_spec nameCol folderIdCol emailCol (tl values) []
                  (NoDup_nil _)) as [_ S].
      apply S. right. split; [reflexivity |].
      exists pre, row, post. auto. }
  rewrite G. unfold row_entry. cbn [Distribution.email].
  unfold row_complete in Hc. apply andb_true_iff in Hc as [_ Hc].
  now rewrite Hc.
Qed.

(** X29 on the recording of the example and the sample roster. *)
Lemma X29_roster_row_receives_the_transcripts_of_its_student_witness :
  Distribution.resolve Sample.rosterMap
    (lit "transcripts/"
       ++ transcriptName (lit "Jane Doe") (lit "2024-03-01")
            (substring_to 10 (lit "AbCdEfGhIjKLMNOP")))
  = Distribution.Matched
      (transcriptName (lit "Jane Doe") (lit "2024-03-01")
         (substring_to 10 (lit "AbCdEfGhIjKLMNOP")))
      {| Distribution.folderId := trim (lit "folder-jane");
         Distribution.originalName := trim (lit "jane doe");
         Distribution.email := trim (lit "jane@x.com") |}.
Proof.
  apply (@X29_roster_row_receives_the_transcripts_of_its_student
           Sample.rosterValues 0 3 2 Sample.rosterMap []
           [lit "jane doe"; lit "S-001"; lit "jane@x.com"; lit "folder-jane"]
           [[lit "Bob Roe"; lit "S-002"; lit "bob@x.com"; lit "folder-bob"]]
           (lit "Jane Doe - 2024-03-01 10:00:00 GMT.mp4")
           (lit "Jane Doe") (lit "2024-03-01") (lit "AbCdEfGhIjKLMNOP"));
    vm_compute; reflexivity.
Defined.
